(* ===== verification/_CoqProject ===== *)
-Q . S2P
Prelude.v
Io.v
Net.v
Target.v
AddrText.v
Ipv6Text.v
Message.v
BincodeStd.v
Heartbeat.v
HttpReader.v
Config.v
Lru.v
Handshake.v
StreamFlow.v
Codec.v
CodecTraces.v
EventBus.v
EventJson.v
Servers.v
TcpTunnel.v
TcpSessions.v
TcpPath.v
UdpTunnel.v
UdpEgress.v
UdpChannel.v
Server.v
ServerRun.v
ServerSessions.v
Client.v
ClientRun.v
ClientStage.v
ClientEndpoint.v
ClientTunnel.v
TunnelLife.v
TunnelUp.v
TunnelRecovers.v
Secrets.v
Cli.v
Stats.v
Android.v
