(* ===== verification/Prelude.v ===== *)
(** * rstun: TCP and UDP tunnelling over QUIC

    rstun connects a client and a server by QUIC connections and carries TCP
    streams and UDP datagrams over them.  A client logs in on the first stream of
    a connection with a password and the tunnel it wants ([src/src/client.rs],
    [src/src/server.rs], [src/src/tunnel_message.rs]); that stream then carries a
    heartbeat ([src/src/heartbeat.rs]).  An outbound tunnel has a listener on the
    client ([src/src/tcp/tcp_server.rs], [src/src/udp/udp_server.rs]) and connects
    from the server, an inbound tunnel the other way round.  The ingress opens a
    QUIC stream per TCP connection or UDP flow and writes the requested
    destination at its start ([src/src/tcp/tcp_tunnel.rs],
    [src/src/udp/udp_tunnel.rs], [src/src/util/stream_util.rs]); TCP data is
    relayed plainly or compressed with pairs of zstd streams that outlive a
    connection ([src/src/codec/]).

    ** The files

    - [Prelude] (this file): results, machine integers with their wrap-around,
      bytes, big- and little-endian numbers, hint databases.
    - [Io]: fallible stateful code as a small monad; a readable stream is a
      script of chunks, stalls and failures, a writable one keeps what was
      written and may run out of room.  [delivers r bs] says that a script
      delivers the bytes [bs] in chunks of any sizes, so theorems with it hold
      for every behaviour of the transport.
    - [Net], [AddrText], [Ipv6Text]: socket addresses, the data types of
      [lib.rs], and the text of addresses as Rust's standard library reads and
      prints it; reading inverts printing for every address.
    - [Target]: the destination written at the start of a stream
      ([StreamUtil::encode_tunnel_target] and the readers).
    - [Message], [BincodeStd]: the framing of [TunnelMessage], over a class
      [Bincode] with its laws, and an executable instance of it.
    - [Heartbeat]: [client_heartbeat] and [server_heartbeat].
    - [HttpReader]: [HttpMessageReader], over a class [Httparse].
    - [Config]: [ClientConfig::create], the mapping and SNI parsers, transport
      parameters, and the server's configuration of [bin/rstun.rs].
    - [Lru], [Handshake], [Codec], [CodecTraces]: the codec.  zstd is the class
      [Zstd]; what the code relies on (a decoder in step with an encoder returns
      what was written once it is flushed) is [ZstdLaws], with a toy instance that
      satisfies it.  Pairs are shared objects in a heap.
    - [StreamFlow]: [StreamUtil::start_flowing].
    - [EventBus], [EventJson]: [TunnelEventBus], and the JSON form of its events
      over a class [SerdeJson] (a concrete writer and reader satisfy it).
    - [Servers]: the two listeners.
    - [TcpTunnel], [TcpSessions], [TcpPath], [UdpTunnel], [UdpEgress],
      [UdpChannel]: the tunnels, the requests of a TCP tunnel over many
      connections, the way of a TCP connection and of a UDP flow from end to end,
      and the tasks of a UDP channel egress (one that receives and one that writes
      replies per stream, one router of replies) running side by side.
    - [Server], [ServerRun], [ServerSessions]: authentication, tunnel choice and
      clean-up; then certificates ([pem_util.rs], over a class [Pemfile]), binding,
      the daily reload, the accept loop, the heartbeat responder and the traffic
      sums; then the tasks of all connections of a server, its inbound listeners
      and the sweep of expired sessions running side by side.
    - [Client], [ClientRun], [ClientStage], [ClientEndpoint]: the client's
      decisions (names, verification, addresses, timeouts, statistics); its
      state, endpoint cache, login and an abstract life cycle; the clocks of the
      login's stages; sockets, their protector and endpoint migration.
    - [ClientTunnel], [TunnelLife]: [connect_and_serve] in full as a transition
      system over all tunnels of a client, its listeners, its event bus and
      [stop]; that it refines the life cycle of [ClientRun], and what it promises.
    - [TunnelUp], [TunnelRecovers]: a tunnel's task composed with the server's
      task for it, and the same task after its connection is lost.
    - [Secrets]: runs that differ in a password, and the [Debug] text of a
      server's configuration.
    - [Cli]: the arguments of [bin/rstun.rs] and the two programs.
    - [Stats]: byte counts and ratios as text, with the rounding of [f64], and
      the client's traffic report.
    - [Android]: the functions called from Java, over a heap whose cells know
      what was allocated in them.

    Definitions carry the source's names where the language allows it; a method
    of a type with several namesakes gets the type as a prefix ([lru_new],
    [tcp_bind]).  Every operation that changes state is a function from the state
    to the result and the new state; tasks that run side by side are step
    relations whose steps are sections between two acquisitions of a lock or two
    suspension points.  Where a step is coarser its definition says so: the login
    on either side, and the start of serving with its retried bind.

    ** What is proved

    - The wire formats: targets, control messages and datagrams survive any
      chunking (round trips), the decoders accept nothing else and respect the
      size limits.
    - Security: nobody gets a tunnel without the password and a refused login
      reveals nothing; an inbound tunnel of the server, with its listener, can
      always be wound up once its connection is closed; client and server agree about every login; the certificate
      is checked against the configured host whatever server name is presented.
      Nothing a client shows of itself depends on its password, and a server's
      password and dashboard credential are only ever compared with.
    - From end to end: a tunnelled TCP connection and a tunnelled UDP flow are as
      good as direct ones (destination and bytes, in both directions), also where
      a UDP flow leaves through a channel instead of a socket; a tunnel whose login
      the server can grant comes up on both sides, and one that lost its
      connection comes up again.
    - Transparency: the plain relay, a compressed stream and a whole compressed
      session deliver exactly the bytes that were sent, also between two clients
      that compress through a server that does not; the relay's two tasks
      cannot deadlock; the HTTP reader neither loses nor invents bytes and finds
      the same messages for every chunking.
    - Isolation and conservation: a codec pair belongs to one stream at a time,
      UDP flows and their replies do not mix, requests and events are not lost, a
      listener's receiver has one holder, traffic counters are conserved.
    - The two sides of the codec handshake agree on which pairs are reused.
    - The client's tunnels: their states are announced in a fixed order, once the
      client stops every task ends within a number of steps known beforehand, a
      login ends within a minute and within 100 ms of a stop, a dead peer's
      connection is closed, and migration never leaves the address family or
      the protection of the sockets.
    - Configuration: what is accepted is normalised; the tunnels written on a
      command line are the tunnels that are started, for IPv4 and IPv6; every
      outcome of starting a server; the daily reload serves the latest
      configuration that loaded; printed statistics are right to their last digit;
      a host without an IPv6 route asks and reaches only IPv4 addresses.
    - What is reported: events reach every listener in order, and their JSON form
      reads back as the event.
    - Behaviour that is not as intended is stated as theorems too: see
      [codec_eviction_desync], [io_error_leaks_into_next_stream],
      [stop_misses_late_connection], [late_writer_unhooks_new_stream],
      [unencodable_request_blocks], [failed_take_disables_holder],
      [http_blank_prefix_buffers_all], [udp_receiver_lost_on_reconnect],
      [cut_session_loses_request], [unanswered_login_keeps_listener],
      [native_handles_confused], [reload_spec] and others.

    ** Fuel and bounds

    Loops that read a stream take fuel; the entry points ([run_flow],
    [run_encoder], [run_decoder], [read_message], [process_channel_io]) supply one
    more than [reader_size], the number of bytes and events of the script, and
    every iteration consumes at least one of them, so the loops end: the theorems
    state results, not only conditional correctness.  Loops that wait for outside
    decisions (heartbeats, serving, reloads, migration) run over a list of those
    decisions.  Numbers are printed with 40 digits of fuel, enough for a [u128].
    The termination of a stopping client needs no fuel: a weight of its tasks
    decreases with every step they take.

    ** Not modelled

    QUIC, TLS and DNS themselves, sockets and the operating system are inputs of
    the model, as are the libraries for certificates, PEM files, zstd, HTTP
    headers and JSON texts.  Locks are never poisoned: no task panics while it
    holds one.  Left out are most log lines, the splitting of the
    command line by clap, the quoting of strings in [Debug] texts (a parameter),
    the [Debug] instances of the codec, the installation of the platform's
    certificate verifier on Android, and the tests.  [nativeCreate] does not pass
    all arguments its callee takes; the missing ones are parameters of the model. *)
From Stdlib Require Import ZArith Lia.
From stdpp Require Export base gmap list strings numbers.

#[global] Open Scope Z_scope.

Declare Scope rstun_scope.
Delimit Scope rstun_scope with rstun.

(** * Results

    [anyhow::Result<A>], [io::Result<A>] and [Result<A, TransferError>] are all
    [result E A] for some error type [E].  [Ok]/[Err] are Rust's constructors. *)
Inductive result (E A : Type) : Type :=
| Ok (a : A)
| Err (e : E).
Arguments Ok {E A} a.
Arguments Err {E A} e.

#[export] Instance result_ret (E : Type) : MRet (result E) := λ A a, Ok a.
#[export] Instance result_bind (E : Type) : MBind (result E) := λ A B f m,
  match m with Ok a => f a | Err e => Err e end.
#[export] Instance result_fmap (E : Type) : FMap (result E) := λ A B f m,
  match m with Ok a => Ok (f a) | Err e => Err e end.

Definition is_ok {E A} (r : result E A) : bool :=
  match r with Ok _ => true | Err _ => false end.

Definition map_err {E F A} (f : E → F) (r : result E A) : result F A :=
  match r with Ok a => Ok a | Err e => Err (f e) end.

(** [Option::ok_or]. *)
Definition ok_or {E A} (e : E) (o : option A) : result E A :=
  match o with Some a => Ok a | None => Err e end.

#[export] Instance result_eq_dec {E A} `{!EqDecision E, !EqDecision A} :
  EqDecision (result E A).
Proof. solve_decision. Defined.

(** * Machine integers

    A value of type [uN] is a [Z] in [[0, 2^N)]; the operations the source
    uses are written out with their wrap-around or saturation. *)
Definition in_u (w : Z) (z : Z) : Prop := 0 <= z < 2 ^ w.

Definition wrap (w : Z) (z : Z) : Z := z mod 2 ^ w.

Definition umax (w : Z) : Z := 2 ^ w - 1.

Definition saturating_mul (w a b : Z) : Z := Z.min (a * b) (umax w).
Definition saturating_sub (a b : Z) : Z := Z.max (a - b) 0.
Definition wrapping_add (w a b : Z) : Z := wrap w (a + b).

#[export] Instance in_u_dec w z : Decision (in_u w z).
Proof. unfold in_u; apply _. Defined.

Lemma wrap_small w z : in_u w z → wrap w z = z.
Proof. intros ?. by apply Z.mod_small. Qed.

Lemma wrap_in_u w z : 0 <= w → in_u w (wrap w z).
Proof. intros ?. apply Z.mod_pos_bound. lia. Qed.

(** * Byte strings

    [Vec<u8>] and [&[u8]] are lists of [Z]; [bytes_ok] says that each element
    is a byte.  A Rust [String] is a Rocq [string], whose 8-bit characters are
    the bytes of its UTF-8 encoding. *)
Definition bytes_ok (bs : list Z) : Prop := Forall (in_u 8) bs.

#[export] Instance bytes_ok_dec bs : Decision (bytes_ok bs).
Proof. unfold bytes_ok; apply _. Defined.

Lemma bytes_ok_app a b : bytes_ok (a ++ b) → bytes_ok a ∧ bytes_ok b.
Proof. apply Forall_app. Qed.

Lemma bytes_ok_cons b bs : bytes_ok (b :: bs) → in_u 8 b ∧ bytes_ok bs.
Proof. by inversion 1. Qed.

Definition byte_of_ascii (c : Ascii.ascii) : Z := Z.of_N (Ascii.N_of_ascii c).
Definition ascii_of_byte (b : Z) : Ascii.ascii := Ascii.ascii_of_N (Z.to_N b).

Fixpoint as_bytes (s : string) : list Z :=
  match s with
  | EmptyString => []
  | String c s' => byte_of_ascii c :: as_bytes s'
  end.

Fixpoint string_of_bytes (bs : list Z) : string :=
  match bs with
  | [] => EmptyString
  | b :: bs' => String (ascii_of_byte b) (string_of_bytes bs')
  end.

Lemma byte_of_ascii_range c : in_u 8 (byte_of_ascii c).
Proof. unfold in_u, byte_of_ascii. pose proof (Ascii.N_ascii_bounded c). lia. Qed.

Lemma ascii_of_byte_of_ascii c : ascii_of_byte (byte_of_ascii c) = c.
Proof.
  unfold ascii_of_byte, byte_of_ascii. rewrite N2Z.id. apply Ascii.ascii_N_embedding.
Qed.

Lemma byte_of_ascii_of_byte b : in_u 8 b → byte_of_ascii (ascii_of_byte b) = b.
Proof.
  unfold in_u, ascii_of_byte, byte_of_ascii. intros ?.
  rewrite Ascii.N_ascii_embedding; lia.
Qed.

Lemma as_bytes_ok s : bytes_ok (as_bytes s).
Proof.
  unfold bytes_ok.
  induction s as [|c s IH]; simpl; constructor; auto using byte_of_ascii_range.
Qed.

Lemma string_of_as_bytes s : string_of_bytes (as_bytes s) = s.
Proof. induction s as [|c s IH]; simpl; [done|]. by rewrite ascii_of_byte_of_ascii, IH. Qed.

Lemma as_string_of_bytes bs : bytes_ok bs → as_bytes (string_of_bytes bs) = bs.
Proof.
  induction 1 as [|b bs Hb _ IH]; simpl; [done|].
  by rewrite byte_of_ascii_of_byte, IH.
Qed.

Lemma as_bytes_inj s1 s2 : as_bytes s1 = as_bytes s2 → s1 = s2.
Proof. intros H. by rewrite <-(string_of_as_bytes s1), H, string_of_as_bytes. Qed.

(** ** Big-endian integers

    [to_be_bytes]/[from_be_bytes] of every width are one pair of functions on
    the number of bytes. *)
Fixpoint to_le_bytes (n : nat) (z : Z) : list Z :=
  match n with
  | O => []
  | S n => z mod 256 :: to_le_bytes n (z / 256)
  end.

Fixpoint from_le_bytes (bs : list Z) : Z :=
  match bs with
  | [] => 0
  | b :: bs => b + 256 * from_le_bytes bs
  end.

Definition to_be_bytes (n : nat) (z : Z) : list Z := reverse (to_le_bytes n z).
Definition from_be_bytes (bs : list Z) : Z := from_le_bytes (reverse bs).

Lemma length_to_le_bytes n z : length (to_le_bytes n z) = n.
Proof. revert z. induction n; intros; simpl; auto. Qed.

Lemma to_le_bytes_ok n z : bytes_ok (to_le_bytes n z).
Proof.
  unfold bytes_ok. revert z. induction n; intros; simpl; constructor; auto.
  unfold in_u. apply Z.mod_pos_bound. lia.
Qed.

Lemma pow_byte_S n : 2 ^ (8 * Z.of_nat (S n)) = 256 * 2 ^ (8 * Z.of_nat n).
Proof.
  rewrite Nat2Z.inj_succ, Z.mul_succ_r, Z.add_comm, Z.pow_add_r by lia. done.
Qed.

Lemma from_to_le_bytes n z : in_u (8 * Z.of_nat n) z → from_le_bytes (to_le_bytes n z) = z.
Proof.
  revert z. induction n as [|n IH]; intros z Hz.
  - unfold in_u in Hz. simpl in *. lia.
  - unfold in_u in Hz. rewrite pow_byte_S in Hz. cbn [to_le_bytes from_le_bytes].
    rewrite IH.
    + pose proof (Z.div_mod z 256). lia.
    + split; [apply Z.div_pos; lia|]. apply Z.div_lt_upper_bound; lia.
Qed.

Lemma from_le_bytes_range bs :
  bytes_ok bs → in_u (8 * Z.of_nat (length bs)) (from_le_bytes bs).
Proof.
  induction 1 as [|b bs Hb _ IH]; [split; simpl; lia|].
  cbn [length from_le_bytes]. unfold in_u in *. rewrite pow_byte_S.
  change (2 ^ 8) with 256 in Hb. lia.
Qed.

Lemma to_from_le_bytes bs :
  bytes_ok bs → to_le_bytes (length bs) (from_le_bytes bs) = bs.
Proof.
  induction 1 as [|b bs Hb _ IH]; simpl; [done|].
  unfold in_u in Hb. change (2 ^ 8) with 256 in Hb.
  replace ((b + 256 * from_le_bytes bs) mod 256) with b
    by (rewrite (Z.mul_comm 256), Z.mod_add by lia; by rewrite Z.mod_small).
  replace ((b + 256 * from_le_bytes bs) / 256) with (from_le_bytes bs)
    by (rewrite (Z.mul_comm 256), Z.div_add by lia; rewrite Z.div_small by lia; lia).
  by rewrite IH.
Qed.

Lemma length_to_be_bytes n z : length (to_be_bytes n z) = n.
Proof. unfold to_be_bytes. by rewrite length_reverse, length_to_le_bytes. Qed.

Lemma to_be_bytes_ok n z : bytes_ok (to_be_bytes n z).
Proof. unfold to_be_bytes, bytes_ok. apply Forall_reverse, to_le_bytes_ok. Qed.

Lemma from_to_be_bytes n z :
  in_u (8 * Z.of_nat n) z → from_be_bytes (to_be_bytes n z) = z.
Proof. intros. unfold from_be_bytes, to_be_bytes. by rewrite reverse_involutive, from_to_le_bytes. Qed.

Lemma from_be_bytes_range bs :
  bytes_ok bs → in_u (8 * Z.of_nat (length bs)) (from_be_bytes bs).
Proof.
  intros. unfold from_be_bytes. rewrite <-(length_reverse bs).
  by apply from_le_bytes_range, Forall_reverse.
Qed.

Lemma to_from_be_bytes bs :
  bytes_ok bs → to_be_bytes (length bs) (from_be_bytes bs) = bs.
Proof.
  intros. unfold to_be_bytes, from_be_bytes.
  rewrite <-(length_reverse bs), to_from_le_bytes by by apply Forall_reverse.
  apply reverse_involutive.
Qed.

Arguments to_le_bytes : simpl never.
Arguments to_be_bytes : simpl never.
Arguments from_be_bytes : simpl never.

(** * Lists *)
Lemma take_drop_app {A} (n : nat) (l k : list A) :
  length l = n → take n (l ++ k) = l ∧ drop n (l ++ k) = k.
Proof. intros <-. by rewrite take_app_length, drop_app_length. Qed.

Lemma filter_ext_elem {A} (P Q : A → Prop) `{∀ x, Decision (P x), ∀ x, Decision (Q x)} (l : list A) :
  (∀ x, x ∈ l → P x ↔ Q x) → filter P l = filter Q l.
Proof.
  induction l as [|a l IH]; intros Hpq; [done|]. rewrite !filter_cons.
  rewrite IH by (intros x Hx; apply Hpq; rewrite elem_of_cons; auto).
  destruct (decide (P a)), (decide (Q a)); try done; exfalso;
    (destruct (Hpq a); [rewrite elem_of_cons; auto|tauto]).
Qed.

(** * Automation

    [rstun] collects the facts that close the side conditions about widths
    and lengths; [len] normalises lengths. *)
Create HintDb rstun.
Create Rewrite HintDb len.
#[export] Hint Resolve as_bytes_ok to_be_bytes_ok wrap_in_u : rstun.
#[export] Hint Rewrite length_to_be_bytes length_to_le_bytes @length_app
  @length_take @length_drop @length_cons @length_nil : len.

Ltac len := autorewrite with len in *; try lia.

(** Case analysis on the scrutinee of a [match] in the goal. *)
Ltac case_goal :=
  match goal with
  | |- context [match ?x with _ => _ end] => destruct x eqn:?
  end.

(** Case analysis on the scrutinee of a [match] in a hypothesis. *)
Ltac case_hyp H :=
  match type of H with
  | context [match ?x with _ => _ end] => destruct x eqn:?
  end.
