(* ===== verification/Io.v ===== *)
(** Byte streams as the source sees them through [tokio::io]: a reader is the
    script of what the transport will deliver, a writer is what it has accepted
    so far together with how much more it will accept.  Every loop of the
    development reads and writes through the operations of this file.

    - [read_event]: a chunk of bytes, a transport error, or a stall (no byte
      arrives before the deadline of a pending timed operation).  The end of
      the script is the clean end of the stream.
    - [read]/[read_exact]: [AsyncReadExt::read] and [AsyncReadExt::read_exact],
      the latter with or without an enclosing [tokio::time::timeout].
    - [write_all]: [AsyncWriteExt::write_all]; a failing write may have emitted
      a prefix. *)
From S2P Require Import Prelude.

(** * A state and error monad

    Code that threads a stream (or another piece of state) and returns early
    with [?] is written in [eff S E]. *)
Definition eff (S E A : Type) : Type := S → result E A * S.

#[export] Instance eff_ret (S E : Type) : MRet (eff S E) := λ A a s, (Ok a, s).
#[export] Instance eff_bind (S E : Type) : MBind (eff S E) := λ A B f m s,
  match m s with
  | (Ok a, s') => f a s'
  | (Err e, s') => (Err e, s')
  end.

(** Return early: [bail!], or [?] on a known error. *)
Definition throw {S E A} (e : E) : eff S E A := λ s, (Err e, s).

(** [?] on a value that does not touch the state. *)
Definition lift {S E A} (r : result E A) : eff S E A := λ s, (r, s).

(** [map_err]. *)
Definition eff_map_err {S E F A} (f : E → F) (m : eff S E A) : eff S F A := λ s,
  let (r, s') := m s in (map_err f r, s').

Lemma eff_bind_ok {S E A B} (m : eff S E A) (f : A → eff S E B) s a s' :
  m s = (Ok a, s') → (m ≫= f) s = f a s'.
Proof. unfold mbind, eff_bind. by intros ->. Qed.

Lemma eff_bind_err {S E A B} (m : eff S E A) (f : A → eff S E B) s e s' :
  m s = (Err e, s') → (m ≫= f) s = (Err e, s').
Proof. unfold mbind, eff_bind. by intros ->. Qed.

(** * Readers *)
Inductive read_event : Type :=
| Chunk (bs : list Z)
| IoFail
| Stall.

Abbreviation reader := (list read_event).

Inductive io_error : Type := UnexpectedEof | TransportError | Elapsed.

#[export] Instance io_error_eq_dec : EqDecision io_error.
Proof. solve_decision. Defined.

(** Outcome of one [read(&mut buf)] under a timeout: [Ok(Ok(0))],
    [Ok(Ok(n))], [Ok(Err(_))] and [Err(Elapsed)]. *)
Inductive read_result : Type :=
| REof
| RData (bs : list Z)
| RFail
| RElapsed.

(** Put the unread part of a chunk back in front of the script. *)
Definition push_back (bs : list Z) (r : reader) : reader :=
  match bs with [] => r | _ => Chunk bs :: r end.

(** [timeout(d, reader.read(&mut buf))] with a buffer of [n] bytes. *)
Fixpoint read (n : nat) (r : reader) : read_result * reader :=
  match r with
  | [] => (REof, [])
  | Chunk [] :: r' => read n r'
  | Chunk bs :: r' => (RData (take n bs), push_back (drop n bs) r')
  | IoFail :: r' => (RFail, r')
  | Stall :: r' => (RElapsed, r')
  end.

(** [read_exact] of [n] bytes; [timed] says whether it runs under a timeout.
    Without one, a stall is only waited out. *)
Fixpoint read_exact (timed : bool) (n : nat) (r : reader) {struct r} :
  result io_error (list Z) * reader :=
  if decide (n = 0%nat) then (Ok [], r) else
  match r with
  | [] => (Err UnexpectedEof, [])
  | Chunk bs :: r' =>
      if (n <=? length bs)%nat then (Ok (take n bs), push_back (drop n bs) r')
      else match read_exact timed (n - length bs) r' with
           | (Ok rest, r'') => (Ok (bs ++ rest), r'')
           | (Err e, r'') => (Err e, r'')
           end
  | IoFail :: r' => (Err TransportError, r')
  | Stall :: r' => if timed then (Err Elapsed, r') else read_exact timed n r'
  end.

(** [read_u8], [read_u16] and [read_u32] of [AsyncReadExt] (big-endian). *)
Definition read_uint (timed : bool) (n : nat) : eff reader io_error Z :=
  bs ← read_exact timed n; mret (from_be_bytes bs).

(** ** What a script delivers

    [delivers r bs]: the script consists of chunks only (of any sizes) and
    they carry exactly [bs]. *)
Fixpoint delivers (r : reader) (bs : list Z) : Prop :=
  match r with
  | [] => bs = []
  | Chunk c :: r' => ∃ bs', bs = c ++ bs' ∧ delivers r' bs'
  | _ :: _ => False
  end.

(** Any split of [bs] into chunks delivers [bs]. *)
Lemma delivers_chunks (cs : list (list Z)) : delivers (Chunk <$> cs) (mjoin cs).
Proof. induction cs as [|c cs IH]; simpl; eauto. Qed.

Lemma delivers_app r bs r' bs' : delivers r bs → delivers r' bs' → delivers (r ++ r') (bs ++ bs').
Proof.
  revert bs. induction r as [|[c| |] r IH]; simpl; intros bs; [by intros ->| |done..].
  intros (bs1 & -> & Hr) Hr'. exists (bs1 ++ bs'). by rewrite app_assoc; auto.
Qed.

Lemma delivers_push_back b r bs : delivers r bs → delivers (push_back b r) (b ++ bs).
Proof. destruct b; simpl; eauto. Qed.

Lemma delivers_inj r bs1 bs2 : delivers r bs1 → delivers r bs2 → bs1 = bs2.
Proof.
  revert bs1 bs2. induction r as [|[c| |] r IH]; simpl; intros bs1 bs2; [congruence| |done..].
  intros (b1 & -> & H1) (b2 & -> & H2). by rewrite (IH _ _ H1 H2).
Qed.

(** [read_exact] returns the first [n] bytes whatever the chunking, and leaves
    a script that delivers the rest. *)
Lemma read_exact_delivers timed n r bs rest :
  delivers r (bs ++ rest) → length bs = n →
  ∃ r', read_exact timed n r = (Ok bs, r') ∧ delivers r' rest.
Proof.
  revert n bs. induction r as [|[c| |] r IH]; intros n bs Hd Hn; simpl in Hd; [| |done..].
  - apply app_eq_nil in Hd as [-> ->]. subst n. by exists [].
  - destruct Hd as (bs' & Heq & Hd). simpl.
    destruct (decide (n = 0%nat)) as [->|Hn0].
    { apply nil_length_inv in Hn as ->. exists (Chunk c :: r). simpl in *. eauto. }
    destruct (Nat.leb_spec n (length c)).
    + assert (bs = take n c ∧ rest = drop n c ++ bs') as [-> ->].
      { rewrite <-(take_drop n c), <-app_assoc in Heq.
        apply app_inj_1 in Heq; [done|]. rewrite length_take. lia. }
      exists (push_back (drop n c) r). split; [done|]. by apply delivers_push_back.
    + assert (bs = c ++ drop (length c) bs ∧ bs' = drop (length c) bs ++ rest) as [Hbs ->].
      { rewrite <-(take_drop (length c) bs), <-app_assoc in Heq.
        apply app_inj_1 in Heq; [|rewrite length_take; lia]. destruct Heq as [Hc <-].
        split; [|done]. by rewrite <-Hc at 1; rewrite take_drop. }
      destruct (IH (n - length c)%nat (drop (length c) bs)) as (r' & Hr & Hd'); [done| |].
      { rewrite length_drop. lia. }
      exists r'. rewrite Hr. split; [|done]. by rewrite <-Hbs.
Qed.

(** A script that ends (cleanly) before [n] bytes makes [read_exact] fail. *)
Lemma read_exact_short timed n r bs :
  delivers r bs → (length bs < n)%nat → read_exact timed n r = (Err UnexpectedEof, []).
Proof.
  revert n bs. induction r as [|[c| |] r IH]; intros n bs Hd Hn; simpl in Hd; [| |done..].
  - subst bs. simpl in Hn. simpl. by destruct (decide (n = 0%nat)); [lia|].
  - destruct Hd as (bs' & -> & Hd). rewrite length_app in Hn. simpl.
    destruct (decide (n = 0%nat)); [lia|].
    destruct (Nat.leb_spec n (length c)); [lia|].
    rewrite (IH _ bs'); [done..|lia].
Qed.

(** A stall before the [n]-th byte ends a timed [read_exact]. *)
Lemma read_exact_stall n r bs r' :
  delivers r bs → (length bs < n)%nat → read_exact true n (r ++ Stall :: r') = (Err Elapsed, r').
Proof.
  revert n bs. induction r as [|[c| |] r IH]; intros n bs Hd Hn; simpl in Hd; [| |done..].
  - subst bs. simpl in Hn. simpl. by destruct (decide (n = 0%nat)); [lia|].
  - destruct Hd as (bs' & -> & Hd). rewrite length_app in Hn. simpl.
    destruct (decide (n = 0%nat)); [lia|].
    destruct (Nat.leb_spec n (length c)); [lia|].
    rewrite (IH _ bs'); [done..|lia].
Qed.

(** What [read_exact] takes from the front does not depend on what follows. *)
Lemma read_exact_delivers_then n r bs rest r' :
  delivers r (bs ++ rest) → length bs = n →
  ∃ r1, read_exact true n (r ++ r') = (Ok bs, r1 ++ r') ∧ delivers r1 rest.
Proof.
  revert n bs. induction r as [|[c| |] r IH]; intros n bs Hd Hn; simpl in Hd; [| |done..].
  - apply app_eq_nil in Hd as [-> ->]. subst n. exists []. by destruct r' as [|[]].
  - destruct Hd as (bs' & Heq & Hd). simpl.
    destruct (decide (n = 0%nat)) as [->|Hn0].
    { apply nil_length_inv in Hn as ->. exists (Chunk c :: r). simpl in *. eauto. }
    destruct (Nat.leb_spec n (length c)).
    + assert (bs = take n c ∧ rest = drop n c ++ bs') as [-> ->].
      { rewrite <-(take_drop n c), <-app_assoc in Heq.
        apply app_inj_1 in Heq; [done|]. rewrite length_take. lia. }
      exists (push_back (drop n c) r). split; [by destruct (drop n c)|]. by apply delivers_push_back.
    + assert (bs = c ++ drop (length c) bs ∧ bs' = drop (length c) bs ++ rest) as [Hbs ->].
      { rewrite <-(take_drop (length c) bs), <-app_assoc in Heq.
        apply app_inj_1 in Heq; [|rewrite length_take; lia]. destruct Heq as [Hc <-].
        split; [|done]. by rewrite <-Hc at 1; rewrite take_drop. }
      destruct (IH (n - length c)%nat (drop (length c) bs)) as (r1 & Hr & Hd'); [done| |].
      { rewrite length_drop. lia. }
      exists r1. rewrite Hr. split; [|done]. by rewrite <-Hbs.
Qed.

Lemma read_uint_delivers timed n z r rest :
  in_u (8 * Z.of_nat n) z → delivers r (to_be_bytes n z ++ rest) →
  ∃ r', read_uint timed n r = (Ok z, r') ∧ delivers r' rest.
Proof.
  intros Hz Hd.
  destruct (read_exact_delivers timed n r _ _ Hd (length_to_be_bytes n z)) as (r' & Hr & Hd').
  exists r'. split; [|done]. unfold read_uint.
  rewrite (eff_bind_ok _ _ _ _ _ Hr). unfold mret, eff_ret. by rewrite from_to_be_bytes.
Qed.

Lemma read_uint_short timed n r bs :
  delivers r bs → (length bs < n)%nat → read_uint timed n r = (Err UnexpectedEof, []).
Proof. intros. unfold read_uint. by rewrite (eff_bind_err _ _ _ _ _ (read_exact_short _ _ _ _ H H0)). Qed.

Lemma read_uint_delivers_then n z r rest r' :
  in_u (8 * Z.of_nat n) z → delivers r (to_be_bytes n z ++ rest) →
  ∃ r1, read_uint true n (r ++ r') = (Ok z, r1 ++ r') ∧ delivers r1 rest.
Proof.
  intros Hz Hd.
  destruct (read_exact_delivers_then n r _ _ r' Hd (length_to_be_bytes n z)) as (r1 & Hr & Hd').
  exists r1. split; [|done]. unfold read_uint.
  rewrite (eff_bind_ok _ _ _ _ _ Hr). unfold mret, eff_ret. by rewrite from_to_be_bytes.
Qed.

Lemma read_uint_stall n r bs r' :
  delivers r bs → (length bs < n)%nat → read_uint true n (r ++ Stall :: r') = (Err Elapsed, r').
Proof. intros. unfold read_uint. by rewrite (eff_bind_err _ _ _ _ _ (read_exact_stall _ _ _ r' H H0)). Qed.

(** One [read] on a non-empty delivery returns a non-empty prefix. *)
Lemma read_delivers n r bs :
  delivers r bs → bs ≠ [] → (0 < n)%nat →
  ∃ now rest r', read n r = (RData now, r') ∧ now ≠ [] ∧ bs = now ++ rest ∧
    delivers r' rest ∧ (length now <= n)%nat.
Proof.
  revert bs. induction r as [|[[|b c]| |] r IH]; intros bs Hd Hne Hn; simpl in Hd; [done| | |done..].
  - destruct Hd as (bs' & -> & Hd). simpl. by apply IH.
  - destruct Hd as (bs' & -> & Hd). simpl read.
    exists (take n (b :: c)), (drop n (b :: c) ++ bs'), (push_back (drop n (b :: c)) r).
    split_and!; [done|by destruct n; [lia|]| |by apply delivers_push_back|].
    + by rewrite app_assoc, take_drop.
    + rewrite length_take. lia.
Qed.

Lemma read_delivers_eof n r : delivers r [] → read n r = (REof, []).
Proof.
  induction r as [|[c| |] r IH]; simpl; [done| |done..].
  intros (bs' & Heq & Hd). symmetry in Heq. apply app_eq_nil in Heq as [-> ->]. auto.
Qed.

(** All the bytes a script carries, errors and stalls skipped. *)
Fixpoint reader_bytes (r : reader) : list Z :=
  match r with
  | [] => []
  | Chunk c :: r' => c ++ reader_bytes r'
  | (IoFail | Stall) :: r' => reader_bytes r'
  end.

Lemma reader_bytes_push_back bs r : reader_bytes (push_back bs r) = bs ++ reader_bytes r.
Proof. by destruct bs. Qed.

Lemma delivers_reader_bytes r bs : delivers r bs → reader_bytes r = bs.
Proof.
  revert bs. induction r as [|[c| |] r IH]; simpl; intros bs; [by intros ->| |done..].
  intros (bs' & -> & Hd). by rewrite (IH _ Hd).
Qed.

(** A [read] returns the next bytes of its script and nothing else. *)
Lemma read_bytes n r x r' :
  read n r = (x, r') →
  reader_bytes r = match x with RData bs => bs | _ => [] end ++ reader_bytes r' ∧
  (x = REof → reader_bytes r' = []).
Proof.
  induction r as [|[[|b c]| |] r IH]; intros Hr; simpl in Hr; try (by simplify_eq/=).
  - by apply IH.
  - simplify_eq. split; [|done]. rewrite reader_bytes_push_back, app_assoc, take_drop. done.
Qed.

(** Scripts without transport errors (stalls are allowed). *)
Definition no_fail (r : reader) : Prop := Forall (λ ev, ev ≠ IoFail) r.

Lemma read_no_fail n r x r' :
  no_fail r → read n r = (x, r') → no_fail r' ∧ x ≠ RFail ∧ (x = REof → r' = []).
Proof.
  unfold no_fail. induction r as [|[[|b c]| |] r IH]; intros Hf Hr; simpl in Hr.
  - by simplify_eq.
  - apply Forall_cons_1 in Hf as [_ Hf]. auto.
  - apply Forall_cons_1 in Hf as [_ Hf]. simplify_eq. split_and!; [|done|done].
    unfold push_back. destruct (drop n (b :: c)); [done|]. by constructor.
  - by apply Forall_cons_1 in Hf as [Hf _].
  - apply Forall_cons_1 in Hf as [_ Hf]. by simplify_eq.
Qed.

Lemma delivers_no_fail r bs : delivers r bs → no_fail r.
Proof.
  unfold no_fail. revert bs. induction r as [|[c| |] r IH]; simpl; intros bs; [constructor| |done..].
  intros (bs' & -> & Hd). constructor; [done|]. eauto.
Qed.

(** ** Progress

    [reader_size] bounds the number of reads a script can answer: every loop
    that reads until the end of its stream runs with this fuel. *)
Fixpoint reader_size (r : reader) : nat :=
  match r with
  | [] => 0
  | Chunk c :: r' => S (length c + reader_size r')
  | (IoFail | Stall) :: r' => S (reader_size r')
  end.

Lemma reader_size_push_back bs r : (reader_size (push_back bs r) <= S (length bs + reader_size r))%nat.
Proof. destruct bs; simpl; lia. Qed.

Lemma delivers_length r bs : delivers r bs → (length bs <= reader_size r)%nat.
Proof.
  revert bs. induction r as [|[c| |] r IH]; simpl; intros bs; [by intros ->| |done..].
  intros (bs' & -> & Hd). rewrite length_app. specialize (IH _ Hd). lia.
Qed.

(** Unless it reports the end of the stream, a [read] shortens the script. *)
Lemma read_size n r x r' :
  (0 < n)%nat → read n r = (x, r') →
  (reader_size r' <= reader_size r)%nat ∧ (x ≠ REof → (reader_size r' < reader_size r)%nat).
Proof.
  intros Hn. induction r as [|[[|b c]| |] r IH]; intros H; simpl in H.
  - by simplify_eq.
  - apply IH in H as [H1 H2]. simpl. split; [lia|]. intros Hx. specialize (H2 Hx). lia.
  - simplify_eq. pose proof (reader_size_push_back (drop n (b :: c)) r) as Hp.
    rewrite length_drop in Hp. simpl in *. split; intros; lia.
  - simplify_eq. simpl. lia.
  - simplify_eq. simpl. lia.
Qed.

(** * Writers *)
Record writer : Type := Writer {
  w_out : list Z;            (** bytes the transport has accepted *)
  w_room : option nat        (** bytes it will still accept; [None]: no limit *)
}.

(** A transport that never fails. *)
Definition open_writer : writer := Writer [] None.

(** [writer.write_all(bs).await]. *)
Definition write_all (bs : list Z) : eff writer io_error unit := λ w,
  match w_room w with
  | None => (Ok (), Writer (w_out w ++ bs) None)
  | Some k =>
      if (length bs <=? k)%nat then (Ok (), Writer (w_out w ++ bs) (Some (k - length bs)%nat))
      else (Err TransportError, Writer (w_out w ++ take k bs) (Some 0%nat))
  end.

(** [write_u8], [write_u16], [write_u32]. *)
Definition write_uint (n : nat) (z : Z) : eff writer io_error unit := write_all (to_be_bytes n z).

(** A write never removes or reorders what was accepted before. *)
Lemma write_all_prefix bs w : w_out w `prefix_of` w_out (write_all bs w).2.
Proof. unfold write_all. repeat case_goal; simpl; eexists; done. Qed.

Lemma write_all_room_enough bs w k :
  w_room w = Some k → (length bs <= k)%nat →
  write_all bs w = (Ok (), Writer (w_out w ++ bs) (Some (k - length bs)%nat)).
Proof. unfold write_all. intros -> ?. by destruct (Nat.leb_spec (length bs) k); [|lia]. Qed.

Lemma write_all_ok bs w w' : write_all bs w = (Ok (), w') → w_out w' = w_out w ++ bs.
Proof. unfold write_all. intros H. repeat case_hyp H; by simplify_eq/=. Qed.

Lemma write_all_err bs w e w' :
  write_all bs w = (Err e, w') → ∃ k, w_out w' = w_out w ++ take k bs.
Proof. unfold write_all. intros H. repeat case_hyp H; simplify_eq/=; eauto. Qed.

Lemma write_all_unlimited bs w :
  w_room w = None → write_all bs w = (Ok (), Writer (w_out w ++ bs) None).
Proof. unfold write_all. by intros ->. Qed.

Arguments read_exact : simpl never.
