(* ===== verification/Net.v ===== *)
(** Socket addresses ([std::net]) and the shared data types of [src/src/lib.rs]:
    tunnel modes, upstreams, tunnel configurations and tunnel targets. *)
From S2P Require Import Prelude.

(** * [std::net] *)

(** An address is its 32- or 128-bit big-endian value. *)
Inductive IpAddr : Type :=
| IpV4 (ip : Z)
| IpV6 (ip : Z).

Inductive SocketAddr : Type :=
| SockV4 (ip port : Z)
| SockV6 (ip port flowinfo scope_id : Z).

#[export] Instance IpAddr_eq_dec : EqDecision IpAddr.
Proof. solve_decision. Defined.
#[export] Instance SocketAddr_eq_dec : EqDecision SocketAddr.
Proof. solve_decision. Defined.

#[export] Instance SocketAddr_countable : Countable SocketAddr.
Proof.
  refine (inj_countable'
    (λ a, match a with
          | SockV4 ip p => inl (ip, p)
          | SockV6 ip p f s => inr (ip, p, f, s)
          end)
    (λ x, match x with
          | inl (ip, p) => SockV4 ip p
          | inr (ip, p, f, s) => SockV6 ip p f s
          end) _).
  by intros [].
Defined.

Definition octets_v4 (ip : Z) : list Z := to_be_bytes 4 ip.
Definition octets_v6 (ip : Z) : list Z := to_be_bytes 16 ip.

Lemma length_octets_v4 ip : length (octets_v4 ip) = 4%nat.
Proof. apply length_to_be_bytes. Qed.
Lemma length_octets_v6 ip : length (octets_v6 ip) = 16%nat.
Proof. apply length_to_be_bytes. Qed.
Arguments octets_v4 : simpl never.
Arguments octets_v6 : simpl never.
#[export] Hint Rewrite length_octets_v4 length_octets_v6 : len.

(** [Ipv4Addr::new(a, b, c, d)]. *)
Definition ipv4 (a b c d : Z) : Z := from_be_bytes [a; b; c; d].

Definition ip_is_loopback (ip : IpAddr) : bool :=
  match ip with
  | IpV4 ip => bool_decide (head (octets_v4 ip) = Some 127)
  | IpV6 ip => bool_decide (ip = 1)
  end.

Definition ip_is_unspecified (ip : IpAddr) : bool :=
  match ip with
  | IpV4 ip => bool_decide (ip = 0)
  | IpV6 ip => bool_decide (ip = 0)
  end.

Definition ip_is_ipv4 (ip : IpAddr) : bool :=
  match ip with IpV4 _ => true | IpV6 _ => false end.

(** [SocketAddr::new]: an IPv6 address gets flow info and scope id 0. *)
Definition socket_addr_new (ip : IpAddr) (port : Z) : SocketAddr :=
  match ip with
  | IpV4 ip => SockV4 ip port
  | IpV6 ip => SockV6 ip port 0 0
  end.

Definition sa_ip (a : SocketAddr) : IpAddr :=
  match a with SockV4 ip _ => IpV4 ip | SockV6 ip _ _ _ => IpV6 ip end.

Definition sa_port (a : SocketAddr) : Z :=
  match a with SockV4 _ p => p | SockV6 _ p _ _ => p end.

Definition sa_set_port (a : SocketAddr) (p : Z) : SocketAddr :=
  match a with SockV4 ip _ => SockV4 ip p | SockV6 ip _ f s => SockV6 ip p f s end.

Definition is_ipv4 (a : SocketAddr) : bool :=
  match a with SockV4 _ _ => true | _ => false end.

Definition is_ipv6 (a : SocketAddr) : bool :=
  match a with SockV6 _ _ _ _ => true | _ => false end.

(** Well-formedness: every field fits its machine type. *)
Definition sa_wf (a : SocketAddr) : Prop :=
  match a with
  | SockV4 ip p => in_u 32 ip ∧ in_u 16 p
  | SockV6 ip p f s => in_u 128 ip ∧ in_u 16 p ∧ in_u 32 f ∧ in_u 32 s
  end.

#[export] Instance sa_wf_dec a : Decision (sa_wf a).
Proof. destruct a; simpl; apply _. Defined.

(** What survives a conversion through [SocketAddr::new(a.ip(), a.port())]. *)
Definition sa_normalize (a : SocketAddr) : SocketAddr := socket_addr_new (sa_ip a) (sa_port a).

Lemma sa_normalize_v4 a : is_ipv4 a = true → sa_normalize a = a.
Proof. by destruct a. Qed.

Definition IPV4_LOCALHOST : Z := ipv4 127 0 0 1.

(** [lib.rs]: [socket_addr_with_unspecified_ip_port]. *)
Definition socket_addr_with_unspecified_ip_port (ipv6 : bool) : SocketAddr :=
  if ipv6 then socket_addr_new (IpV6 0) 0 else socket_addr_new (IpV4 0) 0.

(** * Data types of [lib.rs] *)
Inductive TunnelMode : Type := ModeIn | ModeOut.
Inductive UpstreamType : Type := Tcp | Udp.

#[export] Instance TunnelMode_eq_dec : EqDecision TunnelMode.
Proof. solve_decision. Defined.
#[export] Instance UpstreamType_eq_dec : EqDecision UpstreamType.
Proof. solve_decision. Defined.

Record Upstream : Type := mkUpstream {
  upstream_addr : option SocketAddr;
  upstream_type : UpstreamType
}.

Record TunnelConfig : Type := mkTunnelConfig {
  mode : TunnelMode;
  local_server_addr : option SocketAddr;
  upstream : Upstream
}.

Inductive Tunnel : Type :=
| NetworkBased (cfg : TunnelConfig)
| ChannelBased (t : UpstreamType).

(** Destination carried over a tunnel stream; a [Domain] is resolved by the
    egress. *)
Inductive TunnelTarget : Type :=
| Addr (a : SocketAddr)
| Domain (host : string) (port : Z).

#[export] Instance Upstream_eq_dec : EqDecision Upstream.
Proof. solve_decision. Defined.
#[export] Instance TunnelConfig_eq_dec : EqDecision TunnelConfig.
Proof. solve_decision. Defined.
#[export] Instance Tunnel_eq_dec : EqDecision Tunnel.
Proof. solve_decision. Defined.
#[export] Instance TunnelTarget_eq_dec : EqDecision TunnelTarget.
Proof. solve_decision. Defined.

#[export] Instance TunnelTarget_countable : Countable TunnelTarget.
Proof.
  refine (inj_countable'
    (λ t, match t with Addr a => inl a | Domain h p => inr (h, p) end)
    (λ x, match x with inl a => Addr a | inr (h, p) => Domain h p end) _).
  by intros [].
Defined.

Definition target_port (t : TunnelTarget) : Z :=
  match t with Addr a => sa_port a | Domain _ p => p end.

Definition target_as_socketaddr (t : TunnelTarget) : option SocketAddr :=
  match t with Addr a => Some a | Domain _ _ => None end.

(** [impl Display] of the two enumerations. *)
Definition display_mode (m : TunnelMode) : string :=
  match m with ModeIn => "IN" | ModeOut => "OUT" end.

Definition display_upstream_type (t : UpstreamType) : string :=
  match t with Tcp => "TCP" | Udp => "UDP" end.
