(* ===== verification/Target.v ===== *)
(** The tunnel-target codec of [src/src/util/stream_util.rs]: how the
    destination of a tunnelled stream is written once at stream open and read
    back by the egress. *)
From S2P Require Import Prelude Io Net.

(** [TransferError]. *)
Inductive TransferError : Type :=
| InternalError
| InvalidIPAddress
| InvalidIPFamily
| InvalidDomain
| TimeoutError.

Definition display_transfer_error (e : TransferError) : string :=
  match e with
  | InternalError => "InternalError"
  | InvalidIPAddress => "InvalidIPAddress"
  | InvalidIPFamily => "InvalidIPFamily"
  | InvalidDomain => "InvalidDomain"
  | TimeoutError => "TimeoutError"
  end%string.

#[export] Instance TransferError_eq_dec : EqDecision TransferError.
Proof. solve_decision. Defined.

(** The two chained [map_err]s around every timed read. *)
Definition transfer_error (e : io_error) : TransferError :=
  match e with
  | Elapsed => TimeoutError
  | UnexpectedEof | TransportError => InternalError
  end.

(** * [std::str::from_utf8]

    Validation of a byte string as UTF-8, following the table of well-formed
    byte sequences of the Unicode standard (no overlong forms, no surrogates,
    nothing above U+10FFFF). *)
Definition in_range (lo hi b : Z) : bool := (lo <=? b) && (b <=? hi).

Fixpoint from_utf8_ok (bs : list Z) : bool :=
  match bs with
  | [] => true
  | b0 :: r0 =>
      if b0 <? 128 then from_utf8_ok r0 else
      if in_range 0xC2 0xDF b0 then
        match r0 with
        | b1 :: r1 => in_range 0x80 0xBF b1 && from_utf8_ok r1
        | _ => false
        end
      else if in_range 0xE0 0xEF b0 then
        match r0 with
        | b1 :: b2 :: r2 =>
            in_range (if b0 =? 0xE0 then 0xA0 else 0x80)
                     (if b0 =? 0xED then 0x9F else 0xBF) b1
            && in_range 0x80 0xBF b2 && from_utf8_ok r2
        | _ => false
        end
      else if in_range 0xF0 0xF4 b0 then
        match r0 with
        | b1 :: b2 :: b3 :: r3 =>
            in_range (if b0 =? 0xF0 then 0x90 else 0x80)
                     (if b0 =? 0xF4 then 0x8F else 0xBF) b1
            && in_range 0x80 0xBF b2 && in_range 0x80 0xBF b3 && from_utf8_ok r3
        | _ => false
        end
      else false
  end.

Definition from_utf8 (bs : list Z) : option string :=
  if from_utf8_ok bs then Some (string_of_bytes bs) else None.

(** A Rust [String] always holds valid UTF-8 and is at most [isize::MAX] bytes
    long. *)
Definition string_wf (s : string) : Prop :=
  from_utf8_ok (as_bytes s) = true ∧ in_u 63 (Z.of_nat (length (as_bytes s))).

Definition target_wf (t : TunnelTarget) : Prop :=
  match t with
  | Addr a => sa_wf a
  | Domain host port => string_wf host ∧ in_u 16 port
  end.

#[export] Instance string_wf_dec s : Decision (string_wf s).
Proof. unfold string_wf; apply _. Defined.
#[export] Instance target_wf_dec t : Decision (target_wf t).
Proof. destruct t; simpl; apply _. Defined.

Lemma from_utf8_as_bytes s : string_wf s → from_utf8 (as_bytes s) = Some s.
Proof. unfold string_wf, from_utf8. intros [-> _]. by rewrite string_of_as_bytes. Qed.

(** * Encoding *)

(** The error of [encode_tunnel_target] carries the rejected length. *)
Definition invalid_domain_length (host : string) : bool :=
  bool_decide (length (as_bytes host) = 0%nat) || (255 <? length (as_bytes host))%nat.

Definition encode_tunnel_target (target : option TunnelTarget) (mark_none : bool) :
  result nat (option (list Z)) :=
  match target with
  | Some (Addr (SockV4 ip port)) =>
      Ok (Some ([4] ++ octets_v4 ip ++ to_be_bytes 2 port))
  | Some (Addr (SockV6 ip port _ _)) =>
      Ok (Some ([6] ++ octets_v6 ip ++ to_be_bytes 2 port))
  | Some (Domain host port) =>
      let host_bytes := as_bytes host in
      if invalid_domain_length host then Err (length host_bytes)
      else Ok (Some ([3] ++ [wrap 8 (Z.of_nat (length host_bytes))]
                       ++ host_bytes ++ to_be_bytes 2 port))
  | None => if mark_none then Ok (Some [0]) else Ok None
  end.

(** [write_tunnel_target]: the write error and the encoding error both end in
    [anyhow::Error]. *)
Inductive write_target_error : Type :=
| EncodeFailed (len : nat)
| WriteFailed (e : io_error).

Definition write_tunnel_target (target : option TunnelTarget) (mark_none : bool) :
  eff writer write_target_error unit :=
  buf ← lift (map_err EncodeFailed (encode_tunnel_target target mark_none));
  match buf with
  | Some buf => eff_map_err WriteFailed (write_all buf)
  | None => mret ()
  end.

(** * Decoding *)

Definition read_timed (n : nat) : eff reader TransferError (list Z) :=
  eff_map_err transfer_error (read_exact true n).

Definition read_target_family : eff reader TransferError Z :=
  bs ← read_timed 1; mret (from_be_bytes bs).

Definition read_tunnel_target_body (family : Z) : eff reader TransferError TunnelTarget :=
  if family =? 4 then
    buf ← read_timed (4 + 2);
    let ip := from_be_bytes (take 4 buf) in
    let port := from_be_bytes (take 2 (drop 4 buf)) in
    mret (Addr (socket_addr_new (IpV4 ip) port))
  else if family =? 6 then
    buf ← read_timed (16 + 2);
    let ip := from_be_bytes (take 16 buf) in
    let port := from_be_bytes (take 2 (drop 16 buf)) in
    mret (Addr (socket_addr_new (IpV6 ip) port))
  else if family =? 3 then
    len ← read_timed 1;
    let host_len := Z.to_nat (from_be_bytes len) in
    if decide (host_len = 0%nat) then throw InvalidDomain else
    buf ← read_timed (host_len + 2);
    host ← lift (ok_or InvalidDomain (from_utf8 (take host_len buf)));
    let port := from_be_bytes (take 2 (drop host_len buf)) in
    mret (Domain host port)
  else throw InvalidIPFamily.

Definition read_tunnel_target : eff reader TransferError TunnelTarget :=
  family ← read_target_family;
  read_tunnel_target_body family.

Definition read_optional_tunnel_target : eff reader TransferError (option TunnelTarget) :=
  family ← read_target_family;
  if family =? 0 then mret None else
  t ← read_tunnel_target_body family; mret (Some t).

(** * Round trips *)

(** The wire format carries neither the flow info nor the scope id of an IPv6
    address. *)
Definition target_normalize (t : TunnelTarget) : TunnelTarget :=
  match t with
  | Addr a => Addr (sa_normalize a)
  | Domain h p => Domain h p
  end.

Lemma read_timed_delivers n r bs rest :
  delivers r (bs ++ rest) → length bs = n →
  ∃ r', read_timed n r = (Ok bs, r') ∧ delivers r' rest.
Proof.
  intros Hd Hn. destruct (read_exact_delivers true n r bs rest Hd Hn) as (r' & Hr & Hd').
  exists r'. unfold read_timed, eff_map_err. by rewrite Hr.
Qed.

Lemma read_timed_short n r bs :
  delivers r bs → (length bs < n)%nat → read_timed n r = (Err InternalError, []).
Proof. intros. unfold read_timed, eff_map_err. by rewrite (read_exact_short true n r bs). Qed.

Lemma read_timed_inv n r bs x r' :
  delivers r bs → read_timed n r = (x, r') →
  (∃ used rest, bs = used ++ rest ∧ length used = n ∧ x = Ok used ∧ delivers r' rest)
  ∨ ((length bs < n)%nat ∧ x = Err InternalError).
Proof.
  intros Hd Hr. destruct (decide (length bs < n)%nat) as [Hlt|Hge].
  - right. split; [done|]. rewrite (read_timed_short _ _ _ Hd Hlt) in Hr. by simplify_eq.
  - left. destruct (read_timed_delivers n r (take n bs) (drop n bs)) as (r1 & Hr1 & Hd1).
    + by rewrite take_drop.
    + rewrite length_take. lia.
    + rewrite Hr1 in Hr. simplify_eq. exists (take n bs), (drop n bs).
      rewrite take_drop, length_take. split_and!; [done|lia|done|done].
Qed.

Lemma read_target_family_delivers b r rest :
  delivers r (b :: rest) → ∃ r', read_target_family r = (Ok b, r') ∧ delivers r' rest.
Proof.
  intros Hd. destruct (read_timed_delivers 1 r [b] rest Hd eq_refl) as (r' & Hr & Hd').
  exists r'. split; [|done]. unfold read_target_family.
  rewrite (eff_bind_ok _ _ _ _ _ Hr). unfold mret, eff_ret.
  replace (from_be_bytes [b]) with b; [done|].
  change (from_be_bytes [b]) with (b + 256 * 0). lia.
Qed.

(** Splitting a buffer that is an address or host followed by a port. *)
Lemma split_port n bs port :
  length bs = n → in_u 16 port →
  take n (bs ++ to_be_bytes 2 port) = bs ∧
  from_be_bytes (take 2 (drop n (bs ++ to_be_bytes 2 port))) = port.
Proof.
  intros Hn Hp. destruct (take_drop_app n bs (to_be_bytes 2 port) Hn) as [-> ->].
  rewrite take_ge by (rewrite length_to_be_bytes; lia). by rewrite from_to_be_bytes.
Qed.

(** The bytes of a target are its family byte and a body that
    [read_tunnel_target_body] decodes, under any chunking. *)
Lemma encode_body t mark bytes :
  target_wf t → encode_tunnel_target (Some t) mark = Ok (Some bytes) →
  ∃ family body, bytes = family :: body ∧ family ≠ 0 ∧
    ∀ r rest, delivers r (body ++ rest) →
      ∃ r', read_tunnel_target_body family r = (Ok (target_normalize t), r') ∧ delivers r' rest.
Proof.
  intros Hwf Henc. destruct t as [[ip port|ip port f s]|host port]; simpl in Hwf, Henc.
  - destruct Hwf as [Hip Hp]. simplify_eq.
    exists 4, (octets_v4 ip ++ to_be_bytes 2 port). split_and!; [done|done|].
    intros r rest Hd. destruct (read_timed_delivers (4 + 2) r _ rest Hd) as (r' & Hr & Hd'); [len|].
    exists r'. split; [|done]. unfold read_tunnel_target_body. simpl.
    rewrite (eff_bind_ok _ _ _ _ _ Hr).
    destruct (split_port 4 (octets_v4 ip) port) as [-> ->]; [apply length_to_be_bytes|done|].
    unfold octets_v4. by rewrite from_to_be_bytes.
  - destruct Hwf as (Hip & Hp & _). simplify_eq.
    exists 6, (octets_v6 ip ++ to_be_bytes 2 port). split_and!; [done|done|].
    intros r rest Hd. destruct (read_timed_delivers (16 + 2) r _ rest Hd) as (r' & Hr & Hd'); [len|].
    exists r'. split; [|done]. unfold read_tunnel_target_body. simpl.
    rewrite (eff_bind_ok _ _ _ _ _ Hr).
    destruct (split_port 16 (octets_v6 ip) port) as [-> ->]; [apply length_to_be_bytes|done|].
    unfold octets_v6. by rewrite from_to_be_bytes.
  - destruct Hwf as [Hs Hp]. destruct (invalid_domain_length host) eqn:Hl; [done|]. simplify_eq.
    unfold invalid_domain_length in Hl. apply orb_false_iff in Hl as [Hl0 Hl].
    apply bool_decide_eq_false in Hl0. apply Nat.ltb_ge in Hl.
    set (n := length (as_bytes host)) in *.
    assert (wrap 8 (Z.of_nat n) = Z.of_nat n) as -> by (apply wrap_small; unfold in_u; lia).
    exists 3, (Z.of_nat n :: as_bytes host ++ to_be_bytes 2 port). split_and!; [done|done|].
    intros r rest Hd.
    destruct (read_timed_delivers 1 r [Z.of_nat n] ((as_bytes host ++ to_be_bytes 2 port) ++ rest))
      as (r1 & Hr1 & Hd1); [done|done|].
    destruct (read_timed_delivers (n + 2) r1 _ rest Hd1) as (r2 & Hr2 & Hd2); [len|].
    exists r2. split; [|done]. unfold read_tunnel_target_body. simpl.
    rewrite (eff_bind_ok _ _ _ _ _ Hr1).
    replace (from_be_bytes [Z.of_nat n]) with (Z.of_nat n)
      by (change (from_be_bytes [Z.of_nat n]) with (Z.of_nat n + 256 * 0); lia).
    rewrite Nat2Z.id. destruct (decide (n = 0%nat)); [done|].
    rewrite (eff_bind_ok _ _ _ _ _ Hr2).
    destruct (split_port n (as_bytes host) port) as [-> ->]; [done|done|].
    by rewrite from_utf8_as_bytes.
Qed.

Lemma read_encoded_target t mark bytes r rest :
  target_wf t → encode_tunnel_target (Some t) mark = Ok (Some bytes) → delivers r (bytes ++ rest) →
  ∃ r', read_tunnel_target r = (Ok (target_normalize t), r') ∧ delivers r' rest.
Proof.
  intros Hwf Henc Hd. destruct (encode_body t mark bytes Hwf Henc) as (fam & body & -> & _ & Hb).
  destruct (read_target_family_delivers fam r (body ++ rest) Hd) as (r1 & Hr1 & Hd1).
  unfold read_tunnel_target. rewrite (eff_bind_ok _ _ _ _ _ Hr1). by apply Hb.
Qed.

(** C20: Whatever the transport does to chunk boundaries, a target that was
    encoded for the wire is read back by [read_tunnel_target] (IPv6 flow info
    and scope id, which are not on the wire, come back as 0), and the reader is
    left exactly at the first byte after it. *)
Theorem tunnel_target_roundtrip t mark bytes r rest :
  target_wf t → encode_tunnel_target (Some t) mark = Ok (Some bytes) →
  delivers r (bytes ++ rest) →
  ∃ r', read_tunnel_target r = (Ok (target_normalize t), r') ∧ delivers r' rest.
Proof. apply read_encoded_target. Qed.

Lemma tunnel_target_roundtrip_witness :
  ∃ r', read_tunnel_target
          [Chunk [3; 2]; Chunk []; Chunk [104]; Chunk [105; 1; 187; 99]]
        = (Ok (Domain "hi" 443), r') ∧ delivers r' [99].
Proof.
  apply (tunnel_target_roundtrip (Domain "hi" 443) false [3; 2; 104; 105; 1; 187]).
  - by apply (bool_decide_unpack _); vm_compute.
  - vm_compute. reflexivity.
  - exists [104; 105; 1; 187; 99]. split; [done|]. apply (delivers_chunks [[]; [104]; [105; 1; 187; 99]]).
Defined.

Lemma read_encoded_optional ot bytes r rest :
  (∀ t, ot = Some t → target_wf t) →
  encode_tunnel_target ot true = Ok (Some bytes) → delivers r (bytes ++ rest) →
  ∃ r', read_optional_tunnel_target r = (Ok (target_normalize <$> ot), r') ∧ delivers r' rest.
Proof.
  intros Hwf Henc Hd. unfold read_optional_tunnel_target. destruct ot as [t|].
  - destruct (encode_body t true bytes (Hwf t eq_refl) Henc) as (fam & body & -> & Hf & Hb).
    destruct (read_target_family_delivers fam r (body ++ rest) Hd) as (r1 & Hr1 & Hd1).
    rewrite (eff_bind_ok _ _ _ _ _ Hr1). rewrite (proj2 (Z.eqb_neq fam 0)) by done.
    destruct (Hb r1 rest Hd1) as (r2 & Hr2 & Hd2). exists r2. split; [|done].
    by rewrite (eff_bind_ok _ _ _ _ _ Hr2).
  - simpl in Henc. simplify_eq.
    destruct (read_target_family_delivers 0 r rest Hd) as (r1 & Hr1 & Hd1).
    exists r1. split; [|done]. by rewrite (eff_bind_ok _ _ _ _ _ Hr1).
Qed.

(** The UDP relay's framing: with [mark_none] every optional target has an
    encoding (unless its domain is rejected), and [read_optional_tunnel_target]
    inverts it, [None] included. *)
Theorem optional_target_roundtrip ot bytes r rest :
  (∀ t, ot = Some t → target_wf t) →
  encode_tunnel_target ot true = Ok (Some bytes) →
  delivers r (bytes ++ rest) →
  ∃ r', read_optional_tunnel_target r = (Ok (target_normalize <$> ot), r') ∧ delivers r' rest.
Proof. apply read_encoded_optional. Qed.

Lemma optional_target_roundtrip_witness :
  ∃ r', read_optional_tunnel_target [Chunk [0; 7]] = (Ok None, r') ∧ delivers r' [7].
Proof.
  apply (optional_target_roundtrip None [0]); [done|done|].
  apply (delivers_chunks [[0; 7]]).
Defined.

(** Exactly the domains that do not fit the one-byte length field are
    rejected by the encoder, with their length; every other target has an
    encoding, of at most 259 bytes. *)
Theorem encode_tunnel_target_total ot mark :
  match ot with
  | Some (Domain host _) =>
      let n := length (as_bytes host) in
      if decide (1 <= n <= 255)%nat
      then ∃ bytes, encode_tunnel_target ot mark = Ok (Some bytes) ∧ length bytes = (n + 4)%nat
      else encode_tunnel_target ot mark = Err n
  | Some (Addr a) => ∃ bytes, encode_tunnel_target ot mark = Ok (Some bytes) ∧
      length bytes = (if is_ipv6 a then 19 else 7)%nat
  | None => encode_tunnel_target ot mark = Ok (if mark then Some [0] else None)
  end.
Proof.
  destruct ot as [[[ip p|ip p f s]|host p]|]; simpl; [eexists; split; [done|]; by len..| |by destruct mark].
  unfold invalid_domain_length. destruct (decide _) as [Hn|Hn].
  - rewrite bool_decide_eq_false_2, (proj2 (Nat.ltb_ge _ _)) by lia.
    eexists. split; [done|]. len.
  - destruct (decide (length (as_bytes host) = 0%nat)).
    + by rewrite bool_decide_eq_true_2.
    + rewrite (proj2 (Nat.ltb_lt _ _)) by lia. by rewrite orb_true_r.
Qed.

(** * Soundness of the decoder *)

Lemma from_be_bytes_one b : from_be_bytes [b] = b.
Proof. change (from_be_bytes [b]) with (b + 256 * 0). lia. Qed.

(** A buffer of [n + 2] bytes is its first [n] bytes and the bytes of the port. *)
Lemma unsplit_port n buf :
  bytes_ok buf → length buf = (n + 2)%nat →
  buf = take n buf ++ to_be_bytes 2 (from_be_bytes (take 2 (drop n buf))) ∧
  in_u 16 (from_be_bytes (take 2 (drop n buf))) ∧ bytes_ok (take n buf).
Proof.
  intros Hok Hl. rewrite take_ge with (l := drop n buf) by (rewrite length_drop; lia).
  rewrite <-(take_drop n buf) in Hok. apply bytes_ok_app in Hok as [Hok1 Hok2].
  assert (length (drop n buf) = 2%nat) as H2 by (rewrite length_drop; lia).
  split_and!; [|pose proof (from_be_bytes_range _ Hok2) as Hr; by rewrite H2 in Hr|done].
  rewrite <-H2 at 1. by rewrite to_from_be_bytes, take_drop.
Qed.

Lemma unsplit_ip n buf :
  bytes_ok (take n buf) → (n <= length buf)%nat →
  to_be_bytes n (from_be_bytes (take n buf)) = take n buf ∧
  in_u (8 * Z.of_nat n) (from_be_bytes (take n buf)).
Proof.
  intros Hok Hl. assert (length (take n buf) = n) as Hn by (rewrite length_take; lia).
  pose proof (to_from_be_bytes _ Hok) as H. pose proof (from_be_bytes_range _ Hok) as Hr.
  by rewrite Hn in H, Hr.
Qed.

(** What a read of the body must satisfy. *)
Definition body_sound_at (fam : Z) (bs : list Z) (x : result TransferError TunnelTarget) (r' : reader) : Prop :=
  match x with
  | Ok t => ∃ used rest, bs = used ++ rest ∧ delivers r' rest ∧ target_wf t ∧
      ∀ mark, encode_tunnel_target (Some t) mark = Ok (Some (fam :: used))
  | Err e => e = InternalError ∨ e = InvalidDomain ∨ e = InvalidIPFamily
  end.

Lemma domain_sound r bs x r' :
  delivers r bs → bytes_ok bs → read_tunnel_target_body 3 r = (x, r') → body_sound_at 3 bs x r'.
Proof.
  intros Hd Hok Hr. unfold read_tunnel_target_body in Hr. simpl in Hr.
  unfold mbind, eff_bind in Hr. destruct (read_timed 1 r) as [y r1] eqn:Hy.
  destruct (read_timed_inv _ _ _ _ _ Hd Hy) as [(u1 & rest1 & -> & Hl1 & -> & Hd1)|[_ ->]];
    [|simplify_eq; simpl; auto].
  apply bytes_ok_app in Hok as [Hok1 Hok2].
  destruct u1 as [|hl [|]]; [done| |done]. rewrite from_be_bytes_one in Hr.
  apply bytes_ok_cons in Hok1 as [Hn _]. unfold in_u in Hn.
  destruct (decide (Z.to_nat hl = 0%nat)); [unfold throw in Hr; simplify_eq; simpl; auto|].
  destruct (read_timed (Z.to_nat hl + 2) r1) as [y2 r2] eqn:Hy2.
  destruct (read_timed_inv _ _ _ _ _ Hd1 Hy2) as [(used & rest & -> & Hl & -> & Hd2)|[_ ->]];
    [|simplify_eq; simpl; auto].
  apply bytes_ok_app in Hok2 as [Hok _].
  destruct (unsplit_port _ used Hok Hl) as (Hu & Hp & Hokh).
  unfold from_utf8 in Hr. destruct (from_utf8_ok _) eqn:Hutf;
    unfold lift, mret, eff_ret in Hr; simpl in Hr; simplify_eq; [|simpl; auto].
  set (h := take (Z.to_nat hl) used) in *.
  assert (as_bytes (string_of_bytes h) = h) as Hh by by apply as_string_of_bytes.
  assert (length h = Z.to_nat hl) as Hlh by (unfold h; rewrite length_take; lia).
  exists (hl :: used), rest. split_and!; [done|done| |].
  - split; [|done]. unfold string_wf, in_u. rewrite Hh, Hlh. split; [done|lia].
  - intros mark. simpl. unfold invalid_domain_length. rewrite !Hh, Hlh.
    rewrite bool_decide_eq_false_2, (proj2 (Nat.ltb_ge _ _)) by lia. simpl.
    rewrite Z2Nat.id, wrap_small by (unfold in_u; lia). by rewrite <-Hu.
Qed.

Lemma body_sound fam r bs x r' :
  delivers r bs → bytes_ok bs → in_u 8 fam →
  read_tunnel_target_body fam r = (x, r') → body_sound_at fam bs x r'.
Proof.
  intros Hd Hok Hfam Hr. destruct (decide (fam = 3)) as [->|H3]; [by eapply domain_sound|].
  unfold read_tunnel_target_body in Hr. destruct (Z.eqb_spec fam 3); [done|].
  destruct (Z.eqb_spec fam 4) as [->|?]; [|destruct (Z.eqb_spec fam 6) as [->|?]];
    [| |unfold throw in Hr; simplify_eq; simpl; auto].
  - unfold mbind, eff_bind in Hr. destruct (read_timed (4 + 2) r) as [y r1] eqn:Hy.
    destruct (read_timed_inv _ _ _ _ _ Hd Hy) as [(used & rest & -> & Hl & -> & Hd1)|[_ ->]];
      unfold mret, eff_ret in Hr; simplify_eq; [|simpl; auto].
    apply bytes_ok_app in Hok as [Hok _].
    destruct (unsplit_port 4 used Hok Hl) as (Hu & Hp & Hok4).
    destruct (unsplit_ip 4 used Hok4) as [Hip Hipr]; [lia|].
    exists used, rest. split_and!; [done..|]. intros mark. cbn [encode_tunnel_target socket_addr_new]. unfold octets_v4.
    by rewrite Hip, <-Hu.
  - unfold mbind, eff_bind in Hr. destruct (read_timed (16 + 2) r) as [y r1] eqn:Hy.
    destruct (read_timed_inv _ _ _ _ _ Hd Hy) as [(used & rest & -> & Hl & -> & Hd1)|[_ ->]];
      unfold mret, eff_ret in Hr; simplify_eq; [|simpl; auto].
    apply bytes_ok_app in Hok as [Hok _].
    destruct (unsplit_port 16 used Hok Hl) as (Hu & Hp & Hok4).
    destruct (unsplit_ip 16 used Hok4) as [Hip Hipr]; [lia|].
    exists used, rest. split_and!; [done|done| |].
    + simpl. split_and!; [done..| |]; unfold in_u; lia.
    + intros mark. cbn [encode_tunnel_target socket_addr_new]. unfold octets_v6.
      by rewrite Hip, <-Hu.
Qed.

(** The decoder accepts nothing but encodings.  On any byte sequence, a
    successful [read_tunnel_target] consumed precisely the encoding of the
    (well-formed) target it returned; a failure on a stream that ends cleanly is
    one of [InternalError] (truncated), [InvalidDomain] or [InvalidIPFamily]. *)
Theorem read_tunnel_target_sound r bs x r' :
  delivers r bs → bytes_ok bs → read_tunnel_target r = (x, r') →
  match x with
  | Ok t => ∃ used rest, bs = used ++ rest ∧ delivers r' rest ∧ target_wf t ∧
      ∀ mark, encode_tunnel_target (Some t) mark = Ok (Some used)
  | Err e => e = InternalError ∨ e = InvalidDomain ∨ e = InvalidIPFamily
  end.
Proof.
  intros Hd Hok Hr. destruct bs as [|fam bs].
  - unfold read_tunnel_target, read_target_family, mbind, eff_bind in Hr.
    rewrite (read_timed_short 1 r [] Hd) in Hr by (simpl; lia). simplify_eq. auto.
  - destruct (read_target_family_delivers fam r bs Hd) as (r1 & Hr1 & Hd1).
    unfold read_tunnel_target in Hr. rewrite (eff_bind_ok _ _ _ _ _ Hr1) in Hr.
    apply bytes_ok_cons in Hok as [Hf Hok].
    pose proof (body_sound fam r1 bs x r' Hd1 Hok Hf Hr) as Hs.
    destruct x; [|done]. destruct Hs as (used & rest & -> & Hs). by exists (fam :: used), rest.
Qed.

Lemma read_tunnel_target_sound_witness :
  ∃ used rest, [4; 10; 0; 0; 1; 0; 80; 5] = used ++ rest ∧ delivers [Chunk [5]] rest ∧
    target_wf (Addr (SockV4 167772161 80)) ∧
    ∀ mark, encode_tunnel_target (Some (Addr (SockV4 167772161 80))) mark = Ok (Some used).
Proof.
  apply (read_tunnel_target_sound [Chunk [4; 10]; Chunk [0; 0; 1; 0; 80; 5]]
           [4; 10; 0; 0; 1; 0; 80; 5] (Ok (Addr (SockV4 167772161 80))) [Chunk [5]]).
  - apply (delivers_chunks [[4; 10]; [0; 0; 1; 0; 80; 5]]).
  - unfold bytes_ok. repeat constructor; unfold in_u; lia.
  - vm_compute. reflexivity.
Defined.
