(* ===== verification/AddrText.v ===== *)
(** Textual addresses: the parts of Rust's standard library through which
    [src/src/lib.rs], [src/src/client.rs], [src/src/server.rs] and
    [src/src/bin/rstun.rs] read and print ports and socket addresses, and the
    string operations ([split], [contains], [rfind], ...) they use. *)
From Stdlib Require Import Ascii.
From S2P Require Import Prelude Net.

#[local] Open Scope string_scope.
#[local] Open Scope Z_scope.

(** * Strings *)

(** [str::split(c)]: never empty. *)
Fixpoint str_split (c : Ascii.ascii) (s : string) : list string :=
  match s with
  | EmptyString => [""]
  | String d s' =>
      if Ascii.eqb d c then "" :: str_split c s'
      else match str_split c s' with
           | p :: ps => String d p :: ps
           | [] => [String d ""]
           end
  end.

(** [str::contains(c)]. *)
Fixpoint str_contains (c : Ascii.ascii) (s : string) : bool :=
  match s with
  | EmptyString => false
  | String d s' => Ascii.eqb d c || str_contains c s'
  end.

(** [str::rfind(c)], returned as the text before and after the last
    occurrence (the two slices the source takes). *)
Fixpoint str_rsplit_once (c : Ascii.ascii) (s : string) : option (string * string) :=
  match s with
  | EmptyString => None
  | String d s' =>
      match str_rsplit_once c s' with
      | Some (a, b) => Some (String d a, b)
      | None => if Ascii.eqb d c then Some ("", s') else None
      end
  end.

(** [str::strip_prefix], used for [starts_with] too. *)
Fixpoint strip_prefix (p s : string) : option string :=
  match p, s with
  | EmptyString, _ => Some s
  | String a p', String b s' => if Ascii.eqb a b then strip_prefix p' s' else None
  | String _ _, EmptyString => None
  end.

(** * Numbers *)

Definition digit_char (d : Z) : Ascii.ascii :=
  ascii_of_byte (if d <? 10 then 48 + d else 87 + d).

(** [char::to_digit(radix)]. *)
Definition to_digit (radix : Z) (c : Ascii.ascii) : option Z :=
  let b := byte_of_ascii c in
  let d := if (48 <=? b) && (b <=? 57) then b - 48
           else if (97 <=? b) && (b <=? 122) then b - 87
           else if (65 <=? b) && (b <=? 90) then b - 55 else 99 in
  if d <? radix then Some d else None.

(** [impl Display] of an unsigned integer in the given radix: the fuel bounds
    the number of digits. *)
Fixpoint show_digits (radix : Z) (fuel : nat) (z : Z) (acc : string) : string :=
  match fuel with
  | O => acc
  | S f =>
      let acc' := String (digit_char (z mod radix)) acc in
      if z / radix =? 0 then acc' else show_digits radix f (z / radix) acc'
  end.

(** 40 digits print every [u128]. *)
Definition display_uint (z : Z) : string := show_digits 10 40 z "".
Definition display_hex (z : Z) : string := show_digits 16 40 z "".

(** [Parser::read_number] of [core::net::parser]: consume digits while they
    fit in [[0, maxv]], at most [max_digits] of them. *)
Fixpoint read_digits (radix maxv : Z) (max_digits : option nat) (count : nat) (acc : Z)
    (s : string) : option (nat * Z * string) :=
  match s with
  | EmptyString => Some (count, acc, s)
  | String c s' =>
      match to_digit radix c with
      | None => Some (count, acc, s)
      | Some d =>
          if (maxv <? acc * radix) || (maxv <? acc * radix + d) then None
          else if match max_digits with Some m => (m <? S count)%nat | None => false end then None
          else read_digits radix maxv max_digits (S count) (acc * radix + d) s'
      end
  end.

Definition read_number (radix maxv : Z) (max_digits : option nat) (allow_zero_prefix : bool)
    (s : string) : option (Z * string) :=
  let has_leading_zero := match s with String c _ => Ascii.eqb c "0"%char | _ => false end in
  match read_digits radix maxv max_digits 0 0 s with
  | Some (O, _, _) => None
  | Some (count, v, s') =>
      if negb allow_zero_prefix && has_leading_zero && (1 <? count)%nat then None else Some (v, s')
  | None => None
  end.

Definition read_given_char (c : Ascii.ascii) (s : string) : option string :=
  match s with String d s' => if Ascii.eqb d c then Some s' else None | _ => None end.

(** [Parser::read_separator]: the separator is expected from the second
    element on. *)
Definition read_separator {A} (sep : Ascii.ascii) (index : nat)
    (inner : string → option (A * string)) (s : string) : option (A * string) :=
  match index with
  | O => inner s
  | S _ => s' ← read_given_char sep s; inner s'
  end.

(** [str::parse::<uN>]: an optional ["+"], then decimal digits only. *)
Definition parse_uint (w : Z) (s : string) : option Z :=
  let body := match s with
              | String c (String d s') => if Ascii.eqb c "+"%char then String d s' else s
              | _ => s
              end in
  match read_digits 10 (umax w) None 0 0 body with
  | Some (S _, v, EmptyString) => Some v
  | _ => None
  end.

(** * Addresses *)

Definition read_octet (i : nat) (s : string) : option (Z * string) :=
  read_separator "."%char i (read_number 10 255 (Some 3%nat) false) s.

Definition read_ipv4_addr (s : string) : option (Z * string) :=
  '(a, s) ← read_octet 0 s;
  '(b, s) ← read_octet 1 s;
  '(c, s) ← read_octet 2 s;
  '(d, s) ← read_octet 3 s;
  Some (ipv4 a b c d, s).

(** The local function [read_groups] of [read_ipv6_addr]: reads up to [limit]
    16-bit groups, the last two possibly written as an IPv4 address.  Returns
    the groups read, whether an IPv4 tail was read, and the rest. *)
Fixpoint read_groups (limit i : nat) (s : string) {struct limit} : list Z * bool * string :=
  match limit with
  | O => ([], false, s)
  | S more =>
      let v4 := if (1 <=? more)%nat then read_separator ":"%char i read_ipv4_addr s else None in
      match v4 with
      | Some (a, s') => ([a / 65536; a mod 65536], true, s')
      | None =>
          match read_separator ":"%char i (read_number 16 65535 (Some 4%nat) true) s with
          | Some (g, s') => let '(gs, v4, s'') := read_groups more (S i) s' in (g :: gs, v4, s'')
          | None => ([], false, s)
          end
      end
  end.

Definition ipv6_of_groups (gs : list Z) : Z := fold_left (λ acc g, acc * 65536 + g) gs 0.

Definition read_ipv6_addr (s : string) : option (Z * string) :=
  let '(head, head_ipv4, s) := read_groups 8 0 s in
  if (length head =? 8)%nat then Some (ipv6_of_groups head, s)
  else if head_ipv4 then None
  else
    s ← read_given_char ":"%char s;
    s ← read_given_char ":"%char s;
    let limit := (8 - (length head + 1))%nat in
    let '(tail, _, s) := read_groups limit 0 s in
    Some (ipv6_of_groups (head ++ replicate (8 - length head - length tail) 0 ++ tail), s).

Definition read_port (s : string) : option (Z * string) :=
  s ← read_given_char ":"%char s; read_number 10 65535 None true s.

Definition read_scope_id (s : string) : option (Z * string) :=
  s ← read_given_char "%"%char s; read_number 10 (umax 32) None true s.

Definition read_socket_addr_v4 (s : string) : option (SocketAddr * string) :=
  '(ip, s) ← read_ipv4_addr s;
  '(port, s) ← read_port s;
  Some (SockV4 ip port, s).

Definition read_socket_addr_v6 (s : string) : option (SocketAddr * string) :=
  s ← read_given_char "["%char s;
  '(ip, s) ← read_ipv6_addr s;
  let '(scope, s) := match read_scope_id s with Some (z, s') => (z, s') | None => (0, s) end in
  s ← read_given_char "]"%char s;
  '(port, s) ← read_port s;
  Some (SockV6 ip port 0 scope, s).

(** [parse_with]: the whole input must be consumed. *)
Definition parse_all {A} (p : string → option (A * string)) (s : string) : option A :=
  match p s with Some (a, EmptyString) => Some a | _ => None end.

(** [str::parse::<SocketAddr>]. *)
Definition parse_socket_addr (s : string) : option SocketAddr :=
  parse_all (λ s, match read_socket_addr_v4 s with
                  | Some r => Some r
                  | None => read_socket_addr_v6 s
                  end) s.

(** [str::parse::<IpAddr>]. *)
Definition parse_ip_addr (s : string) : option IpAddr :=
  parse_all (λ s, match read_ipv4_addr s with
                  | Some (ip, s') => Some (IpV4 ip, s')
                  | None => '(ip, s') ← read_ipv6_addr s; Some (IpV6 ip, s')
                  end) s.

(** [impl Display for Ipv4Addr]. *)
Definition display_ipv4 (ip : Z) : string :=
  match octets_v4 ip with
  | [a; b; c; d] =>
      display_uint a +:+ "." +:+ display_uint b +:+ "." +:+ display_uint c +:+ "." +:+ display_uint d
  | _ => ""
  end.

(** [impl Display for Ipv6Addr]: an IPv4-mapped address is printed with its
    dotted tail, any other with its first longest run of at least two zero
    groups compressed. *)
Fixpoint groups_of_bytes (bs : list Z) : list Z :=
  match bs with
  | a :: b :: bs' => (a * 256 + b) :: groups_of_bytes bs'
  | _ => []
  end.

Definition segments (ip : Z) : list Z := groups_of_bytes (octets_v6 ip).

(** The first longest run of zeros: [(start, length)]. *)
Fixpoint longest_zero_run (gs : list Z) (i : nat) (cur best : nat * nat) : nat * nat :=
  match gs with
  | [] => best
  | g :: gs' =>
      if g =? 0 then
        let cur' := if decide (cur.2 = 0%nat) then (i, 1%nat) else (cur.1, S cur.2) in
        longest_zero_run gs' (S i) cur' (if (best.2 <? cur'.2)%nat then cur' else best)
      else longest_zero_run gs' (S i) (0%nat, 0%nat) best
  end.

Fixpoint join (sep : string) (l : list string) : string :=
  match l with
  | [] => ""
  | [x] => x
  | x :: l' => x +:+ sep +:+ join sep l'
  end.

Definition display_segments (gs : list Z) : string := join ":" (display_hex <$> gs).

Definition display_ipv6 (ip : Z) : string :=
  if ip / 2 ^ 32 =? 0xffff then "::ffff:" +:+ display_ipv4 (ip mod 2 ^ 32)
  else
    let gs := segments ip in
    let '(start, len) := longest_zero_run gs 0 (0%nat, 0%nat) (0%nat, 0%nat) in
    if (1 <? len)%nat
    then display_segments (take start gs) +:+ "::" +:+ display_segments (drop (start + len) gs)
    else display_segments gs.

Definition display_ip (ip : IpAddr) : string :=
  match ip with IpV4 ip => display_ipv4 ip | IpV6 ip => display_ipv6 ip end.

(** [impl Display for SocketAddr]. *)
Definition display_socket_addr (a : SocketAddr) : string :=
  match a with
  | SockV4 ip port => display_ipv4 ip +:+ ":" +:+ display_uint port
  | SockV6 ip port _ 0 => "[" +:+ display_ipv6 ip +:+ "]:" +:+ display_uint port
  | SockV6 ip port _ scope =>
      "[" +:+ display_ipv6 ip +:+ "%" +:+ display_uint scope +:+ "]:" +:+ display_uint port
  end.

(** [impl Display for Upstream]. *)
Definition display_upstream (u : Upstream) : string :=
  match upstream_addr u with Some a => display_socket_addr a | None => "PeerDefault" end.

(** [impl Display for TunnelTarget]. *)
Definition display_target (t : TunnelTarget) : string :=
  match t with
  | Addr a => display_socket_addr a
  | Domain host port => host +:+ ":" +:+ display_uint port
  end.

(** [lib.rs]: [format_optional_socket_addr]. *)
Definition format_optional_socket_addr (addr : option SocketAddr) : string :=
  match addr with None => "none" | Some a => display_socket_addr a end.

(** * Printing and parsing *)

(** Number of digits [show_digits] prints. *)
Fixpoint num_digits (fuel : nat) (z : Z) : nat :=
  match fuel with
  | O => 0
  | S f => if z / 10 =? 0 then 1 else S (num_digits f (z / 10))
  end.

Lemma to_digit_digit_char d : 0 <= d < 10 → to_digit 10 (digit_char d) = Some d.
Proof.
  intros ?. unfold digit_char. destruct (Z.ltb_spec d 10); [|lia].
  unfold to_digit. rewrite byte_of_ascii_of_byte by (unfold in_u; lia).
  destruct (Z.leb_spec 48 (48 + d)); [|lia]. destruct (Z.leb_spec (48 + d) 57); [|lia]. simpl.
  replace (48 + d - 48) with d by lia. by destruct (Z.ltb_spec d 10); [|lia].
Qed.

(** Reading back what [show_digits] printed continues with the accumulated
    value, whatever follows. *)
Lemma read_show_digits maxv fuel z count a acc :
  0 <= z < 10 ^ Z.of_nat fuel → 0 <= a →
  a * 10 ^ Z.of_nat (num_digits fuel z) + z <= maxv →
  read_digits 10 maxv None count a (show_digits 10 fuel z acc) =
  read_digits 10 maxv None (count + num_digits fuel z)
    (a * 10 ^ Z.of_nat (num_digits fuel z) + z) acc.
Proof.
  revert z count a acc. induction fuel as [|f IH]; intros z count a acc Hz Ha Hmax.
  { simpl in *. assert (z = 0) as -> by lia. by rewrite Nat.add_0_r, Z.mul_1_r, Z.add_0_r. }
  rewrite Nat2Z.inj_succ, Z.pow_succ_r in Hz by lia.
  pose proof (Z.div_mod z 10 ltac:(lia)) as Hdm. pose proof (Z.mod_pos_bound z 10 ltac:(lia)).
  pose proof (Z.div_pos z 10 ltac:(lia) ltac:(lia)).
  cbn [show_digits num_digits] in *. destruct (Z.eqb_spec (z / 10) 0) as [E|E].
  - change (10 ^ Z.of_nat 1) with 10 in *. cbn [read_digits]. rewrite to_digit_digit_char by lia.
    replace (z mod 10) with z by lia. rewrite !(proj2 (Z.ltb_ge _ _)) by lia. cbn [orb].
    by rewrite Nat.add_1_r.
  - set (nd := num_digits f (z / 10)) in *.
    rewrite Nat2Z.inj_succ, Z.pow_succ_r in * by lia.
    assert (0 < 10 ^ Z.of_nat nd) by (apply Z.pow_pos_nonneg; lia).
    rewrite IH; [|split; [lia|apply Z.div_lt_upper_bound; lia]|lia|fold nd; nia]. fold nd.
    cbn [read_digits]. rewrite to_digit_digit_char by lia.
    rewrite !(proj2 (Z.ltb_ge _ _)) by nia. cbn [orb].
    f_equal; [lia|nia].
Qed.

Lemma num_digits_pos f z : (0 < num_digits (S f) z)%nat.
Proof. cbn [num_digits]. destruct (z / 10 =? 0); lia. Qed.

Lemma read_digits_end radix maxv md n a : read_digits radix maxv md n a "" = Some (n, a, "").
Proof. done. Qed.

(** Printing an unsigned integer and parsing it back at its width. *)
Lemma parse_display_uint w z :
  0 <= w <= 128 → in_u w z → read_number 10 (umax w) None true (display_uint z) = Some (z, "").
Proof.
  intros Hw Hz. unfold in_u in Hz.
  assert (z < 10 ^ 40).
  { apply Z.lt_le_trans with (2 ^ 128); [|lia].
    apply Z.lt_le_trans with (2 ^ w); [lia|]. apply Z.pow_le_mono_r; lia. }
  unfold read_number, display_uint.
  rewrite read_show_digits; [|split; [lia|done]|lia|rewrite Z.mul_0_l; unfold umax; lia].
  rewrite read_digits_end, Z.mul_0_l, Z.add_0_l, Nat.add_0_l.
  pose proof (num_digits_pos 39 z) as Hp.
  by destruct (num_digits 40 z); [lia|].
Qed.

(** Every octet is read back up to the separator that follows it. *)
Definition octet_reads (b : Z) : Prop := ∀ rest,
  read_number 10 255 (Some 3%nat) false (display_uint b +:+ String "."%char rest)
    = Some (b, String "."%char rest) ∧
  read_number 10 255 (Some 3%nat) false (display_uint b +:+ String ":"%char rest)
    = Some (b, String ":"%char rest).

Lemma octets_read : Forall octet_reads (seqZ 0 256).
Proof.
  let l := eval vm_compute in (seqZ 0 256) in change (seqZ 0 256) with l.
  repeat constructor.
Qed.

Lemma octet_read b : in_u 8 b → octet_reads b.
Proof. intros ?. eapply Forall_forall; [exact octets_read|]. apply list_elem_of_In, elem_of_seqZ. unfold in_u in *. lia. Qed.

Lemma octets_v4_four ip :
  ∃ a b c d, octets_v4 ip = [a; b; c; d] ∧ in_u 8 a ∧ in_u 8 b ∧ in_u 8 c ∧ in_u 8 d.
Proof.
  pose proof (length_octets_v4 ip) as Hl. pose proof (to_be_bytes_ok 4 ip) as Hok.
  fold (octets_v4 ip) in Hok. destruct (octets_v4 ip) as [|a [|b [|c [|d [|]]]]]; try done.
  apply bytes_ok_cons in Hok as [? Hok]. apply bytes_ok_cons in Hok as [? Hok].
  apply bytes_ok_cons in Hok as [? Hok]. apply bytes_ok_cons in Hok as [? _].
  by exists a, b, c, d.
Qed.

Lemma string_app_cons x (a b : string) : String x a +:+ b = String x (a +:+ b).
Proof. done. Qed.

Lemma string_app_nil (a : string) : "" +:+ a = a.
Proof. done. Qed.

Lemma string_app_assoc (a b c : string) : (a +:+ b) +:+ c = a +:+ (b +:+ c).
Proof. induction a as [|x a IH]; [done|]. rewrite !string_app_cons. by rewrite IH. Qed.

Lemma read_display_ipv4 ip rest :
  in_u 32 ip →
  read_ipv4_addr (display_ipv4 ip +:+ String ":"%char rest) = Some (ip, String ":"%char rest).
Proof.
  intros Hip. unfold display_ipv4.
  destruct (octets_v4_four ip) as (a & b & c & d & Ho & Ha & Hb & Hc & Hd). rewrite Ho.
  rewrite !string_app_assoc, !string_app_cons, !string_app_nil. unfold read_ipv4_addr, read_octet, read_separator.
  rewrite (proj1 (octet_read a Ha _)). simpl.
  rewrite (proj1 (octet_read b Hb _)). simpl.
  rewrite (proj1 (octet_read c Hc _)). simpl.
  rewrite (proj2 (octet_read d Hd _)). simpl.
  do 2 f_equal. unfold ipv4. rewrite <-Ho. unfold octets_v4. by apply from_to_be_bytes.
Qed.

(** Parsing the text of an IPv4 socket address gives the address back. *)
Lemma parse_display_socket_addr_v4 ip port :
  in_u 32 ip → in_u 16 port →
  parse_socket_addr (display_socket_addr (SockV4 ip port)) = Some (SockV4 ip port).
Proof.
  intros Hip Hp. unfold parse_socket_addr, parse_all, display_socket_addr, read_socket_addr_v4.
  change (":" +:+ display_uint port) with (String ":"%char (display_uint port)).
  rewrite read_display_ipv4 by done. simpl. unfold read_port. simpl.
  change 65535 with (umax 16). by rewrite parse_display_uint by (done || lia).
Qed.

(** A digit is no other character. *)
Lemma digit_char_ne c d : 0 <= d < 16 → to_digit 16 c = None → Ascii.eqb (digit_char d) c = false.
Proof.
  intros Hd Hc. destruct (Ascii.eqb_spec (digit_char d) c) as [<-|]; [|done]. exfalso.
  assert (∃ n, d = Z.of_nat n ∧ (n < 16)%nat) as (n & -> & Hn) by (exists (Z.to_nat d); lia).
  do 16 (destruct n as [|n]; [done|]). lia.
Qed.

(** Printed numbers contain digits only. *)
Lemma show_digits_clean c radix fuel z acc :
  to_digit 16 c = None → 0 < radix <= 16 → str_contains c acc = false →
  str_contains c (show_digits radix fuel z acc) = false.
Proof.
  intros Hc Hr. revert z acc. induction fuel as [|f IH]; intros z acc Hacc; [done|]. cbn [show_digits].
  assert (str_contains c (String (digit_char (z mod radix)) acc) = false).
  { cbn [str_contains]. rewrite digit_char_ne; [done| |done]. pose proof (Z.mod_pos_bound z radix). lia. }
  destruct (_ =? 0); [done|]. by apply IH.
Qed.

Lemma display_uint_clean c z : to_digit 16 c = None → str_contains c (display_uint z) = false.
Proof. intros ?. apply show_digits_clean; done || lia. Qed.
