(* ===== verification/Ipv6Text.v ===== *)
(** The text of IPv6 addresses: what [AddrText] prints is read back, for every
    address, with its run of zeros compressed or its IPv4 tail dotted, and for
    every socket address with its port and scope. *)
From Stdlib Require Import Ascii.
From S2P Require Import Prelude Net AddrText.

#[local] Open Scope string_scope.
#[local] Open Scope Z_scope.

(** * Numbers before a delimiter *)

(** The text does not go on with a digit of the radix. *)
Definition digit_free (radix : Z) (s : string) : bool :=
  match s with String c _ => match to_digit radix c with Some _ => false | None => true end | EmptyString => true end.

(** Digits are read up to a delimiter as they are read up to the end. *)
Lemma read_digits_app radix maxv md count a s n v rest :
  read_digits radix maxv md count a s = Some (n, v, "") → digit_free radix rest = true →
  read_digits radix maxv md count a (s +:+ rest) = Some (n, v, rest).
Proof.
  intros Hs Hr. revert count a Hs. induction s as [|c s IH]; intros count a; rewrite ?string_app_nil, ?string_app_cons;
    cbn [read_digits].
  - intros [= <- <-]. destruct rest as [|c rest]; [done|]. cbn in Hr |- *. by destruct (to_digit radix c).
  - destruct (to_digit radix c) as [d|]; [|done]. destruct (_ || _); [done|].
    destruct (match md with Some m => (m <? S count)%nat | None => false end); [done|]. apply IH.
Qed.

Lemma read_number_app radix maxv md zp s v rest :
  read_number radix maxv md zp s = Some (v, "") → digit_free radix rest = true →
  read_number radix maxv md zp (s +:+ rest) = Some (v, rest).
Proof.
  unfold read_number. intros Hs Hr. destruct (read_digits radix maxv md 0 0 s) as [[[n w] s']|] eqn:Hd; [|done].
  assert (s ≠ "") as Hne by (intros ->; cbn in Hd; by simplify_eq).
  destruct n as [|n]; [done|]. destruct (_ && _ && _) eqn:Hz; [done|]. injection Hs as -> ->.
  rewrite (read_digits_app _ _ _ _ _ _ _ _ _ Hd Hr).
  destruct s as [|c s]; [done|]. rewrite string_app_cons. by rewrite Hz.
Qed.

(** ** Hexadecimal groups *)

Lemma to_digit_hex d : 0 <= d < 16 → to_digit 16 (digit_char d) = Some d.
Proof.
  intros Hd. assert (∃ n, d = Z.of_nat n ∧ (n < 16)%nat) as (n & -> & Hn) by (exists (Z.to_nat d); lia).
  do 16 (destruct n as [|n]; [done|]). lia.
Qed.

(** The number of digits [show_digits] prints in radix 16. *)
Fixpoint hex_digits (fuel : nat) (z : Z) : nat :=
  match fuel with
  | O => 0
  | S f => if z / 16 =? 0 then 1 else S (hex_digits f (z / 16))
  end.

Lemma read_show_hex fuel z count a acc :
  0 <= z < 16 ^ Z.of_nat fuel → 0 <= a → a * 16 ^ Z.of_nat (hex_digits fuel z) + z <= 65535 →
  (count + hex_digits fuel z <= 4)%nat →
  read_digits 16 65535 (Some 4%nat) count a (show_digits 16 fuel z acc) =
  read_digits 16 65535 (Some 4%nat) (count + hex_digits fuel z) (a * 16 ^ Z.of_nat (hex_digits fuel z) + z) acc.
Proof.
  revert z count a acc. induction fuel as [|f IH]; intros z count a acc Hz Ha Hmax Hc.
  { simpl in *. assert (z = 0) as -> by lia. by rewrite Nat.add_0_r, Z.mul_1_r, Z.add_0_r. }
  rewrite Nat2Z.inj_succ, Z.pow_succ_r in Hz by lia.
  pose proof (Z.div_mod z 16 ltac:(lia)). pose proof (Z.mod_pos_bound z 16 ltac:(lia)).
  pose proof (Z.div_pos z 16 ltac:(lia) ltac:(lia)).
  cbn [show_digits hex_digits] in *. destruct (Z.eqb_spec (z / 16) 0) as [E|E].
  - change (16 ^ Z.of_nat 1) with 16 in *. cbn [read_digits]. rewrite to_digit_hex by lia.
    replace (z mod 16) with z by lia. rewrite !(proj2 (Z.ltb_ge _ _)) by lia. cbn [orb].
    rewrite (proj2 (Nat.ltb_ge _ _)) by lia. by rewrite Nat.add_1_r.
  - set (nd := hex_digits f (z / 16)) in *.
    rewrite Nat2Z.inj_succ, Z.pow_succ_r in * by lia.
    assert (0 < 16 ^ Z.of_nat nd) by (apply Z.pow_pos_nonneg; lia).
    rewrite IH; [|split; [lia|apply Z.div_lt_upper_bound; lia]|lia|fold nd; nia|fold nd; lia]. fold nd.
    cbn [read_digits]. rewrite to_digit_hex by lia.
    rewrite !(proj2 (Z.ltb_ge _ _)) by nia. cbn [orb]. rewrite (proj2 (Nat.ltb_ge _ _)) by lia.
    f_equal; [lia|nia].
Qed.

Lemma hex_digits_le fuel n z : 0 <= z < 16 ^ Z.of_nat (S n) → (hex_digits fuel z <= S n)%nat.
Proof.
  revert n z. induction fuel as [|f IH]; intros n z Hz; cbn [hex_digits]; [lia|].
  destruct (Z.eqb_spec (z / 16) 0); [lia|]. rewrite Nat2Z.inj_succ, Z.pow_succ_r in Hz by lia.
  assert (0 <= z / 16 < 16 ^ Z.of_nat n) as Hd by (split; [apply Z.div_pos; lia|apply Z.div_lt_upper_bound; lia]).
  destruct n as [|n]; [simpl in Hd; lia|]. specialize (IH n (z / 16) Hd). lia.
Qed.

Lemma hex_digits_group z : in_u 16 z → (0 < hex_digits 40 z <= 4)%nat.
Proof.
  unfold in_u. intros Hz. split; [|apply (hex_digits_le 40 3 z); done].
  cbn [hex_digits]. destruct (_ =? 0); lia.
Qed.

(** A 16-bit group is read back up to whatever follows that is not a digit. *)
Lemma read_hex_group g rest :
  in_u 16 g → digit_free 16 rest = true →
  read_number 16 65535 (Some 4%nat) true (display_hex g +:+ rest) = Some (g, rest).
Proof.
  intros Hg Hr. apply read_number_app; [|done]. unfold read_number, display_hex.
  pose proof (hex_digits_group g Hg) as Hd. unfold in_u in Hg.
  rewrite read_show_hex; [|split; [lia|]|lia|rewrite Z.mul_0_l; lia|lia].
  - rewrite read_digits_end, Z.mul_0_l, Z.add_0_l, Nat.add_0_l. by destruct (hex_digits 40 g); [lia|].
  - apply Z.lt_trans with (2 ^ 16); [lia|done].
Qed.

(** ** No IPv4 address starts here *)

(** The first character that is not a decimal digit is not a dot. *)
Fixpoint dotless (s : string) : bool :=
  match s with
  | EmptyString => true
  | String c s' => match to_digit 10 c with Some _ => dotless s' | None => negb (Ascii.eqb c "."%char) end
  end.

Lemma read_digits_dotless maxv md count a s n v s' :
  read_digits 10 maxv md count a s = Some (n, v, s') → dotless s = true → read_given_char "."%char s' = None.
Proof.
  revert count a. induction s as [|c s IH]; intros count a; cbn [read_digits dotless].
  - by intros [= <- <- <-].
  - destruct (to_digit 10 c) as [d|].
    + destruct (_ || _); [done|]. destruct (match md with Some m => _ | None => false end); [done|]. apply IH.
    + intros [= <- <- <-] Hc. cbn. by destruct (Ascii.eqb c "."%char).
Qed.

Lemma read_ipv4_dotless s : dotless s = true → read_ipv4_addr s = None.
Proof.
  intros Hs. unfold read_ipv4_addr, read_octet, read_separator, read_number.
  destruct (read_digits 10 255 (Some 3%nat) 0 0 s) as [[[[|n] v] s']|] eqn:Hd; [done| |done].
  case_match; [done|]. cbn. by rewrite (read_digits_dotless _ _ _ _ _ _ _ _ Hd Hs).
Qed.

Lemma dotless_show_hex fuel z acc : dotless acc = true → dotless (show_digits 16 fuel z acc) = true.
Proof.
  revert z acc. induction fuel as [|f IH]; intros z acc Hacc; cbn [show_digits]; [done|].
  assert (dotless (String (digit_char (z mod 16)) acc) = true) as Hd.
  { cbn [dotless]. destruct (to_digit 10 _); [done|]. rewrite digit_char_ne; [done| |done].
    pose proof (Z.mod_pos_bound z 16). lia. }
  destruct (_ =? 0); [done|]. by apply IH.
Qed.

Lemma show_digits_acc radix fuel z acc rest :
  show_digits radix fuel z acc +:+ rest = show_digits radix fuel z (acc +:+ rest).
Proof.
  revert z acc. induction fuel as [|f IH]; intros z acc; cbn [show_digits]; [done|].
  destruct (_ =? 0); [done|]. by rewrite IH, string_app_cons.
Qed.

Lemma dotless_hex g rest : dotless rest = true → dotless (display_hex g +:+ rest) = true.
Proof. intros. unfold display_hex. rewrite show_digits_acc. by apply dotless_show_hex. Qed.

(** * Lists of groups *)

(** The groups after the first, each with its colon. *)
Fixpoint colon_groups (gs : list Z) : string :=
  match gs with
  | [] => ""
  | g :: gs' => ":" +:+ display_hex g +:+ colon_groups gs'
  end.

(** The text of the groups from position [i] on. *)
Definition groups_text (i : nat) (gs : list Z) : string :=
  match i, gs with
  | O, g :: gs' => display_hex g +:+ colon_groups gs'
  | _, _ => colon_groups gs
  end.

Lemma display_segments_text gs : display_segments gs = groups_text 0 gs.
Proof.
  unfold display_segments. destruct gs as [|g gs]; [done|]. revert g.
  induction gs as [|h gs IH]; intros g.
  - change (display_hex g = show_digits 16 40 g "" +:+ ""). by rewrite show_digits_acc.
  - change (join ":" (display_hex <$> g :: h :: gs)) with (display_hex g +:+ ":" +:+ join ":" (display_hex <$> h :: gs)).
    rewrite IH. done.
Qed.

(** What follows a list of groups: no digit, no dot, and no further group. *)
Definition group_end (i : nat) (rest : string) : bool :=
  digit_free 16 rest && dotless rest &&
  match i, rest with
  | O, _ => true
  | _, String ":" rest' => digit_free 16 rest'
  | _, _ => true
  end.

Lemma digit_free_dec s : digit_free 16 s = true → digit_free 10 s = true.
Proof.
  destruct s as [|c s]; [done|]. cbn. unfold to_digit.
  match goal with |- context [?d <? 16] => destruct (Z.ltb_spec d 16), (Z.ltb_spec d 10); done || lia end.
Qed.

Lemma read_number_none radix maxv md zp s : digit_free radix s = true → read_number radix maxv md zp s = None.
Proof.
  intros Hs. unfold read_number. destruct s as [|c s]; [done|]. cbn in Hs |- *. by destruct (to_digit radix c).
Qed.

Lemma read_groups_end limit i rest : group_end i rest = true → read_groups limit i rest = ([], false, rest).
Proof.
  unfold group_end. intros Hr. apply andb_true_iff in Hr as [[Hf Hd]%andb_true_iff Hc].
  assert (∀ {A} (p : string → option (A * string)),
    (∀ s, digit_free 16 s = true → p s = None) → read_separator ":"%char i p rest = None) as Hsep.
  { intros A p Hp. unfold read_separator. destruct i as [|i]; [by apply Hp|].
    destruct rest as [|c rest]; [done|]. cbn. destruct (Ascii.eqb_spec c ":"%char) as [->|]; [|done]. by apply Hp. }
  destruct limit as [|more]; [done|]. cbn [read_groups].
  rewrite (Hsep _ (read_number 16 65535 (Some 4%nat) true)) by (intros; by apply read_number_none).
  rewrite (Hsep _ read_ipv4_addr).
  - by destruct (1 <=? more)%nat.
  - intros s Hs. unfold read_ipv4_addr, read_octet. cbn. by rewrite read_number_none by by apply digit_free_dec.
Qed.

Lemma colon_groups_end gs rest :
  group_end 1 rest = true → digit_free 16 (colon_groups gs +:+ rest) = true ∧ dotless (colon_groups gs +:+ rest) = true.
Proof.
  intros Hr. destruct gs as [|g gs]; [|by split]. unfold group_end in Hr. rewrite string_app_nil.
  apply andb_true_iff in Hr as [[-> ->]%andb_true_iff _]. done.
Qed.

(** Groups are read back up to their end, or as many as are asked for. *)
Lemma read_groups_text limit i gs rest :
  Forall (in_u 16) gs → (length gs <= limit)%nat → group_end (i + length gs) rest = true →
  group_end 1 rest = true →
  read_groups limit i (groups_text i gs +:+ rest) = (gs, false, rest).
Proof.
  intros Hgs. revert limit i. induction Hgs as [|g gs Hg Hgs IH]; intros limit i Hl He He1.
  { rewrite Nat.add_0_r in He. unfold groups_text. destruct i; by apply read_groups_end. }
  destruct limit as [|more]; [simpl in Hl; lia|]. cbn [read_groups].
  destruct (colon_groups_end gs rest He1) as [Hf Hd].
  assert (∀ {A} (p : string → option (A * string)),
    read_separator ":"%char i p (groups_text i (g :: gs) +:+ rest) = p (display_hex g +:+ (colon_groups gs +:+ rest))) as Hsep.
  { intros A p. unfold read_separator, groups_text. destruct i as [|i]; cbn [colon_groups]; by rewrite ?string_app_assoc. }
  rewrite !Hsep, read_ipv4_dotless by by apply dotless_hex.
  rewrite read_hex_group by done.
  assert (groups_text (S i) gs = colon_groups gs) as Ht by (by destruct gs).
  rewrite <-Ht, IH; [by destruct (1 <=? more)%nat|simpl in Hl; lia| |done].
  by replace (S i + length gs)%nat with (i + length (g :: gs))%nat by (simpl; lia).
Qed.

(** * The run of zeros *)

Definition zero_run (l : list Z) (r : nat * nat) : Prop :=
  ∀ k, (r.1 <= k < r.1 + r.2)%nat → l !! k = Some 0.

Lemma longest_zero_run_sound pre gs cur best :
  zero_run (pre ++ gs) cur → zero_run (pre ++ gs) best → (cur.2 = 0 ∨ cur.1 + cur.2 = length pre)%nat →
  zero_run (pre ++ gs) (longest_zero_run gs (length pre) cur best).
Proof.
  revert pre cur best. induction gs as [|g gs IH]; intros pre cur best Hc Hb Hend; cbn [longest_zero_run]; [done|].
  replace (pre ++ g :: gs)%list with ((pre ++ [g]) ++ gs)%list in * by (by rewrite <-app_assoc).
  replace (S (length pre)) with (length (pre ++ [g])) by (rewrite length_app; simpl; lia).
  assert (((pre ++ [g]) ++ gs)%list !! length pre = Some g) as Hg
    by (rewrite <-app_assoc; by apply list_lookup_middle).
  destruct (Z.eqb_spec g 0) as [->|_].
  - set (cur' := if decide (cur.2 = 0%nat) then (length pre, 1%nat) else (cur.1, S cur.2)).
    assert (zero_run ((pre ++ [0]) ++ gs) cur' ∧ (cur'.1 + cur'.2 = S (length pre))%nat) as [Hc' He'].
    { unfold cur'. destruct (decide (cur.2 = 0%nat)) as [E|E]; cbn [fst snd].
      - split; [|lia]. intros k Hk. cbn in Hk. by replace k with (length pre) by lia.
      - destruct Hend as [|Hend]; [done|]. split; [|lia]. intros k Hk. cbn in Hk.
        destruct (decide (k = length pre)) as [->|]; [done|]. apply Hc. lia. }
    apply IH; [done|by destruct (_ <? _)%nat|right]. rewrite length_app. simpl. lia.
  - apply IH; [|done|by left]. intros k Hk. cbn in Hk. lia.
Qed.

(** The groups around the compressed run, and the run itself. *)
Lemma zero_run_split gs st n :
  zero_run gs (st, n) → (0 < n)%nat → (st + n <= length gs)%nat ∧
  (take st gs ++ replicate n 0 ++ drop (st + n) gs)%list = gs.
Proof.
  intros Hz Hn.
  assert (st + n <= length gs)%nat as Hl.
  { pose proof (Hz (st + n - 1)%nat ltac:(cbn; lia)) as Hl. apply lookup_lt_Some in Hl. lia. }
  split; [done|]. rewrite <-(take_drop st gs) at 3. f_equal.
  rewrite <-(take_drop n (drop st gs)), drop_drop. f_equal. apply replicate_as_Forall. split.
  - rewrite length_take, length_drop. lia.
  - apply list.Forall_lookup. intros k x Hk. apply lookup_take_Some in Hk as [Hk Hlt]. rewrite lookup_drop in Hk.
    rewrite (Hz (st + k)%nat) in Hk by (cbn; lia). by injection Hk.
Qed.

(** * Addresses *)

(** Bytes in pairs, most significant first. *)
Lemma segments_of_bytes ip :
  in_u 128 ip → length (segments ip) = 8%nat ∧ Forall (in_u 16) (segments ip) ∧ ipv6_of_groups (segments ip) = ip.
Proof.
  intros Hip. unfold segments. pose proof (length_octets_v6 ip) as Hl. pose proof (to_be_bytes_ok 16 ip) as Hok.
  fold (octets_v6 ip) in Hok. pose proof (from_to_be_bytes 16 ip Hip) as Hb. fold (octets_v6 ip) in Hb.
  destruct (octets_v6 ip) as [|a0 [|a1 [|a2 [|a3 [|a4 [|a5 [|a6 [|a7 [|a8 [|a9 [|a10 [|a11 [|a12 [|a13 [|a14 [|a15 [|]]]]]]]]]]]]]]]]];
    try done. split; [done|]. split.
  - unfold bytes_ok in Hok. repeat (apply list.Forall_cons in Hok as [? Hok]). cbn [groups_of_bytes].
    repeat constructor; unfold in_u in *; lia.
  - rewrite <-Hb. unfold from_be_bytes. cbn -[Z.mul Z.add]. unfold ipv6_of_groups. cbn -[Z.mul Z.add]. lia.
Qed.

Definition octet_whole (b : Z) : Prop :=
  read_number 10 255 (Some 3%nat) false (display_uint b) = Some (b, "").

Lemma octets_whole : Forall octet_whole (seqZ 0 256).
Proof.
  let l := eval vm_compute in (seqZ 0 256) in change (seqZ 0 256) with l.
  repeat constructor.
Qed.

Lemma read_octet_end b rest :
  in_u 8 b → digit_free 10 rest = true →
  read_number 10 255 (Some 3%nat) false (display_uint b +:+ rest) = Some (b, rest).
Proof.
  intros Hb Hr. apply read_number_app; [|done]. fold (octet_whole b). eapply Forall_forall; [exact octets_whole|].
  apply list_elem_of_In, elem_of_seqZ. unfold in_u in *. lia.
Qed.

(** An IPv4 address is read back up to whatever follows that is not a digit. *)
Lemma read_display_ipv4_end ip rest :
  in_u 32 ip → digit_free 10 rest = true → read_ipv4_addr (display_ipv4 ip +:+ rest) = Some (ip, rest).
Proof.
  intros Hip Hr. unfold display_ipv4.
  destruct (octets_v4_four ip) as (a & b & c & d & Ho & Ha & Hb & Hc & Hd). rewrite Ho.
  rewrite !string_app_assoc, !string_app_cons, !string_app_nil. unfold read_ipv4_addr, read_octet, read_separator.
  rewrite (read_octet_end a) by done. cbn. rewrite (read_octet_end b) by done. cbn.
  rewrite (read_octet_end c) by done. cbn. rewrite (read_octet_end d) by done. cbn.
  do 2 f_equal. unfold ipv4. rewrite <-Ho. unfold octets_v4. by apply from_to_be_bytes.
Qed.

(** What may follow an IPv6 address: its scope, the closing bracket, or nothing. *)
Definition addr_end (rest : string) : bool :=
  match rest with EmptyString => true | String c _ => Ascii.eqb c "]"%char || Ascii.eqb c "%"%char end.

Lemma addr_end_cases rest :
  addr_end rest = true → rest = "" ∨ (∃ r, rest = String "]"%char r) ∨ (∃ r, rest = String "%"%char r).
Proof.
  destruct rest as [|c r]; [by left|]. cbn. destruct (Ascii.eqb_spec c "]"%char) as [->|]; [eauto|].
  destruct (Ascii.eqb_spec c "%"%char) as [->|]; [eauto|done].
Qed.

Lemma addr_end_group i rest : addr_end rest = true → group_end i rest = true ∧ digit_free 10 rest = true.
Proof. intros [->|[[r ->]|[r ->]]]%addr_end_cases; by destruct i. Qed.

(** The dotted form of an IPv4-mapped address. *)
Lemma read_ipv6_mapped ip rest :
  in_u 128 ip → ip / 2 ^ 32 = 0xffff → addr_end rest = true →
  read_ipv6_addr ("::ffff:" +:+ display_ipv4 (ip mod 2 ^ 32) +:+ rest) = Some (ip, rest).
Proof.
  intros Hip Hm Hr. destruct (addr_end_group 1 rest Hr) as [_ Hr10]. unfold read_ipv6_addr.
  change ("::ffff:" +:+ display_ipv4 (ip mod 2 ^ 32) +:+ rest) with
    (String ":"%char (String ":"%char ("ffff:" +:+ display_ipv4 (ip mod 2 ^ 32) +:+ rest))).
  rewrite read_groups_end by done. cbn [length Nat.eqb read_given_char Ascii.eqb Bool.eqb mbind option_bind Nat.sub Nat.add].
  assert (0 <= ip mod 2 ^ 32 < 2 ^ 32) as Hv by (apply Z.mod_pos_bound; lia).
  assert (read_groups 7 0 ("ffff:" +:+ display_ipv4 (ip mod 2 ^ 32) +:+ rest) =
    ([0xffff; ip mod 2 ^ 32 / 65536; ip mod 2 ^ 32 mod 65536], true, rest)) as ->.
  { change ("ffff:" +:+ display_ipv4 (ip mod 2 ^ 32) +:+ rest) with
      ("ffff" +:+ String ":"%char (display_ipv4 (ip mod 2 ^ 32) +:+ rest)).
    change "ffff" with (display_hex 0xffff). cbn [read_groups Nat.leb read_separator].
    rewrite read_ipv4_dotless by by apply dotless_hex. rewrite read_hex_group by done.
    cbn [read_given_char Ascii.eqb Bool.eqb mbind option_bind]. by rewrite read_display_ipv4_end. }
  cbn. do 2 f_equal. unfold ipv6_of_groups. cbn -[Z.mul Z.add Z.div Z.modulo Z.pow].
  pose proof (Z.div_mod ip (2 ^ 32)). pose proof (Z.div_mod (ip mod 2 ^ 32) 65536). lia.
Qed.

(** The compressed and the full form. *)
Lemma read_ipv6_groups gs rest :
  length gs = 8%nat → Forall (in_u 16) gs → addr_end rest = true →
  read_ipv6_addr (display_segments gs +:+ rest) = Some (ipv6_of_groups gs, rest).
Proof.
  intros Hl Hgs Hr. unfold read_ipv6_addr. rewrite display_segments_text.
  rewrite read_groups_text by (done || lia || by apply addr_end_group). by rewrite Hl.
Qed.

Lemma read_ipv6_compressed gs st n rest :
  length gs = 8%nat → Forall (in_u 16) gs → addr_end rest = true → zero_run gs (st, n) → (1 < n)%nat →
  read_ipv6_addr ((display_segments (take st gs) +:+ "::" +:+ display_segments (drop (st + n) gs)) +:+ rest)
  = Some (ipv6_of_groups gs, rest).
Proof.
  intros Hl Hgs Hr Hz Hn. destruct (zero_run_split gs st n Hz ltac:(lia)) as [Hb Hsplit].
  unfold read_ipv6_addr. rewrite !display_segments_text, !string_app_assoc, !string_app_cons, string_app_nil.
  set (tail := groups_text 0 (drop (st + n) gs) +:+ rest).
  rewrite read_groups_text; [|by apply list.Forall_take|rewrite length_take; lia|by destruct (0 + _)%nat|done].
  assert (length (take st gs) = st) as Hst by (rewrite length_take; lia).
  rewrite Hst. rewrite (proj2 (Nat.eqb_neq _ _)) by lia.
  cbn [read_given_char Ascii.eqb Bool.eqb mbind option_bind]. unfold tail.
  assert (length (drop (st + n) gs) = 8 - (st + n))%nat as Hd by (rewrite length_drop; lia).
  rewrite read_groups_text; [|by apply list.Forall_drop|rewrite Hd; lia|by apply addr_end_group|by apply addr_end_group].
  rewrite Hd. replace (8 - st - (8 - (st + n)))%nat with n by lia. by rewrite Hsplit.
Qed.

(** Every IPv6 address is read back from its text. *)
Lemma read_display_ipv6 ip rest :
  in_u 128 ip → addr_end rest = true → read_ipv6_addr (display_ipv6 ip +:+ rest) = Some (ip, rest).
Proof.
  intros Hip Hr. unfold display_ipv6. destruct (Z.eqb_spec (ip / 2 ^ 32) 0xffff) as [Hm|_].
  { rewrite string_app_assoc. by apply read_ipv6_mapped. }
  destruct (segments_of_bytes ip Hip) as (Hl & Hgs & Hip').
  assert (zero_run (segments ip) (longest_zero_run (segments ip) 0 (0%nat, 0%nat) (0%nat, 0%nat))) as Hz.
  { apply (longest_zero_run_sound [] (segments ip)); [intros k Hk; cbn in Hk; lia..|by left]. }
  destruct (longest_zero_run _ _ _ _) as [st n]. destruct (Nat.ltb_spec 1 n) as [Hn|_].
  - rewrite read_ipv6_compressed by done. by rewrite Hip'.
  - rewrite read_ipv6_groups by done. by rewrite Hip'.
Qed.

Lemma parse_port_end port : in_u 16 port → read_number 10 65535 None true (display_uint port) = Some (port, "").
Proof. intros. change 65535 with (umax 16). by rewrite parse_display_uint by (done || lia). Qed.

(** Socket addresses survive their text.  Parsing what the [Display] instance
    printed gives back every socket address, IPv4 or IPv6, with compressed
    zeros, a dotted IPv4 tail or a scope, except for the flow label of an IPv6
    address, which is not printed. *)
Lemma parse_display_socket_addr a :
  sa_wf a →
  parse_socket_addr (display_socket_addr a) =
    Some (match a with SockV4 ip p => SockV4 ip p | SockV6 ip p _ scope => SockV6 ip p 0 scope end).
Proof.
  destruct a as [ip p|ip p f scope]; [intros [? ?]; by apply parse_display_socket_addr_v4|].
  intros (Hip & Hp & Hf & Hs).
  assert (∀ mid rest sc, addr_end mid = true → read_scope_id mid = sc →
    match sc with Some (z, m) => m = "]:" +:+ display_uint p ∧ z = scope | None => mid = "]:" +:+ display_uint p ∧ scope = 0 end →
    rest = String "["%char (display_ipv6 ip +:+ mid) →
    parse_socket_addr rest = Some (SockV6 ip p 0 scope)) as Hmain.
  { intros mid rest sc Hm Hsc Hcase ->. unfold parse_socket_addr, parse_all, read_socket_addr_v4.
    rewrite read_ipv4_dotless by done. cbn [mbind option_bind]. unfold read_socket_addr_v6.
    cbn [read_given_char Ascii.eqb Bool.eqb mbind option_bind]. rewrite read_display_ipv6 by done.
    cbn [mbind option_bind]. rewrite Hsc.
    destruct sc as [[z m]|]; destruct Hcase as [-> ->]; cbn [read_given_char Ascii.eqb Bool.eqb mbind option_bind];
      rewrite ?string_app_cons, ?string_app_nil; unfold read_port;
      cbn [read_given_char Ascii.eqb Bool.eqb mbind option_bind]; by rewrite parse_port_end. }
  unfold display_socket_addr. destruct (Z.eq_dec scope 0) as [->|Hne].
  - by eapply (Hmain ("]:" +:+ display_uint p) _ None).
  - assert (read_scope_id ("%" +:+ display_uint scope +:+ "]:" +:+ display_uint p)
      = Some (scope, "]:" +:+ display_uint p)) as Hscope.
    { change ("%" +:+ display_uint scope +:+ "]:" +:+ display_uint p)
        with (String "%"%char (display_uint scope +:+ "]:" +:+ display_uint p)).
      unfold read_scope_id. cbn [read_given_char Ascii.eqb Bool.eqb mbind option_bind].
      apply (read_number_app 10 _ None true (display_uint scope)); [|done]. by apply parse_display_uint. }
    destruct scope; [done|..]; by eapply (Hmain ("%" +:+ display_uint _ +:+ "]:" +:+ display_uint p) _ (Some _)).
Qed.

Example display_scoped :
  display_socket_addr (SockV6 0x20010db8000000000001000000000001 443 7 3) = "[2001:db8::1:0:0:1%3]:443".
Proof. by vm_compute. Qed.
