(* ===== verification/Message.v ===== *)
(** Control messages and datagram framing: [src/src/tunnel_message.rs].

    The serialisation itself is the [bincode] crate, which is a parameter here:
    the class [Bincode] has its two entry points and [BincodeLaws] what the
    source relies on.  [BincodeStd.v] gives an instance. *)
From S2P Require Import Prelude Io Net Target AddrText.

Definition MAX_TUNNEL_MESSAGE_SIZE : Z := 64 * 1024.

(** * Messages *)
Record ServerCapabilities : Type := mkServerCapabilities { ipv6_supported : bool }.

Record LoginInfo : Type := mkLoginInfo {
  li_password : string;
  li_tunnel : Tunnel;
  li_tcp_timeout_ms : Z;
  li_udp_timeout_ms : Z
}.

Inductive TunnelMessage : Type :=
| ReqLogin (info : LoginInfo)
| ReqHeartbeat (seq : Z)
| RespHeartbeat (seq : Z)
| RespFailure (msg : string)
| RespSuccess (caps : ServerCapabilities).

(** Every field holds a value of its Rust type. *)
Definition opt_sa_wf (o : option SocketAddr) : Prop :=
  match o with Some a => sa_wf a | None => True end.

Definition tunnel_wf (t : Tunnel) : Prop :=
  match t with
  | NetworkBased cfg => opt_sa_wf (local_server_addr cfg) ∧ opt_sa_wf (upstream_addr (upstream cfg))
  | ChannelBased _ => True
  end.

Definition login_wf (i : LoginInfo) : Prop :=
  string_wf (li_password i) ∧ tunnel_wf (li_tunnel i) ∧
  in_u 64 (li_tcp_timeout_ms i) ∧ in_u 64 (li_udp_timeout_ms i).

Definition message_wf (m : TunnelMessage) : Prop :=
  match m with
  | ReqLogin i => login_wf i
  | ReqHeartbeat s | RespHeartbeat s => in_u 64 s
  | RespFailure s => string_wf s
  | RespSuccess _ => True
  end.

#[export] Instance opt_sa_wf_dec o : Decision (opt_sa_wf o).
Proof. destruct o; simpl; apply _. Defined.
#[export] Instance tunnel_wf_dec t : Decision (tunnel_wf t).
Proof. destruct t; simpl; apply _. Defined.
#[export] Instance message_wf_dec m : Decision (message_wf m).
Proof. destruct m; simpl; unfold login_wf; apply _. Defined.

(** Serde serialises an IPv6 socket address without flow info and scope id. *)
Definition tunnel_normalize (t : Tunnel) : Tunnel :=
  match t with
  | NetworkBased cfg =>
      NetworkBased (mkTunnelConfig (mode cfg) (sa_normalize <$> local_server_addr cfg)
        (mkUpstream (sa_normalize <$> upstream_addr (upstream cfg)) (upstream_type (upstream cfg))))
  | ChannelBased t => ChannelBased t
  end.

Definition message_normalize (m : TunnelMessage) : TunnelMessage :=
  match m with
  | ReqLogin i => ReqLogin (mkLoginInfo (li_password i) (tunnel_normalize (li_tunnel i))
                              (li_tcp_timeout_ms i) (li_udp_timeout_ms i))
  | _ => m
  end.

(** * Display *)
Definition display_login_info (i : LoginInfo) : string :=
  match li_tunnel i with
  | ChannelBased t => display_upstream_type t +:+ "_ChannelBased"
  | NetworkBased cfg =>
      display_upstream_type (upstream_type (upstream cfg)) +:+ "_" +:+ display_mode (mode cfg)
  end.

Definition display_message (m : TunnelMessage) : string :=
  match m with
  | ReqLogin i => display_login_info i
  | ReqHeartbeat s => "heartbeat:req:" +:+ display_uint s
  | RespHeartbeat s => "heartbeat:resp:" +:+ display_uint s
  | RespFailure m => "fail:" +:+ m
  | RespSuccess c => "succeeded:ipv6_supported=" +:+ (if ipv6_supported c then "true" else "false")
  end.

(** [format_with_remote_addr]; [None] is the panic of [unwrap]. *)
Definition format_with_remote_addr (i : LoginInfo) (remote_addr : SocketAddr) : option string :=
  let remote := display_socket_addr remote_addr in
  match li_tunnel i with
  | ChannelBased t => Some (display_upstream_type t +:+ "_ChannelBased →  " +:+ remote)
  | NetworkBased cfg =>
      let u := upstream cfg in
      let upstream_str :=
        match upstream_addr u with
        | Some a =>
            if ip_is_loopback (sa_ip a)
            then display_ip (sa_ip remote_addr) +:+ ":" +:+ display_uint (sa_port a)
            else display_socket_addr a
        | None => "PeerDefault"
        end in
      let ut := display_upstream_type (upstream_type u) in
      match mode cfg with
      | ModeOut =>
          local ← local_server_addr cfg;
          Some (ut +:+ "_OUT →  " +:+ display_socket_addr local +:+ " →  " +:+ remote
                +:+ " →  " +:+ upstream_str)
      | ModeIn =>
          local ← local_server_addr cfg;
          Some (ut +:+ "_IN ←  " +:+ display_socket_addr local +:+ " ←  " +:+ remote
                +:+ " ←  " +:+ upstream_str)
      end
  end.

(** * The [bincode] interface *)
Class Bincode : Type := {
  encode_to_vec : TunnelMessage → option (list Z);
  decode_from_slice : list Z → option (TunnelMessage * nat)
}.

(** What the source relies on: serialising a message yields bytes, decoding
    them returns the message and their number, and an enum tag with a [u64] takes
    at most 10 bytes (a variable-length integer is at most 9). *)
Class BincodeLaws `{!Bincode} : Prop := {
  encode_total m : message_wf m → is_Some (encode_to_vec m);
  encode_bytes m bs : encode_to_vec m = Some bs → bytes_ok bs;
  decode_encode m bs : message_wf m → encode_to_vec m = Some bs →
    decode_from_slice bs = Some (message_normalize m, length bs);
  encode_heartbeat_small s bs :
    encode_to_vec (ReqHeartbeat s) = Some bs ∨ encode_to_vec (RespHeartbeat s) = Some bs →
    (length bs <= 10)%nat
}.

(** * Framing *)
Inductive msg_error : Type :=
| MsgIo (e : io_error)
| MsgTooLarge (n : Z)
| MsgDecode
| MsgEncode.

Section framing.
Context `{!Bincode}.

(** [TunnelMessage::recv_from]; [timed] tells whether the caller wrapped it in
    [tokio::time::timeout]. *)
Definition recv_from (timed : bool) : eff reader msg_error TunnelMessage :=
  msg_len ← eff_map_err MsgIo (read_uint timed 4);
  if MAX_TUNNEL_MESSAGE_SIZE <? msg_len then throw (MsgTooLarge msg_len) else
  msg ← eff_map_err MsgIo (read_exact timed (Z.to_nat msg_len));
  tun_msg ← lift (ok_or MsgDecode (decode_from_slice msg));
  mret tun_msg.1.

(** [TunnelMessage::send_to]. *)
Definition send_to (msg : TunnelMessage) : eff writer msg_error unit :=
  msg ← lift (ok_or MsgEncode (encode_to_vec msg));
  _ ← eff_map_err MsgIo (write_uint 4 (wrap 32 (Z.of_nat (length msg))));
  _ ← eff_map_err MsgIo (write_all msg);
  mret ().

(** [TunnelMessage::send_failure] (the flush and the 200 ms pause have no
    effect on the bytes). *)
Definition send_failure (msg : string) : eff writer msg_error unit :=
  send_to (RespFailure msg).
End framing.

(** [TunnelMessage::recv_raw_from] into a buffer of [cap] bytes: the datagram. *)
Definition recv_raw_from (timed : bool) (cap : nat) : eff reader msg_error (list Z) :=
  msg_len ← eff_map_err MsgIo (read_uint timed 2);
  if Z.of_nat cap <? msg_len then throw (MsgTooLarge msg_len) else
  eff_map_err MsgIo (read_exact timed (Z.to_nat msg_len)).

(** [TunnelMessage::send_raw_to]. *)
Definition send_raw_to (data : list Z) : eff writer msg_error unit :=
  _ ← eff_map_err MsgIo (write_uint 2 (wrap 16 (Z.of_nat (length data))));
  _ ← eff_map_err MsgIo (write_all data);
  mret ().

(** * Sequences of operations *)

(** Send a list, stopping at the first error. *)
Fixpoint send_each {A} (send : A → eff writer msg_error unit) (l : list A) :
  eff writer msg_error unit :=
  match l with
  | [] => mret ()
  | x :: l' => _ ← send x; send_each send l'
  end.

(** Receive [n] times, stopping at the first error. *)
Fixpoint recv_each {A} (recv : eff reader msg_error A) (n : nat) : eff reader msg_error (list A) :=
  match n with
  | O => mret []
  | S n' => x ← recv; xs ← recv_each recv n'; mret (x :: xs)
  end.

(** The two halves of a frame format compose to sequences: if each frame is
    inverted in any context, so is any number of frames. *)
Lemma frames_roundtrip {A B} (send : A → eff writer msg_error unit) (recv : eff reader msg_error B)
    (frame : A → list Z) (f : A → B) (P : A → Prop) :
  (∀ x w, P x → w_room w = None → send x w = (Ok (), Writer (w_out w ++ frame x) None)) →
  (∀ x r rest, P x → delivers r (frame x ++ rest) → ∃ r', recv r = (Ok (f x), r') ∧ delivers r' rest) →
  ∀ l w, Forall P l → w_room w = None →
  ∃ bytes, send_each send l w = (Ok (), Writer (w_out w ++ bytes) None) ∧
    ∀ r rest, delivers r (bytes ++ rest) →
      ∃ r', recv_each recv (length l) r = (Ok (f <$> l), r') ∧ delivers r' rest.
Proof.
  intros Hsend Hrecv l. induction l as [|x l IH]; intros w Hl Hw.
  - exists []. rewrite app_nil_r. destruct w; simpl in *; subst. split; [done|].
    intros r rest Hd. by exists r.
  - apply Forall_cons_1 in Hl as [Hx Hl].
    destruct (IH (Writer (w_out w ++ frame x) None) Hl eq_refl) as (bytes & Hs & Hr).
    exists (frame x ++ bytes). split.
    + cbn [send_each]. rewrite (eff_bind_ok _ _ _ _ _ (Hsend x w Hx Hw)). rewrite Hs. simpl.
      by rewrite <-app_assoc.
    + intros r rest. rewrite <-app_assoc. intros Hd.
      destruct (Hrecv x r _ Hx Hd) as (r1 & Hr1 & Hd1).
      destruct (Hr r1 rest Hd1) as (r2 & Hr2 & Hd2). exists r2. split; [|done].
      cbn [recv_each length]. rewrite (eff_bind_ok _ _ _ _ _ Hr1), (eff_bind_ok _ _ _ _ _ Hr2). done.
Qed.

Lemma map_err_ok {S E F A} (f : E → F) (m : eff S E A) s a s' :
  m s = (Ok a, s') → eff_map_err f m s = (Ok a, s').
Proof. unfold eff_map_err. by intros ->. Qed.

Lemma map_err_err {S E F A} (f : E → F) (m : eff S E A) s e s' :
  m s = (Err e, s') → eff_map_err f m s = (Err (f e), s').
Proof. unfold eff_map_err. by intros ->. Qed.

(** Writing a length prefix and a body to a transport that does not fail. *)
Lemma write_frame n z body w :
  w_room w = None →
  (_ ← eff_map_err MsgIo (write_uint n z); _ ← eff_map_err MsgIo (write_all body); mret ()) w =
  (Ok (), Writer (w_out w ++ to_be_bytes n z ++ body) None).
Proof.
  intros Hw. unfold write_uint.
  rewrite (eff_bind_ok _ _ _ _ _ (map_err_ok MsgIo _ _ _ _ (write_all_unlimited _ _ Hw))).
  erewrite eff_bind_ok by (apply map_err_ok, write_all_unlimited; done).
  simpl. by rewrite <-app_assoc.
Qed.

(** ** Control messages *)
Section control.
Context `{!Bincode, !BincodeLaws}.

(** A message whose serialisation the receiver accepts. *)
Definition message_fits (m : TunnelMessage) : Prop :=
  message_wf m ∧
  match encode_to_vec m with
  | Some bs => Z.of_nat (length bs) <= MAX_TUNNEL_MESSAGE_SIZE
  | None => False
  end.

Definition message_frame (m : TunnelMessage) : list Z :=
  match encode_to_vec m with
  | Some bs => to_be_bytes 4 (Z.of_nat (length bs)) ++ bs
  | None => []
  end.

Lemma send_to_open m bs w :
  encode_to_vec m = Some bs → w_room w = None →
  send_to m w = (Ok (), Writer (w_out w ++ to_be_bytes 4 (wrap 32 (Z.of_nat (length bs))) ++ bs) None).
Proof.
  intros He Hw. unfold send_to. rewrite He. simpl ok_or.
  erewrite eff_bind_ok by done. by apply write_frame.
Qed.

Lemma send_fits m w :
  message_fits m → w_room w = None →
  send_to m w = (Ok (), Writer (w_out w ++ message_frame m) None).
Proof.
  intros [_ Hl] Hw. unfold message_frame. destruct (encode_to_vec m) as [bs|] eqn:He; [|done].
  rewrite (send_to_open m bs w He Hw), wrap_small; [done|].
  unfold in_u, MAX_TUNNEL_MESSAGE_SIZE in *. lia.
Qed.

Lemma recv_fits timed m r rest :
  message_fits m → delivers r (message_frame m ++ rest) →
  ∃ r', recv_from timed r = (Ok (message_normalize m), r') ∧ delivers r' rest.
Proof.
  intros [Hwf Hl] Hd. unfold message_frame in Hd.
  destruct (encode_to_vec m) as [bs|] eqn:He; [|done]. rewrite <-app_assoc in Hd.
  unfold MAX_TUNNEL_MESSAGE_SIZE in Hl.
  assert (in_u (8 * Z.of_nat 4) (Z.of_nat (length bs))) as Hin by (unfold in_u; lia).
  destruct (read_uint_delivers timed 4 _ r _ Hin Hd) as (r1 & Hr1 & Hd1).
  destruct (read_exact_delivers timed (length bs) r1 bs rest Hd1 eq_refl) as (r2 & Hr2 & Hd2).
  exists r2. split; [|done]. unfold recv_from.
  rewrite (eff_bind_ok _ _ _ _ _ (map_err_ok MsgIo _ _ _ _ Hr1)).
  rewrite (proj2 (Z.ltb_ge _ _)) by (unfold MAX_TUNNEL_MESSAGE_SIZE; lia). rewrite Nat2Z.id.
  rewrite (eff_bind_ok _ _ _ _ _ (map_err_ok MsgIo _ _ _ _ Hr2)).
  by rewrite (decode_encode m bs Hwf He).
Qed.

(** The same with arbitrary events after the frame. *)
Lemma recv_fits_then m r rest r' :
  message_fits m → delivers r (message_frame m ++ rest) →
  ∃ r1, recv_from true (r ++ r') = (Ok (message_normalize m), r1 ++ r') ∧ delivers r1 rest.
Proof.
  intros [Hwf Hl] Hd. unfold message_frame in Hd.
  destruct (encode_to_vec m) as [bs|] eqn:He; [|done]. rewrite <-app_assoc in Hd.
  unfold MAX_TUNNEL_MESSAGE_SIZE in Hl.
  assert (in_u (8 * Z.of_nat 4) (Z.of_nat (length bs))) as Hin by (unfold in_u; lia).
  destruct (read_uint_delivers_then 4 _ r _ r' Hin Hd) as (r1 & Hr1 & Hd1).
  destruct (read_exact_delivers_then (length bs) r1 bs rest r' Hd1 eq_refl) as (r2 & Hr2 & Hd2).
  exists r2. split; [|done]. unfold recv_from.
  rewrite (eff_bind_ok _ _ _ _ _ (map_err_ok MsgIo _ _ _ _ Hr1)).
  rewrite (proj2 (Z.ltb_ge _ _)) by (unfold MAX_TUNNEL_MESSAGE_SIZE; lia). rewrite Nat2Z.id.
  rewrite (eff_bind_ok _ _ _ _ _ (map_err_ok MsgIo _ _ _ _ Hr2)).
  by rewrite (decode_encode m bs Hwf He).
Qed.

(** A stall inside a frame ends a timed receive. *)
Lemma recv_stalled m part r r' :
  message_fits m → part `prefix_of` message_frame m → part ≠ message_frame m →
  delivers r part → recv_from true (r ++ Stall :: r') = (Err (MsgIo Elapsed), r').
Proof.
  intros [_ Hl] [tail Htail] Hne Hp. unfold message_frame in *.
  destruct (encode_to_vec m) as [bs|] eqn:He; [|done]. unfold recv_from, MAX_TUNNEL_MESSAGE_SIZE in *.
  destruct (decide (length part < 4)%nat) as [H4|H4].
  { by rewrite (eff_bind_err _ _ _ _ _ (map_err_err MsgIo _ _ _ _ (read_uint_stall 4 _ part r' Hp H4))). }
  assert (part = to_be_bytes 4 (Z.of_nat (length bs)) ++ drop 4 part ∧ bs = drop 4 part ++ tail)
    as [Hsplit Hbs].
  { rewrite <-(take_drop 4 part), <-app_assoc in Htail.
    apply app_inj_1 in Htail as [Ht <-]; [|rewrite length_to_be_bytes, length_take; lia].
    split; [|done]. by rewrite Ht, take_drop. }
  rewrite Hsplit in Hp.
  assert (in_u (8 * Z.of_nat 4) (Z.of_nat (length bs))) as Hin by (unfold in_u; lia).
  destruct (read_uint_delivers_then 4 _ r _ (Stall :: r') Hin Hp) as (r3 & Hr3 & Hd3).
  rewrite (eff_bind_ok _ _ _ _ _ (map_err_ok MsgIo _ _ _ _ Hr3)).
  rewrite (proj2 (Z.ltb_ge _ _)) by lia. rewrite Nat2Z.id.
  assert (length (drop 4 part) < length bs)%nat as Hlt.
  { rewrite Hbs, length_app. destruct tail; [|simpl; lia].
    exfalso. apply Hne. by rewrite Htail, app_nil_r. }
  by rewrite (eff_bind_err _ _ _ _ _ (map_err_err MsgIo _ _ _ _
    (read_exact_stall (length bs) r3 (drop 4 part) r' Hd3 Hlt))).
Qed.

(** Heartbeat messages are far below the limit. *)
Lemma heartbeat_fits s :
  in_u 64 s → message_fits (ReqHeartbeat s) ∧ message_fits (RespHeartbeat s).
Proof.
  intros Hs. unfold message_fits, MAX_TUNNEL_MESSAGE_SIZE. split; (split; [done|]).
  - destruct (encode_total (ReqHeartbeat s) Hs) as [bs Hb]. rewrite Hb.
    pose proof (encode_heartbeat_small s bs (or_introl Hb)). lia.
  - destruct (encode_total (RespHeartbeat s) Hs) as [bs Hb]. rewrite Hb.
    pose proof (encode_heartbeat_small s bs (or_intror Hb)). lia.
Qed.

(** What [recv_from] does on an arbitrary stream that ends cleanly. *)
Lemma recv_from_cases timed r bs x r' :
  delivers r bs → bytes_ok bs → recv_from timed r = (x, r') →
  let n := from_be_bytes (take 4 bs) in
  if decide (length bs < 4)%nat then x = Err (MsgIo UnexpectedEof)
  else if decide (MAX_TUNNEL_MESSAGE_SIZE < n)
  then x = Err (MsgTooLarge n) ∧ delivers r' (drop 4 bs)
  else if decide (length (drop 4 bs) < Z.to_nat n)%nat then x = Err (MsgIo UnexpectedEof)
  else delivers r' (drop (Z.to_nat n) (drop 4 bs)) ∧
       match decode_from_slice (take (Z.to_nat n) (drop 4 bs)) with
       | Some (m, _) => x = Ok m
       | None => x = Err MsgDecode
       end.
Proof.
  intros Hd Hok Hr n. unfold recv_from in Hr.
  destruct (decide _) as [Hs|Hs].
  { rewrite (eff_bind_err _ _ _ _ _ (map_err_err MsgIo _ _ _ _ (read_uint_short timed 4 r bs Hd Hs))) in Hr.
    by simplify_eq. }
  assert (length (take 4 bs) = 4%nat) as Hl4 by (rewrite length_take; lia).
  rewrite <-(take_drop 4 bs) in Hok. apply bytes_ok_app in Hok as [Hok4 _].
  destruct (read_uint_delivers timed 4 n r (drop 4 bs)) as (r1 & Hr1 & Hd1).
  { unfold n. rewrite <-Hl4 at 1. by apply from_be_bytes_range. }
  { unfold n. rewrite <-Hl4 at 1. by rewrite to_from_be_bytes, take_drop. }
  rewrite (eff_bind_ok _ _ _ _ _ (map_err_ok MsgIo _ _ _ _ Hr1)) in Hr.
  destruct (decide _) as [Hbig|Hbig].
  { rewrite (proj2 (Z.ltb_lt _ _)) in Hr by lia. unfold throw in Hr. by simplify_eq. }
  rewrite (proj2 (Z.ltb_ge _ _)) in Hr by lia.
  destruct (decide _) as [Hs2|Hs2].
  { rewrite (eff_bind_err _ _ _ _ _ (map_err_err MsgIo _ _ _ _ (read_exact_short timed _ r1 _ Hd1 Hs2))) in Hr.
    by simplify_eq. }
  destruct (read_exact_delivers timed (Z.to_nat n) r1 (take (Z.to_nat n) (drop 4 bs))
              (drop (Z.to_nat n) (drop 4 bs))) as (r2 & Hr2 & Hd2).
  { by rewrite take_drop. }
  { rewrite length_take. lia. }
  rewrite (eff_bind_ok _ _ _ _ _ (map_err_ok MsgIo _ _ _ _ Hr2)) in Hr.
  destruct (decode_from_slice _) as [[m k]|]; unfold lift, mret, eff_ret, mbind, eff_bind in Hr; simpl in Hr;
    by simplify_eq.
Qed.

(** C19: Control messages survive the stream.  Any sequence of messages that can
    be encoded in at most the 64 KiB the receiver accepts, written with [send_to]
    to a working transport, is read back by the same number of [recv_from] calls
    in the same order, however the transport chunks the bytes, and whatever
    follows is left unread.  What is read back is the message with the flow
    information and the scope of its IPv6 addresses set to 0: [bincode] writes only
    address and port. *)
Theorem message_stream_roundtrip timed ms w :
  Forall message_fits ms → w_room w = None →
  ∃ bytes, send_each send_to ms w = (Ok (), Writer (w_out w ++ bytes) None) ∧
    ∀ r rest, delivers r (bytes ++ rest) →
      ∃ r', recv_each (recv_from timed) (length ms) r = (Ok (message_normalize <$> ms), r') ∧
            delivers r' rest.
Proof.
  apply (frames_roundtrip send_to (recv_from timed) message_frame message_normalize message_fits);
    auto using send_fits, recv_fits.
Qed.

(** The receiver's size limit.  On any byte stream, [recv_from] either
    returns the decoding of a complete frame of at most 64 KiB, consuming the
    frame and nothing else, or fails; a longer frame is rejected before its body
    is read or a buffer for it is allocated. *)
Theorem recv_from_frame_bound timed r bs x r' :
  delivers r bs → bytes_ok bs → recv_from timed r = (x, r') →
  match x with
  | Ok m => ∃ payload rest k,
      bs = to_be_bytes 4 (Z.of_nat (length payload)) ++ payload ++ rest ∧
      Z.of_nat (length payload) <= MAX_TUNNEL_MESSAGE_SIZE ∧
      decode_from_slice payload = Some (m, k) ∧ delivers r' rest
  | Err (MsgTooLarge n) =>
      MAX_TUNNEL_MESSAGE_SIZE < n ∧ take 4 bs = to_be_bytes 4 n ∧ delivers r' (drop 4 bs)
  | Err (MsgIo e) => e = UnexpectedEof
  | Err MsgDecode => True
  | Err MsgEncode => False
  end.
Proof.
  intros Hd Hok Hr. pose proof (recv_from_cases timed r bs x r' Hd Hok Hr) as Hc. simpl in Hc.
  set (n := from_be_bytes (take 4 bs)) in *.
  destruct (decide _) as [Hs|Hs]; [by subst|].
  assert (length (take 4 bs) = 4%nat) as Hl4 by (rewrite length_take; lia).
  pose proof Hok as Hok'. rewrite <-(take_drop 4 bs) in Hok'. apply bytes_ok_app in Hok' as [Hok4 _].
  pose proof (to_from_be_bytes _ Hok4) as Hn. rewrite Hl4 in Hn. fold n in Hn.
  pose proof (from_be_bytes_range _ Hok4) as Hnr. rewrite Hl4 in Hnr. fold n in Hnr.
  unfold in_u in Hnr.
  destruct (decide _) as [Hbig|Hbig]; [destruct Hc as [-> ?]; by rewrite Hn|].
  destruct (decide _) as [Hs2|Hs2]; [by subst|]. destruct Hc as [Hd' Hdec].
  destruct (decode_from_slice _) as [[m k]|] eqn:E; subst x; [|done].
  exists (take (Z.to_nat n) (drop 4 bs)), (drop (Z.to_nat n) (drop 4 bs)), k.
  assert (length (take (Z.to_nat n) (drop 4 bs)) = Z.to_nat n) as Hlp by (rewrite length_take; lia).
  rewrite Hlp, Z2Nat.id by lia. split_and!; [|lia|done|done].
  by rewrite Hn, take_drop, take_drop.
Qed.

(** The sender does not enforce the limit: a message whose serialisation
    exceeds 64 KiB (but fits the length prefix) is written in full and without an
    error, and the peer rejects the frame. *)
Theorem oversized_message_sent_then_rejected timed m bs w :
  encode_to_vec m = Some bs → w_room w = None →
  MAX_TUNNEL_MESSAGE_SIZE < Z.of_nat (length bs) < 2 ^ 32 →
  ∃ frame, send_to m w = (Ok (), Writer (w_out w ++ frame) None) ∧
    ∀ r rest, delivers r (frame ++ rest) →
      ∃ r', recv_from timed r = (Err (MsgTooLarge (Z.of_nat (length bs))), r').
Proof.
  intros He Hw Hl. assert (in_u (8 * Z.of_nat 4) (Z.of_nat (length bs))) as Hin by (unfold in_u; lia).
  exists (to_be_bytes 4 (Z.of_nat (length bs)) ++ bs). split.
  - by rewrite (send_to_open m bs w He Hw), wrap_small.
  - intros r rest Hd. rewrite <-app_assoc in Hd.
    destruct (read_uint_delivers timed 4 _ r _ Hin Hd) as (r1 & Hr1 & Hd1).
    exists r1. unfold recv_from. rewrite (eff_bind_ok _ _ _ _ _ (map_err_ok MsgIo _ _ _ _ Hr1)).
    by rewrite (proj2 (Z.ltb_lt _ _)) by lia.
Qed.
End control.

(** ** Datagrams *)

(** What the receiver makes of one datagram, of any size. *)
Lemma recv_raw_after_send timed cap data r rest :
  delivers r (to_be_bytes 2 (wrap 16 (Z.of_nat (length data))) ++ data ++ rest) →
  let k := Z.to_nat (wrap 16 (Z.of_nat (length data))) in
  if decide (k <= cap)%nat
  then ∃ r', recv_raw_from timed cap r = (Ok (take k data), r') ∧ delivers r' (drop k data ++ rest)
  else ∃ r', recv_raw_from timed cap r = (Err (MsgTooLarge (Z.of_nat k)), r').
Proof.
  intros Hd k. pose proof (wrap_in_u 16 (Z.of_nat (length data)) ltac:(lia)) as Hin.
  destruct (read_uint_delivers timed 2 _ r _ Hin Hd) as (r1 & Hr1 & Hd1).
  unfold recv_raw_from. rewrite (eff_bind_ok _ _ _ _ _ (map_err_ok MsgIo _ _ _ _ Hr1)).
  unfold in_u in Hin. assert (k <= length data)%nat.
  { unfold k, wrap. pose proof (Z.mod_le (Z.of_nat (length data)) (2 ^ 16)). lia. }
  destruct (decide _) as [Hc|Hc].
  - rewrite (proj2 (Z.ltb_ge _ _)) by lia.
    destruct (read_exact_delivers timed k r1 (take k data) (drop k data ++ rest)) as (r2 & Hr2 & Hd2).
    { by rewrite app_assoc, take_drop. }
    { rewrite length_take. lia. }
    exists r2. split; [|done]. by apply map_err_ok.
  - rewrite (proj2 (Z.ltb_lt _ _)) by lia. exists r1. unfold throw. unfold k. by rewrite Z2Nat.id by lia.
Qed.

Lemma send_raw_open data w :
  w_room w = None →
  send_raw_to data w =
  (Ok (), Writer (w_out w ++ to_be_bytes 2 (wrap 16 (Z.of_nat (length data))) ++ data) None).
Proof. by apply write_frame. Qed.

(** One datagram on the wire. *)
Definition datagram_frame (d : list Z) : list Z := to_be_bytes 2 (wrap 16 (Z.of_nat (length d))) ++ d.

Lemma recv_raw_fits timed cap d r rest :
  (length d <= cap)%nat → Z.of_nat (length d) < 65536 → delivers r (datagram_frame d ++ rest) →
  ∃ r', recv_raw_from timed cap r = (Ok d, r') ∧ delivers r' rest.
Proof.
  intros Hc Hd16 Hd. unfold datagram_frame in Hd. rewrite <-app_assoc in Hd.
  pose proof (recv_raw_after_send timed cap d r rest Hd) as H. simpl in H.
  rewrite wrap_small, Nat2Z.id in H by (unfold in_u; lia).
  by rewrite decide_True, take_ge, drop_ge in H by lia.
Qed.

Lemma recv_raw_end timed cap r : delivers r [] → recv_raw_from timed cap r = (Err (MsgIo UnexpectedEof), []).
Proof.
  intros Hd. unfold recv_raw_from.
  by rewrite (eff_bind_err _ _ _ _ _ (map_err_err MsgIo _ _ _ _ (read_uint_short timed 2 r [] Hd ltac:(simpl; lia)))).
Qed.

(** Datagram boundaries survive the stream.  Any sequence of datagrams that
    fit the receiver's buffer (and the two-byte length) comes out unchanged, in
    order and with the same boundaries. *)
Theorem datagrams_roundtrip timed cap ds w :
  Forall (λ d, (length d <= cap)%nat ∧ Z.of_nat (length d) < 65536) ds → w_room w = None →
  ∃ bytes, send_each send_raw_to ds w = (Ok (), Writer (w_out w ++ bytes) None) ∧
    ∀ r rest, delivers r (bytes ++ rest) →
      ∃ r', recv_each (recv_raw_from timed cap) (length ds) r = (Ok ds, r') ∧ delivers r' rest.
Proof.
  intros Hds Hw.
  destruct (frames_roundtrip send_raw_to (recv_raw_from timed cap)
    datagram_frame id
    (λ d, (length d <= cap)%nat ∧ Z.of_nat (length d) < 65536)) with (l := ds) (w := w)
    as (bytes & Hs & Hr); [..|done|done|].
  - intros d w' _. apply send_raw_open.
  - intros d r rest [Hc Hd16] Hd. by apply recv_raw_fits.
  - exists bytes. split; [done|]. by rewrite list_fmap_id in Hr.
Qed.

Lemma datagrams_roundtrip_witness :
  ∃ bytes, send_each send_raw_to [[1; 2; 3]; []; [4]] open_writer
             = (Ok (), Writer bytes None) ∧
    ∀ r rest, delivers r (bytes ++ rest) →
      ∃ r', recv_each (recv_raw_from true 1500) 3 r = (Ok [[1; 2; 3]; []; [4]], r') ∧ delivers r' rest.
Proof.
  apply (datagrams_roundtrip true 1500 [[1; 2; 3]; []; [4]] open_writer); [|done].
  repeat constructor; simpl; lia.
Defined.

(** A datagram of 65536 bytes or more is not rejected by [send_raw_to]; its
    two-byte length wraps, so the receiver splits it: it delivers the first
    [len mod 65536] bytes as a datagram and will take the next two payload bytes
    for a length. *)
Theorem oversized_datagram_misframed timed cap data r rest w :
  65536 <= Z.of_nat (length data) → Z.of_nat (length data) mod 65536 <= Z.of_nat cap →
  w_room w = None →
  let k := Z.to_nat (Z.of_nat (length data) mod 65536) in
  ∃ bytes, send_raw_to data w = (Ok (), Writer (w_out w ++ bytes) None) ∧
    (delivers r (bytes ++ rest) →
     ∃ r', recv_raw_from timed cap r = (Ok (take k data), r') ∧ take k data ≠ data ∧
           delivers r' (drop k data ++ rest)).
Proof.
  intros Hbig Hcap Hw k.
  exists (to_be_bytes 2 (wrap 16 (Z.of_nat (length data))) ++ data).
  split; [by apply send_raw_open|]. rewrite <-app_assoc. intros Hd.
  pose proof (recv_raw_after_send timed cap data r rest Hd) as H. simpl in H.
  change (Z.to_nat (wrap 16 (Z.of_nat (length data)))) with k in H.
  rewrite decide_True in H by (unfold k; lia). destruct H as (r' & Hr & Hd'). exists r'.
  split_and!; [done| |done]. intros E. apply (f_equal length) in E. rewrite length_take in E.
  pose proof (Z.mod_pos_bound (Z.of_nat (length data)) 65536 ltac:(lia)). unfold k in E. lia.
Qed.

Lemma oversized_datagram_misframed_witness :
  ∃ bytes, send_raw_to (replicate (Z.to_nat 65540) 7) open_writer = (Ok (), Writer bytes None) ∧
    (delivers [Chunk (bytes ++ [])] (bytes ++ []) →
     ∃ r', recv_raw_from true 1500 [Chunk (bytes ++ [])] = (Ok (take 4 (replicate (Z.to_nat 65540) 7)), r') ∧
       take 4 (replicate (Z.to_nat 65540) 7) ≠ replicate (Z.to_nat 65540) 7 ∧
       delivers r' (drop 4 (replicate (Z.to_nat 65540) 7) ++ [])).
Proof.
  remember (replicate (Z.to_nat 65540) 7) as d eqn:Hd.
  assert (Z.of_nat (length d) = 65540) as Hl by (rewrite Hd, length_replicate; lia).
  clear Hd.
  pose (bytes := to_be_bytes 2 (wrap 16 (Z.of_nat (length d))) ++ d).
  destruct (oversized_datagram_misframed true 1500 d [Chunk (bytes ++ [])] [] open_writer)
    as (b & Hs & Hr); [rewrite Hl; lia|rewrite Hl; change (65540 mod 65536) with 4; lia|done|].
  rewrite Hl in Hr. change (Z.to_nat (65540 mod 65536)) with 4%nat in Hr.
  assert (b = bytes) as ->.
  { rewrite (send_raw_open d open_writer eq_refl) in Hs. by injection Hs as <-. }
  exists bytes. by split.
Defined.
