(* ===== verification/BincodeStd.v ===== *)
(** An instance of the [Bincode] interface of [Message.v]: the documented
    "standard" configuration of bincode 2 (variable-length integers,
    little-endian) applied to the serde data model of the control messages.
    It shows that the laws the protocol relies on are satisfiable, and lets the
    protocol theorems be evaluated on concrete messages. *)
From S2P Require Import Prelude Io Net Target AddrText Message.

(** * Encoders and decoders *)
Definition decoder (A : Type) : Type := list Z → option (A * list Z).

(** [dec] inverts [enc] (up to [norm]) in front of any further bytes. *)
Definition inverts {A} (wf : A → Prop) (norm : A → A) (enc : A → list Z) (dec : decoder A) : Prop :=
  ∀ x rest, wf x → dec (enc x ++ rest) = Some (norm x, rest).

Definition split_at (n : nat) : decoder (list Z) := λ bs,
  if (n <=? length bs)%nat then Some (take n bs, drop n bs) else None.

Definition enc_varint (z : Z) : list Z :=
  if z <? 251 then [z]
  else if z <? 2 ^ 16 then 251 :: to_le_bytes 2 z
  else if z <? 2 ^ 32 then 252 :: to_le_bytes 4 z
  else 253 :: to_le_bytes 8 z.

(** [w] is the width of the integer type: wider markers are rejected. *)
Definition dec_varint (w : Z) : decoder Z := λ bs,
  match bs with
  | [] => None
  | b :: bs' =>
      let sized (n : nat) := '(v, rest) ← split_at n bs'; Some (from_le_bytes v, rest) in
      if b <? 251 then Some (b, bs')
      else if b =? 251 then sized 2%nat
      else if (b =? 252) && (32 <=? w) then sized 4%nat
      else if (b =? 253) && (64 <=? w) then sized 8%nat
      else None
  end.

Definition enc_string (s : string) : list Z :=
  enc_varint (Z.of_nat (length (as_bytes s))) ++ as_bytes s.

Definition dec_string : decoder string := λ bs,
  '(n, bs) ← dec_varint 64 bs;
  '(v, bs) ← split_at (Z.to_nat n) bs;
  s ← from_utf8 v; Some (s, bs).

Definition enc_bool (b : bool) : list Z := [if b then 1 else 0].
Definition dec_bool : decoder bool := λ bs,
  match bs with
  | b :: bs' => if b =? 0 then Some (false, bs') else if b =? 1 then Some (true, bs') else None
  | [] => None
  end.

Definition enc_option {A} (enc : A → list Z) (o : option A) : list Z :=
  match o with None => [0] | Some x => 1 :: enc x end.
Definition dec_option {A} (dec : decoder A) : decoder (option A) := λ bs,
  '(some, bs) ← dec_bool bs;
  if some : bool then '(x, bs) ← dec bs; Some (Some x, bs) else Some (None, bs).

Definition enc_sockaddr (a : SocketAddr) : list Z :=
  match a with
  | SockV4 ip port => 0 :: octets_v4 ip ++ enc_varint port
  | SockV6 ip port _ _ => 1 :: octets_v6 ip ++ enc_varint port
  end.
Definition dec_sockaddr : decoder SocketAddr := λ bs,
  '(tag, bs) ← dec_varint 32 bs;
  if tag =? 0 then
    '(ip, bs) ← split_at 4 bs; '(port, bs) ← dec_varint 16 bs;
    Some (SockV4 (from_be_bytes ip) port, bs)
  else if tag =? 1 then
    '(ip, bs) ← split_at 16 bs; '(port, bs) ← dec_varint 16 bs;
    Some (SockV6 (from_be_bytes ip) port 0 0, bs)
  else None.

Definition enc_mode (m : TunnelMode) : list Z := match m with ModeIn => [0] | ModeOut => [1] end.
Definition dec_mode : decoder TunnelMode := λ bs,
  '(tag, bs) ← dec_varint 32 bs;
  if tag =? 0 then Some (ModeIn, bs) else if tag =? 1 then Some (ModeOut, bs) else None.

Definition enc_upstream_type (t : UpstreamType) : list Z := match t with Tcp => [0] | Udp => [1] end.
Definition dec_upstream_type : decoder UpstreamType := λ bs,
  '(tag, bs) ← dec_varint 32 bs;
  if tag =? 0 then Some (Tcp, bs) else if tag =? 1 then Some (Udp, bs) else None.

Definition enc_tunnel (t : Tunnel) : list Z :=
  match t with
  | NetworkBased cfg =>
      0 :: enc_mode (mode cfg) ++ enc_option enc_sockaddr (local_server_addr cfg)
        ++ enc_option enc_sockaddr (upstream_addr (upstream cfg))
        ++ enc_upstream_type (upstream_type (upstream cfg))
  | ChannelBased t => 1 :: enc_upstream_type t
  end.
Definition dec_tunnel : decoder Tunnel := λ bs,
  '(tag, bs) ← dec_varint 32 bs;
  if tag =? 0 then
    '(m, bs) ← dec_mode bs;
    '(l, bs) ← dec_option dec_sockaddr bs;
    '(u, bs) ← dec_option dec_sockaddr bs;
    '(t, bs) ← dec_upstream_type bs;
    Some (NetworkBased (mkTunnelConfig m l (mkUpstream u t)), bs)
  else if tag =? 1 then '(t, bs) ← dec_upstream_type bs; Some (ChannelBased t, bs)
  else None.

Definition enc_login (i : LoginInfo) : list Z :=
  enc_string (li_password i) ++ enc_tunnel (li_tunnel i)
    ++ enc_varint (li_tcp_timeout_ms i) ++ enc_varint (li_udp_timeout_ms i).
Definition dec_login : decoder LoginInfo := λ bs,
  '(p, bs) ← dec_string bs;
  '(t, bs) ← dec_tunnel bs;
  '(a, bs) ← dec_varint 64 bs;
  '(b, bs) ← dec_varint 64 bs;
  Some (mkLoginInfo p t a b, bs).

Definition enc_message (m : TunnelMessage) : list Z :=
  match m with
  | ReqLogin i => 0 :: enc_login i
  | ReqHeartbeat s => 1 :: enc_varint s
  | RespHeartbeat s => 2 :: enc_varint s
  | RespFailure s => 3 :: enc_string s
  | RespSuccess c => 4 :: enc_bool (ipv6_supported c)
  end.
Definition dec_message : decoder TunnelMessage := λ bs,
  '(tag, bs) ← dec_varint 32 bs;
  if tag =? 0 then '(i, bs) ← dec_login bs; Some (ReqLogin i, bs)
  else if tag =? 1 then '(s, bs) ← dec_varint 64 bs; Some (ReqHeartbeat s, bs)
  else if tag =? 2 then '(s, bs) ← dec_varint 64 bs; Some (RespHeartbeat s, bs)
  else if tag =? 3 then '(s, bs) ← dec_string bs; Some (RespFailure s, bs)
  else if tag =? 4 then '(b, bs) ← dec_bool bs; Some (RespSuccess (mkServerCapabilities b), bs)
  else None.

Arguments split_at : simpl never.
Arguments dec_varint : simpl never.

(** * The laws *)
(** Run the bind of a successful decoder, and the tag comparisons it exposes. *)
Ltac bind_some :=
  try match goal with
      | |- context [mbind ?f (Some ?x)] => change (mbind f (Some x)) with (f x)
      end;
  cbv beta iota;
  repeat match goal with
         | |- context [Z.eqb ?a ?b] =>
             let r := eval vm_compute in (Z.eqb a b) in
             match r with
             | true => change (Z.eqb a b) with true
             | false => change (Z.eqb a b) with false
             end
         end;
  cbv beta iota delta [id].

Lemma split_at_app a rest : split_at (length a) (a ++ rest) = Some (a, rest).
Proof.
  unfold split_at. rewrite length_app, (proj2 (Nat.leb_le _ _)) by lia.
  by rewrite take_app_length, drop_app_length.
Qed.

Lemma split_at_n n a rest : length a = n → split_at n (a ++ rest) = Some (a, rest).
Proof. intros <-. apply split_at_app. Qed.

Lemma dec_small w b rest : b < 251 → dec_varint w (b :: rest) = Some (b, rest).
Proof. intros. unfold dec_varint. by rewrite (proj2 (Z.ltb_lt _ _)). Qed.

(** A marker byte followed by [n] little-endian bytes. *)
Lemma dec_sized (w z : Z) (n : nat) rest :
  in_u (8 * Z.of_nat n) z →
  ('(v, rest) ← split_at n (to_le_bytes n z ++ rest); Some (from_le_bytes v, rest)) = Some (z, rest).
Proof.
  intros Hz. rewrite split_at_n by apply length_to_le_bytes. bind_some.
  by rewrite from_to_le_bytes.
Qed.

Lemma varint_inverts w :
  w = 16 ∨ w = 64 → inverts (in_u w) id enc_varint (dec_varint w).
Proof.
  intros Hw z rest Hz. unfold enc_varint. unfold in_u in Hz.
  destruct (Z.ltb_spec z 251); [by apply dec_small|].
  destruct (Z.ltb_spec z (2 ^ 16)); [by apply (dec_sized w z 2); split; [lia|]|].
  destruct Hw as [->| ->]; [lia|].
  destruct (Z.ltb_spec z (2 ^ 32)).
  - apply (dec_sized 64 z 4). unfold in_u. change (8 * Z.of_nat 4) with 32. lia.
  - apply (dec_sized 64 z 8). unfold in_u. change (8 * Z.of_nat 8) with 64. lia.
Qed.

Lemma string_inverts : inverts string_wf id enc_string dec_string.
Proof.
  intros s rest Hs. unfold enc_string, dec_string. rewrite <-app_assoc.
  rewrite (varint_inverts 64) by (auto; destruct Hs as [_ Hl]; unfold in_u in *; lia). bind_some. rewrite Nat2Z.id, split_at_app. bind_some.
  by rewrite from_utf8_as_bytes.
Qed.

Lemma option_inverts {A} (wf : A → Prop) norm enc dec :
  inverts wf norm enc dec →
  inverts (λ o, match o with Some x => wf x | None => True end) (fmap norm) (enc_option enc) (dec_option dec).
Proof. intros H [x|] rest Hwf; [|done]. unfold dec_option. simpl. by rewrite H by auto. Qed.

Lemma sockaddr_inverts : inverts sa_wf sa_normalize enc_sockaddr dec_sockaddr.
Proof.
  intros [ip port|ip port f s] rest Hwf; unfold enc_sockaddr, dec_sockaddr;
    rewrite <-app_comm_cons, <-app_assoc, dec_small by lia; bind_some.
  - destruct Hwf as [Hip Hp]. rewrite (split_at_n 4) by apply length_octets_v4. bind_some.
    rewrite (varint_inverts 16) by auto. bind_some. unfold octets_v4. by rewrite from_to_be_bytes.
  - destruct Hwf as (Hip & Hp & _). rewrite (split_at_n 16) by apply length_octets_v6. bind_some.
    rewrite (varint_inverts 16) by auto. bind_some. unfold octets_v6. by rewrite from_to_be_bytes.
Qed.

Lemma mode_inverts : inverts (λ _, True) id enc_mode dec_mode.
Proof. intros [] rest _; done. Qed.

Lemma upstream_type_inverts : inverts (λ _, True) id enc_upstream_type dec_upstream_type.
Proof. intros [] rest _; done. Qed.

Lemma tunnel_inverts : inverts tunnel_wf tunnel_normalize enc_tunnel dec_tunnel.
Proof.
  intros [cfg|t] rest Hwf; unfold dec_tunnel.
  - destruct Hwf as [Hl Hu]. cbn [enc_tunnel]. rewrite <-app_comm_cons, dec_small by lia. bind_some.
    rewrite <-!app_assoc, mode_inverts by done. bind_some.
    rewrite (option_inverts _ _ _ _ sockaddr_inverts) by done. bind_some.
    rewrite (option_inverts _ _ _ _ sockaddr_inverts) by done. bind_some.
    by rewrite upstream_type_inverts.
  - cbn [enc_tunnel]. rewrite <-app_comm_cons, dec_small by lia. bind_some.
    by rewrite upstream_type_inverts.
Qed.

Lemma login_inverts :
  inverts login_wf
    (λ i, mkLoginInfo (li_password i) (tunnel_normalize (li_tunnel i))
            (li_tcp_timeout_ms i) (li_udp_timeout_ms i)) enc_login dec_login.
Proof.
  intros i rest (Hp & Ht & Ha & Hb). unfold enc_login, dec_login. rewrite <-!app_assoc.
  rewrite string_inverts by done. bind_some. rewrite tunnel_inverts by done. bind_some.
  rewrite (varint_inverts 64) by auto. bind_some. by rewrite (varint_inverts 64) by auto.
Qed.

Lemma message_inverts : inverts message_wf message_normalize enc_message dec_message.
Proof.
  intros m rest Hwf. unfold dec_message.
  destruct m as [i|s|s|s|[c]]; cbn [enc_message]; rewrite <-app_comm_cons, dec_small by lia; bind_some.
  - by rewrite login_inverts.
  - by rewrite (varint_inverts 64) by auto.
  - by rewrite (varint_inverts 64) by auto.
  - by rewrite string_inverts.
  - by destruct c.
Qed.

Lemma enc_varint_ok z : 0 <= z → bytes_ok (enc_varint z).
Proof.
  intros Hz. unfold enc_varint, bytes_ok. destruct (Z.ltb_spec z 251).
  - repeat constructor; unfold in_u; lia.
  - repeat case_goal; (constructor; [unfold in_u; lia|apply to_le_bytes_ok]).
Qed.

Lemma enc_string_ok s : bytes_ok (enc_string s).
Proof. apply Forall_app. split; [apply enc_varint_ok; lia|apply as_bytes_ok]. Qed.

Lemma enc_sockaddr_ok a : sa_wf a → bytes_ok (enc_sockaddr a).
Proof.
  destruct a; cbn [enc_sockaddr sa_wf]; intros Hwf; constructor; try (unfold in_u; lia); apply Forall_app;
    (split; [apply to_be_bytes_ok|apply enc_varint_ok; unfold in_u in *; lia]).
Qed.

Lemma enc_option_ok {A} (enc : A → list Z) o :
  match o with Some x => bytes_ok (enc x) | None => True end → bytes_ok (enc_option enc o).
Proof. destruct o; simpl; intros; repeat constructor; unfold in_u; try lia; done. Qed.

Lemma enc_tunnel_ok t : tunnel_wf t → bytes_ok (enc_tunnel t).
Proof.
  destruct t as [[m l [u ut]]|[]]; simpl; [intros [Hl Hu]|intros _..];
    [|repeat constructor; unfold in_u; lia..].
  constructor; [unfold in_u; lia|]. repeat (apply Forall_app; split).
  - destruct m; repeat constructor; unfold in_u; lia.
  - apply enc_option_ok. destruct l; [by apply enc_sockaddr_ok|done].
  - apply enc_option_ok. destruct u; [by apply enc_sockaddr_ok|done].
  - destruct ut; repeat constructor; unfold in_u; lia.
Qed.

Lemma enc_message_ok m : message_wf m → bytes_ok (enc_message m).
Proof.
  destruct m as [i|s|s|s|[[]]]; simpl; intros Hwf; (constructor; [unfold in_u; lia|]).
  - destruct Hwf as (_ & Ht & [Ha _] & [Hb _]). unfold enc_login.
    apply Forall_app; split; [apply enc_string_ok|].
    apply Forall_app; split; [by apply enc_tunnel_ok|].
    apply Forall_app; split; by apply enc_varint_ok.
  - apply enc_varint_ok. unfold in_u in *. lia.
  - apply enc_varint_ok. unfold in_u in *. lia.
  - apply enc_string_ok.
  - repeat constructor; unfold in_u; lia.
  - repeat constructor; unfold in_u; lia.
Qed.

Lemma length_enc_varint z : (length (enc_varint z) <= 9)%nat.
Proof. unfold enc_varint. repeat case_goal; cbn [length]; rewrite ?length_to_le_bytes; lia. Qed.

#[export] Instance bincode_std : Bincode := {|
  encode_to_vec m := if decide (message_wf m) then Some (enc_message m) else None;
  decode_from_slice bs := '(m, rest) ← dec_message bs; Some (m, (length bs - length rest)%nat)
|}.

#[export] Instance bincode_std_laws : BincodeLaws.
Proof.
  split; simpl.
  - intros m Hm. rewrite decide_True by done. eauto.
  - intros m bs H. case_decide; [|done]. simplify_eq. by apply enc_message_ok.
  - intros m bs Hm H. rewrite decide_True in H by done. simplify_eq.
    pose proof (message_inverts m [] Hm) as Hi. rewrite app_nil_r in Hi. rewrite Hi. simpl.
    by rewrite Nat.sub_0_r.
  - intros s bs H. pose proof (length_enc_varint s).
    destruct H as [H|H]; (case_decide; [|done]); simplify_eq; cbn [enc_message length]; lia.
Qed.

(** * Witnesses of the protocol theorems of [Message.v] *)
Definition sample_login : TunnelMessage :=
  ReqLogin (mkLoginInfo "pw" (NetworkBased (mkTunnelConfig ModeOut
    (Some (SockV4 IPV4_LOCALHOST 9000)) (mkUpstream None Tcp))) 30000 5000).

Lemma message_stream_roundtrip_witness :
  ∃ bytes, send_each send_to [sample_login; ReqHeartbeat 1] open_writer = (Ok (), Writer bytes None) ∧
    ∀ r rest, delivers r (bytes ++ rest) →
      ∃ r', recv_each (recv_from true) 2 r = (Ok [sample_login; ReqHeartbeat 1], r') ∧ delivers r' rest.
Proof.
  apply (message_stream_roundtrip true [sample_login; ReqHeartbeat 1] open_writer); [|done].
  repeat constructor; try (by apply (bool_decide_unpack _); vm_compute); vm_compute; congruence.
Defined.

Lemma recv_from_frame_bound_witness :
  ∃ payload rest k,
    [0; 0; 0; 2; 1; 7; 9] = to_be_bytes 4 (Z.of_nat (length payload)) ++ payload ++ rest ∧
    Z.of_nat (length payload) <= MAX_TUNNEL_MESSAGE_SIZE ∧
    decode_from_slice payload = Some (ReqHeartbeat 7, k) ∧ delivers [Chunk [9]] rest.
Proof.
  apply (recv_from_frame_bound false [Chunk [0; 0]; Chunk [0; 2; 1; 7; 9]]
           [0; 0; 0; 2; 1; 7; 9] (Ok (ReqHeartbeat 7)) [Chunk [9]]).
  - apply (delivers_chunks [[0; 0]; [0; 2; 1; 7; 9]]).
  - by apply (bool_decide_unpack _); vm_compute.
  - vm_compute. reflexivity.
Defined.

(** A login with a 64 KiB password. *)
Definition long_failure : TunnelMessage :=
  RespFailure (string_of_bytes (replicate (Z.to_nat 65536) 97)).

Lemma oversized_message_sent_then_rejected_witness :
  ∃ frame, send_to long_failure open_writer = (Ok (), Writer frame None) ∧
    ∀ r rest, delivers r (frame ++ rest) →
      ∃ r', recv_from true r = (Err (MsgTooLarge 65542), r').
Proof.
  destruct (encode_to_vec long_failure) as [bs|] eqn:E.
  - assert (Z.of_nat (length bs) = 65542) as Hl.
    { change (match Some bs with Some b => Z.of_nat (length b) | None => 0 end = 65542).
      rewrite <-E. vm_compute. reflexivity. }
    destruct (oversized_message_sent_then_rejected true long_failure bs open_writer E eq_refl)
      as (frame & Hs & Hr); [rewrite Hl; unfold MAX_TUNNEL_MESSAGE_SIZE; lia|].
    rewrite Hl in Hr. exists frame. by split.
  - exfalso. assert (bool_decide (encode_to_vec long_failure = None) = false) as Hb.
    { vm_compute. reflexivity. }
    by rewrite bool_decide_eq_true_2 in Hb.
Defined.
