(* ===== verification/Heartbeat.v ===== *)
(** The heartbeat of [src/src/heartbeat.rs], which runs over the control stream
    after the login: the client probes at every tick of its interval timer, the
    server answers.

    Both loops end only through their stop predicate or an error.  The answers
    of [should_stop] are a script with one entry per iteration; when the script
    runs out the loop is still running ([HbRunning]). *)
From S2P Require Import Prelude Io Net Target AddrText Message BincodeStd.

Inductive hb_warning : Type :=
| SeqMismatch (expected got : Z)
| UnexpectedResponse (m : TunnelMessage)
| UnexpectedRequest (m : TunnelMessage).

Inductive hb_outcome : Type :=
| HbStopped                      (** [return Ok(())] *)
| HbFailed (e : msg_error)       (** an error, the timeout included *)
| HbRunning.                     (** not ended yet *)

Record hb_io : Type := HbIo {
  hb_reader : reader;
  hb_writer : writer;
  hb_log : list hb_warning
}.

Definition hb_warn (x : hb_warning) (io : hb_io) : hb_io :=
  HbIo (hb_reader io) (hb_writer io) (hb_log io ++ [x]).

Section heartbeat.
Context `{!Bincode}.

(** One tick of [client_heartbeat] after [should_stop] said no, with the next
    sequence number: [Some e] is an early return. *)
Definition client_tick (seq : Z) (io : hb_io) : option msg_error * hb_io :=
  match send_to (ReqHeartbeat seq) (hb_writer io) with
  | (Err e, w) => (Some e, HbIo (hb_reader io) w (hb_log io))
  | (Ok _, w) =>
      match recv_from true (hb_reader io) with
      | (Err e, r) => (Some e, HbIo r w (hb_log io))
      | (Ok resp, r) =>
          let io := HbIo r w (hb_log io) in
          (None,
           match resp with
           | RespHeartbeat resp_seq =>
               if resp_seq =? seq then io else hb_warn (SeqMismatch seq resp_seq) io
           | other => hb_warn (UnexpectedResponse other) io
           end)
      end
  end.

(** [client_heartbeat]: [seq] is the last sequence number used. *)
Fixpoint client_heartbeat (stops : list bool) (seq : Z) (io : hb_io) : hb_outcome * hb_io :=
  match stops with
  | [] => (HbRunning, io)
  | true :: _ => (HbStopped, io)
  | false :: stops' =>
      let seq := wrapping_add 64 seq 1 in
      match client_tick seq io with
      | (Some e, io) => (HbFailed e, io)
      | (None, io) => client_heartbeat stops' seq io
      end
  end.

(** [server_heartbeat]. *)
Fixpoint server_heartbeat (stops : list bool) (io : hb_io) : hb_outcome * hb_io :=
  match stops with
  | [] => (HbRunning, io)
  | true :: _ => (HbStopped, io)
  | false :: stops' =>
      match recv_from false (hb_reader io) with
      | (Err e, r) => (HbFailed e, HbIo r (hb_writer io) (hb_log io))
      | (Ok msg, r) =>
          let io := HbIo r (hb_writer io) (hb_log io) in
          match msg with
          | ReqHeartbeat seq =>
              match send_to (RespHeartbeat seq) (hb_writer io) with
              | (Err e, w) => (HbFailed e, HbIo r w (hb_log io))
              | (Ok _, w) => server_heartbeat stops' (HbIo r w (hb_log io))
              end
          | other => server_heartbeat stops' (hb_warn (UnexpectedRequest other) io)
          end
      end
  end.

(** ** The server answers every probe, in order *)

(** The answer to a message, if it is a probe. *)
Definition echo (m : TunnelMessage) : list TunnelMessage :=
  match m with ReqHeartbeat s => [RespHeartbeat s] | _ => [] end.

Definition unexpected (m : TunnelMessage) : list hb_warning :=
  match m with ReqHeartbeat _ => [] | other => [UnexpectedRequest other] end.

Definition frames (ms : list TunnelMessage) : list Z := ms ≫= message_frame.

Context `{!BincodeLaws}.

(** One message: the reply (if any) is appended to the output. *)
Lemma server_heartbeat_step m stops r w log rest :
  message_fits m → w_room w = None →
  delivers r (message_frame m ++ rest) →
  ∃ r', delivers r' rest ∧
    server_heartbeat (false :: stops) (HbIo r w log) =
    server_heartbeat stops (HbIo r' (Writer (w_out w ++ frames (echo m)) None)
                              (log ++ unexpected (message_normalize m))).
Proof.
  intros Hm Hw Hd. destruct (recv_fits false m r rest Hm Hd) as (r' & Hr & Hd').
  exists r'. split; [done|]. cbn [server_heartbeat hb_reader hb_writer hb_log]. rewrite Hr.
  unfold frames. destruct w as [out room]. simpl in Hw. subst room.
  destruct m as [i|s|s|s|c]; simpl; try (by rewrite app_nil_r).
  rewrite (send_fits (RespHeartbeat s)) by (done || apply heartbeat_fits; by destruct Hm).
  by rewrite !app_nil_r.
Qed.

(** The server answers exactly the probes, each with its own sequence
    number and in the order received; other messages are only logged.  When the
    client's stream ends it fails, which makes its caller close the connection. *)
Theorem server_heartbeat_echo ms r w log :
  Forall message_fits ms → w_room w = None → delivers r (frames ms) →
  server_heartbeat (replicate (S (length ms)) false) (HbIo r w log) =
  (HbFailed (MsgIo UnexpectedEof),
   HbIo [] (Writer (w_out w ++ frames (ms ≫= echo)) None)
     (log ++ (message_normalize <$> ms) ≫= unexpected)).
Proof.
  revert r w log. induction ms as [|m ms IH]; intros r w log Hms Hw Hd.
  - simpl in Hd. simpl replicate. cbn [server_heartbeat hb_reader].
    unfold recv_from, read_uint, mbind, eff_bind, eff_map_err.
    rewrite (read_exact_short false 4 r [] Hd) by (simpl; lia). simpl.
    rewrite !app_nil_r. destruct w; simpl in *. by subst.
  - apply Forall_cons_1 in Hms as [Hm Hms].
    destruct (server_heartbeat_step m (replicate (S (length ms)) false) r w log (frames ms) Hm Hw Hd)
      as (r' & Hd' & Hstep).
    change (replicate (S (length (m :: ms))) false) with (false :: replicate (S (length ms)) false).
    rewrite Hstep, (IH r') by done. simpl. unfold frames.
    by rewrite bind_app, !app_assoc.
Qed.

(** ** The client against that server *)

(** The sequence numbers of [n] ticks after [seq], with the wrap-around of
    [u64::wrapping_add]. *)
Fixpoint seqs (n : nat) (seq : Z) : list Z :=
  match n with
  | O => []
  | S n' => let s := wrapping_add 64 seq 1 in s :: seqs n' s
  end.

Lemma seqs_in_u n seq : Forall (in_u 64) (seqs n seq).
Proof. revert seq. induction n; intros; simpl; constructor; auto. by apply wrap_in_u. Qed.

Lemma client_heartbeat_lockstep n seq r w log rest :
  w_room w = None → delivers r (frames (RespHeartbeat <$> seqs n seq) ++ rest) →
  ∃ r', delivers r' rest ∧
    client_heartbeat (replicate n false) seq (HbIo r w log) =
    (HbRunning, HbIo r' (Writer (w_out w ++ frames (ReqHeartbeat <$> seqs n seq)) None) log).
Proof.
  revert seq r w. induction n as [|n IH]; intros seq r w Hw Hd.
  - exists r. simpl. rewrite app_nil_r. destruct w; simpl in *; subst. done.
  - simpl seqs in *. set (s := wrapping_add 64 seq 1) in *.
    assert (in_u 64 s) as Hs by by apply wrap_in_u.
    destruct (heartbeat_fits s Hs) as [Hq Hp].
    unfold frames in Hd. simpl in Hd. rewrite <-app_assoc in Hd.
    destruct (recv_fits true (RespHeartbeat s) r _ Hp Hd) as (r1 & Hr1 & Hd1).
    destruct (IH s r1 (Writer (w_out w ++ message_frame (ReqHeartbeat s)) None) eq_refl Hd1)
      as (r2 & Hd2 & Hc).
    exists r2. split; [done|]. simpl replicate. cbn [client_heartbeat]. fold s.
    unfold client_tick. simpl hb_writer. rewrite (send_fits _ _ Hq Hw). simpl hb_reader. rewrite Hr1.
    cbn [message_normalize hb_log]. rewrite Z.eqb_refl.
    etransitivity; [exact Hc|]. unfold frames. simpl. by rewrite <-app_assoc.
Qed.

Lemma length_seqs n seq : length (seqs n seq) = n.
Proof. revert seq. induction n; intros; simpl; auto. Qed.

Lemma server_heartbeat_lockstep l r w :
  Forall (in_u 64) l → w_room w = None → delivers r (frames (ReqHeartbeat <$> l)) →
  ∃ r', server_heartbeat (replicate (length l) false) (HbIo r w []) =
        (HbRunning, HbIo r' (Writer (w_out w ++ frames (RespHeartbeat <$> l)) None) []).
Proof.
  revert r w. induction l as [|s l IH]; intros r w Hl Hw Hd.
  - exists r. simpl. rewrite app_nil_r. destruct w; simpl in *; by subst.
  - apply Forall_cons_1 in Hl as [Hin Hl]. destruct (heartbeat_fits s Hin) as [Hq _].
    destruct (server_heartbeat_step (ReqHeartbeat s) (replicate (length l) false) r w [] _ Hq Hw Hd)
      as (r1 & Hd1 & Hst).
    destruct (IH r1 (Writer (w_out w ++ frames (echo (ReqHeartbeat s))) None) Hl eq_refl Hd1)
      as (r2 & H2).
    exists r2. etransitivity; [exact Hst|]. etransitivity; [exact H2|].
    unfold frames. simpl. by rewrite app_nil_r, <-app_assoc.
Qed.

(** Client and server agree.  For any number of ticks, what the client
    writes is a run of requests to which the server's answers are exactly what
    the client expects: neither side logs a warning, neither fails, and both
    keep running. *)
Theorem heartbeat_agreement n rs rc seq :
  let reqs := ReqHeartbeat <$> seqs n seq in
  let resps := RespHeartbeat <$> seqs n seq in
  delivers rs (frames reqs) → delivers rc (frames resps) →
  (∃ rs', server_heartbeat (replicate n false) (HbIo rs open_writer []) =
          (HbRunning, HbIo rs' (Writer (frames resps) None) [])) ∧
  (∃ rc', client_heartbeat (replicate n false) seq (HbIo rc open_writer []) =
          (HbRunning, HbIo rc' (Writer (frames reqs) None) [])).
Proof.
  intros reqs resps Hs Hc. split.
  - destruct (server_heartbeat_lockstep (seqs n seq) rs open_writer (seqs_in_u n seq) eq_refl Hs)
      as [r' Hr'].
    rewrite length_seqs in Hr'. by exists r'.
  - destruct (client_heartbeat_lockstep n seq rc open_writer [] [] eq_refl) as (r' & _ & Hr').
    { by rewrite app_nil_r. }
    by exists r'.
Qed.

(** A silent or stuck peer is detected.  If the answer does not arrive in
    full before the heartbeat timeout (any strict prefix of it may have), the
    client's loop fails at that very tick, whatever happened before; its caller
    then closes the connection. *)
Theorem client_heartbeat_timeout n seq m part r r1 r2 w log :
  message_fits m → part `prefix_of` message_frame m → part ≠ message_frame m →
  w_room w = None →
  delivers r (frames (RespHeartbeat <$> seqs n seq)) → delivers r1 part →
  ∃ io, client_heartbeat (replicate (S n) false) seq (HbIo (r ++ r1 ++ Stall :: r2) w log) =
        (HbFailed (MsgIo Elapsed), io).
Proof.
  intros Hm Hpre Hne. revert seq r w.
  induction n as [|n IH]; intros seq r w Hw Hd Hd1.
  - simpl in Hd. simpl replicate. cbn [client_heartbeat].
    destruct (heartbeat_fits (wrapping_add 64 seq 1)) as [Hq _]; [by apply wrap_in_u|].
    unfold client_tick. simpl hb_writer. rewrite (send_fits _ _ Hq Hw). simpl hb_reader.
    rewrite app_assoc, (recv_stalled m part (r ++ r1)); [by eexists|done..|].
    by apply (delivers_app r [] r1 part).
  - simpl seqs in Hd. set (s := wrapping_add 64 seq 1) in *.
    assert (in_u 64 s) as Hs by by apply wrap_in_u.
    destruct (heartbeat_fits s Hs) as [Hq Hp].
    unfold frames in Hd. simpl in Hd.
    destruct (recv_fits_then (RespHeartbeat s) r _ (r1 ++ Stall :: r2) Hp Hd) as (r' & Hr' & Hd').
    destruct (IH s r' (Writer (w_out w ++ message_frame (ReqHeartbeat s)) None) eq_refl Hd' Hd1)
      as (io & Hio).
    exists io. change (replicate (S (S n)) false) with (false :: replicate (S n) false).
    cbn [client_heartbeat]. fold s. unfold client_tick. simpl hb_writer.
    rewrite (send_fits _ _ Hq Hw). simpl hb_reader. rewrite Hr'. cbn [message_normalize hb_log].
    rewrite Z.eqb_refl. exact Hio.
Qed.
End heartbeat.

(** ** Witnesses *)
Lemma server_heartbeat_echo_witness :
  server_heartbeat [false; false; false]
    (HbIo [Chunk (frames [ReqHeartbeat 7; ReqHeartbeat 300])] open_writer []) =
  (HbFailed (MsgIo UnexpectedEof),
   HbIo [] (Writer (frames [RespHeartbeat 7; RespHeartbeat 300]) None) []).
Proof.
  apply (server_heartbeat_echo [ReqHeartbeat 7; ReqHeartbeat 300] _ open_writer []).
  - repeat constructor; by apply (bool_decide_unpack _); vm_compute.
  - reflexivity.
  - exists []. by rewrite app_nil_r.
Defined.

Lemma heartbeat_agreement_witness :
  ∃ rc', client_heartbeat [false; false] (umax 64)
           (HbIo [Chunk (frames [RespHeartbeat 0; RespHeartbeat 1])] open_writer []) =
         (HbRunning, HbIo rc' (Writer (frames [ReqHeartbeat 0; ReqHeartbeat 1]) None) []).
Proof.
  destruct (heartbeat_agreement 2 [Chunk (frames [ReqHeartbeat 0; ReqHeartbeat 1])]
    [Chunk (frames [RespHeartbeat 0; RespHeartbeat 1])] (umax 64)) as [_ H].
  - exists []. split; [by rewrite app_nil_r|done].
  - exists []. split; [by rewrite app_nil_r|done].
  - exact H.
Defined.

Lemma client_heartbeat_timeout_witness :
  ∃ io, client_heartbeat [false; false] 0
          (HbIo ([Chunk (frames [RespHeartbeat 1])] ++ [Chunk [0; 0]] ++ [Stall]) open_writer []) =
        (HbFailed (MsgIo Elapsed), io).
Proof.
  apply (client_heartbeat_timeout 1 0 (RespHeartbeat 2) [0; 0]).
  - by apply heartbeat_fits.
  - eexists. vm_compute. reflexivity.
  - by vm_compute.
  - reflexivity.
  - exists []. split; [by rewrite app_nil_r|done].
  - exists []. split; [by rewrite app_nil_r|done].
Defined.
