(* ===== verification/HttpReader.v ===== *)
(** The HTTP/1.x message reader of [src/src/codec/http.rs]: it accumulates bytes
    and cuts them into messages at the boundary [Content-Length] announces.

    The header parser is the external crate [httparse]; it is a parameter
    ([Httparse]) and only the results the source inspects are visible. *)
From Stdlib Require Import Ascii.
From S2P Require Import Prelude Io Net Target AddrText.

(** Outcome of [Request::parse] / [Response::parse] on a header block, with the
    [version] and [headers] fields filled in by a complete parse. *)
Inductive parse_status : Type :=
| Complete (version : option Z) (headers : list (string * list Z))
| Partial
| ParseErr.

Class Httparse : Type := {
  parse_request : list Z → parse_status;
  parse_response : list Z → parse_status
}.

Definition MAX_HEADER_SIZE : Z := 64 * 1024.

(** The size of the temporary buffer of every read, [[0u8; 8192]]. *)
Definition HTTP_READ_SIZE : nat := Z.to_nat 8192.

Inductive HttpReadResult : Type :=
| HttpMessage (data : list Z)
| NeedMore.

Inductive http_error : Type :=
| HeaderTooLarge
| UnsupportedVersion (version : option Z)
| HttparseError
| HttpReadTimeout
| HttpReadFailed
| HttpUnexpectedEof.

Record HttpMessageReader : Type := HttpReader {
  buf : list Z;
  initialized : bool;
  drain_mode : bool
}.

Definition http_reader_new : HttpMessageReader := HttpReader [] false false.

(** * Helpers of the standard library *)

(** [u8::to_ascii_lowercase] and [str::eq_ignore_ascii_case]. *)
Definition to_ascii_lowercase (b : Z) : Z := if in_range 65 90 b then b + 32 else b.
Definition eq_ignore_ascii_case (a b : string) : bool :=
  bool_decide ((to_ascii_lowercase <$> as_bytes a) = (to_ascii_lowercase <$> as_bytes b)).

(** The UTF-8 encodings of the characters with the property White_Space, which
    is what [str::trim] removes. *)
Definition whitespace_chars : list (list Z) :=
  ((λ b, [b]) <$> [9; 10; 11; 12; 13; 32]) ++ [[0xC2; 0x85]; [0xC2; 0xA0]; [0xE1; 0x9A; 0x80]] ++
  ((λ b, [0xE2; 0x80; b]) <$> [0x80; 0x81; 0x82; 0x83; 0x84; 0x85; 0x86; 0x87; 0x88; 0x89; 0x8A;
                               0xA8; 0xA9; 0xAF]) ++
  [[0xE2; 0x81; 0x9F]; [0xE3; 0x80; 0x80]].

(** Remove the first of [ps] that is a prefix. *)
Fixpoint strip_one (ps : list (list Z)) (bs : list Z) : option (list Z) :=
  match ps with
  | [] => None
  | p :: ps' => if bool_decide (take (length p) bs = p) then Some (drop (length p) bs)
                else strip_one ps' bs
  end.

Fixpoint trim_front (ps : list (list Z)) (fuel : nat) (bs : list Z) : list Z :=
  match fuel with
  | O => bs
  | S f => match strip_one ps bs with Some bs' => trim_front ps f bs' | None => bs end
  end.

(** [str::trim]: UTF-8 is self-synchronising, so trimming the reversed bytes by
    the reversed encodings trims the end. *)
Definition str_trim (s : string) : string :=
  let bs := as_bytes s in
  let front := trim_front whitespace_chars (length bs) bs in
  string_of_bytes
    (reverse (trim_front (reverse <$> whitespace_chars) (length front) (reverse front))).

(** Trimming twice is trimming once. *)
Lemma strip_one_spec ps bs :
  match strip_one ps bs with
  | Some bs' => ∃ p, p ∈ ps ∧ bs = p ++ bs'
  | None => ∀ p rest, p ∈ ps → bs ≠ p ++ rest
  end.
Proof.
  induction ps as [|p ps IH]; cbn [strip_one]; [by intros ? ? ?%elem_of_nil|].
  case_bool_decide as Hp.
  - exists p. split; [apply elem_of_cons; by left|]. rewrite <-Hp at 1. by rewrite take_drop.
  - destruct (strip_one ps bs) as [bs'|].
    + destruct IH as (q & Hq & ->). exists q. split; [apply elem_of_cons; by right|done].
    + intros q rest [->|Hq]%elem_of_cons; [|by apply IH]. intros ->. by rewrite take_app_length in Hp.
Qed.

Lemma trim_front_spec ps fuel bs :
  [] ∉ ps → (length bs <= fuel)%nat →
  strip_one ps (trim_front ps fuel bs) = None ∧ ∃ pre, bs = pre ++ trim_front ps fuel bs.
Proof.
  intros Hne. revert bs. induction fuel as [|f IH]; intros bs Hl; cbn [trim_front].
  - destruct bs; [|simpl in Hl; lia]. split; [|by exists []].
    pose proof (strip_one_spec ps []) as Hs. destruct (strip_one ps []) as [bs'|]; [|done].
    destruct Hs as (p & Hp & He). symmetry in He. by apply app_nil in He as [-> _].
  - pose proof (strip_one_spec ps bs) as Hs. destruct (strip_one ps bs) as [bs'|] eqn:E.
    + destruct Hs as (p & Hp & ->).
      assert (length bs' <= f)%nat as Hl'.
      { rewrite length_app in Hl. destruct p as [|b p]; [done|]. cbn [length] in Hl. lia. }
      destruct (IH bs' Hl') as [? [pre Hpre]]. split; [done|]. exists (p ++ pre). by rewrite <-app_assoc, <-Hpre.
    + split; [done|by exists []].
Qed.

Lemma trim_front_done ps fuel bs : strip_one ps bs = None → trim_front ps fuel bs = bs.
Proof. intros Hs. destruct fuel; [done|]. cbn [trim_front]. by rewrite Hs. Qed.

Lemma strip_one_prefix ps l k : strip_one ps (l ++ k) = None → strip_one ps l = None.
Proof.
  intros Hs. pose proof (strip_one_spec ps (l ++ k)) as Ha. rewrite Hs in Ha.
  pose proof (strip_one_spec ps l) as Hb. destruct (strip_one ps l) as [l'|]; [|done].
  destruct Hb as (p & Hp & ->). rewrite <-app_assoc in Ha. by destruct (Ha p (l' ++ k) Hp).
Qed.

Lemma str_trim_idemp s : str_trim (str_trim s) = str_trim s.
Proof.
  unfold str_trim at 2 3. set (bs := as_bytes s).
  destruct (trim_front_spec whitespace_chars (length bs) bs) as [Hf [pre Hpre]]; [by apply (bool_decide_unpack _); vm_compute|done|].
  set (front := trim_front whitespace_chars (length bs) bs) in *.
  set (back := trim_front _ (length front) (reverse front)).
  destruct (trim_front_spec (reverse <$> whitespace_chars) (length front) (reverse front)) as [Hb [post Hpost]];
    [by apply (bool_decide_unpack _); vm_compute|by rewrite length_reverse|]. fold back in Hb, Hpost.
  assert (front = reverse back ++ reverse post) as Hfront by (by rewrite <-reverse_app, <-Hpost, reverse_involutive).
  assert (bytes_ok (reverse back)) as Hok.
  { pose proof (as_bytes_ok s) as Hs. fold bs in Hs. unfold bytes_ok in *. rewrite Hpre, Hfront in Hs.
    by apply Forall_app in Hs as [_ [? _]%Forall_app]. }
  unfold str_trim. rewrite as_string_of_bytes by done.
  rewrite !(trim_front_done whitespace_chars) by (apply (strip_one_prefix _ _ (reverse post)); by rewrite <-Hfront).
  by rewrite reverse_involutive, trim_front_done.
Qed.

(** * Finding the end of the headers *)

Definition CRLFCRLF : list Z := [13; 10; 13; 10].

Fixpoint find_header_end (b : list Z) : option nat :=
  match b with
  | [] => None
  | _ :: rest =>
      if bool_decide (take 4 b = CRLFCRLF) then Some 4%nat else S <$> find_header_end rest
  end.

Section http.
Context {HTTPARSE : Httparse}.

(** The request-then-response parse of a complete header block: [Ok None] is
    the [Partial] outcome.  (The source parses a response twice to get at its
    headers; the parser is a function of the bytes, so the second result is the
    first.) *)
Definition parse_headers (header_bytes : list Z) :
  result http_error (option (list (string * list Z))) :=
  let check version headers :=
    if bool_decide (version = Some 0 ∨ version = Some 1) then Ok (Some headers)
    else Err (UnsupportedVersion version) in
  match parse_request header_bytes with
  | Complete version headers => check version headers
  | Partial => Ok None
  | ParseErr =>
      match parse_response header_bytes with
      | Complete version headers => check version headers
      | Partial => Ok None
      | ParseErr => Err HttparseError
      end
  end.

(** The first header named [content-length], if its value is a [usize]; a
    malformed value is the same as none. *)
Definition content_length (headers : list (string * list Z)) : option Z :=
  h ← head (filter (λ h, eq_ignore_ascii_case h.1 "content-length"%string = true) headers);
  s ← from_utf8 h.2;
  parse_uint 64 (str_trim s).

Definition try_parse (hr : HttpMessageReader) :
  result http_error (option (list Z)) * HttpMessageReader :=
  if bool_decide (buf hr = []) then (Ok None, hr) else
  match find_header_end (buf hr) with
  | None =>
      if MAX_HEADER_SIZE <? Z.of_nat (length (buf hr)) then (Err HeaderTooLarge, hr)
      else (Ok None, hr)
  | Some header_end =>
      match parse_headers (take header_end (buf hr)) with
      | Err e => (Err e, hr)
      | Ok None => (Ok None, hr)
      | Ok (Some headers) =>
          match content_length headers with
          | Some cl =>
              let body_end := wrapping_add 64 (Z.of_nat header_end) cl in
              if Z.of_nat (length (buf hr)) <? body_end
              then (Ok None, HttpReader (buf hr) true (drain_mode hr))
              else (Ok (Some (take (Z.to_nat body_end) (buf hr))),
                    HttpReader (drop (Z.to_nat body_end) (buf hr)) true (drain_mode hr))
          | None => (Ok (Some (buf hr)), HttpReader [] true true)
          end
      end
  end.

(** The loop of [read_message]; [None] is out of fuel. *)
Fixpoint read_message_loop (fuel : nat) (hr : HttpMessageReader) (r : reader) :
  option (result http_error HttpReadResult) * HttpMessageReader * reader :=
  match fuel with
  | O => (None, hr, r)
  | S f =>
      if drain_mode hr then
        if bool_decide (buf hr = []) then
          match read HTTP_READ_SIZE r with
          | (REof, r) => (Some (Ok (HttpMessage [])), hr, r)
          | (RData bs, r) => (Some (Ok (HttpMessage bs)), hr, r)
          | (RFail, r) => (Some (Err HttpReadFailed), hr, r)
          | (RElapsed, r) => (Some (Err HttpReadTimeout), hr, r)
          end
        else (Some (Ok (HttpMessage (buf hr))), HttpReader [] (initialized hr) true, r)
      else
        match try_parse hr with
        | (Err e, hr) => (Some (Err e), hr, r)
        | (Ok (Some msg), hr) => (Some (Ok (HttpMessage msg)), hr, r)
        | (Ok None, hr) =>
            match read HTTP_READ_SIZE r with
            | (REof, r) =>
                if bool_decide (buf hr = []) then (Some (Ok (HttpMessage [])), hr, r)
                else (Some (Err HttpUnexpectedEof), hr, r)
            | (RData bs, r) =>
                read_message_loop f (HttpReader (buf hr ++ bs) (initialized hr) (drain_mode hr)) r
            | (RFail, r) => (Some (Err HttpReadFailed), hr, r)
            | (RElapsed, r) => (Some (Err HttpReadTimeout), hr, r)
            end
        end
  end.

Definition read_message (hr : HttpMessageReader) (r : reader) :
  option (result http_error HttpReadResult) * HttpMessageReader * reader :=
  read_message_loop (S (reader_size r)) hr r.

(** ** The end of the headers *)

Lemma find_header_end_bound b n : find_header_end b = Some n → (4 <= n <= length b)%nat.
Proof.
  revert n. induction b as [|x b IH]; intros n H; [done|]. cbn [find_header_end] in H.
  case_bool_decide as Ht.
  - simplify_eq. apply (f_equal length) in Ht. rewrite length_take in Ht.
    unfold CRLFCRLF in Ht. simpl length in *. lia.
  - destruct (find_header_end b) as [k|]; [|done]. simplify_eq/=.
    specialize (IH k eq_refl). lia.
Qed.

(** Bytes that arrive later never move a header end that was found. *)
Lemma find_header_end_app b c n : find_header_end b = Some n → find_header_end (b ++ c) = Some n.
Proof.
  revert n. induction b as [|x b IH]; intros n H; [done|]. cbn [find_header_end] in H.
  cbn [app find_header_end]. case_bool_decide as Ht.
  - simplify_eq. rewrite bool_decide_true; [done|].
    change (x :: b ++ c) with ((x :: b) ++ c). rewrite take_app_le; [done|].
    apply (f_equal length) in Ht. rewrite length_take in Ht. simpl length in *. lia.
  - destruct (find_header_end b) as [k|] eqn:Hk; [|done]. simplify_eq/=.
    rewrite (IH _ eq_refl). rewrite bool_decide_false; [done|].
    apply find_header_end_bound in Hk.
    change (x :: b ++ c) with ((x :: b) ++ c). rewrite take_app_le; [done|]. simpl. lia.
Qed.

Lemma find_header_end_before h p b n :
  find_header_end h = Some (length h) → h ++ b = p ++ n → (length p < length h)%nat →
  find_header_end p = None.
Proof.
  intros Hh Heq Hl. destruct (find_header_end p) as [k|] eqn:Hp; [|done].
  pose proof (find_header_end_bound _ _ Hp).
  apply (find_header_end_app _ n) in Hp. rewrite <-Heq in Hp.
  apply (find_header_end_app _ b) in Hh. rewrite Hh in Hp. simplify_eq. lia.
Qed.

(** ** Framed messages *)

(** A message whose header block [h.1] the parser accepts and whose body [h.2]
    has the announced length. *)
Definition frame_ok (m : list Z * list Z) : Prop :=
  find_header_end m.1 = Some (length m.1) ∧
  Z.of_nat (length m.1) <= MAX_HEADER_SIZE ∧
  Z.of_nat (length (m.1 ++ m.2)) < 2 ^ 64 ∧
  ∃ headers, parse_headers m.1 = Ok (Some headers) ∧
             content_length headers = Some (Z.of_nat (length m.2)).

Definition frame_bytes (m : list Z * list Z) : list Z := m.1 ++ m.2.

Lemma try_parse_frame m x i d :
  frame_ok m →
  try_parse (HttpReader (frame_bytes m ++ x) i d) = (Ok (Some (frame_bytes m)), HttpReader x true d).
Proof.
  destruct m as [h b]. intros (Hh & _ & Hl & headers & Hp & Hc). unfold frame_bytes. simpl in *.
  pose proof (find_header_end_bound _ _ Hh). unfold try_parse. cbn [buf drain_mode].
  rewrite bool_decide_false by (destruct h; simpl in *; [lia|done]).
  rewrite <-app_assoc, (find_header_end_app _ (b ++ x) _ Hh), take_app_length, Hp, Hc.
  cbv beta iota zeta. rewrite length_app in Hl.
  unfold wrapping_add. rewrite wrap_small by (unfold in_u; lia).
  rewrite <-Nat2Z.inj_add, <-length_app, Nat2Z.id, app_assoc.
  rewrite (proj2 (Z.ltb_ge _ _)) by (rewrite (length_app (h ++ b)); lia).
  by rewrite take_app_length, drop_app_length.
Qed.

(** On a strict prefix of a framed message, nothing is emitted and the buffer
    stays as it is. *)
Lemma try_parse_short m p x i :
  frame_ok m → frame_bytes m = p ++ x → x ≠ [] →
  ∃ i', try_parse (HttpReader p i false) = (Ok None, HttpReader p i' false).
Proof.
  destruct m as [h b]. intros (Hh & Hmax & Hl & headers & Hp & Hc) Heq Hx.
  unfold frame_bytes in Heq. simpl in *. unfold try_parse. cbn [buf drain_mode].
  case_bool_decide; [by eexists|].
  destruct (decide (length p < length h)%nat) as [Hlt|Hge].
  { rewrite (find_header_end_before h p b x Hh Heq Hlt).
    rewrite (proj2 (Z.ltb_ge _ _)) by lia. by eexists. }
  assert (p = h ++ drop (length h) p) as Hp'.
  { rewrite <-(take_drop (length h) p) at 1. f_equal.
    apply (f_equal (take (length h))) in Heq.
    by rewrite take_app_length, take_app_le in Heq by lia. }
  assert (find_header_end p = Some (length h)) as -> by (rewrite Hp'; by apply find_header_end_app).
  assert (take (length h) p = h) as -> by (rewrite Hp'; apply take_app_length).
  rewrite Hp, Hc. cbv beta iota zeta. rewrite length_app in Hl.
  unfold wrapping_add. rewrite wrap_small by (unfold in_u; lia).
  rewrite (proj2 (Z.ltb_lt _ _)); [by eexists|].
  apply (f_equal length) in Heq. rewrite !length_app in Heq.
  destruct x; [done|]. simpl in Heq. lia.
Qed.

(** One framed message is emitted whole, however its bytes are split between
    the buffer and the chunks of the stream. *)
Lemma read_message_loop_frame fuel m rest bs p i r :
  frame_ok m → (reader_size r < fuel)%nat → delivers r bs → p ++ bs = frame_bytes m ++ rest →
  ∃ p' r' bs', read_message_loop fuel (HttpReader p i false) r =
      (Some (Ok (HttpMessage (frame_bytes m))), HttpReader p' true false, r') ∧
    delivers r' bs' ∧ p' ++ bs' = rest.
Proof.
  intros Hm. revert bs p i r. induction fuel as [|f IH]; intros bs p i r Hf Hd Heq; [lia|].
  cbn [read_message_loop drain_mode].
  destruct (decide (length (frame_bytes m) <= length p)%nat) as [Hle|Hlt].
  - assert (p = frame_bytes m ++ drop (length (frame_bytes m)) p) as Hp.
    { rewrite <-(take_drop (length (frame_bytes m)) p) at 1. f_equal.
      apply (f_equal (take (length (frame_bytes m)))) in Heq.
      by rewrite take_app_length, take_app_le in Heq. }
    rewrite Hp in Heq |- *. rewrite <-app_assoc in Heq. apply app_inv_head in Heq.
    rewrite try_parse_frame by done. eauto 10.
  - assert (frame_bytes m = p ++ take (length (frame_bytes m) - length p) bs) as Hp.
    { apply (f_equal (take (length (frame_bytes m)))) in Heq.
      by rewrite take_app_length, take_app_ge in Heq by lia. }
    set (x := take _ bs) in Hp.
    assert (x ≠ []) as Hx by (intros ->; rewrite app_nil_r in Hp; rewrite Hp in Hlt; lia).
    destruct (try_parse_short m p x i Hm Hp Hx) as [i' ->].
    assert (bs ≠ []) as Hbs by (intros ->; apply Hx; unfold x; by destruct (_ - _)%nat).
    destruct (read_delivers HTTP_READ_SIZE r bs Hd Hbs ltac:(unfold HTTP_READ_SIZE; lia))
      as (now & later & r' & Hr & _ & -> & Hd' & _).
    destruct (read_size HTTP_READ_SIZE r _ _ ltac:(unfold HTTP_READ_SIZE; lia) Hr) as [_ Hsz].
    rewrite Hr. cbn [buf initialized drain_mode].
    apply (IH later (p ++ now) i' r'); [by specialize (Hsz ltac:(done)); lia|done|].
    by rewrite <-app_assoc.
Qed.

(** The caller's loop, for [n] calls. *)
Fixpoint read_messages (n : nat) (hr : HttpMessageReader) (r : reader) :
  list (option (result http_error HttpReadResult)) * HttpMessageReader * reader :=
  match n with
  | O => ([], hr, r)
  | S n' =>
      match read_message hr r with
      | (x, hr, r) =>
          match read_messages n' hr r with (xs, hr, r) => (x :: xs, hr, r) end
      end
  end.

Definition emitted (bs : list Z) : option (result http_error HttpReadResult) :=
  Some (Ok (HttpMessage bs)).

Lemma read_message_end i r :
  delivers r [] → read_message (HttpReader [] i false) r = (emitted [], HttpReader [] i false, []).
Proof.
  intros Hd. unfold read_message. cbn [read_message_loop drain_mode].
  unfold try_parse. cbn [buf]. rewrite bool_decide_true by done.
  by rewrite (read_delivers_eof HTTP_READ_SIZE r Hd).
Qed.

(** C22: Message boundaries do not depend on how the transport cuts the stream:
    a sequence of messages with a correct [Content-Length] is returned message
    by message, unchanged and in order, whatever the chunks, and then the end of
    the stream is reported as the empty message. *)
Theorem http_framing ms r :
  Forall frame_ok ms → delivers r (ms ≫= frame_bytes) →
  ∃ hr, read_messages (S (length ms)) http_reader_new r =
        ((emitted ∘ frame_bytes <$> ms) ++ [emitted []], hr, []).
Proof.
  unfold http_reader_new. intros Hms Hd.
  assert (∀ i p bs r, Forall frame_ok ms → delivers r bs → p ++ bs = ms ≫= frame_bytes →
    ∃ hr, read_messages (S (length ms)) (HttpReader p i false) r =
        ((emitted ∘ frame_bytes <$> ms) ++ [emitted []], hr, [])) as Hgen; [|by eauto].
  clear. induction ms as [|m ms IH]; intros i p bs r Hms Hd Heq.
  - apply app_eq_nil in Heq as [-> ->]. exists (HttpReader [] i false).
    cbn [length read_messages]. by rewrite read_message_end.
  - apply Forall_cons_1 in Hms as [Hm Hms].
    destruct (read_message_loop_frame (S (reader_size r)) m (ms ≫= frame_bytes) bs p i r Hm)
      as (p' & r' & bs' & Hr & Hd' & Heq'); [lia|done|done|].
    destruct (IH true p' bs' r' Hms Hd' Heq') as [hr Hhr].
    exists hr. cbn [length]. remember (S (length ms)) as n. cbn [read_messages].
    unfold read_message. by rewrite Hr, Hhr.
Qed.

(** A stream that ends inside a message is an error, whatever the chunks:
    nothing of the truncated message is emitted, and the bytes read so far stay
    in the buffer. *)
Theorem http_truncated m p x r :
  frame_ok m → frame_bytes m = p ++ x → p ≠ [] → x ≠ [] → delivers r p →
  ∃ i, read_message http_reader_new r = (Some (Err HttpUnexpectedEof), HttpReader p i false, []).
Proof.
  intros Hm Heq Hp Hx Hd.
  assert (∀ fuel q bs i r, (reader_size r < fuel)%nat → delivers r bs → q ++ bs = p →
    ∃ i', read_message_loop fuel (HttpReader q i false) r =
          (Some (Err HttpUnexpectedEof), HttpReader p i' false, [])) as Hgen.
  { clear r Hd. induction fuel as [|f IH]; intros q bs i r Hf Hd Hq; [lia|].
    cbn [read_message_loop drain_mode]. subst p. rewrite <-app_assoc in Heq.
    destruct (try_parse_short m q (bs ++ x) i Hm Heq) as [i' ->]; [by destruct bs|].
    destruct (decide (bs = [])) as [->|Hbs].
    - rewrite app_nil_r in *. exists i'. rewrite (read_delivers_eof HTTP_READ_SIZE r Hd).
      cbn [buf]. by rewrite bool_decide_false.
    - destruct (read_delivers HTTP_READ_SIZE r bs Hd Hbs ltac:(unfold HTTP_READ_SIZE; lia))
        as (now & later & r' & Hr & _ & -> & Hd' & _).
      destruct (read_size HTTP_READ_SIZE r _ _ ltac:(unfold HTTP_READ_SIZE; lia) Hr) as [_ Hsz].
      rewrite Hr. cbn [buf initialized drain_mode].
      apply (IH (q ++ now) later i' r'); [by specialize (Hsz ltac:(done)); lia|done|].
      by rewrite <-app_assoc. }
  apply (Hgen _ [] p); [lia|done|done].
Qed.

(** ** Conservation of bytes *)

Definition message_bytes (x : option (result http_error HttpReadResult)) : list Z :=
  match x with Some (Ok (HttpMessage bs)) => bs | _ => [] end.

Lemma try_parse_conserves hr x hr' :
  try_parse hr = (x, hr') →
  buf hr = match x with Ok (Some bs) => bs | _ => [] end ++ buf hr'.
Proof.
  unfold try_parse. intros Hx. repeat case_hyp Hx; simplify_eq/=; try done.
  - by rewrite take_drop.
  - by rewrite app_nil_r.
Qed.

(** C23: On every stream, transport errors and stalls included, a call returns
    (it needs no more steps than the stream has bytes and events) and neither
    loses, duplicates nor reorders a byte: what was buffered or still to come is
    exactly what is emitted, followed by what is now buffered or still to come.
    [NeedMore] is never returned. *)
Theorem read_message_conserves hr r :
  ∃ x hr' r', read_message hr r = (Some x, hr', r') ∧ x ≠ Ok NeedMore ∧
    buf hr ++ reader_bytes r = message_bytes (Some x) ++ buf hr' ++ reader_bytes r'.
Proof.
  unfold read_message. assert (reader_size r < S (reader_size r))%nat as Hf by lia.
  revert Hf. generalize (S (reader_size r)) as fuel. intros fuel. revert hr r.
  induction fuel as [|f IH]; intros hr r Hf; [lia|]. cbn [read_message_loop].
  destruct (read HTTP_READ_SIZE r) as [x r'] eqn:Hr.
  pose proof (read_bytes _ _ _ _ Hr) as [Hb _].
  destruct (read_size HTTP_READ_SIZE r _ _ ltac:(unfold HTTP_READ_SIZE; lia) Hr) as [_ Hsz].
  destruct (drain_mode hr) eqn:Hdm.
  { case_bool_decide as Hbuf.
    - destruct x; eexists _, _, _; (split_and!; [done|done|]); by rewrite Hb, Hbuf.
    - eexists _, _, _. split_and!; [done|done|]. done. }
  destruct (try_parse hr) as [y hr1] eqn:Ht. apply try_parse_conserves in Ht as Hc.
  destruct y as [[msg|]|e].
  - eexists _, _, _. split_and!; [done|done|]. simpl. by rewrite Hc, <-app_assoc.
  - simpl in Hc. destruct x as [|bs| |].
    + case_bool_decide as Hbuf; eexists _, _, _; (split_and!; [done|done|]); by rewrite Hc, Hb.
    + specialize (Hsz ltac:(done)).
      destruct (IH (HttpReader (buf hr1 ++ bs) (initialized hr1) (drain_mode hr1)) r' ltac:(lia))
        as (z & hr2 & r2 & Hz & Hn & Hcz).
      exists z, hr2, r2. split_and!; [done..|]. rewrite <-Hcz. simpl.
      by rewrite Hc, Hb, app_assoc.
    + eexists _, _, _; (split_and!; [done|done|]); by rewrite Hc, Hb.
    + eexists _, _, _; (split_and!; [done|done|]); by rewrite Hc, Hb.
  - eexists _, _, _. split_and!; [done|done|]. by rewrite Hc.
Qed.

(** ** Streaming messages *)

(** A header block without a usable [Content-Length]. *)
Definition streaming_head (h : list Z) : Prop :=
  find_header_end h = Some (length h) ∧
  Z.of_nat (length h) <= MAX_HEADER_SIZE ∧
  ∃ headers, parse_headers h = Ok (Some headers) ∧ content_length headers = None.

Lemma try_parse_streaming h x i d :
  streaming_head h →
  try_parse (HttpReader (h ++ x) i d) = (Ok (Some (h ++ x)), HttpReader [] true true).
Proof.
  intros (Hh & _ & headers & Hp & Hc). unfold try_parse. cbn [buf].
  pose proof (find_header_end_bound _ _ Hh).
  rewrite bool_decide_false by (destruct h; simpl in *; [lia|done]).
  by rewrite (find_header_end_app _ x _ Hh), take_app_length, Hp, Hc.
Qed.

Lemma read_message_loop_streaming h fuel rest bs p i r :
  streaming_head h → (reader_size r < fuel)%nat → delivers r bs → p ++ bs = h ++ rest →
  ∃ q r' bs', read_message_loop fuel (HttpReader p i false) r = (emitted q, HttpReader [] true true, r') ∧
    q ≠ [] ∧ delivers r' bs' ∧ q ++ bs' = h ++ rest.
Proof.
  intros Hs. pose proof Hs as (Hh & Hmax & _). pose proof (find_header_end_bound _ _ Hh).
  revert bs p i r. induction fuel as [|f IH]; intros bs p i r Hf Hd Heq; [lia|].
  cbn [read_message_loop drain_mode].
  destruct (decide (length h <= length p)%nat) as [Hle|Hlt].
  - assert (p = h ++ drop (length h) p) as Hp.
    { rewrite <-(take_drop (length h) p) at 1. f_equal.
      apply (f_equal (take (length h))) in Heq. by rewrite take_app_length, take_app_le in Heq. }
    rewrite Hp. rewrite try_parse_streaming by done. rewrite <-Hp.
    exists p, r, bs. split_and!; [done|destruct p, h; simpl in *; try lia; done|done..].
  - assert (try_parse (HttpReader p i false) = (Ok None, HttpReader p i false)) as ->.
    { unfold try_parse. cbn [buf]. case_bool_decide; [done|].
      rewrite (find_header_end_before h p rest bs Hh) by (done || lia).
      by rewrite (proj2 (Z.ltb_ge _ _)) by lia. }
    assert (bs ≠ []) as Hbs.
    { intros ->. rewrite app_nil_r in Heq. rewrite Heq, length_app in Hlt. lia. }
    destruct (read_delivers HTTP_READ_SIZE r bs Hd Hbs ltac:(unfold HTTP_READ_SIZE; lia))
      as (now & later & r' & Hr & _ & -> & Hd' & _).
    destruct (read_size HTTP_READ_SIZE r _ _ ltac:(unfold HTTP_READ_SIZE; lia) Hr) as [_ Hsz].
    rewrite Hr. cbn [buf initialized drain_mode].
    apply (IH later (p ++ now) i r'); [by specialize (Hsz ltac:(done)); lia|done|].
    by rewrite <-app_assoc.
Qed.

(** Drain mode passes everything through. *)
Lemma read_messages_drain size r bs i :
  (reader_size r < size)%nat → delivers r bs →
  ∃ msgs, read_messages (S (length msgs)) (HttpReader [] i true) r =
      ((emitted <$> msgs) ++ [emitted []], HttpReader [] i true, []) ∧
    mjoin msgs = bs ∧ Forall (λ m, m ≠ []) msgs.
Proof.
  revert r bs. induction size as [|size IH]; intros r bs Hsz Hd; [lia|].
  destruct (decide (bs = [])) as [->|Hbs].
  - exists []. split_and!; [|done|done]. cbn [length read_messages].
    unfold read_message. cbn [read_message_loop drain_mode buf].
    rewrite bool_decide_true by done. by rewrite (read_delivers_eof HTTP_READ_SIZE r Hd).
  - destruct (read_delivers HTTP_READ_SIZE r bs Hd Hbs ltac:(unfold HTTP_READ_SIZE; lia))
      as (now & later & r' & Hr & Hne & -> & Hd' & _).
    destruct (read_size HTTP_READ_SIZE r _ _ ltac:(unfold HTTP_READ_SIZE; lia) Hr) as [_ Hlt].
    specialize (Hlt ltac:(done)).
    destruct (IH r' later ltac:(lia) Hd') as (msgs & Hms & <- & Hall).
    exists (now :: msgs). split_and!; [|done|by constructor].
    cbn [length]. remember (S (length msgs)) as n. cbn [read_messages].
    unfold read_message. cbn [read_message_loop drain_mode buf].
    rewrite bool_decide_true by done. by rewrite Hr, Hms.
Qed.

(** A message without a usable [Content-Length] (chunked, streaming) turns
    the reader into a transparent pipe: everything from its first byte to the
    end of the stream is passed through in non-empty pieces, and body bytes are
    never parsed as headers, so no error can arise. *)
Theorem http_streaming h rest r :
  streaming_head h → delivers r (h ++ rest) →
  ∃ msgs hr, read_messages (S (length msgs)) http_reader_new r =
      ((emitted <$> msgs) ++ [emitted []], hr, []) ∧
    mjoin msgs = h ++ rest ∧ Forall (λ m, m ≠ []) msgs.
Proof.
  intros Hs Hd.
  destruct (read_message_loop_streaming h (S (reader_size r)) rest (h ++ rest) [] false r)
    as (q & r' & bs' & Hr & Hq & Hd' & Heq); [done|lia|done|done|].
  destruct (read_messages_drain (S (reader_size r')) r' bs' true ltac:(lia) Hd')
    as (msgs & Hms & <- & Hall).
  exists (q :: msgs), (HttpReader [] true true). split_and!; [|done|by constructor].
  cbn [length]. remember (S (length msgs)) as n. cbn [read_messages].
  unfold read_message, http_reader_new. by rewrite Hr, Hms.
Qed.

(** ** The bound on the header *)

(** A stream that never ends its header block is given up on: as soon as
    more than [MAX_HEADER_SIZE] bytes are buffered the reader fails, having
    buffered at most one read more than that. *)
Theorem http_header_bound r bs :
  delivers r bs → find_header_end bs = None → MAX_HEADER_SIZE < Z.of_nat (length bs) →
  ∃ p r', read_message http_reader_new r = (Some (Err HeaderTooLarge), HttpReader p false false, r') ∧
    MAX_HEADER_SIZE < Z.of_nat (length p) <= MAX_HEADER_SIZE + 8192.
Proof.
  intros Hd Hn Hl.
  assert (∀ fuel p rest r, (reader_size r < fuel)%nat → delivers r rest → p ++ rest = bs →
    Z.of_nat (length p) <= MAX_HEADER_SIZE + 8192 →
    ∃ p' r', read_message_loop fuel (HttpReader p false false) r =
      (Some (Err HeaderTooLarge), HttpReader p' false false, r') ∧
    MAX_HEADER_SIZE < Z.of_nat (length p') <= MAX_HEADER_SIZE + 8192) as Hgen.
  { clear r Hd. induction fuel as [|f IH]; intros p rest r Hf Hd Heq Hp; [lia|].
    cbn [read_message_loop drain_mode]. unfold try_parse. cbn [buf].
    assert (find_header_end p = None) as ->.
    { destruct (find_header_end p) eqn:Hfp; [|done].
      apply (find_header_end_app _ rest) in Hfp. congruence. }
    destruct (Z.ltb_spec MAX_HEADER_SIZE (Z.of_nat (length p))).
    { rewrite bool_decide_false by (by intros ->). eauto 10. }
    assert ((if bool_decide (p = []) then (Ok None, HttpReader p false false)
             else (Ok None, HttpReader p false false)) =
            (Ok None, HttpReader p false false) :> (result http_error (option (list Z)) * _)) as ->
      by by case_bool_decide.
    assert (rest ≠ []) as Hrest by (intros ->; rewrite app_nil_r in Heq; subst; lia).
    destruct (read_delivers HTTP_READ_SIZE r rest Hd Hrest ltac:(unfold HTTP_READ_SIZE; lia))
      as (now & later & r' & Hr & _ & -> & Hd' & Hnow).
    destruct (read_size HTTP_READ_SIZE r _ _ ltac:(unfold HTTP_READ_SIZE; lia) Hr) as [_ Hsz].
    rewrite Hr. cbn [buf initialized drain_mode].
    apply (IH (p ++ now) later r'); [by specialize (Hsz ltac:(done)); lia|done| |].
    - by rewrite <-app_assoc.
    - rewrite length_app. unfold HTTP_READ_SIZE in Hnow. lia. }
  apply (Hgen _ [] bs); [lia|done|done|]. unfold MAX_HEADER_SIZE. simpl. lia.
Qed.

(** The bound does not cover every stream.  After a leading blank line pair,
    of which [httparse] reports [Partial] (it skips empty lines before the
    start line), no later byte is ever looked at: the reader buffers the whole
    stream, however long, and fails at its end. *)
Theorem http_blank_prefix_buffers_all rest r :
  parse_request CRLFCRLF = Partial → delivers r (CRLFCRLF ++ rest) →
  read_message http_reader_new r =
    (Some (Err HttpUnexpectedEof), HttpReader (CRLFCRLF ++ rest) false false, []).
Proof.
  intros Hpart Hd.
  assert (∀ p, p = [] ∨ (∃ k, p ++ k = CRLFCRLF ∧ k ≠ []) ∨ (∃ x, p = CRLFCRLF ++ x) →
    try_parse (HttpReader p false false) = (Ok None, HttpReader p false false)) as Htry.
  { intros p [->|[[k Hk]|[x ->]]]; [done| |].
    - unfold CRLFCRLF in Hk. destruct Hk as [Hk ?]. unfold try_parse.
      by destruct p as [|? [|? [|? [|? [|]]]]]; simplify_eq/=.
    - unfold try_parse, CRLFCRLF. cbn [buf app find_header_end].
      rewrite bool_decide_false by done. rewrite bool_decide_true by done.
      unfold parse_headers. change (take 4 (13 :: 10 :: 13 :: 10 :: x)) with CRLFCRLF.
      by rewrite Hpart. }
  assert (∀ fuel p q r, (reader_size r < fuel)%nat → delivers r q → p ++ q = CRLFCRLF ++ rest →
    read_message_loop fuel (HttpReader p false false) r =
    (Some (Err HttpUnexpectedEof), HttpReader (CRLFCRLF ++ rest) false false, [])) as Hgen.
  { clear r Hd. induction fuel as [|f IH]; intros p q r Hf Hd Heq; [lia|].
    cbn [read_message_loop drain_mode]. rewrite Htry.
    2:{ right. destruct (decide (length p < 4)%nat) as [Hle|Hgt].
        - left. exists (take (4 - length p) q). apply (f_equal (take 4)) in Heq.
          rewrite take_app_ge, (take_app_length' CRLFCRLF) in Heq by (done || lia).
          split; [done|]. intros Hk. rewrite Hk, app_nil_r in Heq. subst p. simpl in Hle. lia.
        - right. exists (drop 4 p). rewrite <-(take_drop 4 p) at 1. f_equal.
          apply (f_equal (take 4)) in Heq.
          by rewrite take_app_le, (take_app_length' CRLFCRLF) in Heq by (done || lia). }
    destruct (decide (q = [])) as [->|Hq].
    - rewrite app_nil_r in Heq. subst p.
      rewrite (read_delivers_eof HTTP_READ_SIZE r Hd). cbn [buf]. by rewrite bool_decide_false.
    - destruct (read_delivers HTTP_READ_SIZE r q Hd Hq ltac:(unfold HTTP_READ_SIZE; lia))
        as (now & later & r' & Hr & _ & -> & Hd' & _).
      destruct (read_size HTTP_READ_SIZE r _ _ ltac:(unfold HTTP_READ_SIZE; lia) Hr) as [_ Hsz].
      rewrite Hr. cbn [buf initialized drain_mode].
      apply (IH (p ++ now) later r'); [by specialize (Hsz ltac:(done)); lia|done|].
      by rewrite <-app_assoc. }
  apply (Hgen _ [] (CRLFCRLF ++ rest)); [lia|done|done].
Qed.

(** The sum [body_start + cl] is a [usize] addition that wraps: a header
    announcing a body of [2^64] minus its own length is answered with an empty
    message without consuming anything, which the caller takes for the end of
    the stream. *)
Theorem http_content_length_wraps h headers rest i :
  find_header_end h = Some (length h) → in_u 64 (Z.of_nat (length h)) →
  parse_headers h = Ok (Some headers) →
  content_length headers = Some (2 ^ 64 - Z.of_nat (length h)) →
  try_parse (HttpReader (h ++ rest) i false) = (Ok (Some []), HttpReader (h ++ rest) true false).
Proof.
  intros Hh Hl Hp Hc. unfold try_parse. cbn [buf drain_mode].
  pose proof (find_header_end_bound _ _ Hh).
  rewrite bool_decide_false by (destruct h; simpl in *; [lia|done]).
  rewrite (find_header_end_app _ rest _ Hh), take_app_length, Hp, Hc. cbv beta iota zeta.
  unfold wrapping_add, wrap. replace (_ + _)%Z with (2 ^ 64) by lia.
  rewrite Z_mod_same_full. by destruct (Z.ltb_spec (Z.of_nat (length (h ++ rest))) 0); [lia|].
Qed.
End http.

(** * Witnesses

    A parser that knows four header blocks: a request with a body of 3 bytes, a
    response without [Content-Length], one that announces an absurd length, and
    the blank line pair. *)
Definition crlf : list Z := [13; 10].
Definition sample_request : list Z :=
  as_bytes "POST / HTTP/1.1" ++ crlf ++ as_bytes "Content-Length: 3" ++ crlf ++ crlf.
Definition sample_stream : list Z := as_bytes "HTTP/1.1 200 OK" ++ crlf ++ crlf.
Definition sample_absurd : list Z := as_bytes "PUT / HTTP/1.1" ++ crlf ++ crlf.

Definition sample_httparse : Httparse := {|
  parse_request h :=
    if decide (h = sample_request) then Complete (Some 1) [("Content-Length"%string, as_bytes " 3 ")]
    else if decide (h = sample_absurd)
    then Complete (Some 1) [("content-length"%string, as_bytes "18446744073709551598")]
    else if decide (h = CRLFCRLF) then Partial else ParseErr;
  parse_response h := if decide (h = sample_stream) then Complete (Some 1) [] else ParseErr
|}.

Lemma sample_frame_ok : frame_ok (HTTPARSE := sample_httparse) (sample_request, [1; 2; 3]).
Proof.
  split; [by vm_compute|]. split; [by vm_compute|]. split; [by vm_compute|].
  exists [("Content-Length"%string, as_bytes " 3 ")]. split; by vm_compute.
Qed.

Lemma http_framing_witness :
  ∃ hr, read_messages (HTTPARSE := sample_httparse) 3 http_reader_new
          [Chunk (sample_request ++ [1]); Chunk ([2; 3] ++ sample_request ++ [1; 2; 3])] =
        ([emitted (sample_request ++ [1; 2; 3]); emitted (sample_request ++ [1; 2; 3]); emitted []],
         hr, []).
Proof.
  apply (http_framing (HTTPARSE := sample_httparse) [(sample_request, [1; 2; 3]); (sample_request, [1; 2; 3])]).
  - by repeat constructor; apply sample_frame_ok.
  - eexists. split; [|eexists; split; [|reflexivity]]; [|symmetry; apply app_nil_r].
    by vm_compute.
Defined.

Lemma http_truncated_witness :
  ∃ i, read_message (HTTPARSE := sample_httparse) http_reader_new [Chunk (sample_request ++ [1; 2])] =
    (Some (Err HttpUnexpectedEof), HttpReader (sample_request ++ [1; 2]) i false, []).
Proof.
  apply (http_truncated (HTTPARSE := sample_httparse) (sample_request, [1; 2; 3]) _ [3]).
  - apply sample_frame_ok.
  - by vm_compute.
  - by vm_compute.
  - done.
  - eexists. split; [symmetry; apply app_nil_r|done].
Defined.

Lemma http_streaming_witness :
  ∃ msgs hr, read_messages (HTTPARSE := sample_httparse) (S (length msgs)) http_reader_new
      [Chunk (sample_stream ++ [1]); Chunk [13; 10; 13; 10]] =
      ((emitted <$> msgs) ++ [emitted []], hr, []) ∧
    mjoin msgs = sample_stream ++ [1; 13; 10; 13; 10] ∧ Forall (λ m, m ≠ []) msgs.
Proof.
  apply (http_streaming (HTTPARSE := sample_httparse)).
  - split; [by vm_compute|]. split; [by vm_compute|]. exists []. by split; vm_compute.
  - eexists. split; [|eexists; split; [symmetry; apply app_nil_r|done]]. by vm_compute.
Defined.

Lemma http_header_bound_witness :
  ∃ p r', read_message (HTTPARSE := sample_httparse) http_reader_new
            [Chunk (replicate (Z.to_nat 70000) 97)] =
      (Some (Err HeaderTooLarge), HttpReader p false false, r') ∧
    MAX_HEADER_SIZE < Z.of_nat (length p) <= MAX_HEADER_SIZE + 8192.
Proof.
  apply (http_header_bound (HTTPARSE := sample_httparse) _ (replicate (Z.to_nat 70000) 97)).
  - eexists. split; [symmetry; apply app_nil_r|done].
  - by vm_compute.
  - rewrite length_replicate. by vm_compute.
Defined.

Lemma http_blank_prefix_buffers_all_witness :
  read_message (HTTPARSE := sample_httparse) http_reader_new [Chunk (CRLFCRLF ++ sample_request)] =
    (Some (Err HttpUnexpectedEof), HttpReader (CRLFCRLF ++ sample_request) false false, []).
Proof.
  apply (http_blank_prefix_buffers_all (HTTPARSE := sample_httparse)).
  - by vm_compute.
  - eexists. split; [symmetry; apply app_nil_r|done].
Defined.

Lemma http_content_length_wraps_witness :
  try_parse (HTTPARSE := sample_httparse) (HttpReader (sample_absurd ++ [7]) false false) =
    (Ok (Some []), HttpReader (sample_absurd ++ [7]) true false).
Proof.
  apply (http_content_length_wraps (HTTPARSE := sample_httparse) sample_absurd
    [("content-length"%string, as_bytes "18446744073709551598")]); by vm_compute.
Defined.
