(* ===== verification/Config.v ===== *)
(** Configuration: the transport parameters, [ClientConfig::create] and its
    mapping parser ([src/src/lib.rs]), and the server's configuration built from
    the command line ([src/src/bin/rstun.rs]). *)
From Stdlib Require Import Ascii.
From S2P Require Import Prelude Net AddrText Ipv6Text HttpReader.

#[local] Open Scope string_scope.
#[local] Open Scope Z_scope.

(** * QUIC transport parameters *)

Definition QUIC_STREAM_RECEIVE_WINDOW_BYTES : Z := 32 * 1024 * 1024.
Definition QUIC_RECEIVE_WINDOW_BYTES : Z := 64 * 1024 * 1024.
Definition QUIC_SEND_WINDOW_BYTES : Z := 64 * 1024 * 1024.
Definition QUIC_MAX_CONCURRENT_BIDI_STREAMS : Z := 1024.

(** The parameters the source sets; [None] leaves quinn's default. *)
Record TransportConfig : Type := MkTransport {
  tr_stream_receive_window : Z;
  tr_receive_window : Z;
  tr_send_window : Z;
  tr_max_concurrent_bidi_streams : Z;
  tr_max_idle_timeout : option Z;
  tr_keep_alive_interval : option Z
}.

(** [quic_timeout_ms as u32] truncates; [quic_timeout_ms * 2] wraps in a
    release build. *)
Definition build_quic_transport_config
    (quic_timeout_ms quic_receive_window stream_receive_window quic_send_window : Z) : TransportConfig :=
  let effective_stream_receive_window :=
    if 0 <? stream_receive_window then stream_receive_window else QUIC_STREAM_RECEIVE_WINDOW_BYTES in
  let effective_quic_receive_window :=
    if 0 <? quic_receive_window then quic_receive_window else QUIC_RECEIVE_WINDOW_BYTES in
  let effective_quic_send_window :=
    if 0 <? quic_send_window then quic_send_window else QUIC_SEND_WINDOW_BYTES in
  MkTransport effective_stream_receive_window effective_quic_receive_window effective_quic_send_window
    QUIC_MAX_CONCURRENT_BIDI_STREAMS
    (if 0 <? quic_timeout_ms then Some (wrap 32 quic_timeout_ms) else None)
    (if 0 <? quic_timeout_ms then Some (wrap 64 (quic_timeout_ms * 2) / 3) else None).

(** * Client configuration *)

Record ClientConfig : Type := MkClientConfig {
  cc_cert_path : string;
  cc_server_addr : string;
  cc_password : string;
  cc_wait_before_retry_ms : Z;
  cc_quic_timeout_ms : Z;
  cc_tcp_timeout_ms : Z;
  cc_udp_timeout_ms : Z;
  cc_heartbeat_interval_ms : Z;
  cc_heartbeat_timeout_ms : Z;
  cc_hop_interval_ms : Z;
  cc_tunnels : list TunnelConfig;
  cc_dot_servers : list string;
  cc_dns_servers : list string;
  cc_workers : Z;
  cc_quic_receive_window : Z;
  cc_stream_receive_window : Z;
  cc_quic_send_window : Z;
  cc_sni_names : list string;
  cc_zstd : bool;
  cc_http : bool;
  cc_zstd_level : Z;
  cc_zstd_window_log : Z;
  cc_zstd_dict : string;
  cc_zstd_pair_ttl_secs : Z;
  cc_zstd_flush_interval_ms : Z
}.

Inductive config_error : Type :=
| NoMappings
| SniIpLiteral (name : string)
| SniInvalid (name : string)
| InvalidMappingFormat
| InvalidTunnelType
| InvalidAddress (addr : string)
| AnyAsLocalAddress
| InvalidUpstream (text : string).

(** [rustls::pki_types::ServerName::try_from]: what a name is. *)
Inductive server_name : Type := DnsName | IpName.

Section config.
Context (parse_server_name : string → option server_name).
Context (num_cpus : Z).

Fixpoint parse_sni_each (raws : list string) (names : list string) : result config_error (list string) :=
  match raws with
  | [] => Ok names
  | raw :: raws' =>
      let name := str_trim raw in
      if decide (name = "") then parse_sni_each raws' names
      else match parse_server_name name with
           | Some DnsName => parse_sni_each raws' (names ++ [name])
           | Some IpName => Err (SniIpLiteral name)
           | None => Err (SniInvalid name)
           end
  end.

Definition parse_sni_names (sni : string) : result config_error (list string) :=
  parse_sni_each (str_split ","%char sni) [].

(** The closure [parse_addr] of [parse_addr_mappings]. *)
Definition parse_addr (addr : string) : result config_error (option SocketAddr) :=
  if decide (addr = "ANY") then Ok None
  else match parse_uint 16 addr with
       | Some port => Ok (Some (SockV4 IPV4_LOCALHOST port))
       | None => a ← ok_or (InvalidAddress addr) (parse_socket_addr addr); Ok (Some a)
       end.

(** One iteration of the loop of [parse_addr_mappings]. *)
Definition parse_mapping (upstream_type : UpstreamType) (mapping : string) : result config_error TunnelConfig :=
  match str_split "^"%char mapping with
  | [tunnel_mode; local; dest] =>
      if bool_decide (tunnel_mode ≠ "OUT") && bool_decide (tunnel_mode ≠ "IN") then Err InvalidTunnelType
      else
        local_server_addr ← parse_addr local;
        if decide (local_server_addr = None) then Err AnyAsLocalAddress
        else
          upstream_addr ← parse_addr dest;
          Ok (mkTunnelConfig (if decide (tunnel_mode = "IN") then ModeIn else ModeOut)
                local_server_addr (mkUpstream upstream_addr upstream_type))
  | _ => Err InvalidMappingFormat
  end.

Fixpoint parse_each_mapping (upstream_type : UpstreamType) (mappings : list string) (v : list TunnelConfig) :
  result config_error (list TunnelConfig) :=
  match mappings with
  | [] => Ok v
  | m :: ms => t ← parse_mapping upstream_type m; parse_each_mapping upstream_type ms (v ++ [t])
  end.

Definition parse_addr_mappings (mappings : string) (upstream_type : UpstreamType) (v : list TunnelConfig) :
  result config_error (list TunnelConfig) :=
  if decide (mappings = "") then Ok v
  else parse_each_mapping upstream_type (str_split ","%char mappings) v.

(** The heartbeat settings [create] derives from the requested ones. *)
Definition heartbeat_settings (interval timeout : Z) : Z * Z :=
  if (interval =? 0) && (timeout =? 0) then (5000, 15000)
  else if (interval =? 0) || (timeout =? 0) then (0, 0)
  else if timeout <? interval then (interval, saturating_mul 64 interval 2)
  else (interval, timeout).

Definition create (server_addr password cert tcp_mappings udp_mappings dot dns sni : string)
    (workers wait_before_retry_ms quic_timeout_ms tcp_timeout_ms udp_timeout_ms
     heartbeat_interval_ms heartbeat_timeout_ms hop_interval_ms : Z)
    (zstd http : bool) (zstd_level zstd_window_log : Z) (zstd_dict : string)
    (zstd_pair_ttl_secs zstd_flush_interval_ms : Z) : result config_error ClientConfig :=
  if bool_decide (tcp_mappings = "") && bool_decide (udp_mappings = "") then Err NoMappings
  else
    let quic_timeout_ms := if quic_timeout_ms =? 0 then 30000 else quic_timeout_ms in
    let tcp_timeout_ms := if tcp_timeout_ms =? 0 then 30000 else tcp_timeout_ms in
    let udp_timeout_ms := if udp_timeout_ms =? 0 then 5000 else udp_timeout_ms in
    let '(heartbeat_interval_ms, heartbeat_timeout_ms) :=
      heartbeat_settings heartbeat_interval_ms heartbeat_timeout_ms in
    let hop_interval_ms :=
      if negb (hop_interval_ms =? 0) && (hop_interval_ms <? 5000) then 5000 else hop_interval_ms in
    sni_names ← parse_sni_names sni;
    tunnels ← parse_addr_mappings tcp_mappings Tcp [];
    tunnels ← parse_addr_mappings udp_mappings Udp tunnels;
    Ok (MkClientConfig cert
          (if negb (str_contains ":"%char server_addr) then "127.0.0.1:" +:+ server_addr else server_addr)
          password wait_before_retry_ms quic_timeout_ms tcp_timeout_ms udp_timeout_ms
          heartbeat_interval_ms heartbeat_timeout_ms hop_interval_ms tunnels
          (str_split ","%char dot) (str_split ","%char dns)
          (if 0 <? workers then workers else num_cpus)
          0 0 0 sni_names zstd http zstd_level zstd_window_log zstd_dict
          (if zstd_pair_ttl_secs =? 0 then 5 * 3600 else zstd_pair_ttl_secs)
          (if zstd_flush_interval_ms =? 0 then 150 else zstd_flush_interval_ms)).
End config.

(** * Server configuration *)

(** A channel connector is a callback of the embedding program: the record
    keeps whether one is installed. *)
Record ServerConfig : Type := MkServerConfig {
  sc_addr : string;
  sc_password : string;
  sc_cert_path : string;
  sc_key_path : string;
  sc_quic_timeout_ms : Z;
  sc_tcp_timeout_ms : Z;
  sc_udp_timeout_ms : Z;
  sc_quic_receive_window : Z;
  sc_stream_receive_window : Z;
  sc_quic_send_window : Z;
  sc_default_tcp_upstream : option SocketAddr;
  sc_default_udp_upstream : option SocketAddr;
  sc_tcp_connector : bool;
  sc_udp_connector : bool;
  sc_dashboard_server : string;
  sc_dashboard_server_credential : string
}.

Definition starts_with (p s : string) : bool :=
  match strip_prefix p s with Some _ => true | None => false end.

(** [str::replace] of a non-empty pattern, from the left; [skip] counts the
    remaining characters of the occurrence just replaced. *)
Fixpoint str_replace (p r : string) (skip : nat) (s : string) : string :=
  match s, skip with
  | EmptyString, _ => ""
  | String _ s', S k => str_replace p r k s'
  | String c s', O =>
      if starts_with p s then r +:+ str_replace p r (String.length p - 1) s'
      else String c (str_replace p r 0 s')
  end.

Definition parse_upstreams (upstreams_str : string) : result config_error (option SocketAddr) :=
  if decide (upstreams_str = "") then Ok None
  else
    let upstream := if starts_with "0.0.0.0:" upstreams_str
                    then str_replace "0.0.0.0:" "127.0.0.1:" 0 upstreams_str else upstreams_str in
    let upstream := if negb (str_contains ":"%char upstream) then "127.0.0.1:" +:+ upstreams_str else upstream in
    match parse_socket_addr upstream with
    | Some addr => Ok (Some addr)
    | None => Err (InvalidUpstream upstreams_str)
    end.

(** [run_server_async] up to the start of the server. *)
Definition server_config_of_args (addr password cert key tcp_upstream udp_upstream : string)
    (quic_timeout_ms tcp_timeout_ms udp_timeout_ms : Z) : result config_error ServerConfig :=
  let addr := if decide (addr = "") then "0.0.0.0:0" else addr in
  let addr := if negb (str_contains ":"%char addr) then "127.0.0.1:" +:+ addr else addr in
  default_tcp_upstream ← parse_upstreams tcp_upstream;
  default_udp_upstream ← parse_upstreams udp_upstream;
  Ok (MkServerConfig addr password cert key quic_timeout_ms tcp_timeout_ms udp_timeout_ms 0 0 0
        default_tcp_upstream default_udp_upstream false false "" "").

(** * Splitting and joining *)

Lemma str_split_clean c s : str_contains c s = false → str_split c s = [s].
Proof.
  induction s as [|d s IH]; [done|]. cbn [str_contains str_split]. intros [-> Hs]%orb_false_iff.
  by rewrite (IH Hs).
Qed.

Lemma str_split_app c s t :
  str_contains c s = false → str_split c (s +:+ String c t) = s :: str_split c t.
Proof.
  induction s as [|d s IH]; cbn [str_contains]; rewrite ?string_app_cons, ?string_app_nil; cbn [str_split].
  - intros _. by rewrite Ascii.eqb_refl.
  - intros [-> Hs]%orb_false_iff. by rewrite (IH Hs).
Qed.

Lemma str_contains_app c s t : str_contains c (s +:+ t) = str_contains c s || str_contains c t.
Proof.
  induction s as [|d s IH]; [done|]. rewrite string_app_cons. cbn [str_contains].
  by rewrite IH, orb_assoc.
Qed.

(** Splitting a joined list of parts that do not contain the separator. *)
Lemma str_split_join c (l : list string) :
  l ≠ [] → Forall (λ s, str_contains c s = false) l → str_split c (join (String c "") l) = l.
Proof.
  intros Hne Hl. induction Hl as [|s l Hs Hl IH]; [done|]. destruct l as [|t l].
  - by apply str_split_clean.
  - change (join (String c "") (s :: t :: l)) with (s +:+ String c "" +:+ join (String c "") (t :: l)).
    rewrite string_app_cons, string_app_nil, str_split_app by done. by rewrite IH.
Qed.

Lemma join_nonempty sep s l : s ≠ "" → join sep (s :: l) ≠ "".
Proof. intros Hs. destruct s; [done|]. by destruct l. Qed.

(** * The characters of a printed address *)

(** [c] is a character no printed address contains. *)
Definition foreign (c : Ascii.ascii) : bool :=
  Ascii.eqb c ","%char || Ascii.eqb c "^"%char.

Lemma foreign_no_digit c : foreign c = true → to_digit 16 c = None.
Proof. unfold foreign. by intros [->%Ascii.eqb_eq | ->%Ascii.eqb_eq]%orb_true_iff. Qed.

Lemma display_ipv4_clean c ip : foreign c = true → str_contains c (display_ipv4 ip) = false.
Proof.
  intros Hc. unfold display_ipv4. destruct (octets_v4_four ip) as (a & b & d & e & -> & _).
  rewrite !str_contains_app. rewrite !display_uint_clean by (by apply foreign_no_digit).
  unfold foreign in Hc. by apply orb_true_iff in Hc as [->%Ascii.eqb_eq | ->%Ascii.eqb_eq].
Qed.

Lemma join_clean c sep l :
  str_contains c sep = false → Forall (λ s, str_contains c s = false) l → str_contains c (join sep l) = false.
Proof.
  intros Hsep Hl. induction Hl as [|s l Hs Hl IH]; [done|]. destruct l as [|t l]; [done|].
  change (join sep (s :: t :: l)) with (s +:+ sep +:+ join sep (t :: l)).
  by rewrite !str_contains_app, Hs, Hsep, IH.
Qed.

Lemma foreign_ok c s : foreign c = true →
  str_contains ","%char s = false → str_contains "^"%char s = false → str_contains c s = false.
Proof. unfold foreign. by intros [->%Ascii.eqb_eq | ->%Ascii.eqb_eq]%orb_true_iff. Qed.

Lemma display_segments_clean c gs : foreign c = true → str_contains c (display_segments gs) = false.
Proof.
  intros Hc. apply join_clean; [by apply foreign_ok|]. apply Forall_fmap, Forall_true. intros g. simpl.
  unfold display_hex. apply show_digits_clean; [by apply foreign_no_digit|lia|done].
Qed.

Lemma display_ipv6_clean c ip : foreign c = true → str_contains c (display_ipv6 ip) = false.
Proof.
  intros Hc. unfold display_ipv6. destruct (_ =? 0xffff).
  - by rewrite str_contains_app, display_ipv4_clean, foreign_ok.
  - destruct (longest_zero_run _ _ _ _) as [start len]. destruct (1 <? len)%nat; [|by apply display_segments_clean].
    by rewrite !str_contains_app, !display_segments_clean, foreign_ok.
Qed.

Lemma display_socket_addr_clean c a : foreign c = true → str_contains c (display_socket_addr a) = false.
Proof.
  intros Hc.
  destruct a as [ip p|ip p f sc]; [|destruct sc]; cbn [display_socket_addr]; rewrite !str_contains_app, !orb_false_iff;
    repeat split; try (by apply foreign_ok); by auto using display_ipv4_clean, display_ipv6_clean, display_uint_clean, foreign_no_digit.
Qed.

Lemma display_socket_addr_colon a : str_contains ":"%char (display_socket_addr a) = true.
Proof.
  destruct a as [ip p|ip p f sc]; [|destruct sc]; simpl; rewrite !str_contains_app; simpl; by rewrite ?orb_true_r.
Qed.

(** * Mappings *)

Lemma read_digits_colon radix maxv md n a s r :
  to_digit radix ":"%char = None → str_contains ":"%char s = true →
  read_digits radix maxv md n a s = Some r → r.2 ≠ "".
Proof.
  intros Hd. revert n a. induction s as [|c s IH]; intros n a Hs Hr; [done|]. cbn [str_contains read_digits] in *.
  destruct (to_digit radix c) as [d|] eqn:E; [|by simplify_eq].
  destruct (Ascii.eqb_spec c ":"%char) as [->|]; [congruence|]. simpl in Hs.
  destruct (_ || _); [done|]. destruct (match md with Some _ => _ | None => _ end); [done|]. by eapply IH.
Qed.

(** A text with a colon is no number. *)
Lemma parse_uint_colon w s : str_contains ":"%char s = true → parse_uint w s = None.
Proof.
  intros Hs. unfold parse_uint.
  set (body := match s with String c (String d s') => _ | _ => _ end).
  assert (str_contains ":"%char body = true) as Hb.
  { destruct s as [|c [|d s]]; [done..|]. unfold body. by destruct (Ascii.eqb_spec c "+"%char) as [->|]. }
  destruct (read_digits _ _ _ _ _ body) as [[[[|n] v] r]|] eqn:E; [done| |done].
  apply (read_digits_colon 10) in E; [by destruct r|done..].
Qed.

(** Addresses written by the [Display] instance as the command line reads them. *)
Definition addr_printable (a : SocketAddr) : Prop :=
  sa_wf a ∧ match a with SockV6 _ _ flowinfo _ => flowinfo = 0 | SockV4 _ _ => True end.

#[export] Instance addr_printable_dec a : Decision (addr_printable a).
Proof. unfold addr_printable. destruct a; apply _. Defined.

Lemma parse_printable a : addr_printable a → parse_socket_addr (display_socket_addr a) = Some a.
Proof. intros [Hwf Hf]. rewrite parse_display_socket_addr by done. destruct a; [done|]. by rewrite Hf. Qed.

Lemma parse_addr_display a : addr_printable a → parse_addr (display_socket_addr a) = Ok (Some a).
Proof.
  intros Ha. unfold parse_addr. pose proof (display_socket_addr_colon a).
  rewrite decide_False by (intros E; by rewrite E in *).
  by rewrite parse_uint_colon, parse_printable.
Qed.

Definition display_dest (a : option SocketAddr) : string :=
  match a with None => "ANY" | Some a => display_socket_addr a end.

(** A tunnel written as a mapping [MODE^LOCAL^DEST]. *)
Definition display_mapping (t : TunnelConfig) : string :=
  join "^" [display_mode (mode t); display_dest (local_server_addr t); display_dest (upstream_addr (upstream t))].

Definition mapping_ok (ty : UpstreamType) (t : TunnelConfig) : Prop :=
  upstream_type (upstream t) = ty ∧
  match local_server_addr t with Some a => addr_printable a | None => False end ∧
  match upstream_addr (upstream t) with Some a => addr_printable a | None => True end.

#[export] Instance mapping_ok_dec ty t : Decision (mapping_ok ty t).
Proof.
  unfold mapping_ok. destruct (local_server_addr t), (upstream_addr (upstream t)); apply _.
Defined.

Lemma display_dest_clean c a : foreign c = true → str_contains c (display_dest a) = false.
Proof. intros ?. destruct a; [by apply display_socket_addr_clean|by apply foreign_ok]. Qed.

Lemma display_mode_clean c m : foreign c = true → str_contains c (display_mode m) = false.
Proof. intros ?. by destruct m; apply foreign_ok. Qed.

Lemma parse_dest a :
  match a with Some a => addr_printable a | None => True end → parse_addr (display_dest a) = Ok a.
Proof. destruct a; [apply parse_addr_display|done]. Qed.

Lemma parse_display_mapping ty t : mapping_ok ty t → parse_mapping ty (display_mapping t) = Ok t.
Proof.
  intros (Hty & Hl & Hu). unfold parse_mapping, display_mapping.
  rewrite str_split_join; [|done|repeat constructor; auto using display_mode_clean, display_dest_clean].
  destruct t as [m l [u ty']]; simpl in *. destruct l as [l|]; [|done].
  rewrite (parse_dest u Hu), (parse_dest (Some l) Hl). simplify_eq/=. by destruct m.
Qed.

Lemma parse_each_mapping_ok ty ts v :
  Forall (mapping_ok ty) ts →
  parse_each_mapping ty (display_mapping <$> ts) v = Ok (v ++ ts)%list.
Proof.
  intros Hts. revert v. induction Hts as [|t ts Ht Hts IH]; intros v; cbn [fmap list_fmap parse_each_mapping].
  - by rewrite app_nil_r.
  - rewrite parse_display_mapping by done. simpl. rewrite IH. by rewrite <-app_assoc.
Qed.

Lemma display_mapping_comma t : str_contains ","%char (display_mapping t) = false.
Proof.
  apply join_clean; [done|]. repeat constructor; auto using display_mode_clean, display_dest_clean.
Qed.

(** The mapping parser reads back every list of tunnels written in the
    documented form [MODE^IP:PORT^IP:PORT|ANY], comma separated, in order and
    with every field: parsing inverts printing for all IPv4 and IPv6 addresses
    (the latter in brackets, with compressed zeros, dotted tails and scopes),
    whatever tunnels were collected before. *)
Theorem mappings_roundtrip ty ts v :
  ts ≠ [] → Forall (mapping_ok ty) ts →
  parse_addr_mappings (join "," (display_mapping <$> ts)) ty v = Ok (v ++ ts)%list.
Proof.
  intros Hne Hts. unfold parse_addr_mappings. destruct ts as [|t ts]; [done|].
  rewrite decide_False by (apply join_nonempty; by destruct t as [[]]).
  rewrite str_split_join; [by apply parse_each_mapping_ok|done|].
  apply Forall_fmap, Forall_true. intros ?. apply display_mapping_comma.
Qed.

Definition sample_tunnels : list TunnelConfig :=
  [mkTunnelConfig ModeOut (Some (SockV4 IPV4_LOCALHOST 8080)) (mkUpstream None Tcp);
   mkTunnelConfig ModeIn (Some (SockV4 (ipv4 10 0 0 255) 65535)) (mkUpstream (Some (SockV6 1 9000 0 0)) Tcp)].

Lemma mappings_roundtrip_witness :
  join "," (display_mapping <$> sample_tunnels) = "OUT^127.0.0.1:8080^ANY,IN^10.0.0.255:65535^[::1]:9000" ∧
  parse_addr_mappings "OUT^127.0.0.1:8080^ANY,IN^10.0.0.255:65535^[::1]:9000" Tcp [] = Ok sample_tunnels.
Proof.
  split; [by vm_compute|]. apply (mappings_roundtrip Tcp sample_tunnels []); [done|].
  by apply (bool_decide_unpack _); vm_compute.
Defined.

(** * The configurations [create] returns *)

Definition has_local (t : TunnelConfig) : Prop := is_Some (local_server_addr t).

Lemma parse_mapping_ok ty m t :
  parse_mapping ty m = Ok t → has_local t ∧ upstream_type (upstream t) = ty.
Proof.
  unfold parse_mapping. intros Hp.
  destruct (str_split _ m) as [|tm [|l [|d [|]]]]; try done. destruct (_ && _); [done|].
  destruct (parse_addr l) as [[a|]|]; try done. simpl in Hp.
  destruct (parse_addr d) as [u|]; [|done]. simpl in Hp. simplify_eq. split; [by exists a|done].
Qed.

Lemma parse_each_mapping_inv ty ms v ts :
  parse_each_mapping ty ms v = Ok ts →
  ∃ new, ts = (v ++ new)%list ∧ length new = length ms ∧
    Forall (λ t, has_local t ∧ upstream_type (upstream t) = ty) new.
Proof.
  revert v. induction ms as [|m ms IH]; intros v Hp; simpl in Hp.
  - simplify_eq. exists []. by rewrite app_nil_r.
  - destruct (parse_mapping ty m) as [t|] eqn:E; [|done]. simpl in Hp.
    apply IH in Hp as (new & -> & Hl & Hf). exists (t :: new).
    rewrite <-app_assoc. split; [done|]. split; [simpl; lia|]. constructor; [by eapply parse_mapping_ok|done].
Qed.

Lemma str_split_nonempty c s : (0 < length (str_split c s))%nat.
Proof. induction s as [|d s IH]; simpl; [lia|]. destruct (Ascii.eqb d c); simpl; [lia|]. destruct (str_split c s); simpl; lia. Qed.

Lemma parse_addr_mappings_inv m ty v ts :
  parse_addr_mappings m ty v = Ok ts →
  ∃ new, ts = (v ++ new)%list ∧ (m ≠ "" → new ≠ []) ∧
    Forall (λ t, has_local t ∧ upstream_type (upstream t) = ty) new.
Proof.
  unfold parse_addr_mappings. destruct (decide (m = "")); intros Hp.
  - simplify_eq. exists []. by rewrite app_nil_r.
  - apply parse_each_mapping_inv in Hp as (new & -> & Hl & Hf). exists new. split; [done|]. split; [|done].
    intros _ ->. pose proof (str_split_nonempty ","%char m). simpl in *. lia.
Qed.

Section created.
Context (parse_server_name : string → option server_name) (num_cpus : Z).

Definition dns_name (n : string) : Prop := n ≠ "" ∧ parse_server_name n = Some DnsName.

Lemma parse_sni_each_inv raws names out :
  Forall dns_name names → parse_sni_each parse_server_name raws names = Ok out → Forall dns_name out.
Proof.
  revert names. induction raws as [|raw raws IH]; intros names Hn Hp; simpl in Hp; [by simplify_eq|].
  destruct (decide (str_trim raw = "")); [by eapply IH|].
  destruct (parse_server_name (str_trim raw)) as [[]|] eqn:E; [|done..].
  eapply IH; [|done]. apply Forall_app; split; [done|]. by repeat constructor.
Qed.

(** What the rest of the client relies on. *)
Record config_ok (c : ClientConfig) : Prop := {
  ok_timeouts : 0 < cc_quic_timeout_ms c ∧ 0 < cc_tcp_timeout_ms c ∧ 0 < cc_udp_timeout_ms c;
  ok_heartbeat :
    (cc_heartbeat_interval_ms c = 0 ∧ cc_heartbeat_timeout_ms c = 0) ∨
    (0 < cc_heartbeat_interval_ms c <= cc_heartbeat_timeout_ms c);
  ok_heartbeat_width : in_u 64 (cc_heartbeat_timeout_ms c);
  ok_hop : cc_hop_interval_ms c = 0 ∨ 5000 <= cc_hop_interval_ms c;
  ok_tunnels : cc_tunnels c ≠ [] ∧ Forall has_local (cc_tunnels c);
  ok_sni : Forall dns_name (cc_sni_names c);
  ok_workers : 0 < cc_workers c;
  ok_codec : 0 < cc_zstd_pair_ttl_secs c ∧ 0 < cc_zstd_flush_interval_ms c
}.

Lemma heartbeat_settings_ok i t i' t' :
  in_u 64 i → in_u 64 t → heartbeat_settings i t = (i', t') →
  ((i' = 0 ∧ t' = 0) ∨ 0 < i' <= t') ∧ in_u 64 t'.
Proof.
  unfold heartbeat_settings, in_u, saturating_mul, umax. intros Hi Ht.
  destruct (Z.eqb_spec i 0), (Z.eqb_spec t 0); simpl; intros ?; simplify_eq; [lia..|].
  destruct (Z.ltb_spec t i); simplify_eq; lia.
Qed.

(** C30: Every configuration [ClientConfig::create] accepts is usable: no
    timeout is zero, the heartbeat is either off or its timeout covers its
    interval (the doubling saturates), endpoint hopping is off or at least five
    seconds apart, there is at least one tunnel and each has a local address,
    and every SNI name is a DNS name. *)
Theorem create_normalises server_addr password cert tcp_mappings udp_mappings dot dns sni
    workers wait quic tcp udp hb_interval hb_timeout hop zstd http level window_log dict ttl flush c :
  0 < num_cpus →
  Forall (in_u 64) [workers; quic; tcp; udp; hb_interval; hb_timeout; hop; ttl; flush] →
  create parse_server_name num_cpus server_addr password cert tcp_mappings udp_mappings dot dns sni
    workers wait quic tcp udp hb_interval hb_timeout hop zstd http level window_log dict ttl flush = Ok c →
  config_ok c.
Proof.
  intros Hcpus Hin Hc. rewrite !list.Forall_cons in Hin.
  destruct Hin as (Hw & Hq & Ht & Hu & Hi & Hto & Hh & Httl & Hfl & _). unfold create in Hc.
  destruct (bool_decide (tcp_mappings = "") && _) eqn:Hm; [done|].
  destruct (heartbeat_settings hb_interval hb_timeout) as [i t] eqn:Hhb.
  apply heartbeat_settings_ok in Hhb as [Hhb1 Hhb2]; [|done..].
  destruct (parse_sni_names _ sni) as [names|] eqn:Hsni; [|done].
  destruct (parse_addr_mappings tcp_mappings Tcp []) as [ts1|] eqn:H1; [|done].
  cbn in Hc. destruct (parse_addr_mappings udp_mappings Udp ts1) as [ts2|] eqn:H2; [|done]. cbn in Hc.
  apply parse_addr_mappings_inv in H1 as (n1 & -> & Hn1 & Hf1).
  apply parse_addr_mappings_inv in H2 as (n2 & -> & Hn2 & Hf2).
  unfold in_u in *. simplify_eq. split; simpl; try done.
  - destruct (Z.eqb_spec quic 0), (Z.eqb_spec tcp 0), (Z.eqb_spec udp 0); lia.
  - destruct (Z.eqb_spec hop 0), (Z.ltb_spec hop 5000); simpl; lia.
  - split; [|apply Forall_app; split; (eapply list.Forall_impl; [done|by intros ? [? _]])].
    intros [-> ->]%app_nil. apply andb_false_iff in Hm as [?%bool_decide_eq_false|?%bool_decide_eq_false]; tauto.
  - by eapply parse_sni_each_inv, Hsni.
  - destruct (Z.ltb_spec 0 workers); lia.
  - destruct (Z.eqb_spec ttl 0), (Z.eqb_spec flush 0); lia.
Qed.
End created.

(** Host names with a letter, as far as the samples need it. *)
Definition sample_server_name (s : string) : option server_name :=
  if str_contains "."%char s then (match parse_ip_addr s with Some _ => Some IpName | None => Some DnsName end)
  else None.

Lemma create_normalises_witness : ∃ c,
  create sample_server_name 8 "3515" "pw" "" "OUT^8080^ANY" "" "" "" "www.bing.com, cdn.example.net"
    0 5000 0 0 0 9000 4000 100 true false 9 24 "" 0 0 = Ok c ∧ config_ok sample_server_name c.
Proof.
  eexists. split; [vm_compute; reflexivity|].
  eapply (create_normalises sample_server_name 8 "3515" "pw" "" "OUT^8080^ANY" "" "" "" "www.bing.com, cdn.example.net"
    0 5000 0 0 0 9000 4000 100 true false 9 24 "" 0 0); [done| |vm_compute; reflexivity].
  by apply (bool_decide_unpack _); vm_compute.
Defined.

(** * Transport parameters and upstreams *)

(** The transport is always configured with open windows, and for a timeout
    that fits the 32 bits it is cast to, a peer is pinged before its idle
    timeout expires. *)
Theorem transport_config_ok t recv stream send :
  1 < t < 2 ^ 32 → 0 <= recv → 0 <= stream → 0 <= send →
  let c := build_quic_transport_config t recv stream send in
  0 < tr_stream_receive_window c ∧ 0 < tr_receive_window c ∧ 0 < tr_send_window c ∧
  tr_max_idle_timeout c = Some t ∧ ∃ k, tr_keep_alive_interval c = Some k ∧ 0 <= k < t.
Proof.
  intros Ht Hr Hs Hse. unfold build_quic_transport_config; simpl.
  assert (0 < QUIC_STREAM_RECEIVE_WINDOW_BYTES ∧ 0 < QUIC_RECEIVE_WINDOW_BYTES ∧ 0 < QUIC_SEND_WINDOW_BYTES)
    as (? & ? & ?) by done.
  destruct (Z.ltb_spec 0 stream), (Z.ltb_spec 0 recv), (Z.ltb_spec 0 send), (Z.ltb_spec 0 t); try lia;
  (do 3 (split; [lia|]); rewrite !wrap_small by (unfold in_u; lia); split; [done|]; eexists; split; [done|];
   split; [apply Z.div_pos; lia|apply Z.div_lt_upper_bound; lia]).
Qed.

Lemma strip_prefix_app p s rest : strip_prefix p s = Some rest → s = p +:+ rest.
Proof.
  revert s. induction p as [|a p IH]; intros s Hs; simpl in Hs; [by simplify_eq|].
  destruct s as [|b s]; [done|]. destruct (Ascii.eqb_spec a b) as [->|]; [|done].
  rewrite string_app_cons. f_equal. by apply IH.
Qed.

Lemma starts_with_app p s : starts_with p s = true → ∃ rest, s = p +:+ rest.
Proof. unfold starts_with. destruct (strip_prefix p s) as [rest|] eqn:E; [|done]. eexists. by apply strip_prefix_app. Qed.

Lemma starts_with_contains c p s : str_contains c p = true → str_contains c s = false → starts_with p s = false.
Proof.
  intros Hp Hs. destruct (starts_with p s) eqn:E; [|done]. apply starts_with_app in E as [rest ->].
  rewrite str_contains_app, Hp in Hs. done.
Qed.

Lemma str_replace_absent c p r s :
  str_contains c p = true → str_contains c s = false → str_replace p r 0 s = s.
Proof.
  intros Hp. induction s as [|d s IH]; intros Hs; [done|]. cbn [str_replace].
  rewrite (starts_with_contains c) by done. cbn [str_contains] in Hs. apply orb_false_iff in Hs as [_ Hs].
  by rewrite IH.
Qed.

Lemma display_uint_colon z : str_contains ":"%char (display_uint z) = false.
Proof. by apply display_uint_clean. Qed.

Lemma display_uint_nonempty z : display_uint z ≠ "".
Proof.
  assert (∀ fuel z acc, acc ≠ "" → show_digits 10 fuel z acc ≠ "") as Hs.
  { induction fuel as [|f IH]; intros z' acc Hacc; [done|]. cbn [show_digits].
    destruct (_ =? 0); [done|]. by apply IH. }
  unfold display_uint. change 40%nat with (S 39). generalize 39%nat. intros f. cbn [show_digits].
  destruct (_ =? 0); [done|]. by apply Hs.
Qed.

Lemma display_localhost p : display_socket_addr (SockV4 IPV4_LOCALHOST p) = "127.0.0.1:" +:+ display_uint p.
Proof. done. Qed.

Definition loopback_if_unspecified (a : SocketAddr) : SocketAddr :=
  match a with SockV4 0 p => SockV4 IPV4_LOCALHOST p | _ => a end.

Lemma display_starts_unspecified ip p :
  in_u 32 ip → starts_with "0.0.0.0:" (display_socket_addr (SockV4 ip p)) = true → ip = 0.
Proof.
  intros Hip [rest E]%starts_with_app. cbn [display_socket_addr] in E.
  pose proof (read_display_ipv4 ip (display_uint p) Hip) as Hr.
  change (String ":"%char (display_uint p)) with (":" +:+ display_uint p) in Hr. rewrite E in Hr.
  injection Hr as Hr. by rewrite <-Hr.
Qed.

(** A default upstream given as a port means that port on the loopback
    interface; one given as a socket address means that address, the
    unspecified IPv4 address being replaced by the loopback address and nothing else
    changed. *)
Theorem parse_upstreams_spec :
  (∀ p, in_u 16 p → parse_upstreams (display_uint p) = Ok (Some (SockV4 IPV4_LOCALHOST p))) ∧
  (∀ a, addr_printable a →
    parse_upstreams (display_socket_addr a) = Ok (Some (loopback_if_unspecified a))).
Proof.
  split.
  - intros p Hp. unfold parse_upstreams. rewrite decide_False by apply display_uint_nonempty.
    rewrite (starts_with_contains ":"%char) by (done || apply display_uint_colon).
    rewrite display_uint_colon. cbn [negb]. rewrite <-display_localhost, parse_printable; [done|].
    by split; [split|].
  - intros a Ha. unfold parse_upstreams. pose proof (display_socket_addr_colon a) as Hcolon.
    rewrite decide_False by (intros E; by rewrite E in Hcolon).
    destruct a as [ip p|ip p f scope].
    2:{ assert (starts_with "0.0.0.0:" (display_socket_addr (SockV6 ip p f scope)) = false) as -> by (by destruct scope).
        rewrite Hcolon. cbn [negb]. by rewrite parse_printable. }
    destruct Ha as [[Hip Hp] _].
    destruct (decide (ip = 0)) as [->|Hne].
    + change (display_socket_addr (SockV4 0 p)) with ("0.0.0.0:" +:+ display_uint p).
      change (starts_with _ _) with true. cbv iota.
      change (str_replace _ _ _ _) with ("127.0.0.1:" +:+ str_replace "0.0.0.0:" "127.0.0.1:" 0 (display_uint p)).
      rewrite (str_replace_absent ":"%char) by (done || apply display_uint_colon). rewrite <-display_localhost.
      rewrite display_socket_addr_colon. cbn [negb]. by rewrite parse_printable by (by split; [split|]).
    + destruct (starts_with _ _) eqn:E; [by apply display_starts_unspecified in E|].
      rewrite Hcolon. cbn [negb]. rewrite parse_printable by (by split; [split|]). by destruct ip.
Qed.
