(* ===== verification/Lru.v ===== *)
(** Codec pairs and their table: [src/src/codec/lru.rs].

    The zstd streaming API is external; [Zstd] is the part of it the source
    calls.  Pairs are shared through [Arc], so they live in a store ([lru_heap])
    and the table and the streams hold locations.

    The table itself is a [moka] cache: a concurrent map whose entries may
    disappear at any time (idle timeout, capacity).  Its content is [lru_cache];
    a disappearing entry is the step [SEvict] of the system below.  Every
    operation is one atomic action of the map, except [checkout], which scans
    and removes in two. *)
From S2P Require Import Prelude.

(** The zstd calls of the source.  An operation on a stream returns the bytes
    it appended to the inner [Vec<u8>] and the new state. *)
Class Zstd : Type := {
  zenc : Type;
  zdec : Type;
  encoder_with_prepared_dictionary : list Z * Z → result unit zenc;
  encoder_new : Z → result unit zenc;
  long_distance_matching : bool → zenc → result unit zenc;
  encoder_window_log : Z → zenc → result unit zenc;
  decoder_with_prepared_dictionary : list Z → result unit zdec;
  decoder_new : result unit zdec;
  window_log_max : Z → zdec → result unit zdec;
  enc_write_all : list Z → zenc → result unit unit * list Z * zenc;
  enc_flush : zenc → result unit unit * list Z * zenc;
  dec_write_all : list Z → zdec → result unit unit * list Z * zdec;
  dec_flush : zdec → result unit unit * list Z * zdec
}.

(** * Dictionaries

    [EncoderDictionary::copy(dict, level)] and [DecoderDictionary::copy(dict)]
    keep the bytes they were given. *)
Record CodecDict : Type := MkDict {
  dict_enc : option (list Z * Z);
  dict_dec : option (list Z)
}.

Definition dict_none : CodecDict := MkDict None None.

Definition dict_is_empty (d : CodecDict) : bool :=
  match dict_enc d with Some _ => false | None => true end.

Definition dict_from_bytes (dict : list Z) (level : Z) : CodecDict :=
  if bool_decide (dict = []) then dict_none else MkDict (Some (dict, level)) (Some dict).

(** [rand_id]: [now] is the wall clock in nanoseconds ([None]: before the
    epoch), [tid] the bytes of the formatted thread id. *)
Definition rotate_left (w k x : Z) : Z :=
  Z.lor (wrap w (Z.shiftl x k)) (Z.shiftr x (w - k)).

Definition rand_id (now : option Z) (tid : list Z) : Z :=
  let now := default 1 now in
  let tid_hash := fold_left (λ acc b, wrap 128 (wrap 128 (acc * 31) + b)) tid 0 in
  let x := Z.lxor now (rotate_left 128 37 tid_hash) in
  let x := Z.lxor x (wrap 128 (Z.shiftl x 13)) in
  let x := Z.lxor x (Z.shiftr x 7) in
  let x := Z.lxor x (wrap 128 (Z.shiftl x 17)) in
  if x =? 0 then 1 else x.

Section lru.
Context {ZSTD : Zstd}.

(** * Pairs *)

Definition make_encoder (dict : CodecDict) (level window_log : Z) : result unit zenc :=
  enc ← match dict_enc dict with
        | Some ed => encoder_with_prepared_dictionary ed
        | None => encoder_new level
        end;
  enc ← long_distance_matching true enc;
  if negb (window_log =? 0) then encoder_window_log window_log enc else Ok enc.

Definition make_decoder (dict : CodecDict) (window_log : Z) : result unit zdec :=
  dec ← match dict_dec dict with
        | Some dd => decoder_with_prepared_dictionary dd
        | None => decoder_new
        end;
  if negb (window_log =? 0) then window_log_max window_log dec else Ok dec.

(** [enc_vec]/[dec_vec] are the inner [Vec<u8>]s of the two streams. *)
Record CodecPair : Type := MkPair {
  encoder : zenc;
  enc_vec : list Z;
  decoder : zdec;
  dec_vec : list Z;
  errored : bool;
  pair_dict : CodecDict;
  pair_level : Z;
  pair_window_log : Z
}.

Definition pair_new (dict : CodecDict) (level window_log : Z) : result unit CodecPair :=
  encoder ← make_encoder dict level window_log;
  decoder ← make_decoder dict window_log;
  Ok (MkPair encoder [] decoder [] false dict level window_log).

Definition set_errored (p : CodecPair) : CodecPair :=
  MkPair (encoder p) (enc_vec p) (decoder p) (dec_vec p) true
    (pair_dict p) (pair_level p) (pair_window_log p).

Definition with_encoder (p : CodecPair) (e : zenc) (vec : list Z) : CodecPair :=
  MkPair e vec (decoder p) (dec_vec p) (errored p) (pair_dict p) (pair_level p) (pair_window_log p).

Definition with_decoder (p : CodecPair) (d : zdec) (vec : list Z) : CodecPair :=
  MkPair (encoder p) (enc_vec p) d vec (errored p) (pair_dict p) (pair_level p) (pair_window_log p).

Definition pair_reset_encoder (p : CodecPair) : result unit CodecPair :=
  e ← make_encoder (pair_dict p) (pair_level p) (pair_window_log p);
  Ok (with_encoder p e []).

Definition pair_reset_decoder (p : CodecPair) : result unit CodecPair :=
  d ← make_decoder (pair_dict p) (pair_window_log p);
  Ok (with_decoder p d []).

(** * The table *)

Definition loc : Type := nat.

Record CodecLru : Type := MkLru {
  lru_cache : gmap Z loc;
  lru_heap : gmap loc CodecPair;      (** every pair ever allocated *)
  lru_dict : CodecDict;
  lru_level : Z;
  lru_window_log : Z
}.

Definition lru_new (dict : CodecDict) (level window_log : Z) : CodecLru :=
  MkLru ∅ ∅ dict level window_log.

Definition set_cache (c : gmap Z loc) (l : CodecLru) : CodecLru :=
  MkLru c (lru_heap l) (lru_dict l) (lru_level l) (lru_window_log l).
Definition set_heap (h : gmap loc CodecPair) (l : CodecLru) : CodecLru :=
  MkLru (lru_cache l) h (lru_dict l) (lru_level l) (lru_window_log l).

Definition update_pair (p : loc) (c : CodecPair) (l : CodecLru) : CodecLru :=
  set_heap (<[p := c]> (lru_heap l)) l.

(** [Arc::new(CodecPair::new(..)?)]. *)
Definition alloc_pair (l : CodecLru) : result unit loc * CodecLru :=
  match pair_new (lru_dict l) (lru_level l) (lru_window_log l) with
  | Err e => (Err e, l)
  | Ok c => let p := fresh (dom (lru_heap l)) in (Ok p, update_pair p c l)
  end.

Definition is_errored (l : CodecLru) (p : loc) : bool :=
  match lru_heap l !! p with Some c => errored c | None => false end.

Definition mark_errored (p : loc) (l : CodecLru) : CodecLru :=
  set_heap (alter set_errored p (lru_heap l)) l.

(** The scan of [checkout]: [order] is the order in which the iterator visits
    the keys. *)
Definition checkout_scan (order : list Z) (l : CodecLru) : option Z :=
  head (filter (λ id, match lru_cache l !! id with
                      | Some p => negb (is_errored l p)
                      | None => false
                      end = true) order).

(** The rest of [checkout], from the removal on; [id] is the random id used
    when a new pair is needed. *)
Definition checkout_take (reuse_id : option Z) (id : Z) (l : CodecLru) :
  result unit (Z * loc) * CodecLru :=
  let create l :=
    match alloc_pair l with
    | (Ok p, l) => (Ok (id, p), l)
    | (Err e, l) => (Err e, l)
    end in
  match reuse_id with
  | Some rid =>
      match lru_cache l !! rid with
      | Some p =>
          let l := set_cache (delete rid (lru_cache l)) l in
          if is_errored l p then create l else (Ok (rid, p), l)
      | None => create l
      end
  | None => create l
  end.

Definition checkout (order : list Z) (id : Z) (l : CodecLru) : result unit (Z * loc) * CodecLru :=
  checkout_take (checkout_scan order l) id l.

Inductive LookupResult : Type :=
| Hit (id : Z) (pair : loc)
| Miss (id : Z) (pair : loc).

Definition lookup_pair (id : Z) (l : CodecLru) : result unit LookupResult * CodecLru :=
  let create l :=
    match alloc_pair l with
    | (Ok p, l) => (Ok (Miss id p), l)
    | (Err e, l) => (Err e, l)
    end in
  if id =? 0 then create l else
  match lru_cache l !! id with
  | Some p =>
      let l := set_cache (delete id (lru_cache l)) l in
      if is_errored l p then create l else (Ok (Hit id p), l)
  | None => create l
  end.

Definition checkin (id : Z) (p : loc) (l : CodecLru) : CodecLru :=
  if (id =? 0) || is_errored l p then l else set_cache (<[id := p]> (lru_cache l)) l.

Definition lru_len (l : CodecLru) : nat := size (lru_cache l).
Definition lru_is_empty (l : CodecLru) : bool := bool_decide (lru_len l = 0%nat).

(** * Streams and the table, interleaved

    [held] lists the pairs that streams are using.  A step is one atomic action
    of some task: the streams may run in any order. *)
Record system : Type := Sys { sys_lru : CodecLru; held : list loc }.

Inductive step : system → system → Prop :=
| SCheckout l h reuse_id id rid p l' :
    (* the scan may have seen any state of the table *)
    id ≠ 0 → checkout_take reuse_id id l = (Ok (rid, p), l') →
    step (Sys l h) (Sys l' (p :: h))
| SCheckoutFailed l h reuse_id id e l' :
    checkout_take reuse_id id l = (Err e, l') → step (Sys l h) (Sys l' h)
| SLookup l h id res l' :
    lookup_pair id l = (Ok res, l') →
    step (Sys l h) (Sys l' ((match res with Hit _ p | Miss _ p => p end) :: h))
| SLookupFailed l h id e l' :
    lookup_pair id l = (Err e, l') → step (Sys l h) (Sys l' h)
| SUse l h1 p h2 c c' :
    (* encode, decode or reset, by the holder *)
    lru_heap l !! p = Some c → errored c' = errored c →
    step (Sys l (h1 ++ p :: h2)) (Sys (update_pair p c' l) (h1 ++ p :: h2))
| SCheckin l h1 p h2 id :
    step (Sys l (h1 ++ p :: h2)) (Sys (checkin id p l) (h1 ++ h2))
| SMarkErrored l h1 p h2 :
    step (Sys l (h1 ++ p :: h2)) (Sys (mark_errored p l) (h1 ++ h2))
| SDrop l h1 p h2 :
    (* the handshake failed: the pair is dropped *)
    step (Sys l (h1 ++ p :: h2)) (Sys l (h1 ++ h2))
| SEvict l h id :
    step (Sys l h) (Sys (set_cache (delete id (lru_cache l)) l) h).

Inductive reachable (init : system) : system → Prop :=
| ReachInit : reachable init init
| ReachStep s s' : reachable init s → step s s' → reachable init s'.

(** ** Exclusive use *)

(** The invariant: everything held or cached is allocated; nothing is held
    twice; no pair is both cached and held or cached twice; cached pairs are
    healthy and have a proper id. *)
Record lru_inv (s : system) : Prop := {
  inv_alloc_held : ∀ p, p ∈ held s → is_Some (lru_heap (sys_lru s) !! p);
  inv_cached : ∀ id p, lru_cache (sys_lru s) !! id = Some p →
    id ≠ 0 ∧ (p ∉ held s) ∧ ∃ c, lru_heap (sys_lru s) !! p = Some c ∧ errored c = false;
  inv_nodup : NoDup (held s);
  inv_inj : ∀ id1 id2 p, lru_cache (sys_lru s) !! id1 = Some p →
    lru_cache (sys_lru s) !! id2 = Some p → id1 = id2
}.

(** What allocation does. *)
Lemma alloc_pair_ok l p l' :
  alloc_pair l = (Ok p, l') →
  ∃ c, pair_new (lru_dict l) (lru_level l) (lru_window_log l) = Ok c ∧
    p = fresh (dom (lru_heap l)) ∧ l' = update_pair p c l ∧ lru_heap l !! p = None.
Proof.
  unfold alloc_pair. destruct (pair_new _ _ _) as [c|e]; [|done]. intros ?. simplify_eq.
  exists c. split_and!; try done. apply not_elem_of_dom, is_fresh.
Qed.

Lemma alloc_pair_err l e l' : alloc_pair l = (Err e, l') → l' = l.
Proof. unfold alloc_pair. destruct (pair_new _ _ _); intros ?; by simplify_eq. Qed.

Lemma pair_new_healthy d lv w c : pair_new d lv w = Ok c → errored c = false.
Proof.
  unfold pair_new. destruct (make_encoder _ _ _); [|done]. simpl.
  destruct (make_decoder _ _); [|done]. simpl. by intros [= <-].
Qed.

(** Taking a cached pair out of the table. *)
Lemma inv_take l h id p :
  lru_inv (Sys l h) → lru_cache l !! id = Some p →
  lru_inv (Sys (set_cache (delete id (lru_cache l)) l) (p :: h)).
Proof.
  intros [Ha Hc Hn Hi] Hp. simpl in *. destruct (Hc _ _ Hp) as (_ & Hnp & c & Hl & _).
  constructor; simpl.
  - intros q. rewrite elem_of_cons. intros [->|Hq]; eauto.
  - intros id' q Hq. apply lookup_delete_Some in Hq as [Hne Hq].
    destruct (Hc _ _ Hq) as (? & ? & ?). split_and!; try done.
    rewrite not_elem_of_cons. split; [|done]. intros ->. by apply Hne, (Hi _ _ p).
  - by constructor.
  - intros id1 id2 q [_ H1]%lookup_delete_Some [_ H2]%lookup_delete_Some. eauto.
Qed.

Lemma inv_evict l h id :
  lru_inv (Sys l h) → lru_inv (Sys (set_cache (delete id (lru_cache l)) l) h).
Proof.
  intros [Ha Hc Hn Hi]. simpl in *. constructor; simpl; try done.
  - intros id' q [_ Hq]%lookup_delete_Some. eauto.
  - intros id1 id2 q [_ H1]%lookup_delete_Some [_ H2]%lookup_delete_Some. eauto.
Qed.

(** A pair that was just allocated belongs to the stream that asked for it. *)
Lemma inv_alloc l h p l' :
  lru_inv (Sys l h) → alloc_pair l = (Ok p, l') → lru_inv (Sys l' (p :: h)).
Proof.
  intros [Ha Hc Hn Hi] (c & Hnew & -> & -> & Hnone)%alloc_pair_ok. simpl in *.
  set (p := fresh _) in *. constructor; simpl.
  - intros q. rewrite elem_of_cons. intros Hq. destruct (decide (q = p)) as [->|Hne].
    + rewrite lookup_insert_eq. by eexists.
    + rewrite lookup_insert_ne by done. destruct Hq as [->|Hq]; [done|by auto].
  - intros id q Hq. destruct (Hc _ _ Hq) as (? & Hnh & c' & Hc' & ?).
    assert (q ≠ p) by (intros ->; by rewrite Hnone in Hc').
    split_and!; [done| |].
    + rewrite not_elem_of_cons. done.
    + exists c'. by rewrite lookup_insert_ne.
  - constructor; [|done]. intros Hin. destruct (Ha _ Hin) as [? Hs]. by rewrite Hnone in Hs.
  - eauto.
Qed.

Lemma elem_of_mid (h1 : list loc) p h2 : p ∈ h1 ++ p :: h2.
Proof. rewrite elem_of_app, elem_of_cons. auto. Qed.

(** Releasing a pair. *)
Lemma inv_drop l h1 p h2 : lru_inv (Sys l (h1 ++ p :: h2)) → lru_inv (Sys l (h1 ++ h2)).
Proof.
  intros [Ha Hc Hn Hi]. simpl in *. constructor; simpl; try done.
  - intros q. rewrite elem_of_app. intros Hq. apply Ha. rewrite elem_of_app, elem_of_cons. tauto.
  - intros id q Hq. destruct (Hc _ _ Hq) as (? & Hnh & ?). split_and!; try done.
    rewrite elem_of_app, elem_of_cons in Hnh. rewrite elem_of_app. tauto.
  - apply list.NoDup_app in Hn as (H1 & H2 & H3). apply list.NoDup_cons in H3 as [_ H3].
    apply list.NoDup_app. split_and!; try done. intros x Hx Hx2. apply (H2 x Hx). rewrite elem_of_cons. auto.
Qed.

Lemma held_split_notin (h1 : list loc) p h2 : NoDup (h1 ++ p :: h2) → p ∉ h1 ++ h2.
Proof.
  rewrite list.NoDup_app, list.NoDup_cons. intros (_ & H2 & Hp & _). rewrite elem_of_app.
  intros [Hin|Hin]; [|done]. apply (H2 p Hin). rewrite elem_of_cons. auto.
Qed.

(** A change of a held pair that keeps its health. *)
Lemma inv_update l h p c c' :
  lru_inv (Sys l h) → p ∈ h → lru_heap l !! p = Some c →
  lru_inv (Sys (update_pair p c' l) h).
Proof.
  intros [Ha Hc Hn Hi] Hp Hl. simpl in *. constructor; simpl; try done.
  - intros q Hq. destruct (decide (q = p)) as [->|Hne].
    + rewrite lookup_insert_eq. by eexists.
    + rewrite lookup_insert_ne by done. auto.
  - intros id q Hq. destruct (Hc _ _ Hq) as (? & Hnh & c'' & ? & ?).
    assert (q ≠ p) by (by intros ->). split_and!; try done.
    exists c''. by rewrite lookup_insert_ne.
Qed.

Lemma inv_mark_errored l h1 p h2 :
  lru_inv (Sys l (h1 ++ p :: h2)) → lru_inv (Sys (mark_errored p l) (h1 ++ h2)).
Proof.
  intros Hinv. apply inv_drop with (p := p). pose proof Hinv as [Ha _ _ _]. simpl in Ha.
  destruct (Ha p (elem_of_mid h1 p h2)) as [c Hl].
  replace (mark_errored p l) with (update_pair p (set_errored c) l).
  - apply (inv_update _ _ _ c); [done|apply elem_of_mid|done].
  - unfold mark_errored, update_pair. f_equal. apply map_eq. intros i.
    destruct (decide (i = p)) as [->|]; [by rewrite lookup_insert_eq, lookup_alter_eq, Hl|].
    by rewrite lookup_insert_ne, lookup_alter_ne.
Qed.

Lemma inv_checkin l h1 p h2 id :
  lru_inv (Sys l (h1 ++ p :: h2)) → lru_inv (Sys (checkin id p l) (h1 ++ h2)).
Proof.
  intros Hinv. pose proof (inv_drop _ _ _ _ Hinv) as Hd. unfold checkin.
  destruct (Z.eqb_spec id 0); [done|]. destruct (is_errored l p) eqn:He; [done|]. simpl.
  pose proof Hinv as [Ha Hc Hn _]. destruct Hd as [Ha' Hc' Hn' Hi']. simpl in *.
  destruct (Ha p (elem_of_mid h1 p h2)) as [c Hl]. unfold is_errored in He. rewrite Hl in He.
  assert (∀ id', lru_cache l !! id' ≠ Some p) as Hnp.
  { intros id' Hp. destruct (Hc _ _ Hp) as (_ & Hnh & _). by apply Hnh, elem_of_mid. }
  constructor; simpl; try done.
  - intros id' q Hq. apply lookup_insert_Some in Hq as [[<- <-]|[_ Hq]]; [|by auto].
    split_and!; [done|by apply held_split_notin|by eauto].
  - intros id1 id2 q H1 H2.
    apply lookup_insert_Some in H1 as [[<- <-]|[_ H1]];
    apply lookup_insert_Some in H2 as [[<- Hq]|[_ H2]]; try done; subst; eauto;
    by exfalso; eapply Hnp.
Qed.

Lemma inv_checkout_take l h reuse_id id x l' :
  lru_inv (Sys l h) → checkout_take reuse_id id l = (x, l') →
  lru_inv (Sys l' (match x with Ok (_, p) => p :: h | Err _ => h end)).
Proof.
  intros Hinv Hx. unfold checkout_take in Hx.
  assert (∀ l0, lru_inv (Sys l0 h) → 
    match alloc_pair l0 with (Ok p, l1) => (Ok (id, p), l1) | (Err e, l1) => (Err e, l1) end = (x, l') →
    lru_inv (Sys l' (match x with Ok (_, p) => p :: h | Err _ => h end))) as Hcreate.
  { intros l0 Hl0 Hc. destruct (alloc_pair l0) as [[p|e] l1] eqn:Hal; simplify_eq.
    - by apply (inv_alloc l0).
    - by apply alloc_pair_err in Hal as ->. }
  destruct reuse_id as [rid|]; [|by apply (Hcreate l)].
  destruct (lru_cache l !! rid) as [p|] eqn:Hp; [|by apply (Hcreate l)].
  destruct (is_errored _ p); simplify_eq.
  - apply (Hcreate _ (inv_evict l h rid Hinv) Hx).
  - by apply inv_take.
Qed.

Lemma inv_lookup l h id x l' :
  lru_inv (Sys l h) → lookup_pair id l = (x, l') →
  lru_inv (Sys l' (match x with Ok (Hit _ p | Miss _ p) => p :: h | Err _ => h end)).
Proof.
  intros Hinv Hx. unfold lookup_pair in Hx.
  assert (∀ l0, lru_inv (Sys l0 h) → 
    match alloc_pair l0 with (Ok p, l1) => (Ok (Miss id p), l1) | (Err e, l1) => (Err e, l1) end = (x, l') →
    lru_inv (Sys l' (match x with Ok (Hit _ p | Miss _ p) => p :: h | Err _ => h end))) as Hcreate.
  { intros l0 Hl0 Hc. destruct (alloc_pair l0) as [[p|e] l1] eqn:Hal; simplify_eq.
    - by apply (inv_alloc l0).
    - by apply alloc_pair_err in Hal as ->. }
  destruct (id =? 0); [by apply (Hcreate l)|].
  destruct (lru_cache l !! id) as [p|] eqn:Hp; [|by apply (Hcreate l)].
  destruct (is_errored _ p); simplify_eq.
  - apply (Hcreate _ (inv_evict l h id Hinv) Hx).
  - by apply inv_take.
Qed.

(** Every step keeps the invariant. *)
Lemma step_inv s s' : lru_inv s → step s s' → lru_inv s'.
Proof.
  intros Hinv Hstep. destruct Hstep.
  - by apply (inv_checkout_take _ _ _ _ _ _ Hinv) in H0.
  - by apply (inv_checkout_take _ _ _ _ _ _ Hinv) in H.
  - apply (inv_lookup _ _ _ _ _ Hinv) in H. by destruct res.
  - by apply (inv_lookup _ _ _ _ _ Hinv) in H.
  - by apply (inv_update _ _ _ c); [|apply elem_of_mid|].
  - by apply inv_checkin.
  - by apply inv_mark_errored.
  - by apply inv_drop in Hinv.
  - by apply inv_evict.
Qed.

Lemma lru_inv_new dict level window_log : lru_inv (Sys (lru_new dict level window_log) []).
Proof.
  constructor; simpl; [by intros ? ?%elem_of_nil|by intros ? ? ?%lookup_empty_Some|constructor|done].
Qed.

(** C12: A pair is used by one stream at a time.  However the tasks of any number
    of streams interleave with each other and with evictions, no pair is ever
    held twice, no cached pair is held or cached twice, a cached pair is healthy
    (so a pair marked as errored is never handed out again), and no pair is
    cached under the id 0. *)
Theorem codec_pair_exclusive dict level window_log s :
  reachable (Sys (lru_new dict level window_log) []) s →
  NoDup (held s) ∧
  ∀ id p, lru_cache (sys_lru s) !! id = Some p →
    id ≠ 0 ∧ (p ∉ held s) ∧ is_errored (sys_lru s) p = false ∧
    ∀ id', lru_cache (sys_lru s) !! id' = Some p → id' = id.
Proof.
  intros Hr. assert (lru_inv s) as [Ha Hc Hn Hi].
  { induction Hr as [|s s' _ IH Hs]; [apply lru_inv_new|by eapply step_inv]. }
  split; [done|]. intros id p Hp. destruct (Hc _ _ Hp) as (? & ? & c & Hl & He).
  split_and!; eauto. unfold is_errored. by rewrite Hl.
Qed.

(** ** Checking in, then looking up *)

(** A healthy pair that is checked in under a proper id is found by the
    peer's next lookup of that id, is the same object, and is then no longer in
    the table. *)
Theorem checkin_lookup id p l :
  id ≠ 0 → is_errored l p = false →
  ∃ l', lookup_pair id (checkin id p l) = (Ok (Hit id p), l') ∧
    lru_cache l' = delete id (lru_cache l) ∧ lru_heap l' = lru_heap l.
Proof.
  intros Hid He. unfold checkin, lookup_pair. rewrite He.
  destruct (Z.eqb_spec id 0); [done|]. simpl. rewrite lookup_insert_eq.
  unfold is_errored in *. simpl. rewrite He. eexists. split_and!; try done.
  simpl. by rewrite delete_insert_eq.
Qed.

(** A pair created for a lookup is fresh. *)
Lemma lookup_miss_fresh id l :
  lru_cache l !! id = None ∨ id = 0 →
  lookup_pair id l =
    match pair_new (lru_dict l) (lru_level l) (lru_window_log l) with
    | Ok c => let p := fresh (dom (lru_heap l)) in (Ok (Miss id p), update_pair p c l)
    | Err e => (Err e, l)
    end.
Proof.
  intros Hn. unfold lookup_pair.
  assert ((if id =? 0 then None else lru_cache l !! id) = None) as Hno
    by (destruct (Z.eqb_spec id 0); [done|by destruct Hn]).
  unfold alloc_pair. destruct (id =? 0); [|rewrite Hno]; by destruct (pair_new _ _ _).
Qed.
End lru.

(** ** Random ids *)

Lemma lxor_in_u w a b : 0 <= w → in_u w a → in_u w b → in_u w (Z.lxor a b).
Proof.
  intros Hw [Ha0 Ha] [Hb0 Hb]. unfold in_u. split; [by apply Z.lxor_nonneg|].
  destruct (decide (Z.lxor a b = 0)) as [->|Hne]; [lia|].
  assert (0 < Z.lxor a b) by (pose proof (Z.lxor_nonneg a b); lia).
  apply Z.log2_lt_pow2; [done|].
  pose proof (Z.log2_lxor a b Ha0 Hb0).
  assert (∀ x, 0 <= x < 2 ^ w → Z.log2 x < w ∨ x = 0) as Hl.
  { intros x Hx. destruct (decide (x = 0)); [auto|]. left. apply Z.log2_lt_pow2; lia. }
  destruct (decide (w = 0)) as [->|].
  { simpl in *. assert (a = 0) by lia. assert (b = 0) by lia. by subst. }
  destruct (Hl a), (Hl b); try lia; subst; simpl in *; lia.
Qed.

Lemma shiftr_in_u w k a : 0 <= k → in_u w a → in_u w (Z.shiftr a k).
Proof.
  intros Hk [Ha0 Ha]. unfold in_u. rewrite Z.shiftr_div_pow2 by done.
  split; [apply Z.div_pos; lia|]. apply Z.le_lt_trans with a; [|done].
  apply Z.div_le_upper_bound; [lia|]. assert (1 <= 2 ^ k) by lia. nia.
Qed.

Lemma lor_in_u w a b : 0 < w → in_u w a → in_u w b → in_u w (Z.lor a b).
Proof.
  intros Hw [Ha0 Ha] [Hb0 Hb]. unfold in_u. split; [by apply Z.lor_nonneg|].
  destruct (decide (Z.lor a b = 0)) as [->|Hne]; [lia|].
  assert (0 < Z.lor a b) by (pose proof (Z.lor_nonneg a b); lia).
  apply Z.log2_lt_pow2; [done|]. rewrite Z.log2_lor by done.
  assert (∀ x, 0 <= x < 2 ^ w → Z.log2 x < w) as Hl.
  { intros x Hx. destruct (decide (x = 0)) as [->|]; [simpl; lia|]. apply Z.log2_lt_pow2; lia. }
  pose proof (Hl a). pose proof (Hl b). lia.
Qed.

(** A random id is a [u128] and is never 0, the id that means "fresh" on the
    wire. *)
Theorem rand_id_nonzero now tid :
  in_u 128 (default 1 now) → in_u 128 (rand_id now tid) ∧ rand_id now tid ≠ 0.
Proof.
  intros Hnow. unfold rand_id. cbv zeta.
  assert (∀ a, in_u 128 a → in_u 128 (fold_left (λ acc b, wrap 128 (wrap 128 (acc * 31) + b)) tid a))
    as Hfold.
  { induction tid as [|b tid IH]; intros a Ha; simpl; [done|]. apply IH, wrap_in_u. lia. }
  set (t := fold_left _ tid 0). assert (in_u 128 t) as Ht by (apply Hfold; done).
  assert (in_u 128 (rotate_left 128 37 t)) as Hr.
  { apply lor_in_u; [done|apply wrap_in_u; lia|]. by apply shiftr_in_u. }
  set (x0 := Z.lxor _ (rotate_left 128 37 t)). assert (in_u 128 x0) by by apply lxor_in_u.
  set (x1 := Z.lxor x0 _). assert (in_u 128 x1) by (apply lxor_in_u; [done|done|by apply wrap_in_u]).
  set (x2 := Z.lxor x1 _). assert (in_u 128 x2) by (apply lxor_in_u; [done|done|by apply shiftr_in_u]).
  set (x3 := Z.lxor x2 _). assert (in_u 128 x3) by (apply lxor_in_u; [done|done|by apply wrap_in_u]).
  destruct (Z.eqb_spec x3 0); [|done]. split; [|done]. unfold in_u. lia.
Qed.

Lemma rand_id_nonzero_witness :
  in_u 128 (rand_id (Some 1700000000000000000) (as_bytes "ThreadId(7)")) ∧
  rand_id (Some 1700000000000000000) (as_bytes "ThreadId(7)") ≠ 0.
Proof. apply (rand_id_nonzero (Some 1700000000000000000)). by split. Defined.

(** * A small codec

    An instance for the witnesses: it buffers until flushed, and masks every
    byte with a counter that both ends advance, so that, as with zstd, the
    decoder only works if it has seen everything its encoder has produced. *)
Fixpoint mask (k : Z) (bs : list Z) : list Z :=
  match bs with
  | [] => []
  | b :: bs' => Z.lxor b k :: mask (k + 1) bs'
  end.

#[export] Instance toy_zstd : Zstd := {|
  zenc := Z * list Z;
  zdec := Z;
  encoder_with_prepared_dictionary ed := Ok (fold_left Z.add ed.1 1, []);
  encoder_new level := Ok (1, []);
  long_distance_matching _ e := Ok e;
  encoder_window_log w e := if 31 <? w then Err () else Ok e;
  decoder_with_prepared_dictionary dd := Ok (fold_left Z.add dd 1);
  decoder_new := Ok 1;
  window_log_max w d := if 31 <? w then Err () else Ok d;
  enc_write_all bs e := (Ok (), [], (e.1, e.2 ++ bs));
  enc_flush e := (Ok (), mask e.1 e.2, (e.1 + Z.of_nat (length e.2), []));
  dec_write_all bs d := (Ok (), mask d bs, d + Z.of_nat (length bs));
  dec_flush d := (Ok (), [], d)
|}.

Definition toy_lru : CodecLru := lru_new dict_none 9 24.

(** Two streams: the first took a new pair 0 with id 5, the second a new pair 1
    with id 6; the first one has returned its pair. *)
Definition toy_lru_used : CodecLru :=
  checkin 5 0%nat (checkout_take None 6 (checkout_take None 5 toy_lru).2).2.

Lemma codec_pair_exclusive_witness :
  lru_cache toy_lru_used !! 5 = Some 0%nat ∧ NoDup (held (Sys toy_lru_used [1%nat])) ∧
  ∀ id p, lru_cache toy_lru_used !! id = Some p →
    id ≠ 0 ∧ (p ∉ [1%nat]) ∧ is_errored toy_lru_used p = false ∧
    ∀ id', lru_cache toy_lru_used !! id' = Some p → id' = id.
Proof.
  split; [by vm_compute|].
  apply (codec_pair_exclusive dict_none 9 24 (Sys toy_lru_used [1%nat])).
  eapply ReachStep; [eapply ReachStep; [eapply ReachStep; [apply ReachInit|]|]|].
  - apply (SCheckout toy_lru [] None 5 5 0%nat); [done|reflexivity].
  - eapply (SCheckout _ _ None 6 6 1%nat); [done|reflexivity].
  - apply (SCheckin _ [1%nat] 0%nat []).
Defined.

Lemma checkin_lookup_witness :
  ∃ l', lookup_pair 5 toy_lru_used = (Ok (Hit 5 0%nat), l') ∧
    lru_cache l' = delete 5 (lru_cache (checkout_take None 6 (checkout_take None 5 toy_lru).2).2) ∧
    lru_heap l' = lru_heap (checkout_take None 6 (checkout_take None 5 toy_lru).2).2.
Proof. apply (checkin_lookup 5 0%nat); [done|by vm_compute]. Defined.
