(* ===== verification/Handshake.v ===== *)
(** The codec handshake of [src/src/codec/handshake.rs]: at the start of a
    compressed stream each side offers the id of the pair it will encode with
    and acknowledges the id the other side offered. *)
From S2P Require Import Prelude Io Lru.

Definition PAIR_ID_SIZE : nat := 16.

Record HandshakeResult : Type := MkHandshake {
  s2q_pair : loc;
  q2s_pair : loc;
  s2q_id : Z;
  s2q_ack : Z;
  q2s_id : Z;
  q2s_ack : Z
}.

Inductive hs_error : Type :=
| CheckoutFailed
| HsSendFailed (e : io_error)
| HsReadFailed (e : io_error)
| HsLookupFailed
| ResetFailed.

Section handshake.
Context {ZSTD : Zstd}.

(** The two halves of the stream and the table of this side. *)
Record hs_state : Type := HsState {
  hs_send : writer;
  hs_recv : reader;
  hs_lru : CodecLru
}.

(** An operation on the table, with the context its error gets. *)
Definition on_lru {A} (err : hs_error) (f : CodecLru → result unit A * CodecLru) :
  eff hs_state hs_error A := λ s,
  let (x, l) := f (hs_lru s) in (map_err (λ _, err) x, HsState (hs_send s) (hs_recv s) l).

(** [tokio::join!(send, recv)] followed by [send_res?; recv_res?]: both halves
    run to completion, then the send error is reported first. *)
Definition join_send_recv (bs : list Z) : eff hs_state hs_error (list Z) := λ s,
  let (send_res, w) := write_all bs (hs_send s) in
  let (recv_res, r) := read_exact true PAIR_ID_SIZE (hs_recv s) in
  (match send_res, recv_res with
   | Err e, _ => Err (HsSendFailed e)
   | Ok _, Err e => Err (HsReadFailed e)
   | Ok _, Ok got => Ok got
   end, HsState w r (hs_lru s)).

(** [pair.reset_encoder()] and [pair.reset_decoder()] through the [Arc]. *)
Definition reset_with (f : CodecPair → result unit CodecPair) (p : loc) (l : CodecLru) :
  result unit unit * CodecLru :=
  match lru_heap l !! p with
  | Some c => match f c with Ok c' => (Ok (), update_pair p c' l) | Err e => (Err e, l) end
  | None => (Ok (), l)
  end.

Definition reset_encoder := reset_with pair_reset_encoder.
Definition reset_decoder := reset_with pair_reset_decoder.

(** [exchange_pair_id]; [order] and [rid] are the iteration order and the
    random id of [checkout]. *)
Definition exchange_pair_id (order : list Z) (rid : Z) : eff hs_state hs_error HandshakeResult :=
  out ← on_lru CheckoutFailed (checkout order rid);
  remote_id_bytes ← join_send_recv (to_be_bytes 16 out.1);
  found ← on_lru HsLookupFailed (lookup_pair (from_be_bytes remote_id_bytes));
  let (q, ack) := match found with Hit id q => (q, id) | Miss _ q => (q, 0) end in
  _ ← (if ack =? 0 then on_lru ResetFailed (reset_decoder q) else mret ());
  remote_ack_bytes ← join_send_recv (to_be_bytes 16 ack);
  let remote_ack := from_be_bytes remote_ack_bytes in
  _ ← (if (remote_ack =? 0) && negb (out.1 =? 0)
       then on_lru ResetFailed (reset_encoder out.2) else mret ());
  mret (MkHandshake out.2 q out.1 remote_ack (from_be_bytes remote_id_bytes) ack).

(** ** What the peers agree on *)

(** Pairs carry the configuration of their table, and streams can be created
    with it. *)
Definition lru_ok (l : CodecLru) : Prop :=
  is_ok (make_encoder (lru_dict l) (lru_level l) (lru_window_log l)) = true ∧
  is_ok (make_decoder (lru_dict l) (lru_window_log l)) = true ∧
  ∀ p c, lru_heap l !! p = Some c →
    pair_dict c = lru_dict l ∧ pair_level c = lru_level l ∧ pair_window_log c = lru_window_log l.

(** The acknowledgement this table gives to an id. *)
Definition ack_for (id : Z) (l : CodecLru) : Z :=
  match lru_cache l !! id with Some _ => id | None => 0 end.

Definition fresh_encoder (l : CodecLru) (c : CodecPair) : Prop :=
  make_encoder (lru_dict l) (lru_level l) (lru_window_log l) = Ok (encoder c) ∧ enc_vec c = [].
Definition fresh_decoder (l : CodecLru) (c : CodecPair) : Prop :=
  make_decoder (lru_dict l) (lru_window_log l) = Ok (decoder c) ∧ dec_vec c = [].

Lemma lru_ok_new l : lru_ok l →
  ∃ c, pair_new (lru_dict l) (lru_level l) (lru_window_log l) = Ok c ∧
    fresh_encoder l c ∧ fresh_decoder l c ∧
    pair_dict c = lru_dict l ∧ pair_level c = lru_level l ∧ pair_window_log c = lru_window_log l.
Proof.
  intros (He & Hd & _). unfold pair_new, fresh_encoder, fresh_decoder.
  destruct (make_encoder _ _ _) as [e|]; [|done]. destruct (make_decoder _ _) as [d|]; [|done].
  eexists. split; [done|]. done.
Qed.

(** Checking out keeps the configuration. *)
Lemma lru_ok_update l p c :
  lru_ok l → pair_dict c = lru_dict l → pair_level c = lru_level l →
  pair_window_log c = lru_window_log l → lru_ok (update_pair p c l).
Proof.
  intros (He & Hd & Hh) H1 H2 H3. split_and!; try done. simpl. intros q c' Hq.
  apply lookup_insert_Some in Hq as [[_ <-]|[_ Hq]]; [done|]. eauto.
Qed.

Lemma checkout_take_ok reuse_id id l x l' :
  lru_ok l → checkout_take reuse_id id l = (x, l') → lru_ok l'.
Proof.
  intros Hok. destruct (lru_ok_new l Hok) as (c & Hc & _ & _ & ? & ? & ?).
  unfold checkout_take, alloc_pair. simpl. rewrite Hc. intros Hx.
  repeat case_hyp Hx; simplify_eq/=; try (by apply lru_ok_update); try done.
Qed.

(** The lookup of the handshake, followed by the reset of the decoder. *)
Lemma lookup_resolved id p0 h l :
  lru_ok l → lru_inv (Sys l (p0 :: h)) →
  ∃ found l1 l2 q c, let ack := ack_for id l in
    lookup_pair id l = (Ok found, l1) ∧
    match found with Hit id q => (q, id) | Miss _ q => (q, 0) end = (q, ack) ∧
    (if ack =? 0 then reset_decoder q l1 else (Ok (), l1)) = (Ok (), l2) ∧
    lru_ok l2 ∧ lru_inv (Sys l2 (q :: p0 :: h)) ∧
    (lru_dict l2 = lru_dict l ∧ lru_level l2 = lru_level l ∧ lru_window_log l2 = lru_window_log l) ∧
    lru_heap l2 !! p0 = lru_heap l !! p0 ∧
    lru_heap l2 !! q = Some c ∧
    if ack =? 0 then fresh_decoder l c ∧ fresh_encoder l c
    else lru_cache l !! id = Some q ∧ lru_heap l !! q = Some c.
Proof.
  intros Hok Hinv. unfold ack_for.
  destruct (lookup_pair id l) as [x l1] eqn:Hl. pose proof (inv_lookup _ _ _ _ _ Hinv Hl) as Hinv1.
  destruct (lru_cache l !! id) as [q|] eqn:Hq.
  - destruct (inv_cached _ Hinv id q Hq) as (Hid & Hnot & c & Hc & Hce).
    unfold lookup_pair in Hl. simpl in *. destruct (Z.eqb_spec id 0); [done|].
    rewrite Hq in Hl. unfold is_errored in Hl. simpl in Hl. rewrite Hc, Hce in Hl. simplify_eq.
    exists (Hit id q), (set_cache (delete id (lru_cache l)) l), (set_cache (delete id (lru_cache l)) l), q, c.
    split_and!; done.
  - destruct (lru_ok_new l Hok) as (c & Hc & Hfe & Hfd & Hcd & Hcl & Hcw).
    rewrite lookup_miss_fresh, Hc in Hl by auto. cbv zeta in Hl. simplify_eq.
    set (q := fresh (dom (lru_heap l))) in *.
    assert (lru_heap l !! q = None) as Hqn by apply not_elem_of_dom, is_fresh.
    assert (p0 ≠ q) as Hne.
    { intros ->. destruct (inv_alloc_held _ Hinv q) as [? Hs]; [simpl; rewrite elem_of_cons; auto|].
      simpl in Hs. by rewrite Hqn in Hs. }
    destruct Hfd as [Hfd Hfv].
    set (c' := with_decoder c (decoder c) []).
    exists (Miss id q), (update_pair q c l), (update_pair q c' (update_pair q c l)), q, c'.
    assert (lru_heap (update_pair q c l) !! q = Some c) as Hh by (simpl; by rewrite lookup_insert_eq).
    split_and!; try done.
    + rewrite Z.eqb_refl. unfold reset_decoder, reset_with. rewrite Hh. unfold pair_reset_decoder.
      by rewrite Hcd, Hcw, Hfd.
    + by repeat apply lru_ok_update.
    + by apply (inv_update _ _ _ c); [|rewrite elem_of_cons; auto|].
    + simpl. by rewrite !lookup_insert_ne.
    + simpl. by rewrite lookup_insert_eq.
Qed.

Lemma on_lru_ok {A} err (f : CodecLru → result unit A * CodecLru) s x l :
  f (hs_lru s) = (Ok x, l) → on_lru err f s = (Ok x, HsState (hs_send s) (hs_recv s) l).
Proof. unfold on_lru. by intros ->. Qed.

Lemma join_send_recv_ok bs w r l z rest :
  w_room w = None → in_u 128 z → delivers r (to_be_bytes 16 z ++ rest) →
  ∃ r', join_send_recv bs (HsState w r l) =
      (Ok (to_be_bytes 16 z), HsState (Writer (w_out w ++ bs) None) r' l) ∧ delivers r' rest.
Proof.
  intros Hw Hz Hd.
  destruct (read_exact_delivers true 16 r _ rest Hd (length_to_be_bytes 16 z)) as (r' & Hr & Hd').
  exists r'. split; [|done]. unfold join_send_recv, PAIR_ID_SIZE. cbn [hs_send hs_recv hs_lru].
  by rewrite write_all_unlimited, Hr.
Qed.

(** The resolution of one direction: with [ack = 0] the stream starts fresh,
    otherwise it goes on where the pair was left. *)
Definition encoder_resolved (l1 : CodecLru) (ack : Z) (p : loc) (c : CodecPair) : Prop :=
  if ack =? 0 then fresh_encoder l1 c else lru_heap l1 !! p = Some c.
Definition decoder_resolved (l1 : CodecLru) (id ack : Z) (q : loc) (c : CodecPair) : Prop :=
  if ack =? 0 then fresh_decoder l1 c else lru_cache l1 !! id = Some q ∧ lru_heap l1 !! q = Some c.

(** The reset of the encoder, when the peer asks for it. *)
Lemma encoder_reset_ok rack a p q h c cq l1 l3 :
  a ≠ 0 → q ≠ p → lru_ok l3 → lru_inv (Sys l3 (q :: p :: h)) →
  lru_dict l3 = lru_dict l1 → lru_level l3 = lru_level l1 → lru_window_log l3 = lru_window_log l1 →
  lru_heap l1 !! p = Some c → lru_heap l3 !! p = Some c → lru_heap l3 !! q = Some cq →
  ∃ l4 cp, (if (rack =? 0) && negb (a =? 0) then reset_encoder p l3 else (Ok (), l3)) = (Ok (), l4) ∧
    lru_inv (Sys l4 (q :: p :: h)) ∧ lru_heap l4 !! p = Some cp ∧ lru_heap l4 !! q = Some cq ∧
    encoder_resolved l1 rack p cp.
Proof.
  intros Ha Hqp Hok3 Hinv3 Hd3 Hl3 Hw3 Hp1 Hp3 Hq3.
  unfold encoder_resolved. destruct (rack =? 0); simpl; [|by eauto 10].
  destruct (Z.eqb_spec a 0); [done|]. simpl. unfold reset_encoder, reset_with. rewrite Hp3.
  destruct Hok3 as (He3 & _ & Hconf). destruct (Hconf _ _ Hp3) as (Hc1 & Hc2 & Hc3).
  unfold pair_reset_encoder. rewrite Hc1, Hc2, Hc3.
  destruct (make_encoder _ _ _) as [e|] eqn:Hme; [|done]. simpl.
  eexists _, (with_encoder c e []). split_and!; [done| | | |].
  - by apply (inv_update _ _ _ c); [|rewrite !elem_of_cons; auto|].
  - simpl. by rewrite lookup_insert_eq.
  - simpl. by rewrite lookup_insert_ne.
  - unfold fresh_encoder. by rewrite <-Hd3, <-Hl3, <-Hw3.
Qed.

(** One side of the handshake, whatever the other side sends. *)
Lemma exchange_pair_id_ok order rid l w r h a p l1 remote rack rest :
  lru_ok l → lru_inv (Sys l h) → checkout order rid l = (Ok (a, p), l1) → a ≠ 0 →
  in_u 128 remote → in_u 128 rack → w_room w = None →
  delivers r (to_be_bytes 16 remote ++ to_be_bytes 16 rack ++ rest) →
  let ack := ack_for remote l1 in
  ∃ q cp cq l' r',
    exchange_pair_id order rid (HsState w r l) =
      (Ok (MkHandshake p q a rack remote ack),
       HsState (Writer (w_out w ++ to_be_bytes 16 a ++ to_be_bytes 16 ack) None) r' l') ∧
    delivers r' rest ∧ lru_inv (Sys l' (q :: p :: h)) ∧
    lru_heap l' !! p = Some cp ∧ lru_heap l' !! q = Some cq ∧
    encoder_resolved l1 rack p cp ∧ decoder_resolved l1 remote ack q cq.
Proof.
  intros Hok Hinv Hco Ha Hrem Hrack Hw Hd ack.
  pose proof (inv_checkout_take _ _ _ _ _ _ Hinv Hco) as Hinv1. simpl in Hinv1.
  pose proof (checkout_take_ok _ _ _ _ _ Hok Hco) as Hok1.
  destruct (inv_alloc_held _ Hinv1 p) as [cp1 Hp1]; [simpl; rewrite elem_of_cons; auto|].
  destruct (lookup_resolved remote p h l1 Hok1 Hinv1)
    as (found & l2 & l3 & q & cq & Hlk & Hfound & Hreset & Hok3 & Hinv3 & (Hd3 & Hl3 & Hw3) & Hp3 & Hq3 & Hres).
  fold ack in Hfound, Hreset, Hres.
  destruct (join_send_recv_ok (to_be_bytes 16 a) w r l1 remote _ Hw Hrem Hd) as (r1 & Hj1 & Hdr1).
  destruct (join_send_recv_ok (to_be_bytes 16 ack) (Writer (w_out w ++ to_be_bytes 16 a) None) r1 l3
              rack rest eq_refl Hrack Hdr1) as (r2 & Hj2 & Hdr2).
  assert (q ≠ p) as Hqp.
  { intros ->. pose proof (inv_nodup _ Hinv3) as Hn. simpl in Hn.
    apply list.NoDup_cons in Hn as [Hn _]. apply Hn. rewrite elem_of_cons. auto. }
  simpl in Hp1. rewrite Hp1 in Hp3.
  destruct (encoder_reset_ok rack a p q h cp1 cq l1 l3) as (l4 & cp & Hre & Hinv4 & Hp4 & Hq4 & Henc); [done..|].
  exists q, cp, cq, l4, r2. split_and!; [|done..|].
  - unfold exchange_pair_id.
    rewrite (eff_bind_ok _ _ _ _ _ (on_lru_ok CheckoutFailed _ (HsState w r l) _ _ Hco)).
    cbn [hs_send hs_recv fst snd].
    rewrite (eff_bind_ok _ _ _ _ _ Hj1), from_to_be_bytes by done.
    rewrite (eff_bind_ok _ _ _ _ _ (on_lru_ok HsLookupFailed _ (HsState _ r1 l1) _ _ Hlk)).
    cbn [hs_send hs_recv]. rewrite Hfound.
    assert ((if ack =? 0 then on_lru ResetFailed (reset_decoder q) else mret ())
      (HsState (Writer (w_out w ++ to_be_bytes 16 a) None) r1 l2) =
      (Ok (), HsState (Writer (w_out w ++ to_be_bytes 16 a) None) r1 l3)) as Hstep.
    { destruct (ack =? 0); [|by simplify_eq]. by apply on_lru_ok. }
    rewrite (eff_bind_ok _ _ _ _ _ Hstep), (eff_bind_ok _ _ _ _ _ Hj2), from_to_be_bytes by done.
    cbn [w_out]. rewrite <-app_assoc.
    match goal with |- (?m ≫= _) ?st = _ => assert (m st = (Ok (), HsState (hs_send st) (hs_recv st) l4)) as Hl end.
    { destruct (_ && _); [|by simplify_eq]. by apply on_lru_ok. }
    by rewrite (eff_bind_ok _ _ _ _ _ Hl).
  - unfold decoder_resolved. destruct (ack =? 0); [|done]. by destruct Hres.
Qed.

(** ** What a side has sent, whatever it receives *)

(** [m] takes nothing back of what was sent. *)
Definition sends_more {A} (m : eff hs_state hs_error A) : Prop :=
  ∀ s, w_out (hs_send s) `prefix_of` w_out (hs_send (m s).2).

Lemma sends_more_ret {A} (x : A) : sends_more (mret x).
Proof. intros s. done. Qed.

Lemma sends_more_bind {A B} (m : eff hs_state hs_error A) (f : A → eff hs_state hs_error B) :
  sends_more m → (∀ x, sends_more (f x)) → sends_more (m ≫= f).
Proof.
  intros Hm Hf s. specialize (Hm s). unfold mbind, eff_bind. destruct (m s) as [[x|e] s']; [|done].
  etransitivity; [exact Hm|apply Hf].
Qed.

Lemma sends_more_lru {A} err (f : CodecLru → result unit A * CodecLru) : sends_more (on_lru err f).
Proof. intros s. unfold on_lru. by destruct (f _) as [[]]. Qed.

Lemma sends_more_join bs : sends_more (join_send_recv bs).
Proof.
  intros s. unfold join_send_recv. pose proof (write_all_prefix bs (hs_send s)) as Hp.
  destruct (write_all _ _). by destruct (read_exact _ _ _).
Qed.

#[local] Hint Resolve sends_more_ret sends_more_bind sends_more_lru sends_more_join : core.

(** The id is on its way before anything has come back, and the acknowledgement
    as soon as the peer's id has. *)
Lemma exchange_sends_id order rid l w r a p l1 :
  checkout order rid l = (Ok (a, p), l1) → w_room w = None →
  w_out w ++ to_be_bytes 16 a `prefix_of` w_out (hs_send (exchange_pair_id order rid (HsState w r l)).2).
Proof.
  intros Hco Hw. unfold exchange_pair_id.
  rewrite (eff_bind_ok _ _ _ _ _ (on_lru_ok CheckoutFailed _ (HsState w r l) _ _ Hco)). cbn [hs_send hs_recv fst snd].
  match goal with |- context [(join_send_recv _ ≫= ?k) ?s] =>
    assert (∀ x, sends_more (k x)) as Hk; [|generalize dependent k] end.
  { intros x. apply sends_more_bind; [done|]. intros [? ?|? ?]; (apply sends_more_bind; [by case_match|]); intros _;
      (apply sends_more_bind; [done|]); intros y; (apply sends_more_bind; [by case_match|done]). }
  intros k Hk. unfold mbind, eff_bind, join_send_recv. cbn [hs_send hs_recv hs_lru].
  rewrite write_all_unlimited by done. destruct (read_exact _ _ _) as [[got|e] r']; [|done].
  apply (Hk got (HsState (Writer _ None) r' l1)).
Qed.

Lemma exchange_sends_ack order rid l w r h a p l1 remote rest :
  lru_ok l → lru_inv (Sys l h) → checkout order rid l = (Ok (a, p), l1) → w_room w = None →
  in_u 128 remote → delivers r (to_be_bytes 16 remote ++ rest) →
  w_out w ++ to_be_bytes 16 a ++ to_be_bytes 16 (ack_for remote l1)
    `prefix_of` w_out (hs_send (exchange_pair_id order rid (HsState w r l)).2).
Proof.
  intros Hok Hinv Hco Hw Hrem Hd.
  pose proof (inv_checkout_take _ _ _ _ _ _ Hinv Hco) as Hinv1. simpl in Hinv1.
  pose proof (checkout_take_ok _ _ _ _ _ Hok Hco) as Hok1.
  destruct (lookup_resolved remote p h l1 Hok1 Hinv1) as (found & l2 & l3 & q & cq & Hlk & Hfound & Hreset & _).
  destruct (join_send_recv_ok (to_be_bytes 16 a) w r l1 remote _ Hw Hrem Hd) as (r1 & Hj1 & _).
  unfold exchange_pair_id.
  rewrite (eff_bind_ok _ _ _ _ _ (on_lru_ok CheckoutFailed _ (HsState w r l) _ _ Hco)). cbn [hs_send hs_recv fst snd].
  rewrite (eff_bind_ok _ _ _ _ _ Hj1), from_to_be_bytes by done.
  rewrite (eff_bind_ok _ _ _ _ _ (on_lru_ok HsLookupFailed _ (HsState _ r1 l1) _ _ Hlk)). cbn [hs_send hs_recv].
  rewrite Hfound. set (ack := ack_for remote l1) in *.
  assert ((if ack =? 0 then on_lru ResetFailed (reset_decoder q) else mret ())
    (HsState (Writer (w_out w ++ to_be_bytes 16 a) None) r1 l2) =
    (Ok (), HsState (Writer (w_out w ++ to_be_bytes 16 a) None) r1 l3)) as Hstep.
  { destruct (ack =? 0); [|by simplify_eq]. by apply on_lru_ok. }
  rewrite (eff_bind_ok _ _ _ _ _ Hstep). unfold mbind, eff_bind, join_send_recv. cbn [hs_send hs_recv hs_lru].
  rewrite write_all_unlimited by done. cbn [w_out]. rewrite <-app_assoc.
  destruct (read_exact _ _ _) as [[got|e] r']; [|done].
  match goal with |- context [match ?m with _ => _ end] => destruct m as [[[]|] s'] eqn:Hm end;
    repeat case_match; unfold on_lru, mret, eff_ret in *; repeat case_match; simplify_eq; done.
Qed.

(** C13: The two sides agree.  When each side reads what the other wrote, in
    chunks of any size, both handshakes succeed and consume exactly the 32 bytes
    of ids and acknowledgements; each side's view of the ids and of the
    acknowledgements is the other's view of them; and in each direction either
    both the sender's encoder and the receiver's decoder are fresh, or both go
    on with the pair they keep under the same id. *)
Theorem handshake_agreement orderA ridA orderB ridB lA lB hA hB a b pA pB lA1 lB1 rA rB restA restB :
  lru_ok lA → lru_ok lB → lru_inv (Sys lA hA) → lru_inv (Sys lB hB) →
  checkout orderA ridA lA = (Ok (a, pA), lA1) → checkout orderB ridB lB = (Ok (b, pB), lB1) →
  in_u 128 a → in_u 128 b → a ≠ 0 → b ≠ 0 →
  delivers rA (to_be_bytes 16 b ++ to_be_bytes 16 (ack_for a lB1) ++ restA) →
  delivers rB (to_be_bytes 16 a ++ to_be_bytes 16 (ack_for b lA1) ++ restB) →
  ∃ qA qB cA cA' cB cB' lA' lB' rA' rB',
    let ackA := ack_for a lB1 in let ackB := ack_for b lA1 in
    exchange_pair_id orderA ridA (HsState open_writer rA lA) =
      (Ok (MkHandshake pA qA a ackA b ackB),
       HsState (Writer (to_be_bytes 16 a ++ to_be_bytes 16 ackB) None) rA' lA') ∧
    exchange_pair_id orderB ridB (HsState open_writer rB lB) =
      (Ok (MkHandshake pB qB b ackB a ackA),
       HsState (Writer (to_be_bytes 16 b ++ to_be_bytes 16 ackA) None) rB' lB') ∧
    delivers rA' restA ∧ delivers rB' restB ∧
    lru_heap lA' !! pA = Some cA ∧ lru_heap lA' !! qA = Some cA' ∧
    lru_heap lB' !! pB = Some cB ∧ lru_heap lB' !! qB = Some cB' ∧
    (encoder_resolved lA1 ackA pA cA ∧ decoder_resolved lB1 a ackA qB cB') ∧
    (encoder_resolved lB1 ackB pB cB ∧ decoder_resolved lA1 b ackB qA cA').
Proof.
  intros HokA HokB HinvA HinvB HcoA HcoB Ha Hb Ha0 Hb0 HrA HrB.
  assert (∀ id l, in_u 128 id → in_u 128 (ack_for id l)) as Hack.
  { intros id l Hid. unfold ack_for. destruct (_ !! _); [done|]. by unfold in_u. }
  destruct (exchange_pair_id_ok _ _ _ open_writer _ _ _ _ _ _ _ _ HokA HinvA HcoA Ha0 Hb (Hack a lB1 Ha) eq_refl HrA)
    as (qA & cA & cA' & lA' & rA' & HA & HdA & _ & HpA & HqA & HeA & HdrA).
  destruct (exchange_pair_id_ok _ _ _ open_writer _ _ _ _ _ _ _ _ HokB HinvB HcoB Hb0 Ha (Hack b lA1 Hb) eq_refl HrB)
    as (qB & cB & cB' & lB' & rB' & HB & HdB & _ & HpB & HqB & HeB & HdrB).
  exists qA, qB, cA, cA', cB, cB', lA', lB', rA', rB'. by split_and!.
Qed.
End handshake.

(** A client that reuses the pair 5 meets a server that does not know it and
    offers the new pair 9. *)
Definition toy_client : CodecLru := toy_lru_used.

Lemma toy_client_inv : lru_inv (Sys toy_client [1%nat]).
Proof.
  apply (inv_checkin _ [1%nat] 0%nat []).
  apply (inv_checkout_take (checkout_take None 5 toy_lru).2 [0%nat] None 6 (Ok (6, 1%nat))); [|done].
  apply (inv_checkout_take toy_lru [] None 5 (Ok (5, 0%nat))); [|done].
  apply lru_inv_new.
Qed.

Lemma handshake_agreement_witness :
  ∃ q r' l',
    exchange_pair_id [5] 77 (HsState open_writer [Chunk (to_be_bytes 16 9); Chunk (to_be_bytes 16 0)] toy_client)
    = (Ok (MkHandshake 0%nat q 5 0 9 0),
       HsState (Writer (to_be_bytes 16 5 ++ to_be_bytes 16 0) None) r' l').
Proof.
  destruct (handshake_agreement [5] 77 [] 9 toy_client toy_lru [1%nat] [] 5 9 0%nat 0%nat
    (checkout [5] 77 toy_client).2 (checkout [] 9 toy_lru).2
    [Chunk (to_be_bytes 16 9); Chunk (to_be_bytes 16 0)]
    [Chunk (to_be_bytes 16 5 ++ to_be_bytes 16 0)] [] [])
    as (qA & ? & ? & ? & ? & ? & lA' & ? & rA' & ? & HA & _).
  - split_and!; [done|done|]. intros p c Hp.
    apply elem_of_map_to_list in Hp. vm_compute in Hp.
    by repeat (apply elem_of_cons in Hp as [[= -> ->]|Hp]; [done|]); apply elem_of_nil in Hp.
  - split_and!; [done|done|]. intros p c Hp. simpl in Hp. by rewrite lookup_empty in Hp.
  - apply toy_client_inv.
  - apply lru_inv_new.
  - by vm_compute.
  - by vm_compute.
  - done.
  - done.
  - done.
  - done.
  - exists (to_be_bytes 16 0). split; [by vm_compute|]. exists []. by vm_compute.
  - exists []. by vm_compute.
  - exists qA, rA', lA'. exact HA.
Defined.
