(* ===== verification/StreamFlow.v ===== *)
(** The plain relay between a local stream and a QUIC stream:
    [StreamUtil::start_flowing] of [src/src/util/stream_util.rs].  Two tasks,
    one per direction, each with its own byte count; a direction that times out
    signals the other one and waits for it. *)
From stdpp Require Import relations.
From S2P Require Import Prelude Io Net Target.

Definition STREAM_IO_BUFFER_SIZE : nat := Z.to_nat 16384.

(** The sending end of a stream: [finish]/[shutdown] closes it and may fail. *)
Record sink : Type := Sink {
  sk_writer : writer;
  sk_closed : bool;
  sk_can_close : bool
}.

Definition open_sink : sink := Sink open_writer false true.

Definition close_sink (k : sink) : result io_error unit * sink :=
  if sk_can_close k then (Ok (), Sink (sk_writer k) true true) else (Err TransportError, k).

Record flow : Type := Flow {
  fl_reader : reader;
  fl_sink : sink;
  transfer_bytes : Z
}.

(** [stream_to_quic] and [quic_to_stream]: one read and one write.  The two
    functions differ only in how the end of the stream is represented ([Ok(0)]
    against [Ok(None)]) and closed ([finish] against [shutdown]). *)
Definition flow_once (f : flow) : result TransferError nat * flow :=
  match read STREAM_IO_BUFFER_SIZE (fl_reader f) with
  | (RElapsed, r) => (Err TimeoutError, Flow r (fl_sink f) (transfer_bytes f))
  | (RFail, r) => (Err InternalError, Flow r (fl_sink f) (transfer_bytes f))
  | (RData bs, r) =>
      let n := wrapping_add 64 (transfer_bytes f) (Z.of_nat (length bs)) in
      let (res, w) := write_all bs (sk_writer (fl_sink f)) in
      let k := Sink w (sk_closed (fl_sink f)) (sk_can_close (fl_sink f)) in
      (match res with Ok _ => Ok (length bs) | Err _ => Err InternalError end, Flow r k n)
  | (REof, r) =>
      let (res, k) := close_sink (fl_sink f) in
      (match res with Ok _ => Ok 0%nat | Err _ => Err InternalError end,
       Flow r k (transfer_bytes f))
  end.

(** How the loop of a direction ends: [Ok(0) | Err(_)], or the timeout, after
    which the task waits for the other direction. *)
Inductive flow_end : Type := FlowClosed | FlowTimedOut.

Fixpoint flow_loop (fuel : nat) (f : flow) : option flow_end * flow :=
  match fuel with
  | O => (None, f)
  | S n =>
      match flow_once f with
      | (Err TimeoutError, f) => (Some FlowTimedOut, f)
      | (Ok O, f) | (Err _, f) => (Some FlowClosed, f)
      | (Ok (S _), f) => flow_loop n f
      end
  end.

Definition run_flow (f : flow) : option flow_end * flow := flow_loop (S (reader_size (fl_reader f))) f.

(** ** One direction *)

Lemma stream_buffer_pos : (0 < STREAM_IO_BUFFER_SIZE)%nat.
Proof. unfold STREAM_IO_BUFFER_SIZE. lia. Qed.

(** A direction is transparent: if the source delivers its bytes and ends,
    in chunks of any size, and the sink accepts them, the loop ends, the sink
    has received exactly those bytes and is closed, and the count is right. *)
Theorem flow_transparent r bs w n :
  delivers r bs → w_room w = None →
  run_flow (Flow r (Sink w false true) n) =
    (Some FlowClosed, Flow [] (Sink (Writer (w_out w ++ bs) None) true true)
                        (if decide (bs = []) then n else wrap 64 (n + Z.of_nat (length bs)))).
Proof.
  unfold run_flow. cbn [fl_reader]. assert (reader_size r < S (reader_size r))%nat as Hf by lia.
  revert Hf. generalize (S (reader_size r)) as fuel. intros fuel.
  revert r bs w n. induction fuel as [|fuel IH]; intros r bs w n Hf Hd Hw; [lia|].
  cbn [flow_loop]. unfold flow_once. cbn [fl_reader fl_sink sk_writer sk_closed sk_can_close transfer_bytes].
  destruct (decide (bs = [])) as [->|Hbs].
  - rewrite (read_delivers_eof STREAM_IO_BUFFER_SIZE r Hd). simpl. rewrite app_nil_r.
    destruct w; simpl in *; by subst.
  - destruct (read_delivers STREAM_IO_BUFFER_SIZE r bs Hd Hbs stream_buffer_pos)
      as (now & later & r' & Hr & Hne & -> & Hd' & _).
    destruct (read_size STREAM_IO_BUFFER_SIZE r _ _ stream_buffer_pos Hr) as [_ Hsz].
    specialize (Hsz ltac:(done)). rewrite Hr, write_all_unlimited by done.
    destruct (length now) as [|k] eqn:Hk; [by apply nil_length_inv in Hk|]. rewrite <-Hk.
    rewrite (IH r' later) by (done || lia). cbn [w_out]. rewrite <-app_assoc. do 2 f_equal.
    unfold wrapping_add, wrap. rewrite length_app, Nat2Z.inj_add.
    destruct (decide (later = [])) as [->|_]; simpl; [f_equal; lia|].
    rewrite Zplus_mod_idemp_l. f_equal. lia.
Qed.

(** Whatever happens on either end (errors, stalls, a sink that stops
    accepting), the loop ends; what the sink received from it is a prefix of
    what the source sent, and if the loop closed the sink then all of it. *)
Theorem flow_prefix f :
  sk_closed (fl_sink f) = false →
  ∃ e f' now later, run_flow f = (Some e, f') ∧
    reader_bytes (fl_reader f) = now ++ later ∧
    w_out (sk_writer (fl_sink f')) = w_out (sk_writer (fl_sink f)) ++ now ∧
    (sk_closed (fl_sink f') = true → later = [] ∧ e = FlowClosed).
Proof.
  unfold run_flow. assert (reader_size (fl_reader f) < S (reader_size (fl_reader f)))%nat as Hf by lia.
  revert Hf. generalize (S (reader_size (fl_reader f))) as fuel. intros fuel.
  revert f. induction fuel as [|fuel IH]; intros [r [w cl cc] n] Hf Hcl; [lia|]. simpl in Hcl, Hf. subst cl.
  cbn [flow_loop]. unfold flow_once. cbn [fl_reader fl_sink sk_writer sk_closed sk_can_close transfer_bytes].
  destruct (read STREAM_IO_BUFFER_SIZE r) as [x r'] eqn:Hr.
  pose proof (read_bytes _ _ _ _ Hr) as [Hb Heof].
  destruct (read_size STREAM_IO_BUFFER_SIZE r _ _ stream_buffer_pos Hr) as [_ Hsz].
  destruct x as [|bs| |]; simpl in Hb.
  - unfold close_sink. simpl. destruct cc; eexists _, _, [], (reader_bytes r'); simpl;
      rewrite app_nil_r; split_and!; try done. by rewrite Heof.
  - destruct (write_all bs w) as [res w'] eqn:Hwr. destruct res as [[]|e].
    + apply write_all_ok in Hwr. specialize (Hsz ltac:(done)).
      destruct bs as [|b bs].
      { simpl. eexists _, _, [], (reader_bytes r'). simpl. rewrite app_nil_r in *. by split_and!. }
      simpl length. cbv iota beta.
      destruct (IH (Flow r' (Sink w' false cc) (wrapping_add 64 n (Z.of_nat (S (length bs))))))
        as (e & f' & now & later & He & Hnl & Hout & Hc); [simpl; lia|done|].
      exists e, f', ((b :: bs) ++ now), later. simpl in Hnl, Hout.
      split_and!; [exact He| | |done].
      * by rewrite Hb, Hnl, <-app_assoc.
      * by rewrite Hout, Hwr, <-app_assoc.
    + simpl. destruct (write_all_err bs w e w' Hwr) as (k & Hk).
      eexists _, _, (take k bs), (drop k bs ++ reader_bytes r'). simpl.
      split_and!; [done| |done|done]. by rewrite app_assoc, take_drop, Hb.
  - eexists _, _, [], (reader_bytes r'). simpl. rewrite app_nil_r. by split_and!.
  - eexists _, _, [], (reader_bytes r'). simpl. rewrite app_nil_r. by split_and!.
Qed.

(** ** The two directions together

    Each task owns the sender of one [oneshot] channel and the receiver of the
    other.  A task sends on its channel when its loop ends; one that timed out
    then waits until the other has sent (or has dropped its sender, which
    happens no earlier than that). *)
Inductive task_state : Type := Relaying | Waiting | Finished.

Record flow_tasks : Type := FlowTasks {
  q2s_flow : flow; q2s_task : task_state; quic_to_stream_sent : bool;
  s2q_flow : flow; s2q_task : task_state; stream_to_quic_sent : bool
}.

Definition after_loop (e : flow_end) : task_state :=
  match e with FlowClosed => Finished | FlowTimedOut => Waiting end.

Definition flowing (q2s s2q : flow) : flow_tasks := FlowTasks q2s Relaying false s2q Relaying false.

(** [start_flowing]: if the local stream does not tell the address of its peer
    ([peer_addr]), both streams are dropped and nothing is relayed. *)
Definition start_flowing (peer_addr_ok : bool) (q2s s2q : flow) : option flow_tasks :=
  if peer_addr_ok then Some (flowing q2s s2q) else None.

Inductive flow_step : flow_tasks → flow_tasks → Prop :=
| Q2sEnds f f' e snt g t snt' :
    run_flow f = (Some e, f') →
    flow_step (FlowTasks f Relaying snt g t snt') (FlowTasks f' (after_loop e) true g t snt')
| S2qEnds f t snt g g' e snt' :
    run_flow g = (Some e, g') →
    flow_step (FlowTasks f t snt g Relaying snt') (FlowTasks f t snt g' (after_loop e) true)
| Q2sReleased f snt g t :
    flow_step (FlowTasks f Waiting snt g t true) (FlowTasks f Finished snt g t true)
| S2qReleased f t g snt' :
    flow_step (FlowTasks f t true g Waiting snt') (FlowTasks f t true g Finished snt').

(** A task that is past its loop has signalled. *)
Definition signalled (s : flow_tasks) : Prop :=
  (q2s_task s ≠ Relaying → quic_to_stream_sent s = true) ∧
  (s2q_task s ≠ Relaying → stream_to_quic_sent s = true) ∧
  (q2s_task s = Relaying → sk_closed (fl_sink (q2s_flow s)) = false) ∧
  (s2q_task s = Relaying → sk_closed (fl_sink (s2q_flow s)) = false).

Lemma flow_step_signalled s s' : signalled s → flow_step s s' → signalled s'.
Proof.
  intros (H1 & H2 & H3 & H4) Hs. destruct Hs as [? ? []|? ? ? ? ? []| |]; simpl in *;
    split_and!; simpl; auto; done.
Qed.

Definition both_finished (s : flow_tasks) : Prop := q2s_task s = Finished ∧ s2q_task s = Finished.

(** Ending the loop of a direction that still relays. *)
Lemma q2s_loop_ends s : signalled s →
  ∃ s', rtc flow_step s s' ∧ signalled s' ∧ q2s_task s' ≠ Relaying ∧ s2q_task s' = s2q_task s.
Proof.
  intros Hs. destruct s as [f [] snt g t snt'] eqn:Heq.
  - destruct (flow_prefix f) as (e & f' & _ & _ & He & _); [by apply Hs|].
    assert (flow_step s (FlowTasks f' (after_loop e) true g t snt')) as Hst by (subst; by constructor).
    subst s. exists (FlowTasks f' (after_loop e) true g t snt').
    split_and!; [by apply rtc_once|by eapply flow_step_signalled|by destruct e|done].
  - subst s. eexists. split_and!; [apply rtc_refl|done..].
  - subst s. eexists. split_and!; [apply rtc_refl|done..].
Qed.

Lemma s2q_loop_ends s : signalled s → q2s_task s ≠ Relaying →
  ∃ s', rtc flow_step s s' ∧ signalled s' ∧ q2s_task s' ≠ Relaying ∧ s2q_task s' ≠ Relaying.
Proof.
  intros Hs Hq. destruct s as [f t snt g [] snt'] eqn:Heq.
  - destruct (flow_prefix g) as (e & g' & _ & _ & He & _); [by apply Hs|].
    assert (flow_step s (FlowTasks f t snt g' (after_loop e) true)) as Hst by (subst; by constructor).
    subst s. exists (FlowTasks f t snt g' (after_loop e) true).
    split_and!; [by apply rtc_once|by eapply flow_step_signalled|done|by destruct e].
  - subst s. eexists. split_and!; [apply rtc_refl|done..].
  - subst s. eexists. split_and!; [apply rtc_refl|done..].
Qed.

Lemma tasks_released s : signalled s → q2s_task s ≠ Relaying → s2q_task s ≠ Relaying →
  ∃ s', rtc flow_step s s' ∧ both_finished s'.
Proof.
  destruct s as [f tq snt g ts snt']. intros (H1 & H2 & _) Hq Hs. simpl in *.
  rewrite (H1 Hq), (H2 Hs). exists (FlowTasks f Finished true g Finished true).
  split; [|done].
  assert (rtc flow_step (FlowTasks f tq true g ts true) (FlowTasks f Finished true g ts true)) as Hr1.
  { destruct tq; [done|apply rtc_once; constructor|apply rtc_refl]. }
  etransitivity; [exact Hr1|]. destruct ts; [done|apply rtc_once; constructor|apply rtc_refl].
Qed.

(** C15: The two tasks never deadlock on each other's signal: from every state
    that can arise after [start_flowing], in any interleaving, both tasks can
    run to their end, even if both directions time out. *)
Theorem start_flowing_no_deadlock peer_addr_ok q2s s2q tasks s :
  sk_closed (fl_sink q2s) = false → sk_closed (fl_sink s2q) = false →
  start_flowing peer_addr_ok q2s s2q = Some tasks →
  rtc flow_step tasks s → ∃ s', rtc flow_step s s' ∧ both_finished s'.
Proof.
  intros Hq Hs Hst Hr. assert (signalled s) as Hsig.
  { assert (signalled tasks) as H0 by (unfold start_flowing in Hst; destruct peer_addr_ok; by simplify_eq).
    clear Hst. induction Hr; eauto using flow_step_signalled. }
  destruct (q2s_loop_ends s Hsig) as (s1 & Hr1 & Hsig1 & Hq1 & _).
  destruct (s2q_loop_ends s1 Hsig1 Hq1) as (s2 & Hr2 & Hsig2 & Hq2 & Hs2).
  destruct (tasks_released s2 Hsig2 Hq2 Hs2) as (s3 & Hr3 & Hf).
  exists s3. split; [|done]. by etransitivity; [|etransitivity].
Qed.

(** ** Witnesses *)
Lemma flow_transparent_witness :
  run_flow (Flow [Chunk [1; 2]; Chunk []; Chunk [3]] open_sink 0) =
    (Some FlowClosed, Flow [] (Sink (Writer [1; 2; 3] None) true true) 3).
Proof.
  apply (flow_transparent _ [1; 2; 3] open_writer 0).
  - exists [3]. split; [done|]. exists [3]. split; [done|]. exists []. done.
  - done.
Defined.

Lemma flow_prefix_witness :
  ∃ e f' now later, run_flow (Flow [Chunk [1; 2; 3]; Stall] (Sink (Writer [] (Some 2%nat)) false true) 0) = (Some e, f') ∧
    [1; 2; 3] = now ++ later ∧ w_out (sk_writer (fl_sink f')) = now ∧
    (sk_closed (fl_sink f') = true → later = [] ∧ e = FlowClosed).
Proof. apply (flow_prefix (Flow [Chunk [1; 2; 3]; Stall] (Sink (Writer [] (Some 2%nat)) false true) 0)). done. Defined.

(** Both directions have stalled; the first task is already waiting. *)
Lemma start_flowing_no_deadlock_witness :
  ∃ s', rtc flow_step (FlowTasks (Flow [] open_sink 0) Waiting true (Flow [Stall] open_sink 0) Relaying false) s' ∧
    both_finished s'.
Proof.
  apply (start_flowing_no_deadlock true (Flow [Stall] open_sink 0) (Flow [Stall] open_sink 0)
    (flowing (Flow [Stall] open_sink 0) (Flow [Stall] open_sink 0))); [done|done|done|].
  apply rtc_once. exact (Q2sEnds (Flow [Stall] open_sink 0) (Flow [] open_sink 0) FlowTimedOut _ _ _ _ eq_refl).
Defined.
