(* ===== verification/Codec.v ===== *)
(** The compression middleware of [src/src/codec/mod.rs]: configuration,
    statistics, the encoder and decoder loops and the session that ties them to
    the handshake and the table of pairs.

    A stream owns its pairs exclusively (see [Lru]), so the loops below work on
    the pair itself; the session writes it back to the store. *)
From S2P Require Import Prelude Io Net Target AddrText HttpReader Lru Handshake StreamFlow.

(** * Statistics: four [AtomicU64]s, updated with [fetch_add], which wraps *)
Record CodecStats : Type := Stats {
  up_raw : Z;
  up_compressed : Z;
  down_compressed : Z;
  down_decompressed : Z
}.

Definition stats_default : CodecStats := Stats 0 0 0 0.

Definition add_up_raw (n : Z) (s : CodecStats) : CodecStats :=
  Stats (wrapping_add 64 (up_raw s) n) (up_compressed s) (down_compressed s) (down_decompressed s).
Definition add_up_compressed (n : Z) (s : CodecStats) : CodecStats :=
  Stats (up_raw s) (wrapping_add 64 (up_compressed s) n) (down_compressed s) (down_decompressed s).
Definition add_down_compressed (n : Z) (s : CodecStats) : CodecStats :=
  Stats (up_raw s) (up_compressed s) (wrapping_add 64 (down_compressed s) n) (down_decompressed s).
Definition add_down_decompressed (n : Z) (s : CodecStats) : CodecStats :=
  Stats (up_raw s) (up_compressed s) (down_compressed s) (wrapping_add 64 (down_decompressed s) n).

(** Merging the totals of a stream into the global aggregator. *)
Definition merge_stats (g s : CodecStats) : CodecStats :=
  Stats (wrapping_add 64 (up_raw g) (up_raw s))
        (wrapping_add 64 (up_compressed g) (up_compressed s))
        (wrapping_add 64 (down_compressed g) (down_compressed s))
        (wrapping_add 64 (down_decompressed g) (down_decompressed s)).

(** [short_id]: the high 32 bits of an id as 8 hexadecimal digits. *)
Fixpoint hex_digits (n : nat) (z : Z) (acc : string) : string :=
  match n with
  | O => acc
  | S n' => hex_digits n' (z / 16) (String (digit_char (z mod 16)) acc)
  end.
Definition short_id (id : Z) : string := hex_digits 8 (wrap 32 (Z.shiftr id 96)) EmptyString.

(** * Configuration *)
Record CodecConfig : Type := Config {
  cc_enabled : bool;
  cc_http_aware : bool;
  cc_level : Z;
  cc_window_log : Z;
  cc_pair_ttl_secs : Z;
  cc_flush_interval_ms : Z;
  cc_dict : CodecDict;
  cc_has_global_stats : bool
}.

Definition codec_config_default : CodecConfig :=
  Config false false 9 24 (5 * 3600) 150 dict_none false.

Definition codec_config_new (enabled http_aware : bool)
    (level window_log pair_ttl_secs flush_interval_ms : Z) : CodecConfig :=
  Config enabled http_aware level window_log pair_ttl_secs flush_interval_ms dict_none false.

Definition with_dictionary (c : CodecConfig) (dict : list Z) : CodecConfig :=
  if bool_decide (dict = []) then c else
  Config (cc_enabled c) (cc_http_aware c) (cc_level c) (cc_window_log c) (cc_pair_ttl_secs c)
    (cc_flush_interval_ms c) (dict_from_bytes dict (cc_level c)) (cc_has_global_stats c).

Definition with_global_stats (c : CodecConfig) : CodecConfig :=
  Config (cc_enabled c) (cc_http_aware c) (cc_level c) (cc_window_log c) (cc_pair_ttl_secs c)
    (cc_flush_interval_ms c) (cc_dict c) true.

Inductive StreamOutcome : Type := CleanEof | StreamTimeout | StreamIoError.

Inductive codec_error : Type :=
| ZstdError
| CodecWriteError (e : io_error).

Section codec.
Context {ZSTD : Zstd} {HTTPARSE : Httparse}.

(** [CodecConfig::lru]: the table is created on first use (its capacity and
    idle time are those of the cache, whose evictions are [SEvict] steps). *)
Definition config_lru (c : CodecConfig) (cell : option CodecLru) : CodecLru :=
  match cell with
  | Some l => l
  | None => lru_new (cc_dict c) (cc_level c) (cc_window_log c)
  end.

(** * The encoder loop *)
Record enc_io : Type := EncIo {
  ei_reader : reader;
  ei_writer : writer;
  ei_pair : CodecPair;
  ei_stats : CodecStats
}.

(** The common part of [write_compressed] and [flush_encoder]: run [op] on the
    encoder, take the bytes it produced and write them. *)
Definition drain_encoder (op : zenc → result unit unit * list Z * zenc) :
  eff enc_io codec_error unit := λ s,
  match op (encoder (ei_pair s)) with
  | (res, out, enc) =>
      let vec := enc_vec (ei_pair s) ++ out in
      match res with
      | Err _ => (Err ZstdError, EncIo (ei_reader s) (ei_writer s) (with_encoder (ei_pair s) enc vec) (ei_stats s))
      | Ok _ =>
          let pair' := with_encoder (ei_pair s) enc [] in
          if bool_decide (vec = []) then (Ok (), EncIo (ei_reader s) (ei_writer s) pair' (ei_stats s))
          else
            let stats := add_up_compressed (Z.of_nat (length vec)) (ei_stats s) in
            let (res, w) := write_all vec (ei_writer s) in
            (map_err CodecWriteError res, EncIo (ei_reader s) w pair' stats)
      end
  end.

Definition write_compressed (data : list Z) : eff enc_io codec_error unit :=
  drain_encoder (enc_write_all data).
Definition flush_encoder : eff enc_io codec_error unit := drain_encoder enc_flush.

Definition set_ei_reader (r : reader) (s : enc_io) : enc_io :=
  EncIo r (ei_writer s) (ei_pair s) (ei_stats s).
Definition count_up_raw (n : nat) (s : enc_io) : enc_io :=
  EncIo (ei_reader s) (ei_writer s) (ei_pair s) (add_up_raw (Z.of_nat n) (ei_stats s)).

(** [flush_encoder(..).await?; return Ok(CleanEof)]. *)
Definition finish_encoder (s : enc_io) : option (result codec_error StreamOutcome) * enc_io :=
  match flush_encoder s with
  | (Ok _, s) => (Some (Ok CleanEof), s)
  | (Err e, s) => (Some (Err e), s)
  end.

(** [run_encoder].  In basic mode the read (with the stream timeout) races
    against the flush timer; both timers start anew at every iteration, so
    during a silence the shorter one fires.  (For equal durations either may;
    here it is the timeout.) *)
Fixpoint run_encoder_loop (fuel : nat) (flush_interval_ms stream_timeout_ms : Z)
    (http_reader : option HttpMessageReader) (s : enc_io) :
  option (result codec_error StreamOutcome) * enc_io :=
  match fuel with
  | O => (None, s)
  | S f =>
      match http_reader with
      | Some hr =>
          match read_message hr (ei_reader s) with
          | (None, _, _) => (None, s)
          | (Some (Ok (HttpMessage data)), hr, r) =>
              let s := set_ei_reader r s in
              if bool_decide (data = []) then finish_encoder s
              else
                match write_compressed data (count_up_raw (length data) s) with
                | (Err e, s) => (Some (Err e), s)
                | (Ok _, s) =>
                    match flush_encoder s with
                    | (Err e, s) => (Some (Err e), s)
                    | (Ok _, s) => run_encoder_loop f flush_interval_ms stream_timeout_ms (Some hr) s
                    end
                end
          | (Some (Ok NeedMore), hr, r) =>
              run_encoder_loop f flush_interval_ms stream_timeout_ms (Some hr) (set_ei_reader r s)
          | (Some (Err _), _, r) => (Some (Ok StreamIoError), set_ei_reader r s)
          end
      | None =>
          match read STREAM_IO_BUFFER_SIZE (ei_reader s) with
          | (REof, r) => finish_encoder (set_ei_reader r s)
          | (RData bs, r) =>
              match write_compressed bs (count_up_raw (length bs) (set_ei_reader r s)) with
              | (Err e, s) => (Some (Err e), s)
              | (Ok _, s) => run_encoder_loop f flush_interval_ms stream_timeout_ms None s
              end
          | (RFail, r) => (Some (Ok StreamIoError), set_ei_reader r s)
          | (RElapsed, r) =>
              if flush_interval_ms <? stream_timeout_ms then
                match flush_encoder (set_ei_reader r s) with
                | (Err e, s) => (Some (Err e), s)
                | (Ok _, s) => run_encoder_loop f flush_interval_ms stream_timeout_ms None s
                end
              else (Some (Ok StreamTimeout), set_ei_reader r s)
          end
      end
  end.

Definition run_encoder (flush_interval_ms stream_timeout_ms : Z) (http_aware : bool) (s : enc_io) :
  option (result codec_error StreamOutcome) * enc_io :=
  run_encoder_loop (S (reader_size (ei_reader s))) flush_interval_ms stream_timeout_ms
    (if http_aware then Some http_reader_new else None) s.

(** * The decoder loop *)
Record dec_io : Type := DecIo {
  di_reader : reader;
  di_sink : sink;
  di_pair : CodecPair;
  di_stats : CodecStats
}.

Definition set_di_reader (r : reader) (s : dec_io) : dec_io :=
  DecIo r (di_sink s) (di_pair s) (di_stats s).

(** Run [op] on the decoder, take what it produced and write it. *)
Definition drain_decoder (op : zdec → result unit unit * list Z * zdec) :
  eff dec_io codec_error unit := λ s,
  match op (decoder (di_pair s)) with
  | (res, out, dec) =>
      let vec := dec_vec (di_pair s) ++ out in
      match res with
      | Err _ => (Err ZstdError, DecIo (di_reader s) (di_sink s) (with_decoder (di_pair s) dec vec) (di_stats s))
      | Ok _ =>
          let pair' := with_decoder (di_pair s) dec [] in
          if bool_decide (vec = []) then (Ok (), DecIo (di_reader s) (di_sink s) pair' (di_stats s))
          else
            let stats := add_down_decompressed (Z.of_nat (length vec)) (di_stats s) in
            let (res, w) := write_all vec (sk_writer (di_sink s)) in
            (map_err CodecWriteError res,
             DecIo (di_reader s) (Sink w (sk_closed (di_sink s)) (sk_can_close (di_sink s))) pair' stats)
      end
  end.

(** [dec.write_all(..)?; dec.flush()?]. *)
Definition dec_write_flush (bs : list Z) (d : zdec) : result unit unit * list Z * zdec :=
  match dec_write_all bs d with
  | (Err e, out, d) => (Err e, out, d)
  | (Ok _, out, d) => match dec_flush d with (res, out', d) => (res, out ++ out', d) end
  end.

Fixpoint run_decoder_loop (fuel : nat) (s : dec_io) :
  option (result codec_error StreamOutcome) * dec_io :=
  match fuel with
  | O => (None, s)
  | S f =>
      match read STREAM_IO_BUFFER_SIZE (di_reader s) with
      | (REof, r) =>
          match drain_decoder dec_flush (set_di_reader r s) with
          | (Err e, s) => (Some (Err e), s)
          | (Ok _, s) =>
              let (res, k) := close_sink (di_sink s) in
              (Some (match res with Ok _ => Ok CleanEof | Err e => Err (CodecWriteError e) end),
               DecIo (di_reader s) k (di_pair s) (di_stats s))
          end
      | (RData bs, r) =>
          let s := DecIo r (di_sink s) (di_pair s)
                     (add_down_compressed (Z.of_nat (length bs)) (di_stats s)) in
          match drain_decoder (dec_write_flush bs) s with
          | (Err e, s) => (Some (Err e), s)
          | (Ok _, s) => run_decoder_loop f s
          end
      | (RFail, r) => (Some (Ok StreamIoError), set_di_reader r s)
      | (RElapsed, r) => (Some (Ok StreamTimeout), set_di_reader r s)
      end
  end.

Definition run_decoder (s : dec_io) : option (result codec_error StreamOutcome) * dec_io :=
  run_decoder_loop (S (reader_size (di_reader s))) s.

(** * The session *)

Record session_io : Type := SessionIo {
  si_stream_read : reader;
  si_stream_write : sink;
  si_quic_send : writer;
  si_quic_finished : bool;
  si_quic_recv : reader
}.

(** What a finished task does with its pair. *)
Definition release_pair (id : Z) (p : loc) (res : option (result codec_error StreamOutcome))
    (l : CodecLru) : CodecLru :=
  match res with
  | Some (Ok CleanEof) | Some (Ok StreamIoError) => checkin id p l
  | Some (Ok StreamTimeout) | Some (Err _) => mark_errored p l
  | None => l
  end.

Record session : Type := Session {
  se_lru : CodecLru;
  se_io : session_io;
  se_stats : CodecStats;
  se_global : CodecStats
}.

(** The s2q task: encode, finish the QUIC stream, release the pair. *)
Definition s2q_codec_task (cfg : CodecConfig) (stream_timeout_ms : Z) (id : Z) (p : loc) (x : session) :
  option (result codec_error StreamOutcome) * session :=
  match lru_heap (se_lru x) !! p with
  | None => (None, x)
  | Some c =>
      let io := se_io x in
      let (res, s) := run_encoder (cc_flush_interval_ms cfg) stream_timeout_ms (cc_http_aware cfg)
                        (EncIo (si_stream_read io) (si_quic_send io) c (se_stats x)) in
      (res, Session (release_pair id p res (update_pair p (ei_pair s) (se_lru x)))
              (SessionIo (ei_reader s) (si_stream_write io) (ei_writer s) true (si_quic_recv io))
              (ei_stats s) (se_global x))
  end.

(** The q2s task. *)
Definition q2s_codec_task (id : Z) (p : loc) (x : session) :
  option (result codec_error StreamOutcome) * session :=
  match lru_heap (se_lru x) !! p with
  | None => (None, x)
  | Some c =>
      let io := se_io x in
      let (res, s) := run_decoder (DecIo (si_quic_recv io) (si_stream_write io) c (se_stats x)) in
      (res, Session (release_pair id p res (update_pair p (di_pair s) (se_lru x)))
              (SessionIo (si_stream_read io) (di_sink s) (si_quic_send io) (si_quic_finished io) (di_reader s))
              (di_stats s) (se_global x))
  end.

Inductive session_result : Type :=
| FlowingPlain (tasks : flow_tasks)
| PeerAddrUnavailable
| HandshakeFailed (e : hs_error) (l : CodecLru) (sent : writer)   (** [sent]: the QUIC stream it gave up *)
| SessionDone (hs : HandshakeResult) (s2q q2s : option (result codec_error StreamOutcome)) (x : session).

(** [start_flowing_with_codec].  [cell] is the content of the shared [OnceCell];
    the two tasks use different pairs, different halves of both streams and
    different counters, so running one after the other gives the same result as
    running them together. *)
Definition start_flowing_with_codec (cfg : CodecConfig) (peer_addr_ok : bool) (stream_timeout_ms : Z)
    (order : list Z) (rid : Z) (cell : option CodecLru) (io : session_io) (global : CodecStats) :
  session_result :=
  if negb (cc_enabled cfg) then
    match start_flowing peer_addr_ok (Flow (si_quic_recv io) (si_stream_write io) 0)
            (Flow (si_stream_read io) (Sink (si_quic_send io) (si_quic_finished io) true) 0) with
    | Some tasks => FlowingPlain tasks
    | None => PeerAddrUnavailable
    end
  else if negb peer_addr_ok then PeerAddrUnavailable
  else
    match exchange_pair_id order rid (HsState (si_quic_send io) (si_quic_recv io) (config_lru cfg cell)) with
    | (Err e, st) => HandshakeFailed e (hs_lru st) (hs_send st)
    | (Ok hs, st) =>
        let io := SessionIo (si_stream_read io) (si_stream_write io) (hs_send st)
                    (si_quic_finished io) (hs_recv st) in
        let x := Session (hs_lru st) io stats_default global in
        let (res1, x) := s2q_codec_task cfg stream_timeout_ms (s2q_id hs) (s2q_pair hs) x in
        let (res2, x) := q2s_codec_task (q2s_id hs) (q2s_pair hs) x in
        let global := if cc_has_global_stats cfg then merge_stats (se_global x) (se_stats x)
                      else se_global x in
        SessionDone hs res1 res2 (Session (se_lru x) (se_io x) (se_stats x) global)
    end.
End codec.

(** * What the codec relies on from zstd

    [link e wire d pending]: the decoder [d] has consumed all that the encoder
    [e] produced except [wire], and has delivered all that [e] was given except
    [pending].  The laws say that a streaming pair works with any chunking, and
    that after a flush of the encoder and of the decoder nothing is pending. *)
Class ZstdLaws (ZSTD : Zstd) : Type := {
  link : zenc → list Z → zdec → list Z → Prop;
  flushed : zenc → Prop;
  link_fresh bytes level window_log e d :
    let dict := dict_from_bytes bytes level in
    make_encoder dict level window_log = Ok e → make_decoder dict window_log = Ok d →
    link e [] d [] ∧ flushed e;
  link_write e wire d p data : link e wire d p →
    ∃ out e', enc_write_all data e = (Ok (), out, e') ∧ link e' (wire ++ out) d (p ++ data);
  link_flush e wire d p : link e wire d p →
    ∃ out e', enc_flush e = (Ok (), out, e') ∧ link e' (wire ++ out) d p ∧ flushed e';
  link_read e c wire d p : link e (c ++ wire) d p →
    ∃ out d' p', dec_write_all c d = (Ok (), out, d') ∧ p = out ++ p' ∧ link e wire d' p';
  link_drain e wire d p : link e wire d p →
    ∃ out d' p', dec_flush d = (Ok (), out, d') ∧ p = out ++ p' ∧ link e wire d' p' ∧
      (flushed e → wire = [] → p' = [])
}.

Definition stats_ok (s : CodecStats) : Prop :=
  in_u 64 (up_raw s) ∧ in_u 64 (up_compressed s) ∧
  in_u 64 (down_compressed s) ∧ in_u 64 (down_decompressed s).

(** The counters after [raw]/[comp] more bytes in the given direction. *)
Definition stats_up (s : CodecStats) (raw comp : nat) : CodecStats :=
  Stats (wrap 64 (up_raw s + Z.of_nat raw)) (wrap 64 (up_compressed s + Z.of_nat comp))
    (down_compressed s) (down_decompressed s).
Definition stats_down (s : CodecStats) (comp decomp : nat) : CodecStats :=
  Stats (up_raw s) (up_compressed s) (wrap 64 (down_compressed s + Z.of_nat comp))
    (wrap 64 (down_decompressed s + Z.of_nat decomp)).

Lemma wrap_add_idemp w a b : wrap w (wrap w a + b) = wrap w (a + b).
Proof. unfold wrap. apply Zplus_mod_idemp_l. Qed.

Lemma stats_up_ok s a b : stats_ok s → stats_ok (stats_up s a b).
Proof. intros (? & ? & ? & ?). unfold stats_ok. simpl. split_and!; auto; apply wrap_in_u; lia. Qed.
Lemma stats_down_ok s a b : stats_ok s → stats_ok (stats_down s a b).
Proof. intros (? & ? & ? & ?). unfold stats_ok. simpl. split_and!; auto; apply wrap_in_u; lia. Qed.

Lemma stats_up_up s a b c d : stats_up (stats_up s a b) c d = stats_up s (a + c) (b + d).
Proof. unfold stats_up. simpl. rewrite !wrap_add_idemp. f_equal; f_equal; lia. Qed.
Lemma stats_down_down s a b c d : stats_down (stats_down s a b) c d = stats_down s (a + c) (b + d).
Proof. unfold stats_down. simpl. rewrite !wrap_add_idemp. f_equal; f_equal; lia. Qed.

Lemma stats_up_0 s : stats_ok s → stats_up s 0 0 = s.
Proof.
  intros (? & ? & ? & ?). unfold stats_up. rewrite !Z.add_0_r, !wrap_small by done. by destruct s.
Qed.
Lemma stats_down_0 s : stats_ok s → stats_down s 0 0 = s.
Proof.
  intros (? & ? & ? & ?). unfold stats_down. rewrite !Z.add_0_r, !wrap_small by done. by destruct s.
Qed.

Lemma add_up_raw_up s n : stats_ok s → add_up_raw (Z.of_nat n) s = stats_up s n 0.
Proof. intros (? & ? & ? & ?). unfold stats_up, add_up_raw. by rewrite Z.add_0_r, (wrap_small 64 (up_compressed s)). Qed.
Lemma add_up_compressed_up s n : stats_ok s → add_up_compressed (Z.of_nat n) s = stats_up s 0 n.
Proof. intros (? & ? & ? & ?). unfold stats_up, add_up_compressed. by rewrite Z.add_0_r, (wrap_small 64 (up_raw s)). Qed.
Lemma add_down_compressed_down s n : stats_ok s → add_down_compressed (Z.of_nat n) s = stats_down s n 0.
Proof. intros (? & ? & ? & ?). unfold stats_down, add_down_compressed. by rewrite Z.add_0_r, (wrap_small 64 (down_decompressed s)). Qed.
Lemma add_down_decompressed_down s n : stats_ok s → add_down_decompressed (Z.of_nat n) s = stats_down s 0 n.
Proof. intros (? & ? & ? & ?). unfold stats_down, add_down_decompressed. by rewrite Z.add_0_r, (wrap_small 64 (down_compressed s)). Qed.

Section stream.
Context {ZSTD : Zstd} {HTTPARSE : Httparse} {LAWS : ZstdLaws ZSTD}.

(** ** The encoder *)

(** An encoder whose peer decoder [d] still has [wire] to read and [p] to
    deliver; its inner vector is empty and the transport accepts everything. *)
Definition enc_ready (s : enc_io) (wire : list Z) (d : zdec) (p : list Z) : Prop :=
  link (encoder (ei_pair s)) wire d p ∧ enc_vec (ei_pair s) = [] ∧
  w_room (ei_writer s) = None ∧ stats_ok (ei_stats s).

(** The state after [op] produced [out]. *)
Definition enc_after (s : enc_io) (e : zenc) (out : list Z) : enc_io :=
  EncIo (ei_reader s) (Writer (w_out (ei_writer s) ++ out) None) (with_encoder (ei_pair s) e [])
    (stats_up (ei_stats s) 0 (length out)).

Lemma drain_encoder_ok op s wire d p out e' :
  enc_ready s wire d p → op (encoder (ei_pair s)) = (Ok (), out, e') →
  drain_encoder op s = (Ok (), enc_after s e' out).
Proof.
  intros (_ & Hv & Hw & Hs) Hop. unfold drain_encoder, enc_after. rewrite Hop, Hv. simpl.
  case_bool_decide as Ho.
  - subst out. simpl. rewrite stats_up_0, app_nil_r by done.
    destruct s as [? [? ?] ? ?]; simpl in *; by subst.
  - by rewrite write_all_unlimited, add_up_compressed_up.
Qed.

Lemma enc_after_ready s wire d p e' out wire' p' :
  enc_ready s wire d p → link e' wire' d p' → enc_ready (enc_after s e' out) wire' d p'.
Proof. intros (_ & _ & _ & Hs) Hl. split_and!; try done. simpl. by apply stats_up_ok. Qed.

Lemma write_compressed_ok s wire d p data :
  enc_ready s wire d p →
  ∃ out e', write_compressed data s = (Ok (), enc_after s e' out) ∧
    enc_ready (enc_after s e' out) (wire ++ out) d (p ++ data).
Proof.
  intros Hr. destruct (link_write _ _ _ _ data (proj1 Hr)) as (out & e' & Hop & Hl).
  exists out, e'. split; [by eapply drain_encoder_ok|by eapply enc_after_ready].
Qed.

Lemma flush_encoder_ok s wire d p :
  enc_ready s wire d p →
  ∃ out e', flush_encoder s = (Ok (), enc_after s e' out) ∧
    enc_ready (enc_after s e' out) (wire ++ out) d p ∧ flushed e'.
Proof.
  intros Hr. destruct (link_flush _ _ _ _ (proj1 Hr)) as (out & e' & Hop & Hl & Hf).
  exists out, e'. split_and!; [by eapply drain_encoder_ok|by eapply enc_after_ready|done].
Qed.

(** The state in which an encoder loop ends that was given [raw] bytes and
    produced [out]. *)
Definition enc_final (s : enc_io) (r : reader) (e : zenc) (out : list Z) (raw : nat) : enc_io :=
  EncIo r (Writer (w_out (ei_writer s) ++ out) None) (with_encoder (ei_pair s) e [])
    (stats_up (ei_stats s) raw (length out)).

Lemma enc_final_compose s r e out n r' e' out' n' :
  enc_final (enc_final s r e out n) r' e' out' n' = enc_final s r' e' (out ++ out') (n + n').
Proof.
  unfold enc_final. simpl. by rewrite stats_up_up, length_app, <-app_assoc.
Qed.

Lemma set_reader_ready s r wire d p : enc_ready s wire d p → enc_ready (set_ei_reader r s) wire d p.
Proof. done. Qed.

Lemma enc_after_final s r e out :
  enc_after (set_ei_reader r s) e out = enc_final s r e out 0.
Proof. done. Qed.

Lemma count_after_final s r n e out : stats_ok (ei_stats s) →
  enc_after (count_up_raw n (set_ei_reader r s)) e out = enc_final s r e out n.
Proof.
  intros Hs. unfold enc_after, enc_final. simpl. rewrite add_up_raw_up by done.
  rewrite stats_up_up. by rewrite Nat.add_0_r.
Qed.

Lemma count_ready s n wire d p : enc_ready s wire d p → enc_ready (count_up_raw n s) wire d p.
Proof.
  intros (? & ? & ? & ?). split_and!; try done. simpl. rewrite add_up_raw_up by done. by apply stats_up_ok.
Qed.

Lemma finish_encoder_ok s r wire d p :
  enc_ready s wire d p →
  ∃ out e', finish_encoder (set_ei_reader r s) = (Some (Ok CleanEof), enc_final s r e' out 0) ∧
    link e' (wire ++ out) d p ∧ flushed e'.
Proof.
  intros Hr. destruct (flush_encoder_ok (set_ei_reader r s) wire d p Hr) as (out & e' & Hf & Hr' & Hfl).
  exists out, e'. unfold finish_encoder. rewrite Hf. by split_and!; [|apply Hr'|].
Qed.

(** Basic mode: every byte of the stream goes through the encoder and the last
    flush leaves nothing behind. *)
Lemma run_encoder_basic fuel fi timeout s wire d p :
  (reader_size (ei_reader s) < fuel)%nat → fi < timeout → no_fail (ei_reader s) →
  enc_ready s wire d p →
  ∃ out e', run_encoder_loop fuel fi timeout None s =
      (Some (Ok CleanEof), enc_final s [] e' out (length (reader_bytes (ei_reader s)))) ∧
    link e' (wire ++ out) d (p ++ reader_bytes (ei_reader s)) ∧ flushed e'.
Proof.
  intros Hf Hfi. revert s wire p Hf. induction fuel as [|fuel IH]; intros s wire p Hf Hnf Hr; [lia|].
  cbn [run_encoder_loop]. destruct (read STREAM_IO_BUFFER_SIZE (ei_reader s)) as [x r'] eqn:Hrd.
  pose proof (read_bytes _ _ _ _ Hrd) as [Hb Heof].
  destruct (read_size _ _ _ _ stream_buffer_pos Hrd) as [_ Hsz].
  destruct (read_no_fail _ _ _ _ Hnf Hrd) as (Hnf' & Hx & Hnil).
  destruct x as [|bs| |]; [| |done|].
  - rewrite (Hnil eq_refl) in *. destruct (finish_encoder_ok s [] wire d p Hr) as (out & e' & He & Hl & Hfl).
    exists out, e'. simpl in Hb. rewrite Hb. simpl. by rewrite app_nil_r.
  - specialize (Hsz ltac:(done)).
    destruct (write_compressed_ok _ wire d p bs (count_ready _ (length bs) _ _ _ (set_reader_ready s r' _ _ _ Hr)))
      as (out1 & e1 & Hw & Hr1).
    rewrite Hw. rewrite count_after_final in Hr1 |- * by apply Hr.
    destruct (IH (enc_final s r' e1 out1 (length bs)) (wire ++ out1) (p ++ bs)) as (out2 & e2 & He & Hl & Hfl);
      [simpl; lia|done|done|].
    exists (out1 ++ out2), e2. simpl in He, Hl. rewrite He, Hb. split_and!; [|by rewrite !app_assoc|done].
    by rewrite enc_final_compose, length_app.
  - specialize (Hsz ltac:(done)). destruct (Z.ltb_spec fi timeout); [|lia].
    destruct (flush_encoder_ok (set_ei_reader r' s) wire d p Hr) as (out1 & e1 & Hw & Hr1 & _).
    rewrite Hw. rewrite enc_after_final in Hr1 |- *.
    destruct (IH (enc_final s r' e1 out1 0) (wire ++ out1) p) as (out2 & e2 & He & Hl & Hfl);
      [simpl; lia|done|done|].
    exists (out1 ++ out2), e2. simpl in He, Hl, Hb. rewrite He, Hb. split_and!; [|by rewrite app_assoc|done].
    by rewrite enc_final_compose.
Qed.

(** HTTP mode on well-formed messages: the same, message by message. *)
Lemma run_encoder_http ms : ∀ fuel fi timeout s wire d p b i bs,
  (length ms < fuel)%nat → Forall frame_ok ms → delivers (ei_reader s) bs →
  b ++ bs = ms ≫= frame_bytes → enc_ready s wire d p →
  ∃ out e', run_encoder_loop fuel fi timeout (Some (HttpReader b i false)) s =
      (Some (Ok CleanEof), enc_final s [] e' out (length (ms ≫= frame_bytes))) ∧
    link e' (wire ++ out) d (p ++ ms ≫= frame_bytes) ∧ flushed e'.
Proof.
  induction ms as [|m ms IH]; intros fuel fi timeout s wire d p b i bs Hf Hms Hd Heq Hr;
    (destruct fuel as [|fuel]; [simpl in Hf; lia|]); cbn [run_encoder_loop].
  - apply app_eq_nil in Heq as [-> ->]. rewrite read_message_end by done. unfold emitted.
    rewrite bool_decide_true by done.
    destruct (finish_encoder_ok s [] wire d p Hr) as (out & e' & He & Hl & Hfl).
    exists out, e'. rewrite He. simpl. by rewrite app_nil_r.
  - apply Forall_cons_1 in Hms as [Hm Hms].
    destruct (read_message_loop_frame (S (reader_size (ei_reader s))) m (ms ≫= frame_bytes) bs b i (ei_reader s))
      as (b' & r' & bs' & Hrm & Hd' & Heq'); [done|lia|done|done|].
    unfold read_message. rewrite Hrm.
    assert (frame_bytes m ≠ []) as Hne.
    { destruct Hm as (Hh & _). apply find_header_end_bound in Hh. unfold frame_bytes.
      destruct m as [[|] ?]; simpl in *; [lia|done]. }
    rewrite bool_decide_false by done.
    destruct (write_compressed_ok _ wire d p (frame_bytes m)
      (count_ready _ (length (frame_bytes m)) _ _ _ (set_reader_ready s r' _ _ _ Hr))) as (out1 & e1 & Hw & Hr1).
    rewrite Hw. rewrite count_after_final in Hr1 |- * by apply Hr.
    set (s1 := enc_final s r' e1 out1 (length (frame_bytes m))) in *.
    destruct (flush_encoder_ok (set_ei_reader r' s1) _ _ _ Hr1) as (out2 & e2 & Hw2 & Hr2 & _).
    replace (set_ei_reader r' s1) with s1 in Hw2 by done. rewrite Hw2.
    change (enc_after s1 e2 out2) with (enc_final s1 r' e2 out2 0).
    change (enc_after (set_ei_reader r' s1) e2 out2) with (enc_final s1 r' e2 out2 0) in Hr2.
    destruct (IH fuel fi timeout (enc_final s1 r' e2 out2 0) ((wire ++ out1) ++ out2) d (p ++ frame_bytes m) b' true bs')
      as (out3 & e3 & He & Hl & Hfl); [simpl in Hf; lia|done|done|done|done|].
    exists ((out1 ++ out2) ++ out3), e3. simpl in He, Hl |- *. rewrite He. split_and!; [| |done].
    + unfold s1. by rewrite !enc_final_compose, length_app, <-app_assoc.
    + by rewrite !app_assoc in *.
Qed.

(** ** The decoder *)

Definition dec_ready (s : dec_io) (e : zenc) (wire p : list Z) : Prop :=
  link e wire (decoder (di_pair s)) p ∧ dec_vec (di_pair s) = [] ∧
  w_room (sk_writer (di_sink s)) = None ∧ sk_closed (di_sink s) = false ∧
  sk_can_close (di_sink s) = true ∧ stats_ok (di_stats s).

Definition dec_after (s : dec_io) (d : zdec) (out : list Z) : dec_io :=
  DecIo (di_reader s) (Sink (Writer (w_out (sk_writer (di_sink s)) ++ out) None) false true)
    (with_decoder (di_pair s) d []) (stats_down (di_stats s) 0 (length out)).

Lemma drain_decoder_ok op s e wire p out d' :
  dec_ready s e wire p → op (decoder (di_pair s)) = (Ok (), out, d') →
  drain_decoder op s = (Ok (), dec_after s d' out).
Proof.
  intros (_ & Hv & Hw & Hcl & Hcc & Hs) Hop. unfold drain_decoder, dec_after. rewrite Hop, Hv. simpl.
  case_bool_decide as Ho.
  - subst out. simpl. rewrite stats_down_0, app_nil_r by done.
    destruct s as [? [[? ?] ? ?] ? ?]; simpl in *; by subst.
  - rewrite write_all_unlimited, add_down_decompressed_down by done. simpl. by rewrite Hcl, Hcc.
Qed.

(** Whatever part of the encoder's output has arrived, the decoder delivers a
    prefix of the plaintext; all of it if the encoder was flushed. *)
Lemma run_decoder_prefix fuel s e wire p :
  (reader_size (di_reader s) < fuel)%nat → delivers (di_reader s) wire →
  dec_ready s e wire p →
  ∃ d' p1 p2, run_decoder_loop fuel s =
      (Some (Ok CleanEof),
       DecIo [] (Sink (Writer (w_out (sk_writer (di_sink s)) ++ p1) None) true true)
         (with_decoder (di_pair s) d' []) (stats_down (di_stats s) (length wire) (length p1))) ∧
    p = p1 ++ p2 ∧ link e [] d' p2 ∧ (flushed e → p2 = []).
Proof.
  revert s wire p. induction fuel as [|fuel IH]; intros s wire p Hf Hd Hr; [lia|].
  cbn [run_decoder_loop]. destruct (decide (wire = [])) as [->|Hne].
  - rewrite (read_delivers_eof STREAM_IO_BUFFER_SIZE _ Hd).
    destruct (link_drain _ _ _ _ (proj1 Hr)) as (out & d' & p' & Hop & -> & Hl & Hp').
    exists d', out, p'. split_and!; [|done|done|by auto].
    by rewrite (drain_decoder_ok dec_flush (set_di_reader [] s) e [] (out ++ p') out d' Hr Hop).
  - destruct (read_delivers STREAM_IO_BUFFER_SIZE _ wire Hd Hne stream_buffer_pos)
      as (now & later & r' & Hrd & _ & -> & Hd' & _).
    destruct (read_size _ _ _ _ stream_buffer_pos Hrd) as [_ Hsz]. specialize (Hsz ltac:(done)).
    rewrite Hrd. destruct (link_read _ _ _ _ _ (proj1 Hr)) as (out1 & d1 & p1 & Hop1 & -> & Hl1).
    destruct (link_drain _ _ _ _ Hl1) as (out2 & d2 & p2 & Hop2 & -> & Hl2 & _).
    assert (dec_write_flush now (decoder (di_pair s)) = (Ok (), out1 ++ out2, d2)) as Hop
      by (unfold dec_write_flush; by rewrite Hop1, Hop2).
    pose proof Hr as (Hl & Hv & Hw & Hcl & Hcc & Hs).
    set (s1 := DecIo r' (di_sink s) (di_pair s) (add_down_compressed (Z.of_nat (length now)) (di_stats s))).
    assert (dec_ready s1 e (now ++ later) (out1 ++ out2 ++ p2)) as Hr'.
    { split_and!; try done. simpl. rewrite add_down_compressed_down by done. by apply stats_down_ok. }
    rewrite (drain_decoder_ok _ _ _ _ _ _ _ Hr' Hop).
    destruct (IH (dec_after s1 d2 (out1 ++ out2)) later p2) as (d' & q1 & q2 & Hrun & -> & Hl' & Hfl);
      [simpl; lia|done|split_and!; try done; simpl; apply stats_down_ok, Hr'|].
    exists d', (out1 ++ out2 ++ q1), q2. rewrite Hrun. split_and!; [|by rewrite !app_assoc|done|done].
    simpl. rewrite add_down_compressed_down by done.
    rewrite !stats_down_down, !length_app, <-!app_assoc. by rewrite !Nat.add_0_l, <-Nat.add_assoc.
Qed.

Lemma run_decoder_ok fuel s e wire p :
  (reader_size (di_reader s) < fuel)%nat → delivers (di_reader s) wire →
  dec_ready s e wire p → flushed e →
  ∃ d', run_decoder_loop fuel s =
      (Some (Ok CleanEof),
       DecIo [] (Sink (Writer (w_out (sk_writer (di_sink s)) ++ p) None) true true)
         (with_decoder (di_pair s) d' []) (stats_down (di_stats s) (length wire) (length p))) ∧
    link e [] d' [].
Proof.
  intros Hf Hd Hr Hfl. destruct (run_decoder_prefix fuel s e wire p Hf Hd Hr) as (d' & p1 & p2 & Hrun & -> & Hl & Hp).
  rewrite (Hp Hfl), app_nil_r in *. by exists d'.
Qed.

(** ** End to end *)

(** What the local application sends: in basic mode any bytes, with pauses of
    any length between them; in HTTP mode complete messages. *)
Definition app_sends (http_aware : bool) (r : reader) (bs : list Z) : Prop :=
  if http_aware then ∃ ms, Forall frame_ok ms ∧ bs = ms ≫= frame_bytes ∧ delivers r bs
  else no_fail r ∧ reader_bytes r = bs.

Lemma frames_length ms :
  Forall frame_ok ms → (length ms <= length (ms ≫= frame_bytes))%nat.
Proof.
  induction 1 as [|m ms Hm _ IH]; [done|]. rewrite bind_cons, length_app, length_cons.
  destruct Hm as (Hh & _). apply find_header_end_bound in Hh.
  assert (length m.1 <= length (frame_bytes m))%nat by (unfold frame_bytes; rewrite length_app; lia). lia.
Qed.

Lemma run_encoder_ok fi timeout http s wire d p bs :
  fi < timeout → app_sends http (ei_reader s) bs → enc_ready s wire d p →
  ∃ out e', run_encoder fi timeout http s =
      (Some (Ok CleanEof), enc_final s [] e' out (length bs)) ∧
    link e' (wire ++ out) d (p ++ bs) ∧ flushed e'.
Proof.
  intros Hfi Happ Hr. unfold run_encoder. destruct http; simpl in Happ.
  - destruct Happ as (ms & Hms & -> & Hd).
    apply (run_encoder_http ms _ _ _ _ _ _ _ [] false (ms ≫= frame_bytes)); try done.
    pose proof (frames_length _ Hms). pose proof (delivers_length _ _ Hd). lia.
  - destruct Happ as (Hnf & <-). apply run_encoder_basic; (done || lia).
Qed.

(** A compressed stream is transparent.  For a pair in step (fresh, or left
    in step by earlier streams), whatever the application sends is what the
    other side's application receives, byte for byte, whatever the pauses, the
    chunking on either side and the compressor's buffering; both ends report a
    clean end and close the receiving stream; the four counters are exact; and
    the pair is left in step, so the next stream may reuse it. *)
Theorem codec_stream_roundtrip fi timeout http bs rs ce cd se sd :
  fi < timeout → app_sends http rs bs →
  link (encoder ce) [] (decoder cd) [] → enc_vec ce = [] → dec_vec cd = [] →
  stats_ok se → stats_ok sd →
  ∃ wire e',
    run_encoder fi timeout http (EncIo rs open_writer ce se) =
      (Some (Ok CleanEof),
       EncIo [] (Writer wire None) (with_encoder ce e' []) (stats_up se (length bs) (length wire))) ∧
    ∀ rd, delivers rd wire → ∃ d',
      run_decoder (DecIo rd open_sink cd sd) =
        (Some (Ok CleanEof),
         DecIo [] (Sink (Writer bs None) true true) (with_decoder cd d' [])
           (stats_down sd (length wire) (length bs))) ∧
      link e' [] d' [].
Proof.
  intros Hfi Happ Hl Hve Hvd Hse Hsd.
  assert (enc_ready (EncIo rs open_writer ce se) [] (decoder cd) []) as Hr by by split_and!.
  destruct (run_encoder_ok fi timeout http (EncIo rs open_writer ce se) _ _ _ bs Hfi Happ Hr)
    as (out & e' & He & Hl' & Hfl).
  exists out, e'. split; [done|]. intros rd Hd.
  apply (run_decoder_ok (S (reader_size rd)) (DecIo rd open_sink cd sd) e' out bs); [simpl; lia|done|by split_and!|done].
Qed.

(** ** A local read error in basic mode *)

(** A stream that breaks right after [x], before the flush timer: whatever the
    encoder made of [x] is all that was sent. *)
Lemma run_encoder_breaks fi timeout x s d :
  x ≠ [] → (length x <= STREAM_IO_BUFFER_SIZE)%nat → ei_reader s = [Chunk x; IoFail] → enc_ready s [] d [] →
  ∃ out e', enc_write_all x (encoder (ei_pair s)) = (Ok (), out, e') ∧ link e' out d x ∧
    run_encoder fi timeout false s = (Some (Ok StreamIoError), enc_final s [] e' out (length x)).
Proof.
  intros Hx Hlen Hrd Hr. destruct (link_write _ _ _ _ x (proj1 Hr)) as (out & e' & Hop & Hl).
  exists out, e'. split; [done|]. split; [exact Hl|]. unfold run_encoder. rewrite Hrd.
  assert (reader_size [Chunk x; IoFail] = S (pred (reader_size [Chunk x; IoFail]))) as ->
    by (unfold reader_size; destruct x; [done|]; simpl; lia).
  assert (read STREAM_IO_BUFFER_SIZE [Chunk x; IoFail] = (RData x, [IoFail])) as Hread.
  { destruct x as [|z x]; [done|]. cbn [read]. by rewrite take_ge, drop_ge by done. }
  cbn [run_encoder_loop]. rewrite Hrd, Hread. unfold write_compressed.
  rewrite (drain_encoder_ok (enc_write_all x) (count_up_raw (length x) (set_ei_reader [IoFail] s)) [] d [] out e')
    by (done || by apply count_ready, set_reader_ready).
  rewrite count_after_final by apply Hr. cbn. done.
Qed.

(** C39: A local read error does not leave the pair clean, although the pair is
    checked in for reuse.  Take a pair in step, and a compressor that, as zstd
    does, keeps a short input back until it is flushed.  If the application's
    stream sends [x] and then breaks before the flush timer, nothing of [x] is
    sent, the task puts the pair back into the table, and the peer sees a clean
    end of an empty stream; the next stream that uses the pair, of another
    connection, sends [y], and its peer receives [x] followed by [y]. *)
Theorem io_error_leaks_into_next_stream fi timeout x r2 ce cd id p l :
  fi < timeout → x ≠ [] → (length x <= STREAM_IO_BUFFER_SIZE)%nat → no_fail r2 →
  link (encoder ce) [] (decoder cd) [] → enc_vec ce = [] → dec_vec cd = [] → errored ce = false → id ≠ 0 →
  (enc_write_all x (encoder ce)).1.2 = [] → (dec_flush (decoder cd)).1.2 = [] →
  ∃ s1 t1 s2,
    run_encoder fi timeout false (EncIo [Chunk x; IoFail] open_writer ce stats_default) = (Some (Ok StreamIoError), s1) ∧
    w_out (ei_writer s1) = [] ∧
    (let l' := release_pair id p (Some (Ok StreamIoError)) (update_pair p (ei_pair s1) l) in
     lru_cache l' !! id = Some p ∧ lru_heap l' !! p = Some (ei_pair s1)) ∧
    run_decoder (DecIo [] open_sink cd stats_default) = (Some (Ok CleanEof), t1) ∧ w_out (sk_writer (di_sink t1)) = [] ∧
    run_encoder fi timeout false (EncIo r2 open_writer (ei_pair s1) stats_default) = (Some (Ok CleanEof), s2) ∧
    ∀ rd2, delivers rd2 (w_out (ei_writer s2)) →
      ∃ t2, run_decoder (DecIo rd2 open_sink (di_pair t1) stats_default) = (Some (Ok CleanEof), t2) ∧
        w_out (sk_writer (di_sink t2)) = x ++ reader_bytes r2.
Proof.
  intros Hfi Hx Hlen Hn2 Hl Hve Hvd Herr Hid Hkeep Hquiet.
  destruct (run_encoder_breaks fi timeout x (EncIo [Chunk x; IoFail] open_writer ce stats_default) (decoder cd))
    as (out & e1 & Hop & Hl1 & He); [done|done|done|by split_and!|].
  cbn [ei_pair] in Hop. rewrite Hop in Hkeep. cbn in Hkeep. subst out.
  destruct (link_drain _ _ _ _ Hl1) as (out & d1 & p' & Hd1 & Hp & Hl2 & _).
  rewrite Hd1 in Hquiet. cbn in Hquiet. subst out. cbn in Hp. subst p'.
  assert (run_decoder (DecIo [] open_sink cd stats_default) =
    (Some (Ok CleanEof), DecIo [] (Sink open_writer true true) (with_decoder cd d1 []) stats_default)) as Hdec.
  { unfold run_decoder. cbn. unfold drain_decoder. cbn. by rewrite Hd1, Hvd. }
  destruct (run_encoder_basic (S (reader_size r2)) fi timeout
    (EncIo r2 open_writer (with_encoder ce e1 []) stats_default) [] d1 x)
    as (out2 & e2 & He2 & Hl3 & Hfl); [simpl; lia|done|done|by split_and!|].
  eexists _, _, _. split; [exact He|]. split; [done|]. split.
  { unfold release_pair, checkin, is_errored, update_pair. cbn. rewrite lookup_insert_eq. cbn. rewrite Herr.
    rewrite (proj2 (Z.eqb_neq _ _)) by done. cbn. by rewrite !lookup_insert_eq. }
  split; [exact Hdec|]. split; [done|]. split; [exact He2|].
  intros rd2 Hd2. simpl in Hd2.
  destruct (run_decoder_ok (S (reader_size rd2))
    (DecIo rd2 open_sink (with_decoder cd d1 []) stats_default) e2 out2 (x ++ reader_bytes r2))
    as (d2 & Hrun2 & _); [simpl; lia|done|by split_and!|done|].
  eexists. split; [exact Hrun2|done].
Qed.

(** ** Whole sessions *)

(** The direction from the side with table [lA] (after its checkout of [pA]
    under [a]) to the side with table [lB] (after its checkout) is in step: if
    the receiver will acknowledge [a], its pair matches the sender's. *)
Definition in_step (lA lB : CodecLru) (a : Z) (pA : loc) : Prop :=
  ∀ cA q cB, lru_heap lA !! pA = Some cA → lru_cache lB !! a = Some q → lru_heap lB !! q = Some cB →
  link (encoder cA) [] (decoder cB) [] ∧ enc_vec cA = [] ∧ dec_vec cB = [].

(** The two sides are configured alike. *)
Definition configured (l : CodecLru) (bytes : list Z) (level window_log : Z) : Prop :=
  lru_dict l = dict_from_bytes bytes level ∧ lru_level l = level ∧ lru_window_log l = window_log.

Lemma checkout_take_conf reuse_id id l x l' bytes level wl :
  checkout_take reuse_id id l = (x, l') → configured l bytes level wl → configured l' bytes level wl.
Proof.
  assert (∀ l0 r l2, alloc_pair l0 = (r, l2) → configured l0 bytes level wl → configured l2 bytes level wl)
    as Halloc.
  { intros l0 r l2. unfold alloc_pair. destruct (pair_new _ _ _); intros ? Hc; simplify_eq; exact Hc. }
  unfold checkout_take. intros Hx Hc.
  repeat case_hyp Hx; simplify_eq; try exact Hc; eapply Halloc; eauto.
Qed.

(** After the handshake, the sender's encoder and the receiver's decoder are
    linked. *)
Lemma resolved_link lA1 lB1 a pA qB cA cB bytes level wl :
  configured lA1 bytes level wl → configured lB1 bytes level wl → a ≠ 0 →
  in_step lA1 lB1 a pA →
  encoder_resolved lA1 (ack_for a lB1) pA cA → decoder_resolved lB1 a (ack_for a lB1) qB cB →
  link (encoder cA) [] (decoder cB) [] ∧ enc_vec cA = [] ∧ dec_vec cB = [].
Proof.
  intros (HdA & HlA & HwA) (HdB & HlB & HwB) Ha Hin. unfold encoder_resolved, decoder_resolved, ack_for.
  destruct (lru_cache lB1 !! a) as [q|] eqn:Hq.
  - destruct (Z.eqb_spec a 0); [done|]. intros HA [[= ->] HB]. by apply (Hin cA qB cB).
  - rewrite Z.eqb_refl. intros [HA ?] [HB ?]. rewrite HdA, HlA, HwA in HA. rewrite HdB, HwB in HB.
    by destruct (link_fresh _ _ _ _ _ HA HB).
Qed.

Definition session_input (rs rq : reader) : session_io := SessionIo rs open_sink open_writer false rq.

(** One side after its handshake: the encoder loop ends well, and so does the
    decoder loop if the peer's bytes belong to its decoder. *)
Lemma session_rest cfg timeout order rid l h hs w r' l' rs rq bs cp cq D :
  cc_enabled cfg = true → cc_flush_interval_ms cfg < timeout →
  app_sends (cc_http_aware cfg) rs bs →
  exchange_pair_id order rid (HsState open_writer rq l) = (Ok hs, HsState w r' l') →
  lru_inv (Sys l' (q2s_pair hs :: s2q_pair hs :: h)) →
  lru_heap l' !! s2q_pair hs = Some cp → lru_heap l' !! q2s_pair hs = Some cq →
  w_room w = None → link (encoder cp) [] D [] → enc_vec cp = [] →
  ∃ out e' res2 x,
    start_flowing_with_codec cfg true timeout order rid (Some l) (session_input rs rq) stats_default =
      SessionDone hs (Some (Ok CleanEof)) res2 x ∧
    w_out (si_quic_send (se_io x)) = w_out w ++ out ∧ link e' out D bs ∧ flushed e' ∧
    ∀ e win bs', delivers r' win → link e win (decoder cq) bs' → flushed e → dec_vec cq = [] →
      res2 = Some (Ok CleanEof) ∧ si_stream_write (se_io x) = Sink (Writer bs' None) true true.
Proof.
  intros Hen Hfi Happ Hex Hinv Hp Hq Hw Hl Hv.
  assert (q2s_pair hs ≠ s2q_pair hs) as Hne.
  { intros Heq. pose proof (inv_nodup _ Hinv) as Hn. simpl in Hn.
    apply list.NoDup_cons in Hn as [Hn _]. apply Hn. rewrite elem_of_cons. auto. }
  destruct (run_encoder_ok (cc_flush_interval_ms cfg) timeout (cc_http_aware cfg)
    (EncIo rs w cp stats_default) [] D [] bs) as (out & e' & He & Hl' & Hfl); [done|done|by split_and!|].
  set (l2 := release_pair (s2q_id hs) (s2q_pair hs) (Some (Ok CleanEof))
    (update_pair (s2q_pair hs) (with_encoder cp e' []) l')).
  assert (lru_heap l2 !! q2s_pair hs = Some cq) as Hq2.
  { unfold l2, release_pair, checkin. destruct (_ || _); simpl; by rewrite lookup_insert_ne. }
  destruct (run_decoder (DecIo r' open_sink cq (stats_up stats_default (length bs) (length out))))
    as [res2 s2] eqn:Hdec.
  eexists out, e', res2, _. split_and!; [| |done|done|].
  - unfold start_flowing_with_codec. rewrite Hen. cbn [negb session_input si_quic_send si_quic_recv
      si_stream_read si_stream_write si_quic_finished config_lru]. rewrite Hex.
    cbn [hs_send hs_recv hs_lru]. unfold s2q_codec_task. cbn [se_lru se_io se_stats se_global
      si_quic_send si_quic_recv si_stream_read si_stream_write si_quic_finished]. rewrite Hp, He.
    cbn [enc_final ei_pair ei_reader ei_writer ei_stats]. fold l2. unfold q2s_codec_task.
    cbn [se_lru se_io se_stats se_global si_quic_send si_quic_recv si_stream_read si_stream_write
      si_quic_finished]. rewrite Hq2, Hdec. reflexivity.
  - done.
  - intros e win bs' Hd Hlw Hfe Hdv.
    destruct (run_decoder_ok (S (reader_size r'))
      (DecIo r' open_sink cq (stats_up stats_default (length bs) (length out))) e win bs')
      as (d' & Hrun & _); [simpl; lia|done|split_and!; try done; by apply stats_up_ok|done|].
    unfold run_decoder in Hdec. cbn [di_reader] in Hdec. rewrite Hrun in Hdec. by simplify_eq.
Qed.

(** What a session wrote to its QUIC stream. *)
Definition session_sent (x : session_result) : list Z :=
  match x with
  | SessionDone _ _ _ s => w_out (si_quic_send (se_io s))
  | HandshakeFailed _ _ sent => w_out sent
  | _ => []
  end.

(** The encoder takes nothing back of what was sent. *)
Lemma drain_encoder_sends op s : w_out (ei_writer s) `prefix_of` w_out (ei_writer (drain_encoder op s).2).
Proof.
  unfold drain_encoder. destruct (op _) as [[[[]|] out] e]; [|done]. case_bool_decide; [done|].
  pose proof (write_all_prefix (enc_vec (ei_pair s) ++ out) (ei_writer s)) as Hp. by destruct (write_all _ _).
Qed.

Lemma run_encoder_loop_sends fuel fi timeout hr s :
  w_out (ei_writer s) `prefix_of` w_out (ei_writer (run_encoder_loop fuel fi timeout hr s).2).
Proof.
  revert hr s. induction fuel as [|f IH]; intros hr s; [done|]. cbn [run_encoder_loop].
  unfold finish_encoder, write_compressed, flush_encoder.
  repeat match goal with
  | |- context [drain_encoder ?op ?s] =>
      let H := fresh "Hs" in pose proof (drain_encoder_sends op s) as H; destruct (drain_encoder op s) as [[]]
  | |- context [run_encoder_loop f _ _ ?h ?s] => pose proof (IH h s); destruct (run_encoder_loop f _ _ h s)
  | _ => case_match
  end; cbn in *; try done; by repeat (etransitivity; [eassumption|]).
Qed.

(** A session with the codec has sent what its handshake sent. *)
Lemma session_sends_handshake cfg timeout order rid l rs rq :
  cc_enabled cfg = true →
  w_out (hs_send (exchange_pair_id order rid (HsState open_writer rq l)).2) `prefix_of`
  session_sent (start_flowing_with_codec cfg true timeout order rid (Some l) (session_input rs rq) stats_default).
Proof.
  intros Hen. unfold start_flowing_with_codec. rewrite Hen. cbn [negb session_input si_quic_send si_quic_recv
    si_stream_read si_stream_write si_quic_finished config_lru].
  destruct (exchange_pair_id _ _ _) as [[hs|e] st]; [|done]. cbn [fst snd].
  assert (∀ id p x, si_quic_send (se_io (q2s_codec_task id p x).2) = si_quic_send (se_io x)) as Hq.
  { intros id p x. unfold q2s_codec_task. destruct (_ !! p); [|done]. by destruct (run_decoder _). }
  match goal with |- context [s2q_codec_task ?g ?ms ?i ?p ?x] =>
    assert (w_out (si_quic_send (se_io x)) `prefix_of` w_out (si_quic_send (se_io (s2q_codec_task g ms i p x).2))) as Hs;
    [|destruct (s2q_codec_task g ms i p x) as [res1 x1]] end.
  - unfold s2q_codec_task, run_encoder. destruct (_ !! s2q_pair hs) as [c|]; [|done]. cbn [se_io se_stats].
    match goal with |- context [run_encoder_loop ?f ?fi ?ms ?h ?s] =>
      pose proof (run_encoder_loop_sends f fi ms h s) as Hp; destruct (run_encoder_loop f fi ms h s) end. exact Hp.
  - specialize (Hq (q2s_id hs) (q2s_pair hs) x1). destruct (q2s_codec_task _ _ _) as [res2 x2].
    cbn in Hs, Hq |- *. by rewrite Hq.
Qed.

(** Two sides that read what the other wrote exchange ids and acknowledgements. *)
Lemma sessions_shake_hands cfgA cfgB timeout orderA ridA orderB ridB lA lB hA a b pA pB lA1 lB1 rsA rsB rqA rqB :
  let sessA := start_flowing_with_codec cfgA true timeout orderA ridA (Some lA) (session_input rsA rqA) stats_default in
  let sessB := start_flowing_with_codec cfgB true timeout orderB ridB (Some lB) (session_input rsB rqB) stats_default in
  cc_enabled cfgA = true → cc_enabled cfgB = true → lru_ok lA → lru_inv (Sys lA hA) →
  checkout orderA ridA lA = (Ok (a, pA), lA1) → checkout orderB ridB lB = (Ok (b, pB), lB1) → in_u 128 b →
  delivers rqA (session_sent sessB) →
  ∃ wire, session_sent sessA = to_be_bytes 16 a ++ to_be_bytes 16 (ack_for b lA1) ++ wire.
Proof.
  intros sessA sessB HeA HeB Hok Hinv HcoA HcoB Hb Hd.
  destruct (exchange_sends_id orderB ridB lB open_writer rqB b pB lB1 HcoB eq_refl) as [x Hx].
  destruct (session_sends_handshake cfgB timeout orderB ridB lB rsB rqB HeB) as [y Hy].
  fold sessB in Hy. rewrite Hy, Hx in Hd. cbn [open_writer w_out app] in Hd. rewrite <-app_assoc in Hd.
  destruct (exchange_sends_ack orderA ridA lA open_writer rqA hA a pA lA1 b (x ++ y)) as [u Hu]; [done..|].
  destruct (session_sends_handshake cfgA timeout orderA ridA lA rsA rqA HeA) as [v Hv].
  exists (u ++ v). unfold sessA. rewrite Hv, Hu. cbn [open_writer w_out app]. by rewrite <-!app_assoc.
Qed.

(** What it delivered to the local application, if both tasks ended cleanly and
    the application's stream was closed. *)
Definition session_received (x : session_result) : option (list Z) :=
  match x with
  | SessionDone _ (Some (Ok CleanEof)) (Some (Ok CleanEof)) s =>
      if sk_closed (si_stream_write (se_io s)) then Some (w_out (sk_writer (si_stream_write (se_io s)))) else None
  | _ => None
  end.

(** Both sessions of a pair of sides, each reading what the other wrote. *)
Lemma sessions_transparent cfgA cfgB timeout orderA ridA orderB ridB lA lB hA hB a b pA pB
    lA1 lB1 rsA rsB rqA rqB bsA bsB bytes level wl :
  let sessA := start_flowing_with_codec cfgA true timeout orderA ridA (Some lA) (session_input rsA rqA) stats_default in
  let sessB := start_flowing_with_codec cfgB true timeout orderB ridB (Some lB) (session_input rsB rqB) stats_default in
  cc_enabled cfgA = true → cc_enabled cfgB = true →
  cc_flush_interval_ms cfgA < timeout → cc_flush_interval_ms cfgB < timeout →
  lru_ok lA → lru_ok lB → lru_inv (Sys lA hA) → lru_inv (Sys lB hB) →
  configured lA bytes level wl → configured lB bytes level wl →
  checkout orderA ridA lA = (Ok (a, pA), lA1) → checkout orderB ridB lB = (Ok (b, pB), lB1) →
  in_u 128 a → in_u 128 b → a ≠ 0 → b ≠ 0 →
  in_step lA1 lB1 a pA → in_step lB1 lA1 b pB →
  app_sends (cc_http_aware cfgA) rsA bsA → app_sends (cc_http_aware cfgB) rsB bsB →
  delivers rqA (session_sent sessB) → delivers rqB (session_sent sessA) →
  session_received sessA = Some bsB ∧ session_received sessB = Some bsA.
Proof.
  intros sessA sessB HeA HeB HfA HfB HokA HokB HinvA HinvB HcA HcB HcoA HcoB Ha Hb Ha0 Hb0 HstA HstB
    HapA HapB HrA HrB.
  destruct (sessions_shake_hands cfgA cfgB timeout orderA ridA orderB ridB lA lB hA a b pA pB lA1 lB1 rsA rsB rqA rqB)
    as [wireA HsA]; [done..|].
  destruct (sessions_shake_hands cfgB cfgA timeout orderB ridB orderA ridA lB lA hB b a pB pA lB1 lA1 rsB rsA rqB rqA)
    as [wireB HsB]; [done..|]. fold sessA sessB in HsA, HsB.
  rewrite HsB in HrA. rewrite HsA in HrB.
  assert (∀ id l, in_u 128 id → in_u 128 (ack_for id l)) as Hack.
  { intros id l Hid. unfold ack_for. destruct (_ !! _); [done|]. by unfold in_u. }
  destruct (exchange_pair_id_ok _ _ _ open_writer _ _ _ _ _ _ _ _ HokA HinvA HcoA Ha0 Hb (Hack a lB1 Ha) eq_refl HrA)
    as (qA & cA & cA' & lA' & rA' & HA & HdA & HiA & HpA & HqA & HencA & HdecA).
  destruct (exchange_pair_id_ok _ _ _ open_writer _ _ _ _ _ _ _ _ HokB HinvB HcoB Hb0 Ha (Hack b lA1 Hb) eq_refl HrB)
    as (qB & cB & cB' & lB' & rB' & HB & HdB & HiB & HpB & HqB & HencB & HdecB).
  pose proof (checkout_take_conf _ _ _ _ _ _ _ _ HcoA HcA) as HcA1.
  pose proof (checkout_take_conf _ _ _ _ _ _ _ _ HcoB HcB) as HcB1.
  destruct (resolved_link lA1 lB1 a pA qB cA cB' _ _ _ HcA1 HcB1 Ha0 HstA HencA HdecB) as (HlA & HvA & HvB').
  destruct (resolved_link lB1 lA1 b pB qA cB cA' _ _ _ HcB1 HcA1 Hb0 HstB HencB HdecA) as (HlB & HvB & HvA').
  destruct (session_rest cfgA timeout orderA ridA lA hA _ _ _ _ rsA rqA bsA cA cA' (decoder cB')
    HeA HfA HapA HA HiA HpA HqA eq_refl HlA HvA) as (outA & eA & resA & xA & HxA & HsentA & HlinkA & HflA & HendA).
  destruct (session_rest cfgB timeout orderB ridB lB hB _ _ _ _ rsB rqB bsB cB cB' (decoder cA')
    HeB HfB HapB HB HiB HpB HqB eq_refl HlB HvB) as (outB & eB & resB & xB & HxB & HsentB & HlinkB & HflB & HendB).
  unfold sessA, sessB in *. rewrite HxA in HsA |- *. rewrite HxB in HsB |- *. cbn [session_sent] in HsA, HsB.
  rewrite HsentA in HsA. rewrite HsentB in HsB. cbn [w_out open_writer app] in HsA, HsB.
  rewrite <-app_assoc in HsA, HsB. do 2 apply app_inv_head in HsA, HsB. subst outA outB.
  destruct (HendA eB wireB bsB HdA HlinkB HflB HvA') as [-> HwA].
  destruct (HendB eA wireA bsA HdB HlinkA HflA HvB') as [-> HwB].
  simpl. by rewrite HwA, HwB.
Qed.

End stream.

(** ** The stream timeout in basic mode *)
Section timeout.
Context {ZSTD : Zstd} {HTTPARSE : Httparse}.

(** In basic mode the stream timeout never fires when the flush interval is
    shorter than it (150 ms against seconds by default): every iteration starts
    the timeout anew and the flush timer ends the iteration first.  However long
    the silence, the task neither times out nor gives up its pair. *)
Theorem basic_encoder_never_times_out fi timeout s :
  fi < timeout → (run_encoder fi timeout false s).1 ≠ Some (Ok StreamTimeout).
Proof.
  intros Hfi. unfold run_encoder. generalize (S (reader_size (ei_reader s))) as fuel.
  intros fuel. revert s. induction fuel as [|fuel IH]; intros s; [done|].
  cbn [run_encoder_loop]. unfold finish_encoder.
  destruct (read _ _) as [[|bs| |] r'].
  - by destruct (flush_encoder _) as [[]].
  - destruct (write_compressed _ _) as [[]]; [apply IH|done].
  - done.
  - destruct (Z.ltb_spec fi timeout); [|lia]. destruct (flush_encoder _) as [[]]; [apply IH|done].
Qed.
End timeout.

(** * The small codec satisfies the laws *)
Lemma mask_app k a b : mask k (a ++ b) = mask k a ++ mask (k + Z.of_nat (length a)) b.
Proof.
  revert k. induction a as [|x a IH]; intros k; simpl; [by rewrite Z.add_0_r|].
  rewrite IH. do 3 f_equal. lia.
Qed.

Lemma mask_mask k a : mask k (mask k a) = a.
Proof.
  revert k. induction a as [|x a IH]; intros k; simpl; [done|].
  by rewrite IH, Z.lxor_assoc, Z.lxor_nilpotent, Z.lxor_0_r.
Qed.

Lemma length_mask k a : length (mask k a) = length a.
Proof. revert k. induction a; intros; simpl; auto. Qed.

Definition toy_link (e : Z * list Z) (wire : list Z) (d : Z) (p : list Z) : Prop :=
  e.1 = d + Z.of_nat (length wire) ∧ p = mask d wire ++ e.2.

#[export] Instance toy_zstd_laws : ZstdLaws toy_zstd.
Proof.
  refine {| link := toy_link : @zenc toy_zstd → _ → @zdec toy_zstd → _ → Prop;
            flushed := λ e : @zenc toy_zstd, e.2 = [] |}.
  - intros bytes level wl e d dict. subst dict. unfold dict_from_bytes, make_encoder, make_decoder.
    case_bool_decide; simpl; destruct (_ =? _); simpl; try destruct (_ <? _); intros; simplify_eq/=;
      (split; [split; simpl; [lia|done]|done]).
  - intros [k b] wire d p data [Hk Hp]. eexists [], (k, b ++ data). rewrite app_nil_r.
    split; [done|]. split; [done|]. simpl in *. by rewrite Hp, app_assoc.
  - intros [k b] wire d p [Hk Hp]. eexists (mask k b), (k + Z.of_nat (length b), []).
    split; [done|]. split; [|done]. simpl in *. subst. split; simpl.
    + rewrite length_app, length_mask. lia.
    + by rewrite mask_app, mask_mask, app_nil_r.
  - intros [k b] c wire d p [Hk Hp]. simpl in *.
    exists (mask d c), (d + Z.of_nat (length c)), (mask (d + Z.of_nat (length c)) wire ++ b).
    split; [done|]. subst. rewrite mask_app, <-app_assoc. split; [done|]. split; simpl; [|done].
    rewrite length_app. lia.
  - intros [k b] wire d p [Hk Hp]. simpl in *. exists [], d, p. split_and!; try done.
    intros -> ->. by rewrite Hp.
Defined.

(** * Witnesses *)
#[local] Existing Instance sample_httparse.

Definition toy_config (http : bool) : CodecConfig := codec_config_new true http 9 24 18000 150.
Definition toy_pair : CodecPair := MkPair (1, []) [] 1 [] false dict_none 9 24.

Lemma codec_stream_roundtrip_witness :
  ∃ wire e',
    run_encoder 150 15000 false (EncIo [Chunk [10; 20]; Stall; Chunk [30]] open_writer toy_pair stats_default) =
      (Some (Ok CleanEof),
       EncIo [] (Writer wire None) (with_encoder toy_pair e' []) (stats_up stats_default 3 (length wire))) ∧
    ∀ rd, delivers rd wire → ∃ d',
      run_decoder (DecIo rd open_sink toy_pair stats_default) =
        (Some (Ok CleanEof),
         DecIo [] (Sink (Writer [10; 20; 30] None) true true) (with_decoder toy_pair d' [])
           (stats_down stats_default (length wire) 3)) ∧
      link e' [] d' [].
Proof.
  apply (codec_stream_roundtrip 150 15000 false [10; 20; 30]); try done.
  split; [by repeat constructor|done].
Defined.

Lemma basic_encoder_never_times_out_witness :
  (run_encoder 150 15000 false (EncIo (replicate 20 Stall) open_writer toy_pair stats_default)).1
    ≠ Some (Ok StreamTimeout).
Proof. apply (basic_encoder_never_times_out 150 15000). done. Defined.

(** A client that reuses its pair 5 and a server with an empty table. *)
Definition wit_client_reader : reader := [Chunk (to_be_bytes 16 9 ++ to_be_bytes 16 0 ++ mask 1 [7; 8])].
Definition wit_server_reader : reader :=
  [Chunk (to_be_bytes 16 5); Chunk (to_be_bytes 16 0 ++ mask 1 [1; 2; 3])].


(** The first stream delivers nothing, the second one both payloads. *)
Lemma io_error_leaks_into_next_stream_witness :
  ∃ s1 t1 s2,
    run_encoder 150 15000 false (EncIo [Chunk [1; 2]; IoFail] open_writer toy_pair stats_default)
      = (Some (Ok StreamIoError), s1) ∧
    run_decoder (DecIo [] open_sink toy_pair stats_default) = (Some (Ok CleanEof), t1) ∧
    run_encoder 150 15000 false (EncIo [Chunk [3]] open_writer (ei_pair s1) stats_default) = (Some (Ok CleanEof), s2) ∧
    ∃ t2, run_decoder (DecIo [Chunk (w_out (ei_writer s2))] open_sink (di_pair t1) stats_default)
      = (Some (Ok CleanEof), t2) ∧ w_out (sk_writer (di_sink t2)) = [1; 2; 3].
Proof.
  destruct (io_error_leaks_into_next_stream 150 15000 [1; 2] [Chunk [3]] toy_pair toy_pair 5 0%nat toy_lru)
    as (s1 & t1 & s2 & H1 & _ & _ & H3 & _ & H4 & H5); try done.
  - unfold STREAM_IO_BUFFER_SIZE. simpl. lia.
  - by repeat constructor.
  - exists s1, t1, s2. split; [exact H1|]. split; [exact H3|]. split; [exact H4|].
    apply H5. exists []. by rewrite app_nil_r.
Defined.
