(* ===== verification/CodecTraces.v ===== *)
(** Two sides of the codec over several streams, computed: a history in which
    the tables of the two sides fall out of step although every handshake
    succeeds.  The codec is the small one of [Lru], which like zstd needs the
    decoder to have seen all that the encoder produced. *)
From S2P Require Import Prelude Io Net Target AddrText HttpReader Lru Handshake StreamFlow Codec.

#[local] Existing Instance sample_httparse.

(** One side: its table, the id its scan of the table meets first, the random
    id it would use for a new pair, and what its application sends. *)
Record side : Type := Side {
  sd_lru : CodecLru;
  sd_order : list Z;
  sd_rid : Z;
  sd_app : list Z
}.

Definition offered (x : side) : Z :=
  match (checkout (sd_order x) (sd_rid x) (sd_lru x)).1 with Ok (id, _) => id | Err _ => 0 end.
Definition answered (x : side) (id : Z) : Z :=
  ack_for id (checkout (sd_order x) (sd_rid x) (sd_lru x)).2.

Definition run_side (x : side) (recv : list Z) : session_result :=
  start_flowing_with_codec (toy_config false) true 15000 (sd_order x) (sd_rid x) (Some (sd_lru x))
    (session_input [Chunk (sd_app x)] [Chunk recv]) stats_default.

(** What a side writes does not depend on what it receives after the
    handshake, so both sides' output can be computed first. *)
Definition output (x y : side) : list Z :=
  session_sent (run_side x (to_be_bytes 16 (offered y) ++ to_be_bytes 16 (answered y (offered x)))).

Definition run_pair (x y : side) : session_result * session_result :=
  (run_side x (output y x), run_side y (output x y)).

Definition table_after (x : session_result) : CodecLru :=
  match x with SessionDone _ _ _ s => se_lru s | _ => toy_lru end.

Definition acks (x : session_result) : Z * Z :=
  match x with SessionDone hs _ _ _ => (s2q_ack hs, q2s_ack hs) | _ => (0, 0) end.

Definition evict (id : Z) (l : CodecLru) : CodecLru := set_cache (delete id (lru_cache l)) l.

(** Stream 1: new pairs 5 (client) and 9 (server). *)
Definition stream1 := run_pair (Side toy_lru [] 5 [1; 2]) (Side toy_lru [] 9 [3]).
(** Stream 2: the client encodes with pair 9, the server with pair 5. *)
Definition stream2 :=
  run_pair (Side (table_after stream1.1) [9] 100 [4; 5]) (Side (table_after stream1.2) [5] 101 [6]).
(** Pair 9 expires on the client only.  Stream 3: the server encodes with pair
    9; the client does not know it any more, creates a new one and answers 0. *)
Definition stream3 :=
  run_pair (Side (evict 9 (table_after stream2.1)) [5] 102 [7]) (Side (table_after stream2.2) [9] 103 [8]).
(** Stream 4: the client encodes with pair 9. *)
Definition client4 := Side (table_after stream3.1) [9] 104 [11; 12; 13].
Definition server4 := Side (table_after stream3.2) [5] 105 [14].
Definition stream4 := run_pair client4 server4.

(** An eviction on one side puts a pair out of step for good.  In the
    history above all four streams end cleanly and the first three deliver every
    byte; but after
    pair 9 expired on the client and was silently recreated by stream 3 (which
    resets only the server's encoder, not its decoder), both sides agree to
    reuse it in stream 4, where each side reads exactly what the other wrote and
    the server's application receives other bytes than the client's application
    sent. *)
Theorem codec_eviction_desync :
  (session_received stream1.1, session_received stream1.2) = (Some [3], Some [1; 2]) ∧
  (session_received stream2.1, session_received stream2.2) = (Some [6], Some [4; 5]) ∧
  (session_received stream3.1, session_received stream3.2) = (Some [8], Some [7]) ∧
  session_sent stream4.1 = output client4 server4 ∧ session_sent stream4.2 = output server4 client4 ∧
  acks stream4.1 = (9, 5) ∧ acks stream4.2 = (5, 9) ∧
  (∃ garbage, session_received stream4.2 = Some garbage ∧ garbage ≠ [11; 12; 13]).
Proof. split_and!; [by vm_compute..|]. eexists. split; by vm_compute. Qed.
