(* ===== verification/EventBus.v ===== *)
(** The tunnel event bus of [src/src/tunnel_event_bus.rs]: tunnels post events,
    every registered listener receives them through its own unbounded channel.

    A channel is the queue of what was sent and not yet received, together with
    whether its receiver still exists; the bus holds the sending ends. *)
From S2P Require Import Prelude Net AddrText.

Record TunnelStat : Type := MkStat {
  rx_bytes : Z; tx_bytes : Z; tx_dgrams : Z; rx_dgrams : Z; sent_packets : Z;
  lost_packets : Z; lost_bytes : Z; congestion_events : Z; active_conns : Z;
  rtt_ms : Z; cwnd_bytes : Z; current_mtu : Z; black_holes : Z
}.

Definition stat_default : TunnelStat := MkStat 0 0 0 0 0 0 0 0 0 0 0 0 0.

Inductive TunnelId : Type :=
| IdNetwork (index : Z)
| IdChannel (id : Z) (protocol : UpstreamType).

Definition display_tunnel_id (t : TunnelId) : string :=
  match t with
  | IdNetwork index => display_uint index
  | IdChannel id protocol =>
      ("channel-" +:+ display_upstream_type protocol +:+ "-" +:+ display_uint id)%string
  end.

Record TunnelDescriptor : Type := MkDescriptor {
  td_id : TunnelId;
  td_proto : UpstreamType;
  td_mode : TunnelMode
}.

Definition display_descriptor (d : TunnelDescriptor) : string :=
  (display_tunnel_id (td_id d) +:+ ":" +:+ display_upstream_type (td_proto d) +:+ ":"
     +:+ display_mode (td_mode d))%string.

Inductive TunnelState : Type := Connecting | Connected | Tunneling | Reconnecting.

Inductive TunnelEventType : Type :=
| EvState (s : TunnelState)
| EvLog (msg : string)
| EvStat (s : TunnelStat).

Inductive TunnelSource : Type := SourceNetwork | SourceChannel.

Record TunnelInfo : Type := MkInfo {
  ti_source : TunnelSource;
  ti_id : option Z;
  ti_proto : UpstreamType;
  ti_mode : TunnelMode
}.

#[export] Instance TunnelSource_eq_dec : EqDecision TunnelSource.
Proof. solve_decision. Defined.
#[export] Instance TunnelInfo_eq_dec : EqDecision TunnelInfo.
Proof. solve_decision. Defined.

Record TunnelEvent : Type := MkEvent {
  event_type : TunnelEventType;
  timestamp : string;
  tunnel : option TunnelInfo
}.

(** [TunnelEvent::new]. *)
Definition tunnel_event_new (ty : TunnelEventType) (ts : string) (d : TunnelDescriptor) : TunnelEvent :=
  let info := match td_id d with
              | IdNetwork id => MkInfo SourceNetwork (Some id) (td_proto d) (td_mode d)
              | IdChannel id protocol => MkInfo SourceChannel (Some id) protocol (td_mode d)
              end in
  MkEvent ty ts (Some info).

Definition tunnel_event_new_without_tunnel (ty : TunnelEventType) (ts : string) : TunnelEvent :=
  MkEvent ty ts None.

(** * Channels and the bus *)
Record channel : Type := Chan {
  ch_queue : list TunnelEvent;
  ch_alive : bool              (** the receiver exists *)
}.

Record event_bus : Type := Bus {
  listeners : list nat;        (** the senders, in registration order *)
  channels : gmap nat channel
}.

Definition bus_new : event_bus := Bus [] ∅.

(** [register]: the receiver is the new channel's number. *)
Definition register (b : event_bus) : nat * event_bus :=
  let c := fresh (dom (channels b)) in
  (c, Bus (listeners b ++ [c]) (<[c := Chan [] true]> (channels b))).

Definition has_listeners (b : event_bus) : bool := negb (bool_decide (listeners b = [])).

(** [Sender::send]: fails when the receiver was dropped. *)
Definition send_event (e : TunnelEvent) (cs : gmap nat channel) (c : nat) : bool * gmap nat channel :=
  match cs !! c with
  | Some ch => if ch_alive ch then (true, <[c := Chan (ch_queue ch ++ [e]) true]> cs) else (false, cs)
  | None => (false, cs)
  end.

(** [listeners.retain(|l| l.send(event.clone()).is_ok())]. *)
Fixpoint retain_send (e : TunnelEvent) (ls : list nat) (cs : gmap nat channel) :
  list nat * gmap nat channel :=
  match ls with
  | [] => ([], cs)
  | c :: ls' =>
      let (ok, cs) := send_event e cs c in
      let (kept, cs) := retain_send e ls' cs in
      ((if ok then [c] else []) ++ kept, cs)
  end.

Definition post (e : TunnelEvent) (b : event_bus) : event_bus :=
  let (ls, cs) := retain_send e (listeners b) (channels b) in Bus ls cs.

(** What the other side of a channel may do: receive, or drop the receiver. *)
Definition recv_event (c : nat) (b : event_bus) : option TunnelEvent * event_bus :=
  match channels b !! c with
  | Some (Chan (e :: q) a) => (Some e, Bus (listeners b) (<[c := Chan q a]> (channels b)))
  | _ => (None, b)
  end.

Definition drop_receiver (c : nat) (b : event_bus) : event_bus :=
  Bus (listeners b) (alter (λ ch, Chan (ch_queue ch) false) c (channels b)).

Definition alive (b : event_bus) (c : nat) : bool :=
  match channels b !! c with Some ch => ch_alive ch | None => false end.

(** A registered listener has one sender in the bus. *)
Definition bus_wf (b : event_bus) : Prop :=
  NoDup (listeners b) ∧
  (∀ c, c ∈ listeners b → is_Some (channels b !! c)) ∧
  (∀ c, alive b c = true → c ∈ listeners b).

(** What [retain] leaves: the channels of the listed senders got the event if
    they are alive; nothing else changes. *)
Lemma retain_send_spec e ls cs :
  NoDup ls →
  (retain_send e ls cs).1 = filter (λ c, match cs !! c with Some ch => ch_alive ch | None => false end = true) ls ∧
  ∀ c, (retain_send e ls cs).2 !! c =
    if bool_decide (c ∈ ls)
    then (λ ch, if ch_alive ch then Chan (ch_queue ch ++ [e]) true else ch) <$> cs !! c
    else cs !! c.
Proof.
  revert cs. induction ls as [|a ls IH]; intros cs Hnd.
  { split; [done|]. intros c. by rewrite bool_decide_false by (by intros ?%elem_of_nil). }
  apply list.NoDup_cons in Hnd as [Ha Hnd]. cbn [retain_send].
  assert (∃ ok cs1, send_event e cs a = (ok, cs1) ∧
    ok = (match cs !! a with Some ch => ch_alive ch | None => false end) ∧
    (∀ c, c ≠ a → cs1 !! c = cs !! c) ∧
    cs1 !! a = (λ ch, if ch_alive ch then Chan (ch_queue ch ++ [e]) true else ch) <$> cs !! a)
    as (ok & cs1 & Hs & -> & Hother & Hself).
  { unfold send_event. destruct (cs !! a) as [ch|] eqn:Hca; simpl.
    - destruct (ch_alive ch) eqn:Hal.
      + eexists _, _. split_and!; [done..| |by rewrite lookup_insert_eq].
        intros c Hc. by rewrite lookup_insert_ne.
      + by eexists _, _.
    - by eexists _, _. }
  rewrite Hs. destruct (IH cs1 Hnd) as [IH1 IH2].
  destruct (retain_send e ls cs1) as [kept cs2]. simpl in IH1, IH2. cbn [fst snd]. split.
  - assert (kept = filter (λ c, match cs !! c with Some ch => ch_alive ch | None => false end = true) ls) as ->.
    { rewrite IH1. apply filter_ext_elem. intros c Hc.
      rewrite Hother; [done|]. by intros ->. }
    rewrite filter_cons. destruct (cs !! a) as [ch|]; [|done]. by destruct (ch_alive ch).
  - intros c. rewrite IH2. destruct (decide (c = a)) as [->|Hne].
    + rewrite bool_decide_false by done. rewrite bool_decide_true by (rewrite elem_of_cons; auto). done.
    + rewrite Hother by done.
      assert (bool_decide (c ∈ ls) = bool_decide (c ∈ a :: ls)) as ->; [|done].
      apply bool_decide_ext. rewrite elem_of_cons. tauto.
Qed.

(** ** What listeners see *)

Lemma post_listeners e b : bus_wf b →
  listeners (post e b) = filter (λ c, alive b c = true) (listeners b).
Proof.
  intros (Hnd & _ & _). unfold post. destruct (retain_send_spec e (listeners b) (channels b) Hnd) as [H1 _].
  destruct (retain_send _ _ _) as [ls cs]. exact H1.
Qed.

Lemma post_channel e b c : bus_wf b →
  channels (post e b) !! c =
    (λ ch, if ch_alive ch then Chan (ch_queue ch ++ [e]) true else ch) <$> channels b !! c.
Proof.
  intros (Hnd & _ & Hal). unfold post.
  destruct (retain_send_spec e (listeners b) (channels b) Hnd) as [_ H2].
  destruct (retain_send _ _ _) as [ls cs]. simpl in *. rewrite H2.
  case_bool_decide as Hin; [done|]. destruct (channels b !! c) as [[q []]|] eqn:Hc; try done.
  exfalso. apply Hin, Hal. unfold alive. by rewrite Hc.
Qed.

Lemma alive_post e b c : bus_wf b → alive (post e b) c = alive b c.
Proof.
  intros Hwf. unfold alive. rewrite post_channel by done.
  destruct (channels b !! c) as [[q []]|]; done.
Qed.

Inductive bus_op : Type :=
| OpRegister
| OpPost (e : TunnelEvent)
| OpRecv (c : nat)
| OpDrop (c : nat).

(** Run one operation; what a receiver got is recorded. *)
Definition bus_step (o : bus_op) (b : event_bus) : list (nat * TunnelEvent) * event_bus :=
  match o with
  | OpRegister => ([], (register b).2)
  | OpPost e => ([], post e b)
  | OpRecv c => match recv_event c b with (Some e, b) => ([(c, e)], b) | (None, b) => ([], b) end
  | OpDrop c => ([], drop_receiver c b)
  end.

Fixpoint bus_run (os : list bus_op) (b : event_bus) : list (nat * TunnelEvent) * event_bus :=
  match os with
  | [] => ([], b)
  | o :: os' =>
      let (got, b) := bus_step o b in
      let (got', b) := bus_run os' b in (got ++ got', b)
  end.

Lemma bus_step_wf o b : bus_wf b → bus_wf (bus_step o b).2.
Proof.
  intros Hwf. pose proof Hwf as (Hnd & Hex & Hal). destruct o as [|e|c|c]; cbn [bus_step snd].
  - unfold register. cbn [snd]. set (c := fresh _).
    assert (channels b !! c = None) as Hc by apply not_elem_of_dom, is_fresh.
    assert (c ∉ listeners b) as Hcl by (intros Hin; apply Hex in Hin as [? Hin]; by rewrite Hc in Hin).
    split_and!; cbn [listeners channels].
    + apply list.NoDup_app. split_and!; [done| |apply NoDup_singleton].
      intros x Hx ->%list_elem_of_singleton. done.
    + intros d. rewrite elem_of_app, list_elem_of_singleton. intros Hd.
      destruct (decide (d = c)) as [->|Hne]; [by rewrite lookup_insert_eq|].
      rewrite lookup_insert_ne by done. destruct Hd as [Hd|]; [by apply Hex|done].
    + intros d Hd. rewrite elem_of_app, list_elem_of_singleton.
      destruct (decide (d = c)) as [->|Hne]; [auto|]. left. apply Hal.
      unfold alive in *. simpl in Hd. by rewrite lookup_insert_ne in Hd.
  - split_and!.
    + rewrite post_listeners by done. by apply list.NoDup_filter.
    + intros c. rewrite post_listeners, list_elem_of_filter by done. intros [_ Hc].
      rewrite post_channel by done. apply Hex in Hc as [ch ->]. by eexists.
    + intros c. rewrite alive_post, post_listeners, list_elem_of_filter by done. auto.
  - unfold recv_event. destruct (channels b !! c) as [[[|e q] a]|] eqn:Hc; cbn [snd]; try done.
    split_and!; cbn [listeners channels]; [done| |].
    + intros d Hd. destruct (decide (d = c)) as [->|Hne]; [by rewrite lookup_insert_eq|].
      rewrite lookup_insert_ne by done. auto.
    + intros d Hd. apply Hal. unfold alive in *. simpl in Hd. destruct (decide (d = c)) as [->|Hne].
      * by rewrite lookup_insert_eq in Hd; rewrite Hc.
      * by rewrite lookup_insert_ne in Hd.
  - unfold drop_receiver. split_and!; cbn [listeners channels]; [done| |].
    + intros d Hd. rewrite lookup_alter. destruct (decide _); [|by auto].
      apply Hex in Hd as [ch Hch]. subst. rewrite Hch. by eexists.
    + intros d Hd. apply Hal. unfold alive in *. simpl in Hd. rewrite lookup_alter in Hd.
      destruct (decide _); [|done]. subst. by destruct (channels b !! d).
Qed.

(** Events posted by a run, and those received on a channel. *)
Definition posted (os : list bus_op) : list TunnelEvent :=
  os ≫= λ o, match o with OpPost e => [e] | _ => [] end.
Definition received (c : nat) (got : list (nat * TunnelEvent)) : list TunnelEvent :=
  got ≫= λ x, if bool_decide (x.1 = c) then [x.2] else [].

Lemma bus_step_channel o b c q : bus_wf b → channels b !! c = Some (Chan q true) → o ≠ OpDrop c →
  ∃ q', channels (bus_step o b).2 !! c = Some (Chan q' true) ∧
    q ++ posted [o] = received c (bus_step o b).1 ++ q'.
Proof.
  intros Hwf Hc Ho. destruct o as [|e|d|d]; cbn [bus_step snd fst].
  - exists q. split; [|by rewrite app_nil_r]. unfold register. cbn [snd channels].
    rewrite lookup_insert_ne; [done|]. intros Heq.
    assert (channels b !! fresh (dom (channels b)) = None) as Hn by apply not_elem_of_dom, is_fresh.
    by rewrite Heq, Hc in Hn.
  - exists (q ++ [e]). by rewrite post_channel, Hc.
  - unfold recv_event. destruct (channels b !! d) as [[[|e qd] a]|] eqn:Hd; cbn [snd fst channels];
      try (exists q; by rewrite app_nil_r).
    destruct (decide (d = c)) as [->|Hne].
    + rewrite Hd in Hc. simplify_eq. exists qd. rewrite lookup_insert_eq. split; [done|].
      unfold received. simpl. rewrite bool_decide_true by done. by rewrite app_nil_r.
    + exists q. rewrite lookup_insert_ne by done. split; [done|].
      unfold received. simpl. rewrite bool_decide_false by done. by rewrite app_nil_r.
  - exists q. rewrite app_nil_r. split; [|done]. unfold drop_receiver. cbn [channels].
    rewrite lookup_alter_ne; [done|]. intros ->. done.
Qed.

(** C27: The bus loses nothing.  Whatever else happens (other listeners
    registering, receiving, going away, any number of posts without anybody
    receiving), a listener that keeps its receiver gets exactly the events
    posted since it registered, in order: those it received followed by those
    still queued for it. *)
Theorem event_bus_lossless b os :
  bus_wf b →
  let c := (register b).1 in
  OpDrop c ∉ os →
  ∃ q, channels (bus_run os (register b).2).2 !! c = Some (Chan q true) ∧
    posted os = received c (bus_run os (register b).2).1 ++ q.
Proof.
  intros Hwf c Hos. pose proof (bus_step_wf OpRegister b Hwf) as Hwf'. cbn [bus_step snd] in Hwf'.
  assert (channels (register b).2 !! c = Some (Chan [] true)) as Hc
    by (unfold register; simpl; by rewrite lookup_insert_eq).
  clearbody c. revert Hc Hwf'. generalize (register b).2. intros b' Hc Hwf'.
  assert (∀ q, channels b' !! c = Some (Chan q true) →
    ∃ q', channels (bus_run os b').2 !! c = Some (Chan q' true) ∧
      q ++ posted os = received c (bus_run os b').1 ++ q') as Hgen; [|by apply (Hgen [])].
  clear Hc. revert b' Hwf'. induction os as [|o os IH]; intros b' Hwf' q Hq.
  { exists q. simpl. by rewrite app_nil_r. }
  rewrite elem_of_cons in Hos. cbn [bus_run].
  destruct (bus_step_channel o b' c q Hwf' Hq) as (q1 & Hq1 & Heq1); [naive_solver|].
  pose proof (bus_step_wf o b' Hwf') as Hwf1. destruct (bus_step o b') as [got b1]. simpl in *.
  destruct (IH ltac:(tauto) b1 Hwf1 q1 Hq1) as (q2 & Hq2 & Heq2).
  destruct (bus_run os b1) as [got' b2]. simpl in *. exists q2. split; [done|].
  unfold received in *. rewrite bind_app, <-app_assoc, <-Heq2. unfold posted in *. simpl in *.
  rewrite app_nil_r in Heq1. by rewrite app_assoc, Heq1, <-app_assoc.
Qed.

Definition sample_event (msg : string) : TunnelEvent :=
  tunnel_event_new (EvLog msg) "2025-01-01 00:00:00.000"%string (MkDescriptor (IdNetwork 1) Tcp ModeOut).

Lemma event_bus_lossless_witness :
  ∃ q, channels (bus_run [OpPost (sample_event "a"); OpRecv 0; OpRegister; OpPost (sample_event "b"); OpDrop 1]
                   (register bus_new).2).2 !! 0%nat = Some (Chan q true) ∧
    [sample_event "a"; sample_event "b"] =
      received 0 (bus_run [OpPost (sample_event "a"); OpRecv 0; OpRegister; OpPost (sample_event "b"); OpDrop 1]
                   (register bus_new).2).1 ++ q.
Proof.
  apply (event_bus_lossless bus_new
    [OpPost (sample_event "a"); OpRecv 0; OpRegister; OpPost (sample_event "b"); OpDrop 1]).
  - split_and!; [constructor|by intros ? ?%elem_of_nil|]. intros c Hc. unfold alive in Hc. simpl in Hc.
    by rewrite lookup_empty in Hc.
  - rewrite !elem_of_cons. intros Hin. destruct_or! Hin; try done. by apply elem_of_nil in Hin.
Defined.
