(* ===== verification/EventJson.v ===== *)
(** The JSON form of tunnel events, [TunnelEvent::to_json] of
    [src/src/tunnel_event_bus.rs]: what the [Serialize] derives of the event
    types stand for, and that a reader gets back the event that was posted.

    [serde_json] itself is a parameter, the class [SerdeJson]: a writer of JSON
    texts, and a reader of the other side that gives back the written value up to
    the order of the members of objects, which JSON leaves open. *)
From Stdlib Require Import Ascii.
From S2P Require Import Prelude Net AddrText EventBus.

#[local] Set Warnings "-register-all".
#[local] Open Scope string_scope.
#[local] Open Scope Z_scope.

(** * JSON values *)

Inductive json : Type :=
| JNull
| JNum (n : Z)
| JStr (s : string)
| JObj (members : list (string * json)).

(** Induction with the hypothesis for every member of an object. *)
Lemma json_nested_ind (P : json → Prop) :
  P JNull → (∀ n, P (JNum n)) → (∀ s, P (JStr s)) →
  (∀ fs, Forall (λ p, P p.2) fs → P (JObj fs)) → ∀ v, P v.
Proof.
  intros Hnull Hnum Hstr Hobj. fix IH 1. intros [|n|s|fs]; [done..|].
  apply Hobj. induction fs as [|[k v] fs IHfs]; constructor; auto.
Qed.

(** What a derived [Serialize] produces for the event types: numbers are
    unsigned and at most 64 bits wide, no object has a member twice. *)
Inductive json_wf : json → Prop :=
| wf_null : json_wf JNull
| wf_num n : in_u 64 n → json_wf (JNum n)
| wf_str s : json_wf (JStr s)
| wf_obj fs : NoDup fs.*1 → Forall (λ p, json_wf p.2) fs → json_wf (JObj fs).

(** Equality up to the order of the members. *)
Inductive json_eq : json → json → Prop :=
| eq_null : json_eq JNull JNull
| eq_num n : json_eq (JNum n) (JNum n)
| eq_str s : json_eq (JStr s) (JStr s)
| eq_obj fs gs hs :
    Permutation fs gs → Forall2 (λ p q, p.1 = q.1 ∧ json_eq p.2 q.2) gs hs →
    json_eq (JObj fs) (JObj hs).

#[export] Instance json_eq_refl : Reflexive json_eq.
Proof.
  intros v. induction v as [|n|s|fs IH] using json_nested_ind; try constructor.
  apply (eq_obj _ fs); [done|]. induction IH; constructor; auto.
Qed.

(** [serde_json]: [to_string] accepts every such value, and the text reads back
    as the value. *)
Class SerdeJson : Type := {
  json_error : Type;
  json_to_string : json → result json_error string;
  json_read : string → option json;
  json_read_written v : json_wf v →
    ∃ s v', json_to_string v = Ok s ∧ json_read s = Some v' ∧ json_eq v v'
}.

(** * The derived representation *)

(** A unit variant is its name. *)
Definition state_name (s : TunnelState) : string :=
  match s with
  | Connecting => "Connecting" | Connected => "Connected"
  | Tunneling => "Tunneling" | Reconnecting => "Reconnecting"
  end.

Definition proto_name (t : UpstreamType) : string := match t with Tcp => "Tcp" | Udp => "Udp" end.
Definition mode_name (m : TunnelMode) : string := match m with ModeIn => "In" | ModeOut => "Out" end.

(** [rename_all = "snake_case"]. *)
Definition source_name (s : TunnelSource) : string :=
  match s with SourceNetwork => "network" | SourceChannel => "channel" end.

Definition stat_json (t : TunnelStat) : json :=
  JObj [("rx_bytes", JNum (rx_bytes t)); ("tx_bytes", JNum (tx_bytes t));
        ("tx_dgrams", JNum (tx_dgrams t)); ("rx_dgrams", JNum (rx_dgrams t));
        ("sent_packets", JNum (sent_packets t)); ("lost_packets", JNum (lost_packets t));
        ("lost_bytes", JNum (lost_bytes t)); ("congestion_events", JNum (congestion_events t));
        ("active_conns", JNum (active_conns t)); ("rtt_ms", JNum (rtt_ms t));
        ("cwnd_bytes", JNum (cwnd_bytes t)); ("current_mtu", JNum (current_mtu t));
        ("black_holes", JNum (black_holes t))].

(** [tag = "type", content = "data"]: the two members of the event type. *)
Definition event_type_json (ty : TunnelEventType) : list (string * json) :=
  match ty with
  | EvState s => [("type", JStr "state"); ("data", JStr (state_name s))]
  | EvLog msg => [("type", JStr "log"); ("data", JStr msg)]
  | EvStat t => [("type", JStr "stat"); ("data", stat_json t)]
  end.

Definition info_json (i : TunnelInfo) : json :=
  JObj [("source", JStr (source_name (ti_source i)));
        ("id", match ti_id i with Some n => JNum n | None => JNull end);
        ("proto", JStr (proto_name (ti_proto i)));
        ("mode", JStr (mode_name (ti_mode i)))].

(** The event type is flattened into the event; [tunnel] is left out when it is
    [None]. *)
Definition event_json (e : TunnelEvent) : json :=
  JObj (event_type_json (event_type e) ++ [("timestamp", JStr (timestamp e))]
          ++ match tunnel e with Some i => [("tunnel", info_json i)] | None => [] end)%list.

Definition to_json `{SerdeJson} (e : TunnelEvent) : result json_error string :=
  json_to_string (event_json e).

(** * Reading an event back *)

Fixpoint assoc {A} (k : string) (l : list (string * A)) : option A :=
  match l with
  | [] => None
  | (k', v) :: l' => if decide (k = k') then Some v else assoc k l'
  end.

Definition get (k : string) (v : json) : option json :=
  match v with JObj fs => assoc k fs | _ => None end.

Definition read_num (v : json) : option Z := match v with JNum n => Some n | _ => None end.
Definition read_str (v : json) : option string := match v with JStr s => Some s | _ => None end.
Definition read_opt_num (v : json) : option (option Z) :=
  match v with JNull => Some None | JNum n => Some (Some n) | _ => None end.

Definition read_variant {A} (names : list (string * A)) (v : json) : option A :=
  read_str v ≫= λ s, assoc s names.

Definition states := [("Connecting", Connecting); ("Connected", Connected);
                      ("Tunneling", Tunneling); ("Reconnecting", Reconnecting)].

Definition read_stat (v : json) : option TunnelStat :=
  rx ← get "rx_bytes" v ≫= read_num; tx ← get "tx_bytes" v ≫= read_num;
  txd ← get "tx_dgrams" v ≫= read_num; rxd ← get "rx_dgrams" v ≫= read_num;
  sp ← get "sent_packets" v ≫= read_num; lp ← get "lost_packets" v ≫= read_num;
  lb ← get "lost_bytes" v ≫= read_num; ce ← get "congestion_events" v ≫= read_num;
  ac ← get "active_conns" v ≫= read_num; rtt ← get "rtt_ms" v ≫= read_num;
  cw ← get "cwnd_bytes" v ≫= read_num; mtu ← get "current_mtu" v ≫= read_num;
  bh ← get "black_holes" v ≫= read_num;
  Some (MkStat rx tx txd rxd sp lp lb ce ac rtt cw mtu bh).

Definition read_data (ty : string) (d : json) : option TunnelEventType :=
  if decide (ty = "state") then EvState <$> read_variant states d
  else if decide (ty = "log") then EvLog <$> read_str d
  else if decide (ty = "stat") then EvStat <$> read_stat d
  else None.

Definition read_info (v : json) : option TunnelInfo :=
  source ← get "source" v ≫= read_variant [("network", SourceNetwork); ("channel", SourceChannel)];
  id ← get "id" v ≫= read_opt_num;
  proto ← get "proto" v ≫= read_variant [("Tcp", Tcp); ("Udp", Udp)];
  mode ← get "mode" v ≫= read_variant [("In", ModeIn); ("Out", ModeOut)];
  Some (MkInfo source id proto mode).

Definition read_event (v : json) : option TunnelEvent :=
  ty ← get "type" v ≫= read_str;
  event_type ← get "data" v ≫= read_data ty;
  timestamp ← get "timestamp" v ≫= read_str;
  info ← match get "tunnel" v with Some i => Some <$> read_info i | None => Some None end;
  Some (MkEvent event_type timestamp info).

(** ** Readers do not see the order of members *)

Definition respects {A} (f : json → A) : Prop := ∀ v v', json_wf v → json_eq v v' → f v = f v'.

Lemma assoc_perm {A} k (fs gs : list (string * A)) :
  Permutation fs gs → NoDup fs.*1 → assoc k fs = assoc k gs.
Proof.
  induction 1 as [|[a v] fs gs _ IH|[a v] [b w] fs|fs gs hs H1 IH1 _ IH2]; cbn [fmap list_fmap fst];
    intros Hnd; [done|..].
  - apply list.NoDup_cons in Hnd as [_ Hnd]. cbn [assoc]. by rewrite IH.
  - apply list.NoDup_cons in Hnd as [Hb%not_elem_of_cons _].
    cbn [assoc]. destruct (decide (k = a)), (decide (k = b)); subst; [by destruct Hb|done..].
  - rewrite IH1, IH2; [done| |done]. by rewrite <- H1.
Qed.

Lemma get_respects k v v' :
  json_wf v → json_eq v v' →
  (get k v = None ∧ get k v' = None) ∨
  ∃ w w', get k v = Some w ∧ get k v' = Some w' ∧ json_wf w ∧ json_eq w w'.
Proof.
  intros Hwf Heq. destruct Heq as [| | |fs gs hs Hp Hf]; [by left..|].
  inversion Hwf as [| | |? Hnd Hall]; subst. cbn [get]. rewrite (assoc_perm k fs gs) by done.
  rewrite Hp in Hall. clear Hp Hnd Hwf fs. induction Hf as [|[a v] [b w] gs hs [Hab Hvw] Hf IH]; [by left|].
  apply list.Forall_cons in Hall as [Hv Hall]. simpl in *. subst b.
  case_decide; [right; by exists v, w|auto].
Qed.

Create HintDb json.

Lemma respects_get {A} k (f : json → option A) : respects f → respects (λ v, get k v ≫= f).
Proof.
  intros Hf v v' Hwf Heq. destruct (get_respects k v v' Hwf Heq) as [[-> ->]|(w & w' & -> & -> & ? & ?)]; [done|].
  by apply Hf.
Qed.

Lemma respects_bind {A B} (f : json → option A) (g : A → json → option B) :
  respects f → (∀ a, respects (g a)) → respects (λ v, f v ≫= λ a, g a v).
Proof. intros Hf Hg v v' Hwf Heq. rewrite (Hf v v') by done. destruct (f v'); [by apply Hg|done]. Qed.

Lemma respects_fmap {A B} (h : A → B) (f : json → option A) : respects f → respects (λ v, h <$> f v).
Proof. intros Hf v v' Hwf Heq. by rewrite (Hf v v'). Qed.

Lemma respects_const {A} (a : A) : respects (λ _, a).
Proof. by intros v v'. Qed.

Lemma respects_num : respects read_num.
Proof. intros v v' _ []; done. Qed.
Lemma respects_str : respects read_str.
Proof. intros v v' _ []; done. Qed.
Lemma respects_opt_num : respects read_opt_num.
Proof. intros v v' _ []; done. Qed.
Lemma respects_variant {A} (names : list (string * A)) : respects (read_variant names).
Proof. intros v v' Hwf Heq. unfold read_variant. by rewrite (respects_str v v'). Qed.

#[export] Hint Resolve respects_get respects_bind respects_fmap respects_const respects_num respects_str
  respects_opt_num respects_variant : json.

Lemma respects_stat : respects read_stat.
Proof. unfold read_stat. repeat (apply respects_bind; [auto with json|intros ?]). auto with json. Qed.

Lemma respects_data ty : respects (read_data ty).
Proof.
  pose proof respects_stat. unfold read_data. repeat case_decide; auto with json.
Qed.

Lemma respects_info : respects read_info.
Proof. unfold read_info. repeat (apply respects_bind; [auto with json|intros ?]). auto with json. Qed.

Lemma respects_event : respects read_event.
Proof.
  pose proof respects_data. unfold read_event.
  repeat (apply respects_bind; [auto with json|intros ?]); [|auto with json].
  intros v v' Hwf Heq.
  destruct (get_respects "tunnel" v v' Hwf Heq) as [[-> ->]|(w & w' & -> & -> & ? & ?)]; [done|].
  by rewrite (respects_info w w').
Qed.

(** * Round trip *)

(** The ranges of the Rust types. *)
Record stat_wf (t : TunnelStat) : Prop := {
  wf_rx_bytes : in_u 64 (rx_bytes t); wf_tx_bytes : in_u 64 (tx_bytes t);
  wf_tx_dgrams : in_u 64 (tx_dgrams t); wf_rx_dgrams : in_u 64 (rx_dgrams t);
  wf_sent : in_u 64 (sent_packets t); wf_lost : in_u 64 (lost_packets t);
  wf_lost_bytes : in_u 64 (lost_bytes t); wf_congestion : in_u 64 (congestion_events t);
  wf_active : in_u 32 (active_conns t); wf_rtt : in_u 64 (rtt_ms t);
  wf_cwnd : in_u 64 (cwnd_bytes t); wf_mtu : in_u 16 (current_mtu t);
  wf_black_holes : in_u 64 (black_holes t)
}.

Definition event_wf (e : TunnelEvent) : Prop :=
  match event_type e with EvStat t => stat_wf t | _ => True end ∧
  match tunnel e with Some (MkInfo _ (Some id) _ _) => in_u 64 id | _ => True end.

Lemma in_u_mono w w' z : 0 <= w <= w' → in_u w z → in_u w' z.
Proof. intros Hw [H1 H2]. pose proof (Z.pow_le_mono_r 2 w w'). split; lia. Qed.

(** Solves [json_wf] of an object member by member; the names are compared by
    evaluation. *)
Ltac wf_members :=
  repeat lazymatch goal with
  | |- json_wf (JObj _) => apply wf_obj; [apply (bool_decide_unpack _); by vm_compute|]
  | |- json_wf (JNum _) => apply wf_num; try done
  | |- json_wf (JStr _) => apply wf_str
  | |- json_wf JNull => apply wf_null
  | |- Forall _ (_ :: _) => apply list.Forall_cons; split; cbn [snd]
  | |- Forall _ [] => by apply list.Forall_nil
  end.

Lemma stat_json_wf t : stat_wf t → json_wf (stat_json t).
Proof.
  intros []. assert (in_u 64 (active_conns t)) by (eapply in_u_mono; [|done]; lia).
  assert (in_u 64 (current_mtu t)) by (eapply in_u_mono; [|done]; lia).
  unfold stat_json. wf_members.
Qed.

Lemma info_json_wf i : (∀ n, ti_id i = Some n → in_u 64 n) → json_wf (info_json i).
Proof.
  intros Hid. unfold info_json. destruct i as [s [id|] p m]; cbn in *; wf_members. by apply Hid.
Qed.

Lemma event_json_wf e : event_wf e → json_wf (event_json e).
Proof.
  destruct e as [ty ts tn]. intros [Hty Htn]. simpl in *. constructor.
  - destruct ty, tn; apply (bool_decide_unpack _); by vm_compute.
  - cbn [event_type timestamp tunnel]. rewrite !list.Forall_app. split_and!.
    + destruct ty; cbn; wf_members. by apply stat_json_wf.
    + wf_members.
    + destruct tn as [i|]; wf_members. apply info_json_wf. destruct i as [? [] ? ?]; naive_solver.
Qed.

Lemma read_event_json e : read_event (event_json e) = Some e.
Proof.
  destruct e as [[[]|msg|[]] ts [[[] [id|] [] []]|]]; reflexivity.
Qed.

(** C28: What a listener prints is what happened: the JSON form of every event, its
    type and data tagged and flattened into the event, its statistics, its time
    stamp and the tunnel it is about, is produced without an error and reads back
    as exactly that event, in whatever order the reader keeps the members. *)
Theorem event_json_roundtrip `{SerdeJson} e :
  event_wf e →
  ∃ s v, to_json e = Ok s ∧ json_read s = Some v ∧ read_event v = Some e.
Proof.
  intros Hwf%event_json_wf. destruct (json_read_written (event_json e) Hwf) as (s & v & Hs & Hr & Heq).
  exists s, v. split_and!; [done..|]. by rewrite <- (respects_event (event_json e) v), read_event_json.
Qed.

(** ** A concrete writer and reader of compact JSON *)
Module CompactJson.

Definition dquote : ascii := "034"%char.

(** A quote and a backslash are escaped by a backslash, a control character by
    its number. *)
Definition escape (c : ascii) : string :=
  let b := byte_of_ascii c in
  if Ascii.eqb c dquote || Ascii.eqb c "\"%char then String "\"%char (String c "")
  else if b <? 32 then "\u00" +:+ String (digit_char (b / 16)) (String (digit_char (b mod 16)) "")
  else String c "".

Fixpoint escape_all (s : string) : string :=
  match s with EmptyString => "" | String c s' => escape c +:+ escape_all s' end.

Definition quoted (s : string) : string := String dquote (escape_all s +:+ String dquote "").

Section Members.
Variable print : json → string.
Fixpoint print_members (first : bool) (fs : list (string * json)) : string :=
  match fs with
  | [] => "}"
  | (k, v) :: fs' =>
      (if first then "" else ",") +:+ quoted k +:+ ":" +:+ print v +:+ print_members false fs'
  end.
End Members.

Fixpoint print (v : json) : string :=
  match v with
  | JNull => "null"
  | JNum n => display_uint n
  | JStr s => quoted s
  | JObj fs => "{" +:+ print_members print true fs
  end.

Definition hex_value (h l : ascii) : ascii :=
  ascii_of_byte (default 0 (to_digit 16 h) * 16 + default 0 (to_digit 16 l)).

Definition prepend (c : ascii) (r : option (string * string)) : option (string * string) :=
  match r with Some (s, rest) => Some (String c s, rest) | None => None end.

(** The text after the opening quote. *)
Fixpoint read_quoted (s : string) : option (string * string) :=
  match s with
  | EmptyString => None
  | String c s' =>
      if Ascii.eqb c dquote then Some ("", s')
      else if Ascii.eqb c "\"%char then
        match s' with
        | String "u"%char (String _ (String _ (String h (String l s'')))) =>
            prepend (hex_value h l) (read_quoted s'')
        | String e s'' => prepend e (read_quoted s'')
        | EmptyString => None
        end
      else prepend c (read_quoted s')
  end.

(** The fuel bounds the number of values and members. *)
Fixpoint read_value (fuel : nat) (s : string) : option (json * string) :=
  match fuel with
  | O => None
  | S f =>
      match s with
      | String c s' =>
          if Ascii.eqb c dquote then '(t, rest) ← read_quoted s'; Some (JStr t, rest)
          else if Ascii.eqb c "{"%char then '(fs, rest) ← read_members f true s'; Some (JObj fs, rest)
          else if Ascii.eqb c "n"%char then rest ← strip_prefix "ull" s'; Some (JNull, rest)
          else '(n, rest) ← read_number 10 (umax 64) None true s; Some (JNum n, rest)
      | EmptyString => None
      end
  end
with read_members (fuel : nat) (first : bool) (s : string) : option (list (string * json) * string) :=
  match fuel with
  | O => None
  | S f =>
      match s with
      | String "}"%char rest => Some ([], rest)
      | _ =>
          s ← (if first then Some s else read_given_char ","%char s);
          s ← read_given_char dquote s;
          '(k, s) ← read_quoted s;
          s ← read_given_char ":"%char s;
          '(v, s) ← read_value f s;
          '(fs, s) ← read_members f false s;
          Some ((k, v) :: fs, s)
      end
  end.

Definition read (s : string) : option json :=
  match read_value (String.length s) s with
  | Some (v, EmptyString) => Some v
  | _ => None
  end.

(** *** Reading what was printed *)

Lemma read_quoted_escape c rest : read_quoted (escape c +:+ rest) = prepend c (read_quoted rest).
Proof. destruct c as [[] [] [] [] [] [] [] []]; reflexivity. Qed.

Lemma read_quoted_all s rest : read_quoted (escape_all s +:+ String dquote rest) = Some (s, rest).
Proof.
  induction s as [|c s IH]; [done|]. cbn [escape_all]. by rewrite string_app_assoc, read_quoted_escape, IH.
Qed.

Lemma show_digits_app radix fuel z acc : show_digits radix fuel z acc = show_digits radix fuel z "" +:+ acc.
Proof.
  revert z acc. induction fuel as [|f IH]; intros z acc; [done|]. cbn [show_digits].
  case_match; [done|]. rewrite IH, (IH _ (String _ "")), string_app_assoc. done.
Qed.

(** What may follow a number. *)
Definition ends_number (rest : string) : Prop :=
  match rest with String c _ => to_digit 10 c = None | EmptyString => True end.

Lemma read_number_display n rest :
  in_u 64 n → ends_number rest →
  read_number 10 (umax 64) None true (display_uint n +:+ rest) = Some (n, rest).
Proof.
  intros Hn Hrest. unfold in_u in Hn. unfold read_number, display_uint. rewrite <- show_digits_app.
  rewrite read_show_digits; [|split; [lia|]|lia|rewrite Z.mul_0_l; unfold umax; lia].
  2: { apply Z.lt_trans with (2 ^ 64); [lia|done]. }
  rewrite Z.mul_0_l, Z.add_0_l, Nat.add_0_l. pose proof (num_digits_pos 39 n) as Hp.
  assert (read_digits 10 (umax 64) None (num_digits 40 n) n rest = Some (num_digits 40 n, n, rest)) as ->.
  { destruct rest as [|c rest]; [done|]. cbn [read_digits]. simpl in Hrest. by rewrite Hrest. }
  by destruct (num_digits 40 n); [lia|].
Qed.

Lemma show_digits_head fuel z acc :
  ∃ d s, 0 <= d < 10 ∧ show_digits 10 (S fuel) z acc = String (digit_char d) s.
Proof.
  revert z acc. induction fuel as [|f IH]; intros z acc; cbn [show_digits];
    pose proof (Z.mod_pos_bound z 10 ltac:(lia)); (destruct (z / 10 =? 0); [by eauto|]); [by eauto|apply IH].
Qed.

Lemma display_uint_head n : ∃ d s, 0 <= d < 10 ∧ display_uint n = String (digit_char d) s.
Proof. apply show_digits_head. Qed.

Lemma digit_not c d : to_digit 10 c = None → 0 <= d < 10 → Ascii.eqb (digit_char d) c = false.
Proof.
  intros Hc Hd. apply Ascii.eqb_neq. intros <-. rewrite to_digit_digit_char in Hc by lia. done.
Qed.

(** Values and members of a value. *)
Fixpoint weight (v : json) : nat :=
  match v with
  | JObj fs => S (foldr (λ p n, S (weight p.2 + n)) 1%nat fs)
  | _ => 1
  end.

Definition reads_back (v : json) : Prop := ∀ fuel rest,
  (weight v <= fuel)%nat → ends_number rest → read_value fuel (print v +:+ rest) = Some (v, rest).

Lemma quoted_app k rest : quoted k +:+ rest = String dquote (escape_all k +:+ String dquote rest).
Proof. unfold quoted. by rewrite string_app_cons, string_app_assoc. Qed.

Lemma read_value_num n : in_u 64 n → reads_back (JNum n).
Proof.
  intros Hn [|fuel] rest Hf Hrest; [simpl in Hf; lia|]. cbn [print read_value].
  pose proof (read_number_display n rest Hn Hrest) as Hread.
  destruct (display_uint_head n) as (d & s & Hd & Heq). rewrite Heq in *. rewrite string_app_cons in *.
  rewrite !digit_not, Hread by done. done.
Qed.

Lemma read_value_str s : reads_back (JStr s).
Proof.
  intros [|fuel] rest Hf _; [simpl in Hf; lia|]. cbn [print read_value].
  rewrite quoted_app. cbn [Ascii.eqb]. by rewrite read_quoted_all.
Qed.

(** A member after its separator and the opening quote of its name. *)
Definition read_member (f : nat) (s : string) : option (list (string * json) * string) :=
  '(k, s) ← read_quoted s;
  s ← read_given_char ":"%char s;
  '(v, s) ← read_value f s;
  '(fs, s) ← read_members f false s;
  Some ((k, v) :: fs, s).

Lemma read_members_member f first s :
  read_members (S f) first ((if first then "" else ",") +:+ String dquote s) = read_member f s.
Proof. by destruct first. Qed.

Lemma read_members_printed fs : Forall (λ p, reads_back p.2) fs →
  ∀ fuel first rest, (foldr (λ p n, S (weight p.2 + n)) 1 fs <= fuel)%nat →
  read_members fuel first (print_members print first fs +:+ rest) = Some (fs, rest).
Proof.
  induction 1 as [|[k v] fs Hv _ IH]; intros [|fuel] first rest Hf; simpl in Hf; [lia|done|lia|].
  assert (Hrest : ends_number (print_members print false fs +:+ rest)) by (by destruct fs as [|[]]).
  cbn [print_members]. rewrite !string_app_assoc, quoted_app, read_members_member. unfold read_member.
  rewrite read_quoted_all. cbn [mbind option_bind]. rewrite string_app_cons, string_app_nil.
  cbn [read_given_char Ascii.eqb Bool.eqb mbind option_bind snd] in *. rewrite Hv; [|lia|done].
  cbn [mbind option_bind]. by rewrite IH by lia.
Qed.

Lemma print_reads_back v : json_wf v → reads_back v.
Proof.
  induction v as [|n|s|fs IH] using json_nested_ind; intros Hwf; inversion Hwf as [| | |? _ Hall]; subst.
  - by intros [|fuel] rest Hf _; [simpl in Hf; lia|].
  - by apply read_value_num.
  - apply read_value_str.
  - intros [|fuel] rest Hf _; [simpl in Hf; lia|]. cbn [print].
    rewrite string_app_assoc, string_app_cons, string_app_nil. simpl in Hf.
    cbn [read_value Ascii.eqb Bool.eqb]. rewrite read_members_printed; [done| |lia].
    apply list.Forall_forall. intros p Hp. rewrite list.Forall_forall in IH, Hall. auto.
Qed.

Lemma length_string_app (a b : string) : String.length (a +:+ b) = (String.length a + String.length b)%nat.
Proof. induction a as [|c a IH]; [done|]. rewrite string_app_cons. simpl. by rewrite IH. Qed.

Lemma weight_print v : (weight v <= String.length (print v))%nat.
Proof.
  induction v as [|n|s|fs IH] using json_nested_ind; cbn [weight print]; [simpl; lia| |simpl; lia|].
  { destruct (display_uint_head n) as (d & s & _ & ->). simpl. lia. }
  rewrite length_string_app. cbn [String.length]. apply le_n_S.
  generalize true. induction IH as [|[k v] fs Hv _ IHfs]; intros first; [simpl; lia|].
  cbn [foldr print_members]. rewrite !length_string_app. specialize (IHfs false). simpl in *. lia.
Qed.

Lemma string_app_empty (s : string) : s +:+ "" = s.
Proof. induction s as [|c s IH]; [done|]. by rewrite string_app_cons, IH. Qed.

#[export] Instance compact_json : SerdeJson.
Proof.
  refine {| json_error := Empty_set; json_to_string := λ v, Ok (print v); json_read := read |}.
  intros v Hwf. exists (print v), v. split_and!; [done| |done].
  unfold read. pose proof (print_reads_back v Hwf _ "" (weight_print v) I) as Hr.
  rewrite string_app_empty in Hr. by rewrite Hr.
Defined.

End CompactJson.

Definition sample_event : TunnelEvent :=
  tunnel_event_new (EvState Tunneling) "12:00" (MkDescriptor (IdChannel 3 Udp) Udp ModeOut).

Definition sample_stat_event : TunnelEvent :=
  tunnel_event_new_without_tunnel (EvStat (MkStat 10 20 1 2 3 0 0 0 4 30 12000 1452 0)) "12:00".

Lemma event_json_roundtrip_witness :
  ∃ s v, @to_json CompactJson.compact_json sample_stat_event = Ok s ∧
    CompactJson.read s = Some v ∧ read_event v = Some sample_stat_event.
Proof.
  apply (@event_json_roundtrip CompactJson.compact_json sample_stat_event).
  split; [|done]. split; split; vm_compute; congruence.
Defined.
