(* ===== verification/Servers.v ===== *)
(** The local listeners [src/src/tcp/tcp_server.rs] and
    [src/src/udp/udp_server.rs].  Each accepts connections or packets and hands
    them to the tunnel through a bounded channel whose receiver the tunnel takes
    while it serves and puts back when it stops. *)
From S2P Require Import Prelude Net.

Definition CHANNEL_CAPACITY : nat := 4.

(** The size of every datagram buffer; what a longer datagram has beyond it is
    discarded by the socket. *)
Definition UDP_PACKET_SIZE : nat := 1500.

(** [StreamRequest] with a stream named by a number, and the two message
    types. *)
Record StreamRequest : Type := MkRequest {
  req_stream : Z;
  req_target : option TunnelTarget
}.

Inductive StreamMessage : Type :=
| SRequest (r : StreamRequest)
| SQuit.

#[export] Instance StreamRequest_eq_dec : EqDecision StreamRequest.
Proof. solve_decision. Defined.
#[export] Instance StreamMessage_eq_dec : EqDecision StreamMessage.
Proof. solve_decision. Defined.

Record UdpPacket : Type := MkPacket {
  payload : list Z;
  local_addr : SocketAddr;
  peer_addr : option TunnelTarget
}.

Inductive UdpMessage : Type :=
| UPacket (p : UdpPacket)
| UQuit.

(** ** The channels

    A bounded [mpsc] channel: sending fails when the receiver is gone, and waits
    while the channel is full. *)
Inductive send_result (A : Type) : Type :=
| SendDone (queue : list A)
| SendClosed
| SendFull.
Arguments SendDone {A} queue.
Arguments SendClosed {A}.
Arguments SendFull {A}.

Definition channel_send {A} (rx_alive : bool) (queue : list A) (m : A) : send_result A :=
  if negb rx_alive then SendClosed
  else if (length queue <? CHANNEL_CAPACITY)%nat then SendDone (queue ++ [m]) else SendFull.

(** ** The TCP listener *)

(** Where the accept loop is: in [accept], in the awaited send of a message, or
    past the loop. *)
Inductive accept_pc : Type :=
| AcAccepting
| AcSending (m : StreamMessage)
| AcStopped.

Record TcpState : Type := MkTcp {
  tcp_addr : SocketAddr;
  tcp_queue : list StreamMessage;   (** sent and not yet received *)
  tcp_receiver : bool;              (** [tcp_receiver.is_some()] *)
  tcp_rx_alive : bool;              (** the receiver has not been dropped *)
  tcp_active : bool;
  tcp_terminated : bool;
  tcp_loop : accept_pc
}.

Definition tcp_bind (addr : SocketAddr) : TcpState := MkTcp addr [] true true false false AcAccepting.

Definition tcp_set (s : TcpState) (queue : list StreamMessage) (receiver active : bool) : TcpState :=
  MkTcp (tcp_addr s) queue receiver (tcp_rx_alive s) active (tcp_terminated s) (tcp_loop s).

Definition tcp_take_receiver (s : TcpState) : bool * TcpState :=
  if tcp_receiver s then (true, tcp_set s (tcp_queue s) false true)
  else (false, tcp_set s (tcp_queue s) false false).

Definition tcp_put_receiver (s : TcpState) : TcpState := tcp_set s (tcp_queue s) true false.

(** The receiver goes away with the function that holds it; what is queued goes
    with it. *)
Definition tcp_drop_receiver (s : TcpState) : TcpState :=
  MkTcp (tcp_addr s) [] (tcp_receiver s) false (tcp_active s) (tcp_terminated s) (tcp_loop s).

(** [shutdown]: the flag; the connection it then makes to its own listener is one
    of the connections the loop accepts. *)
Definition tcp_shutdown (s : TcpState) : TcpState :=
  MkTcp (tcp_addr s) (tcp_queue s) (tcp_receiver s) (tcp_rx_alive s) (tcp_active s) true (tcp_loop s).

(** The loop goes to [pc], with [queue] in the channel. *)
Definition tcp_goto (pc : accept_pc) (queue : list StreamMessage) (s : TcpState) : TcpState :=
  MkTcp (tcp_addr s) queue (tcp_receiver s) (tcp_rx_alive s) (tcp_active s) (tcp_terminated s) pc.

(** What the loop waits for: [accept] returns a connection or fails, or the
    awaited send returns. *)
Inductive accept_event : Type :=
| EvAccept (stream : option Z)
| EvSend.

(** The accept loop from one suspension point to the next; [None]: it cannot go
    on with that event.  The flags are read under the lock after [accept]; the
    send is awaited without the lock, so the flags may have changed when it
    happens.  A request that finds the channel full until its timeout is dropped,
    a [Quit] waits. *)
Definition tcp_accept (ev : accept_event) (s : TcpState) : option TcpState :=
  match tcp_loop s, ev with
  | AcAccepting, EvAccept None => Some s
  | AcAccepting, EvAccept (Some stream) =>
      Some (if tcp_terminated s then tcp_goto (AcSending SQuit) (tcp_queue s) s
            else if negb (tcp_active s) then s
            else tcp_goto (AcSending (SRequest (MkRequest stream None))) (tcp_queue s) s)
  | AcSending m, EvSend =>
      match channel_send (tcp_rx_alive s) (tcp_queue s) m, m with
      | SendClosed, _ => Some (tcp_goto AcStopped (tcp_queue s) s)
      | SendDone q, SQuit => Some (tcp_goto AcStopped q s)
      | SendDone q, SRequest _ => Some (tcp_goto AcAccepting q s)
      | SendFull, SRequest _ => Some (tcp_goto AcAccepting (tcp_queue s) s)
      | SendFull, SQuit => None
      end
  | _, _ => None
  end.

(** Sending through a clone of the sender ([clone_sender]); [None]: it waits. *)
Definition tcp_send (m : StreamMessage) (s : TcpState) : option TcpState :=
  match channel_send (tcp_rx_alive s) (tcp_queue s) m with
  | SendDone q => Some (tcp_goto (tcp_loop s) q s)
  | SendClosed => Some s
  | SendFull => None
  end.

(** [receiver.recv()] by the tunnel. *)
Definition tcp_recv (s : TcpState) : option (StreamMessage * TcpState) :=
  match tcp_queue s with
  | m :: q => Some (m, tcp_goto (tcp_loop s) q s)
  | [] => None
  end.

(** ** The UDP listener *)

(** Where the loop is: in [select!], in the awaited send of a packet, or past the
    loop. *)
Inductive udp_pc : Type :=
| UdSelecting
| UdForwarding (p : UdpPacket)
| UdStopped.

Record UdpState : Type := MkUdp {
  udp_addr : SocketAddr;
  udp_active : bool;
  udp_receiver : bool;
  udp_rx_alive : bool;
  udp_out_queue : list UdpMessage;            (** towards the tunnel *)
  udp_in_queue : list UdpMessage;             (** towards the socket *)
  udp_sent : list (list Z * SocketAddr);      (** datagrams sent on the socket *)
  udp_loop : udp_pc
}.

Definition udp_bind (addr : SocketAddr) : UdpState := MkUdp addr false true true [] [] [] UdSelecting.

Definition udp_set (s : UdpState) (active receiver : bool) : UdpState :=
  MkUdp (udp_addr s) active receiver (udp_rx_alive s) (udp_out_queue s) (udp_in_queue s) (udp_sent s) (udp_loop s).

Definition udp_set_active (b : bool) (s : UdpState) : UdpState := udp_set s b (udp_receiver s).

Definition udp_take_receiver (s : UdpState) : bool * UdpState :=
  if udp_receiver s then (true, udp_set s true false) else (false, udp_set s false false).

Definition udp_put_receiver (s : UdpState) : UdpState := udp_set s false true.

(** The receiver is dropped together with the function that holds it. *)
Definition udp_drop_receiver (s : UdpState) : UdpState :=
  MkUdp (udp_addr s) (udp_active s) (udp_receiver s) false (udp_out_queue s) (udp_in_queue s) (udp_sent s) (udp_loop s).

(** The loop goes to [pc], with the given queues. *)
Definition udp_goto (pc : udp_pc) (out inq : list UdpMessage) (s : UdpState) : UdpState :=
  MkUdp (udp_addr s) (udp_active s) (udp_receiver s) (udp_rx_alive s) out inq (udp_sent s) pc.

(** What the loop waits for. *)
Inductive udp_event : Type :=
| UdpRecv (bs : list Z) (from : SocketAddr)   (** a datagram arrived *)
| UdpRecvFailed
| UdpIn (sendable : bool)                     (** a message from the tunnel; whether [send_to] succeeds *)
| UdpInClosed                                 (** all senders are gone *)
| UdpForward.                                 (** the awaited send returns *)

(** The loop from one suspension point to the next; [None]: it cannot go on with
    that event.  A packet that finds the channel full until its timeout is
    dropped. *)
Definition udp_iterate (ev : udp_event) (s : UdpState) : option UdpState :=
  match udp_loop s, ev with
  | UdSelecting, UdpRecv bs from =>
      Some (if negb (udp_active s) then s
            else udp_goto (UdForwarding (MkPacket (take UDP_PACKET_SIZE bs) from None))
                   (udp_out_queue s) (udp_in_queue s) s)
  | UdSelecting, UdpRecvFailed => Some s
  | UdSelecting, UdpIn sendable =>
      match udp_in_queue s with
      | UPacket p :: q =>
          Some (MkUdp (udp_addr s) (udp_active s) (udp_receiver s) (udp_rx_alive s) (udp_out_queue s) q
                  (if sendable then udp_sent s ++ [(payload p, local_addr p)] else udp_sent s) UdSelecting)
      | UQuit :: q => Some (udp_goto UdStopped (udp_out_queue s) q s)
      | [] => None
      end
  | UdSelecting, UdpInClosed => Some (udp_goto UdStopped (udp_out_queue s) (udp_in_queue s) s)
  | UdForwarding p, UdpForward =>
      Some match channel_send (udp_rx_alive s) (udp_out_queue s) (UPacket p) with
           | SendDone q => udp_goto UdSelecting q (udp_in_queue s) s
           | SendFull => udp_goto UdSelecting (udp_out_queue s) (udp_in_queue s) s
           | SendClosed => udp_goto UdStopped (udp_out_queue s) (udp_in_queue s) s
           end
  | _, _ => None
  end.

Definition udp_stopped (s : UdpState) : bool := match udp_loop s with UdStopped => true | _ => false end.

(** Sending towards the socket through a clone of the sender: the other end of
    the channel belongs to the loop.  [None]: it waits. *)
Definition udp_send (m : UdpMessage) (s : UdpState) : option UdpState :=
  match channel_send (negb (udp_stopped s)) (udp_in_queue s) m with
  | SendDone q => Some (udp_goto (udp_loop s) (udp_out_queue s) q s)
  | SendClosed => Some s
  | SendFull => None
  end.

(** [shutdown] of the UDP listener. *)
Definition udp_shutdown (s : UdpState) : option UdpState := udp_send UQuit s.

(** [receiver.recv()] by the tunnel: the next message, or [None] once the loop,
    which holds the only sender, is over. *)
Definition udp_recv (s : UdpState) : option (option UdpMessage * UdpState) :=
  match udp_out_queue s with
  | m :: q => Some (Some m, udp_goto (udp_loop s) q (udp_in_queue s) s)
  | [] => if udp_stopped s then Some (None, s) else None
  end.

(** What can happen to a UDP listener that nobody takes or returns: its loop goes
    on, or a tunnel sends it a reply. *)
Inductive udp_moves (s : UdpState) : UdpState → Prop :=
| UdpLoop ev s' : udp_iterate ev s = Some s' → udp_moves s s'
| UdpReply p s' : udp_send (UPacket p) s = Some s' → udp_moves s s'.

(** * Tunnels and a listener

    Any number of tunnels share a listener.  [holders] is the number of tunnels
    that hold the receiver. *)
Record tcp_sys : Type := TcpSys { ts_state : TcpState; ts_holders : nat }.

Inductive tcp_step : tcp_sys → tcp_sys → Prop :=
| TTake s s' n : tcp_take_receiver s = (true, s') → tcp_step (TcpSys s n) (TcpSys s' (S n))
| TTakeFailed s s' n : tcp_take_receiver s = (false, s') → tcp_step (TcpSys s n) (TcpSys s' n)
| TPut s n : tcp_step (TcpSys s (S n)) (TcpSys (tcp_put_receiver s) n)
| TDrop s n : tcp_step (TcpSys s (S n)) (TcpSys (tcp_drop_receiver s) n)
| TAccept s n ev s' : tcp_accept ev s = Some s' → tcp_step (TcpSys s n) (TcpSys s' n)
| TQuit s n s' : tcp_send SQuit s = Some s' → tcp_step (TcpSys s n) (TcpSys s' n)
| TRecv s n m s' : tcp_recv s = Some (m, s') → tcp_step (TcpSys s (S n)) (TcpSys s' (S n))
| TShutdown s n : tcp_step (TcpSys s n) (TcpSys (tcp_shutdown s) n).

Inductive tcp_reachable (addr : SocketAddr) : tcp_sys → Prop :=
| TcpInit : tcp_reachable addr (TcpSys (tcp_bind addr) 0)
| TcpNext x y : tcp_reachable addr x → tcp_step x y → tcp_reachable addr y.

(** The receiver is in its slot, held by exactly one tunnel, or gone; the
    listener can be active only while a tunnel holds it or after it is gone; the
    channel is within its capacity. *)
Definition tcp_inv (x : tcp_sys) : Prop :=
  let s := ts_state x in
  (ts_holders x = if tcp_receiver s then 0 else if tcp_rx_alive s then 1 else 0)%nat ∧
  (tcp_receiver s = true → tcp_rx_alive s = true) ∧
  (tcp_active s = true → tcp_receiver s = false) ∧
  (length (tcp_queue s) <= CHANNEL_CAPACITY)%nat.

Lemma channel_send_done {A} alive (q q' : list A) m :
  channel_send alive q m = SendDone q' → alive = true ∧ q' = q ++ [m] ∧ (length q' <= CHANNEL_CAPACITY)%nat.
Proof.
  unfold channel_send. destruct alive; [|done]. cbn [negb].
  destruct (Nat.ltb_spec (length q) CHANNEL_CAPACITY); [|done]. intros [= <-].
  rewrite length_app. cbn. split_and!; [done|done|lia].
Qed.

Lemma channel_send_closed {A} alive (q : list A) m : channel_send alive q m = SendClosed → alive = false.
Proof. unfold channel_send. destruct alive; [|done]. cbn [negb]. by destruct (_ <? _)%nat. Qed.

(** What a step of the loop leaves alone. *)
Lemma tcp_accept_frame ev s s' :
  tcp_accept ev s = Some s' →
  tcp_receiver s' = tcp_receiver s ∧ tcp_rx_alive s' = tcp_rx_alive s ∧ tcp_active s' = tcp_active s ∧
  ((length (tcp_queue s) <= CHANNEL_CAPACITY)%nat → (length (tcp_queue s') <= CHANNEL_CAPACITY)%nat).
Proof.
  unfold tcp_accept. intros Ht. destruct (tcp_loop s) as [|m|], ev as [[stream|]|]; try done.
  - injection Ht as <-. by destruct (tcp_terminated s); [|destruct (negb (tcp_active s))].
  - by injection Ht as <-.
  - destruct (channel_send _ _ _) as [q| |] eqn:Hc; [apply channel_send_done in Hc as (_ & _ & Hq)|..];
      destruct m; simplify_eq/=; split_and!; auto.
Qed.

Lemma tcp_step_inv x y : tcp_inv x → tcp_step x y → tcp_inv y.
Proof.
  unfold tcp_inv. intros (Hh & Hr & Ha & Hq) Hs.
  destruct Hs as [s s' n Ht|s s' n Ht|s n|s n|s n ev s' Ht|s n s' Ht|s n m s' Ht|s n]; simpl in *.
  - unfold tcp_take_receiver in Ht. destruct (tcp_receiver s); simplify_eq/=. by rewrite Hr by done.
  - unfold tcp_take_receiver in Ht. destruct (tcp_receiver s); simplify_eq/=. done.
  - destruct (tcp_receiver s), (tcp_rx_alive s); simplify_eq/=. done.
  - destruct (tcp_receiver s), (tcp_rx_alive s); simplify_eq/=. split_and!; [done..|lia].
  - destruct (tcp_accept_frame _ _ _ Ht) as (-> & -> & -> & ?). split_and!; auto.
  - unfold tcp_send in Ht. destruct (channel_send _ _ _) as [q| |] eqn:Hc; simplify_eq/=; [|done].
    apply channel_send_done in Hc as (_ & _ & ?). done.
  - unfold tcp_recv in Ht. destruct (tcp_queue s); simplify_eq/=. split_and!; auto; lia.
  - done.
Qed.

Lemma tcp_reachable_inv addr x : tcp_reachable addr x → tcp_inv x.
Proof.
  induction 1 as [|x y _ IH Hs]; [|by eapply tcp_step_inv]. unfold tcp_inv. cbn. split_and!; done || lia.
Qed.

(** C29: At most one tunnel holds the receiver of a TCP listener, whatever the
    interleaving of takes, returns, drops, accepted connections, sent messages
    and [shutdown]; while no tunnel holds it and it is in its slot, a connection
    that the accept loop picks up is dropped, never sent on its way to a later
    tunnel (a listener that is shut down answers with a [Quit] instead); and the
    channel never holds more messages than its capacity, [Quit]s included. *)
Theorem tcp_receiver_exclusive addr x :
  tcp_reachable addr x →
  (ts_holders x <= 1)%nat ∧
  (ts_holders x = 0%nat → tcp_rx_alive (ts_state x) = true → ∀ stream s',
     tcp_accept (EvAccept stream) (ts_state x) = Some s' →
     s' = ts_state x ∨
     tcp_terminated (ts_state x) = true ∧ s' = tcp_goto (AcSending SQuit) (tcp_queue (ts_state x)) (ts_state x)) ∧
  (length (tcp_queue (ts_state x)) <= CHANNEL_CAPACITY)%nat.
Proof.
  intros (Hh & Hr & Ha & Hq)%tcp_reachable_inv. split_and!; [|intros H0 Hal stream s' Ht|done].
  - rewrite Hh. by destruct (tcp_receiver _), (tcp_rx_alive _); auto.
  - unfold tcp_accept in Ht. destruct (tcp_loop (ts_state x)), stream as [st|]; simplify_eq; [|by left].
    destruct (tcp_terminated (ts_state x)); [by right|left].
    destruct (tcp_active (ts_state x)) eqn:Hact; [|done]. rewrite (Ha eq_refl), Hal in Hh. lia.
Qed.

(** A failed [take_receiver] is not harmless: it switches the listener off
    although another tunnel legitimately holds the receiver, and from then on
    every connection (TCP) or datagram (UDP) that arrives is dropped until the
    holder stops and someone takes the receiver again. *)
Theorem failed_take_disables_holder addr x :
  tcp_reachable addr x → ts_holders x = 1%nat → tcp_terminated (ts_state x) = false →
  ∃ s', tcp_take_receiver (ts_state x) = (false, s') ∧ tcp_reachable addr (TcpSys s' 1) ∧
    ∀ stream s'', tcp_accept (EvAccept stream) s' = Some s'' → s'' = s'.
Proof.
  intros Hr H1 Ht. destruct (tcp_reachable_inv _ _ Hr) as (Hh & _).
  rewrite H1 in Hh. destruct x as [s n]. simpl in *. destruct (tcp_receiver s) eqn:Hrx; [done|].
  eexists. unfold tcp_take_receiver. rewrite Hrx. split_and!; [done| |].
  - subst n. eapply TcpNext; [exact Hr|]. apply TTakeFailed. unfold tcp_take_receiver. by rewrite Hrx.
  - intros [st|] s''; unfold tcp_accept; simpl; [rewrite Ht|]; destruct (tcp_loop s); by intros; simplify_eq.
Qed.

(** The same for UDP: a datagram that arrives after a failed take is dropped. *)
Lemma udp_failed_take_drops s bs from s'' :
  udp_receiver s = false →
  let s' := (udp_take_receiver s).2 in
  (udp_take_receiver s).1 = false ∧ (udp_iterate (UdpRecv bs from) s' = Some s'' → s'' = s').
Proof.
  intros Hr. unfold udp_take_receiver. rewrite Hr. split; [done|]. unfold udp_iterate. cbn.
  destruct (udp_loop s); by intros; simplify_eq.
Qed.

(** ** Witnesses *)
Definition sample_addr : SocketAddr := SockV4 IPV4_LOCALHOST 8080.

(** One tunnel serving, one connection queued. *)
Definition sample_serving : TcpState :=
  MkTcp sample_addr [SRequest (MkRequest 7 None)] false true true false AcAccepting.

Lemma sample_serving_reachable : tcp_reachable sample_addr (TcpSys sample_serving 1).
Proof.
  eapply TcpNext; [eapply TcpNext; [eapply TcpNext; [apply TcpInit|]|]|].
  - by apply (TTake _ (MkTcp sample_addr [] false true true false AcAccepting)).
  - by apply (TAccept _ _ (EvAccept (Some 7))).
  - by apply (TAccept _ _ EvSend).
Qed.

(** The same after the tunnel has returned the receiver: connection 8 comes too
    late. *)
Definition sample_returned : TcpState := tcp_put_receiver sample_serving.

Lemma tcp_receiver_exclusive_witness :
  (length (tcp_queue sample_serving) <= CHANNEL_CAPACITY)%nat ∧
  tcp_accept (EvAccept (Some 8)) sample_returned = Some sample_returned.
Proof.
  split; [apply (tcp_receiver_exclusive sample_addr (TcpSys sample_serving 1)), sample_serving_reachable|].
  destruct (tcp_receiver_exclusive sample_addr (TcpSys sample_returned 0)) as (_ & Hdrop & _).
  { eapply TcpNext; [apply sample_serving_reachable|]. apply TPut. }
  destruct (Hdrop eq_refl eq_refl (Some 8) sample_returned eq_refl) as [_|[? _]]; [reflexivity|discriminate].
Defined.

Lemma failed_take_disables_holder_witness :
  ∃ s', tcp_take_receiver sample_serving = (false, s') ∧ tcp_reachable sample_addr (TcpSys s' 1) ∧
    ∀ stream s'', tcp_accept (EvAccept stream) s' = Some s'' → s'' = s'.
Proof.
  apply (failed_take_disables_holder sample_addr (TcpSys sample_serving 1)); [|done|done].
  apply sample_serving_reachable.
Defined.
