(* ===== verification/TcpTunnel.v ===== *)
(** TCP tunnels: [src/src/tcp/tcp_tunnel.rs].  The ingress opens one QUIC stream
    per accepted connection and writes the requested destination at its start;
    the egress reads it (or uses its fixed upstream) and connects. *)
From S2P Require Import Prelude Io Net Target AddrText Servers.

(** * The ingress: [start_serving] *)
Record serve_state : Type := Serve {
  sv_pending : option StreamRequest;          (** [pending_request] *)
  sv_queue : list StreamMessage;
  sv_started : list (StreamRequest * list Z)  (** flowing, with the bytes already on their stream *)
}.

(** Where the loop is: it stopped ([break]), it waits for a request, or it
    waits for a stream with a request in hand. *)
Inductive serve_end : Type :=
| ServeStopped
| ServeWaiting
| ServeOpening (r : StreamRequest).

(** The next request: the pending one, or the next message. *)
Definition next_request (channel_open : bool) (s : serve_state) : (serve_end + StreamRequest) * serve_state :=
  match sv_pending s with
  | Some r => (inr r, Serve None (sv_queue s) (sv_started s))
  | None =>
      match sv_queue s with
      | SRequest r :: q => (inr r, Serve None q (sv_started s))
      | SQuit :: q => (inl ServeStopped, Serve None q (sv_started s))
      | [] => (inl (if channel_open then ServeWaiting else ServeStopped), s)
      end
  end.

(** [opens] lists the outcomes of [conn.open_bi()]: a stream with its sending
    end, or an error. *)
Fixpoint start_serving (channel_open : bool) (opens : list (option writer)) (s : serve_state) :
  serve_end * serve_state :=
  match next_request channel_open s with
  | (inl e, s) => (e, s)
  | (inr request, s) =>
      match opens with
      | [] => (ServeOpening request, s)
      | None :: _ => (ServeStopped, Serve (Some request) (sv_queue s) (sv_started s))
      | Some quic_send :: opens' =>
          match write_tunnel_target (req_target request) false quic_send with
          | (Err _, _) =>
              start_serving channel_open opens' (Serve (Some request) (sv_queue s) (sv_started s))
          | (Ok _, quic_send) =>
              start_serving channel_open opens'
                (Serve None (sv_queue s) (sv_started s ++ [(request, w_out quic_send)]))
          end
      end
  end.

(** * The egress: [start_accepting_with_connector] *)
Record ChannelTcpConnectCtx : Type := ConnectCtx {
  requested_dst : option TunnelTarget;
  default_upstream : option SocketAddr;
  ctx_timeout_ms : Z
}.

Inductive accept_action : Type :=
| ReadTargetFailed (e : TransferError)
| UseConnector (ctx : ChannelTcpConnectCtx)
| ConnectTo (target : TunnelTarget)
| NoDestination.

(** The task spawned for an accepted stream, up to the connection: what it will
    connect to and what is left of the stream for the relay. *)
Definition accept_stream (upstream : option SocketAddr) (has_connector : bool) (stream_timeout_ms : Z)
    (r : reader) : accept_action * reader :=
  let go requested r :=
    if has_connector then (UseConnector (ConnectCtx requested upstream stream_timeout_ms), r)
    else match upstream, requested with
         | Some a, _ => (ConnectTo (Addr a), r)
         | None, Some t => (ConnectTo t, r)
         | None, None => (NoDestination, r)
         end in
  if has_connector || bool_decide (upstream = None) then
    match read_tunnel_target r with
    | (Ok t, r) => go (Some t) r
    | (Err e, r) => (ReadTargetFailed e, r)
    end
  else go None r.

(** The accept loop: every accepted stream gets its task; the first error of
    [accept_bi] (idle timeout, peer closed, other) ends it. *)
Fixpoint start_accepting_with_connector (upstream : option SocketAddr) (has_connector : bool)
    (stream_timeout_ms : Z) (streams : list (option reader)) : list (accept_action * reader) :=
  match streams with
  | [] | None :: _ => []
  | Some r :: rest =>
      accept_stream upstream has_connector stream_timeout_ms r ::
      start_accepting_with_connector upstream has_connector stream_timeout_ms rest
  end.

Definition start_accepting (upstream : option SocketAddr) (stream_timeout_ms : Z) :=
  start_accepting_with_connector upstream false stream_timeout_ms.

Definition start_dynamic_accepting (default_upstream : option SocketAddr) (stream_timeout_ms : Z)
    (has_connector : bool) :=
  if has_connector then start_accepting_with_connector default_upstream true stream_timeout_ms
  else start_accepting None stream_timeout_ms.

(** ** No request is lost *)

Definition requests (q : list StreamMessage) : list StreamRequest :=
  q ≫= λ m, match m with SRequest r => [r] | SQuit => [] end.

Definition in_hand (e : serve_end) : list StreamRequest :=
  match e with ServeOpening r => [r] | _ => [] end.

Definition all_requests (s : serve_state) : list StreamRequest :=
  (sv_started s).*1 ++ option_list (sv_pending s) ++ requests (sv_queue s).

Lemma next_request_all co s x s' :
  next_request co s = (x, s') →
  all_requests s =
    (sv_started s').*1 ++ match x with inr r => [r] | inl _ => [] end ++
    option_list (sv_pending s') ++ requests (sv_queue s') ∧ sv_started s' = sv_started s ∧
  (∀ r, x = inr r → sv_pending s' = None).
Proof.
  unfold next_request, all_requests. destruct s as [[p|] q st]; simpl.
  - intros ?. by simplify_eq/=.
  - destruct q as [|[r|] q]; intros ?; simplify_eq/=; try done.
Qed.

(** Every stream of a started request carries exactly the encoding of its
    target. *)
Definition targets_written (base : list (StreamRequest * list Z)) (s : serve_state) : Prop :=
  ∃ new, sv_started s = base ++ new ∧
    Forall (λ x, ∃ b, encode_tunnel_target (req_target x.1) false = Ok b ∧ x.2 = default [] b) new.

(** A stream that was just opened carries nothing yet. *)
Definition newly_opened (o : option writer) : Prop :=
  match o with Some w => w_out w = [] | None => True end.

Lemma write_target_ok t w w' :
  write_tunnel_target t false w = (Ok (), w') →
  ∃ b, encode_tunnel_target t false = Ok b ∧ w_out w' = w_out w ++ default [] b.
Proof.
  unfold write_tunnel_target, mbind, eff_bind, lift, eff_map_err.
  destruct (encode_tunnel_target t false) as [[b|]|n]; simpl; [| |done].
  - destruct (write_all b w) as [[[]|e] w1] eqn:Hw; intros ?; simplify_eq/=.
    apply write_all_ok in Hw. eauto.
  - intros [= ->]. exists None. by rewrite app_nil_r.
Qed.

(** Serving loses, duplicates and reorders no request, however often opening
    a stream or writing its target fails: the requests started, the one in hand,
    the pending one and those still queued are, in this order, exactly those
    that were there before; and a stream that was started begins with exactly
    the encoding of its target. *)
Theorem start_serving_conserves co opens s :
  Forall newly_opened opens →
  let '(e, s') := start_serving co opens s in
  (sv_started s').*1 ++ in_hand e ++ option_list (sv_pending s') ++ requests (sv_queue s') = all_requests s ∧
  targets_written (sv_started s) s'.
Proof.
  intros Hop. revert s. induction Hop as [|o opens Ho Hop IH]; intros s; cbn [start_serving];
    destruct (next_request co s) as [[e|r] s1] eqn:Hn;
    destruct (next_request_all _ _ _ _ Hn) as (Hall & Hst & Hp).
  - assert (in_hand e = []) as He.
    { clear Hall Hst Hp. unfold next_request in Hn. by repeat case_hyp Hn; simplify_eq. }
    rewrite He, Hall. split; [done|]. exists []. by rewrite app_nil_r.
  - rewrite Hall. split; [done|]. exists []. by rewrite app_nil_r.
  - assert (in_hand e = []) as He.
    { clear Hall Hst Hp. unfold next_request in Hn. by repeat case_hyp Hn; simplify_eq. }
    rewrite He, Hall. split; [done|]. exists []. by rewrite app_nil_r.
  - specialize (Hp r eq_refl). rewrite Hp in Hall. simpl in Hall.
    destruct o as [w|].
    2:{ simpl. rewrite Hall. split; [done|]. exists []. by rewrite app_nil_r. }
    destruct (write_tunnel_target (req_target r) false w) as [[[]|e] w'] eqn:Hw.
    + specialize (IH (Serve None (sv_queue s1) (sv_started s1 ++ [(r, w_out w')]))).
      destruct (start_serving co opens _) as [e s2]. destruct IH as [IH1 (new & Hnew & Hf)].
      rewrite IH1, Hall. unfold all_requests. simpl. rewrite fmap_app, <-app_assoc. split; [done|].
      exists ((r, w_out w') :: new). simpl in Hnew. rewrite Hnew, Hst, <-app_assoc. split; [done|].
      constructor; [|done]. apply write_target_ok in Hw as (b & Hb & Hb'). simpl in Ho. rewrite Ho in Hb'. simpl. eauto.
    + specialize (IH (Serve (Some r) (sv_queue s1) (sv_started s1))).
      destruct (start_serving co opens _) as [e2 s2]. destruct IH as [IH1 (new & Hnew & Hf)].
      rewrite IH1, Hall. split; [done|]. exists new. simpl in Hnew. by rewrite Hnew, Hst.
Qed.

(** A request whose target cannot be encoded (a domain of more than 255
    bytes, or an empty one) blocks the tunnel: it is retried on every stream
    that can be opened, for ever, and no request behind it is ever served. *)
Theorem unencodable_request_blocks co opens r q started :
  is_ok (encode_tunnel_target (req_target r) false) = false →
  Forall is_Some opens →
  start_serving co opens (Serve (Some r) q started) = (ServeOpening r, Serve None q started).
Proof.
  intros Henc Hop. induction Hop as [|o opens [w ->] _ IH]; [done|].
  cbn [start_serving next_request sv_pending sv_queue sv_started].
  assert (∃ e w', write_tunnel_target (req_target r) false w = (Err e, w')) as (e & w' & ->); [|exact IH].
  unfold write_tunnel_target, mbind, eff_bind, lift.
  destruct (encode_tunnel_target _ _); [done|]. simpl. eauto.
Qed.

(** ** Ingress and egress agree *)

(** What the ingress asked for is what the egress connects to, and the
    relayed bytes start exactly where the application's bytes start: for a
    dynamic tunnel the egress reads the target the ingress wrote (under any
    chunking) and connects to it; for a fixed upstream the ingress, which has
    no target, writes nothing and the egress reads nothing. *)
Theorem tcp_target_agreement t a timeout w w' r bs :
  w_room w = None → w_out w = [] →
  (target_wf t → write_tunnel_target (Some t) false w = (Ok (), w') → delivers r (w_out w' ++ bs) →
   ∃ r', accept_stream None false timeout r = (ConnectTo (target_normalize t), r') ∧ delivers r' bs) ∧
  (write_tunnel_target None false w = (Ok (), w) ∧
   accept_stream (Some a) false timeout r = (ConnectTo (Addr a), r)).
Proof.
  intros Hroom Hout. split; [|done]. intros Hwf Hw Hd.
  apply write_target_ok in Hw as (b & Hb & Ho). rewrite Hout in Ho. simpl in Ho.
  destruct b as [b|]; [|by destruct t as [[]|]; simpl in Hb; repeat case_hyp Hb].
  simpl in Ho. rewrite Ho in Hd. unfold accept_stream. simpl.
  destruct (read_encoded_target t false b r bs Hwf Hb Hd) as (r' & Hr & Hd').
  exists r'. by rewrite Hr.
Qed.

(** With a connector the egress always reads a target. *)
Lemma connector_gets_target t timeout d b r bs :
  target_wf t → encode_tunnel_target (Some t) false = Ok (Some b) → delivers r (b ++ bs) →
  ∃ r', accept_stream d true timeout r =
      (UseConnector (ConnectCtx (Some (target_normalize t)) d timeout), r') ∧ delivers r' bs.
Proof.
  intros Hwf Hb Hd. unfold accept_stream. simpl.
  destruct (read_encoded_target t false b r bs Hwf Hb Hd) as (r' & Hr & Hd'). exists r'. by rewrite Hr.
Qed.

(** A request without a target on a dynamic tunnel is not rejected: the
    ingress writes nothing, so the egress takes the first bytes of the
    application's own data for a destination and connects wherever they say. *)
Theorem targetless_request_misread t timeout b bs r w :
  target_wf t → encode_tunnel_target (Some t) false = Ok (Some b) →
  write_tunnel_target None false w = (Ok (), w) ∧
  (delivers r (b ++ bs) →
   ∃ r', accept_stream None false timeout r = (ConnectTo (target_normalize t), r') ∧ delivers r' bs).
Proof.
  intros Hwf Hb. split; [done|]. intros Hd. unfold accept_stream. simpl.
  destruct (read_encoded_target t false b r bs Hwf Hb Hd) as (r' & Hr & Hd'). exists r'. by rewrite Hr.
Qed.

(** ** Witnesses *)
Definition long_domain : string := string_of_bytes (replicate 256 97).

Lemma start_serving_conserves_witness :
  let '(e, s') := start_serving true [Some (Writer [] (Some 3%nat)); Some open_writer]
      (Serve (Some (MkRequest 1 (Some (Domain "hi" 443)))) [SRequest (MkRequest 2 None)] []) in
  (sv_started s').*1 ++ in_hand e ++ option_list (sv_pending s') ++ requests (sv_queue s') =
    [MkRequest 1 (Some (Domain "hi" 443)); MkRequest 2 None] ∧
  targets_written [] s'.
Proof.
  apply (start_serving_conserves true [Some (Writer [] (Some 3%nat)); Some open_writer]
    (Serve (Some (MkRequest 1 (Some (Domain "hi" 443)))) [SRequest (MkRequest 2 None)] [])).
  by repeat constructor.
Defined.

Lemma unencodable_request_blocks_witness :
  start_serving true [Some open_writer; Some open_writer]
    (Serve (Some (MkRequest 1 (Some (Domain long_domain 80)))) [SRequest (MkRequest 2 None)] []) =
  (ServeOpening (MkRequest 1 (Some (Domain long_domain 80))), Serve None [SRequest (MkRequest 2 None)] []).
Proof.
  apply (unencodable_request_blocks true [Some open_writer; Some open_writer]
    (MkRequest 1 (Some (Domain long_domain 80)))).
  - by vm_compute.
  - by repeat constructor.
Defined.

Lemma tcp_target_agreement_witness :
  ∃ r', accept_stream None false 15000 [Chunk [3; 2; 104]; Chunk [105; 1; 187; 71; 69; 84]] =
      (ConnectTo (Domain "hi" 443), r') ∧ delivers r' [71; 69; 84].
Proof.
  apply (tcp_target_agreement (Domain "hi" 443) sample_addr 15000 open_writer
    (Writer [3; 2; 104; 105; 1; 187] None) [Chunk [3; 2; 104]; Chunk [105; 1; 187; 71; 69; 84]] [71; 69; 84]).
  - done.
  - done.
  - by apply (bool_decide_unpack _); vm_compute.
  - by vm_compute.
  - apply (delivers_chunks [[3; 2; 104]; [105; 1; 187; 71; 69; 84]]).
Defined.

Lemma targetless_request_misread_witness :
  write_tunnel_target None false open_writer = (Ok (), open_writer) ∧
  (delivers [Chunk [4; 10; 0; 0; 1; 0; 80; 1; 2]] ([4; 10; 0; 0; 1; 0; 80] ++ [1; 2]) →
   ∃ r', accept_stream None false 15000 [Chunk [4; 10; 0; 0; 1; 0; 80; 1; 2]] =
     (ConnectTo (Addr (SockV4 167772161 80)), r') ∧ delivers r' [1; 2]).
Proof.
  apply (targetless_request_misread (Addr (SockV4 167772161 80)) 15000 [4; 10; 0; 0; 1; 0; 80] [1; 2]).
  - by apply (bool_decide_unpack _); vm_compute.
  - by vm_compute.
Defined.
