(* ===== verification/TcpSessions.v ===== *)
(** The requests of an outbound TCP tunnel over many connections.

    [connect_and_serve] of [src/src/client.rs] keeps the pending request of a
    tunnel between connections and hands it, with the receiver of the requests,
    to [TcpTunnel::start_serving] for each of them; when the connection is lost
    [wait_for_connection_close] drops the serving future wherever it is. *)
From S2P Require Import Prelude Io Net Target AddrText Servers TcpTunnel.

(** One session: the messages that arrive during it and the outcomes of opening
    streams.  The serving future is dropped at the end: a request it had taken
    and not stored anywhere goes with it. *)
Definition serve_session (arrivals : list StreamMessage) (opens : list (option writer)) (s : serve_state) :
  list StreamRequest * serve_state :=
  let (e, s) := start_serving true opens (Serve (sv_pending s) (sv_queue s ++ arrivals) (sv_started s)) in
  (in_hand e, s).

Fixpoint serve_sessions (sessions : list (list StreamMessage * list (option writer))) (s : serve_state) :
  list StreamRequest * serve_state :=
  match sessions with
  | [] => ([], s)
  | (arrivals, opens) :: rest =>
      let (lost, s) := serve_session arrivals opens s in
      let (lost', s) := serve_sessions rest s in
      (lost ++ lost', s)
  end.

(** One session: everything that was there or arrived is accounted for, and at
    most one request is lost. *)
Lemma serve_session_requests arrivals opens s :
  Forall newly_opened opens →
  let '(lost, s') := serve_session arrivals opens s in
  (sv_started s').*1 ++ lost ++ option_list (sv_pending s') ++ requests (sv_queue s') =
    all_requests s ++ requests arrivals ∧
  (length lost <= 1)%nat ∧ targets_written (sv_started s) s'.
Proof.
  intros Hop. unfold serve_session.
  pose proof (start_serving_conserves true opens (Serve (sv_pending s) (sv_queue s ++ arrivals) (sv_started s)) Hop) as Hc.
  destruct (start_serving _ _ _) as [e s']. destruct Hc as [Hc Ht]. split_and!; [|by destruct e; simpl; lia|done].
  rewrite Hc. unfold all_requests. simpl. unfold requests. by rewrite bind_app, <-!app_assoc.
Qed.

Lemma targets_written_trans base s s' :
  targets_written base s → targets_written (sv_started s) s' → targets_written base s'.
Proof.
  intros (new & Hn & Hf) (new' & Hn' & Hf'). exists (new ++ new'). rewrite Hn', Hn, app_assoc. split; [done|].
  by apply list.Forall_app.
Qed.

(** C14: The requests of a tunnel over any number of connections.  Every request
    that was taken over or arrived is started exactly once, still pending or
    queued, or lost, and nothing else is ever started; the surviving requests
    keep their order; every started stream begins with exactly the encoding of
    its target; and a lost connection costs at most one request, the one for
    which a stream was being opened when the serving future was dropped. *)
Theorem tcp_sessions_conserve sessions s :
  Forall (λ x, Forall newly_opened x.2) sessions →
  let '(lost, s') := serve_sessions sessions s in
  let arrived := sessions ≫= λ x, requests x.1 in
  Permutation ((sv_started s').*1 ++ lost ++ option_list (sv_pending s') ++ requests (sv_queue s'))
    (all_requests s ++ arrived) ∧
  sublist (all_requests s') (all_requests s ++ arrived) ∧
  (length lost <= length sessions)%nat ∧ targets_written (sv_started s) s'.
Proof.
  intros Hs. revert s. induction Hs as [|[arrivals opens] sessions Hop _ IH]; intros s; cbn [serve_sessions].
  { rewrite app_nil_r. split_and!; [done..|]. exists []. by rewrite app_nil_r. }
  pose proof (serve_session_requests arrivals opens s Hop) as H1.
  destruct (serve_session arrivals opens s) as [lost s1]. destruct H1 as (Heq & Hlen & Ht). specialize (IH s1).
  destruct (serve_sessions sessions s1) as [lost' s2]. cbv zeta in *. destruct IH as (Hp & Hsub & Hlen' & Ht').
  rewrite bind_cons. cbn [fst]. set (arrived := sessions ≫= _) in *. rewrite (app_assoc (all_requests s)), <-Heq. split_and!.
  - unfold all_requests in Hp. rewrite <-!app_assoc in Hp |- *.
    rewrite (Permutation_app_swap_app (sv_started s2).*1), Hp.
    by rewrite (Permutation_app_swap_app lost), <-!app_assoc.
  - etransitivity; [exact Hsub|]. apply sublist_app; [|done]. unfold all_requests.
    apply sublist_app; [done|]. by apply sublist_inserts_l.
  - rewrite length_app. simpl. lia.
  - by eapply targets_written_trans.
Qed.

(** The loss is real: the connection closes while a stream is being opened for
    the first request; the next connection serves the second one only. *)
Theorem cut_session_loses_request :
  serve_sessions [([SRequest (MkRequest 1 None)], []); ([SRequest (MkRequest 2 None)], [Some open_writer])] (Serve None [] []) =
  ([MkRequest 1 None], Serve None [] [(MkRequest 2 None, [])]).
Proof. reflexivity. Qed.

Lemma tcp_sessions_conserve_witness :
  sublist [MkRequest 2 None] [MkRequest 1 None; MkRequest 2 None] ∧ (1 <= 2)%nat.
Proof.
  pose proof (tcp_sessions_conserve
    [([SRequest (MkRequest 1 None)], []); ([SRequest (MkRequest 2 None)], [Some open_writer])] (Serve None [] [])) as H.
  destruct H as (_ & H2 & H3 & _); [by repeat constructor|]. by split.
Defined.
