(* ===== verification/TcpPath.v ===== *)
(** The whole way of a TCP connection: from the application at the ingress
    through the QUIC stream to the upstream of the egress and back.  The two
    halves of [src/src/tcp/tcp_tunnel.rs] are joined with the relays of
    [src/src/util/stream_util.rs] and [src/src/codec/mod.rs] that they start. *)
From stdpp Require Import relations.
From S2P Require Import Prelude Io Net Target AddrText HttpReader Lru Handshake StreamFlow Codec Servers TcpTunnel.

(** * The relays the two ends start *)
Section ends.
Context {ZSTD : Zstd} {HTTPARSE : Httparse}.

(** The end of an iteration of [start_serving]: the stream of the request and
    the QUIC stream, on which the target [prefix] has been written, are handed to
    the relay.  [peer_addr_ok] says whether the stream knows the address of its
    peer; [order], [rid] and [cell] are what the codec finds. *)
Definition serve_flow (codec : CodecConfig) (peer_addr_ok : bool) (stream_timeout_ms : Z) (order : list Z) (rid : Z)
    (cell : option CodecLru) (stream quic_recv : reader) (prefix : list Z) : session_result :=
  start_flowing_with_codec codec peer_addr_ok stream_timeout_ms order rid cell
    (SessionIo stream open_sink (Writer prefix None) false quic_recv) stats_default.

(** How the task of an accepted stream ends or goes on. *)
Inductive accepted : Type :=
| AcceptRefused (a : accept_action)         (** no target, or none that can be read *)
| ConnectFailed (a : accept_action)         (** connecting failed or timed out *)
| AcceptFlowing (a : accept_action) (flowing : session_result).

(** The task of an accepted stream, to its end.  [connect] is what connecting (or
    the connector) yields: the bytes the upstream will send; [peer_addr_ok] says
    whether the connected stream knows the address of its peer. *)
Definition accept_flow (codec : CodecConfig) (upstream : option SocketAddr) (has_connector : bool) (stream_timeout_ms : Z)
    (order : list Z) (rid : Z) (cell : option CodecLru) (connect : accept_action → option reader) (peer_addr_ok : bool)
    (quic_recv : reader) : accepted :=
  let (action, quic_recv) := accept_stream upstream has_connector stream_timeout_ms quic_recv in
  match action with
  | ReadTargetFailed _ | NoDestination => AcceptRefused action
  | UseConnector _ | ConnectTo _ =>
      match connect action with
      | None => ConnectFailed action
      | Some upstream_stream =>
          AcceptFlowing action
            (start_flowing_with_codec codec peer_addr_ok stream_timeout_ms order rid cell
               (session_input upstream_stream quic_recv) stats_default)
      end
  end.
End ends.

(** * The plain relay in both directions *)

(** What a sink got, once it is closed. *)
Definition delivered (k : sink) : option (list Z) := if sk_closed k then Some (w_out (sk_writer k)) else None.

(** From [x] every run of the two tasks can be completed, and when it is the
    local stream got [to_stream], the QUIC stream [to_quic], and both were closed. *)
Definition relays (x : flow_tasks) (to_stream to_quic : list Z) : Prop :=
  ∀ s, rtc flow_step x s →
    (∃ s', rtc flow_step s s' ∧ both_finished s') ∧
    (both_finished s →
       delivered (fl_sink (q2s_flow s)) = Some to_stream ∧ delivered (fl_sink (s2q_flow s)) = Some to_quic).

(** A direction has its flow before or after its loop. *)
Definition at_end (f f' : flow) (t : task_state) (g : flow) : Prop :=
  match t with Relaying => g = f | _ => g = f' end.

Lemma relays_run q2s s2q q2s' s2q' s :
  run_flow q2s = (Some FlowClosed, q2s') → run_flow s2q = (Some FlowClosed, s2q') →
  rtc flow_step (flowing q2s s2q) s →
  at_end q2s q2s' (q2s_task s) (q2s_flow s) ∧ at_end s2q s2q' (s2q_task s) (s2q_flow s) ∧
  q2s_task s ≠ Waiting ∧ s2q_task s ≠ Waiting.
Proof.
  intros Hq Hs Hr. remember (flowing q2s s2q) as x eqn:Hx.
  assert (at_end q2s q2s' (q2s_task x) (q2s_flow x) ∧ at_end s2q s2q' (s2q_task x) (s2q_flow x) ∧
    q2s_task x ≠ Waiting ∧ s2q_task x ≠ Waiting) as H0 by (by subst x).
  clear Hx. induction Hr as [|x y z Hst _ IH]; [done|]. apply IH. clear IH.
  destruct H0 as (H1 & H2 & H3 & H4).
  destruct Hst as [f f' e snt g t snt' Hf|f t snt g g' e snt' Hf| |]; simpl in *; [| |done..].
  - rewrite H1, Hq in Hf. injection Hf as <- <-. by split_and!.
  - rewrite H2, Hs in Hf. injection Hf as <- <-. by split_and!.
Qed.

(** The relay is transparent in both directions. *)
Lemma relays_transparent r_quic r_stream w to_stream bs :
  delivers r_quic to_stream → delivers r_stream bs → w_room w = None →
  relays (flowing (Flow r_quic open_sink 0) (Flow r_stream (Sink w false true) 0)) to_stream (w_out w ++ bs).
Proof.
  intros Hq Hs Hw s Hr.
  pose proof (flow_transparent r_quic to_stream open_writer 0 Hq eq_refl) as Fq.
  pose proof (flow_transparent r_stream bs w 0 Hs Hw) as Fs.
  destruct (relays_run _ _ _ _ s Fq Fs Hr) as (Aq & As & Wq & Ws). split.
  - assert (signalled s) as Hsig.
    { assert (signalled (flowing (Flow r_quic open_sink 0) (Flow r_stream (Sink w false true) 0))) as H0
        by by split_and!.
      revert H0. clear -Hr. induction Hr; eauto using flow_step_signalled. }
    destruct (q2s_loop_ends s Hsig) as (s1 & Hr1 & Hsig1 & Hq1 & _).
    destruct (s2q_loop_ends s1 Hsig1 Hq1) as (s2 & Hr2 & Hsig2 & Hq2 & Hs2).
    destruct (tasks_released s2 Hsig2 Hq2 Hs2) as (s3 & Hr3 & Hf).
    exists s3. split; [|done]. by etransitivity; [|etransitivity].
  - intros [Eq Es]. rewrite Eq in Aq. rewrite Es in As. simpl in Aq, As. by rewrite Aq, As.
Qed.

(** * From end to end *)

(** Where a request goes.  A tunnel with a fixed upstream serves a listener, whose
    requests have no target; with a connector or without an upstream the request
    names its target. *)
Definition route (upstream : option SocketAddr) (has_connector : bool) (stream_timeout_ms : Z) (target : option TunnelTarget) :
  option accept_action :=
  match has_connector, upstream, target with
  | true, d, Some t => Some (UseConnector (ConnectCtx (Some (target_normalize t)) d stream_timeout_ms))
  | false, Some a, None => Some (ConnectTo (Addr a))
  | false, None, Some t => Some (ConnectTo (target_normalize t))
  | _, _, _ => None
  end.

Lemma accept_route upstream conn timeout target b action r bs :
  match target with Some t => target_wf t | None => True end →
  encode_tunnel_target target false = Ok b → route upstream conn timeout target = Some action →
  delivers r (default [] b ++ bs) →
  ∃ r', accept_stream upstream conn timeout r = (action, r') ∧ delivers r' bs.
Proof.
  intros Hwf Hb Hroute Hd. destruct target as [t|].
  - destruct b as [b|]; [|by destruct t as [[]|]; simpl in Hb; repeat case_hyp Hb].
    destruct (read_encoded_target t false b r bs Hwf Hb Hd) as (r' & Hr & Hd'). exists r'. split; [|done].
    unfold accept_stream. destruct conn, upstream as [a|]; simpl in Hroute; simplify_eq/=; by rewrite Hr.
  - simpl in Hb. simplify_eq/=. exists r. split; [|done]. by destruct conn, upstream as [a|]; simplify_eq/=.
Qed.

Section end_to_end.
Context {ZSTD : Zstd} {HTTPARSE : Httparse}.

(** C3: A tunnelled TCP connection is as good as a direct one.  Take any request
    that [start_serving] started, however often opening a stream or writing the
    target failed before, and that fits its tunnel: it names no target if the
    egress has a fixed upstream and no connector, and names one otherwise.  Let
    its two ends run without compression on sockets that know their peers'
    addresses.  Then the egress connects to exactly the destination of the
    request (the fixed upstream, or the target named by the request, or the
    connector called with that target); if that succeeds, no direction is silent
    until the stream timeout, and each end reads what the other wrote in chunks of
    any size, the upstream receives exactly the bytes
    the application sent and then the end of the stream, the application exactly
    the bytes the upstream sent and then the end, and no interleaving of the four
    relay tasks can get stuck before that. *)
Theorem tcp_end_to_end co opens s upstream conn timeout connect order rid cell order' rid' cell'
    k req prefix action app up reply down fwd back :
  Forall newly_opened opens → (length (sv_started s) <= k)%nat →
  sv_started (start_serving co opens s).2 !! k = Some (req, prefix) →
  match req_target req with Some t => target_wf t | None => True end →
  route upstream conn timeout (req_target req) = Some action → connect action = Some reply →
  delivers app up → delivers reply down → delivers fwd (prefix ++ up) → delivers back down →
  ∃ ingress egress,
    serve_flow codec_config_default true timeout order rid cell app back prefix = FlowingPlain ingress ∧
    accept_flow codec_config_default upstream conn timeout order' rid' cell' connect true fwd
      = AcceptFlowing action (FlowingPlain egress) ∧
    relays ingress down (prefix ++ up) ∧ relays egress up down.
Proof.
  intros Hop Hk Hst Hwf Hroute Hcon Happ Hreply Hfwd Hback.
  pose proof (start_serving_conserves co opens s Hop) as Hc.
  destruct (start_serving co opens s) as [e s']. destruct Hc as [_ (new & Hnew & Hf)]. cbn [snd] in Hst.
  assert (∃ b, encode_tunnel_target (req_target req) false = Ok b ∧ prefix = default [] b) as (b & Hb & ->).
  { rewrite Hnew, lookup_app_r in Hst by done. rewrite list.Forall_lookup in Hf. by apply (Hf _ _ Hst). }
  destruct (accept_route upstream conn timeout _ b action fwd up Hwf Hb Hroute Hfwd) as (fwd' & Hacc & Hd).
  eexists _, _. split; [reflexivity|]. split.
  - unfold accept_flow. rewrite Hacc. destruct action; [by destruct conn, upstream, (req_target req)| | |];
      [rewrite Hcon; reflexivity..|by destruct conn, upstream, (req_target req)].
  - split; [by apply (relays_transparent back app (Writer _ None))|].
    by apply (relays_transparent fwd' reply open_writer).
Qed.
End end_to_end.

(** * Compression between two clients

    The server does not compress.  Two clients that do are joined through it: the
    upstream of one client's outbound tunnel is the server's listener of the other
    client's inbound tunnel, and the server relays the handshake and the
    compressed data between them as they are. *)

(** A client that compresses: its configuration, its codec table with the pairs
    held by other streams, the pair it picks, and what its application sends. *)
Record codec_client {ZSTD : Zstd} : Type := CodecClient {
  kc_config : CodecConfig;
  kc_order : list Z;
  kc_rid : Z;
  kc_lru : CodecLru;
  kc_held : list loc;
  kc_id : Z;
  kc_pair : loc;
  kc_after : CodecLru;      (** the table after the checkout *)
  kc_app : reader;
  kc_bytes : list Z
}.
Arguments CodecClient {ZSTD} _ _ _ _ _ _ _ _ _ _.

Section two_clients.
Context {ZSTD : Zstd} {HTTPARSE : Httparse} {LAWS : ZstdLaws ZSTD}.

Definition codec_client_ok (timeout : Z) (bytes : list Z) (level wl : Z) (x : codec_client) : Prop :=
  cc_enabled (kc_config x) = true ∧ cc_flush_interval_ms (kc_config x) < timeout ∧
  lru_ok (kc_lru x) ∧ lru_inv (Sys (kc_lru x) (kc_held x)) ∧ configured (kc_lru x) bytes level wl ∧
  checkout (kc_order x) (kc_rid x) (kc_lru x) = (Ok (kc_id x, kc_pair x), kc_after x) ∧
  in_u 128 (kc_id x) ∧ kc_id x ≠ 0 ∧ app_sends (cc_http_aware (kc_config x)) (kc_app x) (kc_bytes x).

End two_clients.

(** * Compression needs both ends *)
Section one_sided.
Context {ZSTD : Zstd} {HTTPARSE : Httparse}.

(** A handshake that meets no answer has offered its pair and gives up. *)
Lemma handshake_unanswered order rid p quic l a pa l1 e r1 :
  checkout order rid l = (Ok (a, pa), l1) → read_exact true PAIR_ID_SIZE quic = (Err e, r1) →
  exchange_pair_id order rid (HsState (Writer p None) quic l) =
    (Err (HsReadFailed e), HsState (Writer (p ++ to_be_bytes 16 a) None) r1 l1).
Proof.
  intros Hco Hre. unfold exchange_pair_id.
  rewrite (eff_bind_ok _ _ _ _ _ (on_lru_ok CheckoutFailed _ (HsState _ quic l) _ _ Hco)).
  cbn [hs_send hs_recv fst snd]. apply eff_bind_err. unfold join_send_recv. cbn [hs_send hs_recv hs_lru].
  by rewrite write_all_unlimited, Hre.
Qed.

(** The other end has to compress too.  The server's relays never do, so an
    ordinary upstream of a client that compresses receives the 16 random bytes
    that name the client's codec pair.  If it answers them with fewer than 16
    bytes, as one that waits for a request does, the client's handshake times out
    and nothing of what its application wanted to send is sent. *)
Theorem one_sided_compression codec timeout order rid cell upstream conn connect order' rid' cell'
    target b action app prefix a pa l1 ans reply fwd later :
  cc_enabled codec = true → checkout order rid (config_lru codec cell) = (Ok (a, pa), l1) →
  match target with Some t => target_wf t | None => True end →
  encode_tunnel_target target false = Ok b → prefix = default [] b →
  route upstream conn timeout target = Some action → connect action = Some reply →
  delivers reply ans → (length ans < PAIR_ID_SIZE)%nat →
  serve_flow codec true timeout order rid cell app (reply ++ Stall :: later) prefix =
    HandshakeFailed (HsReadFailed Elapsed) l1 (Writer (prefix ++ to_be_bytes 16 a) None) ∧
  (delivers fwd (prefix ++ to_be_bytes 16 a) →
   ∃ egress, accept_flow codec_config_default upstream conn timeout order' rid' cell' connect true fwd
       = AcceptFlowing action (FlowingPlain egress) ∧
     relays egress (to_be_bytes 16 a) ans).
Proof.
  intros Hen Hco Hwf Hb -> Hroute Hcon Hans Hlen.
  pose proof (read_exact_stall PAIR_ID_SIZE reply ans later Hans Hlen) as Hre.
  pose proof (handshake_unanswered order rid (default [] b) _ _ a pa l1 _ _ Hco Hre) as Hx. split_and!.
  - unfold serve_flow, start_flowing_with_codec. rewrite Hen. cbn [negb si_quic_send si_quic_recv]. by rewrite Hx.
  - intros Hfwd. destruct (accept_route upstream conn timeout target b action fwd _ Hwf Hb Hroute Hfwd) as (fwd' & Hacc & Hd).
    eexists. split.
    + unfold accept_flow. rewrite Hacc. destruct action; [by destruct conn, upstream, target| | |];
        [rewrite Hcon; reflexivity..|by destruct conn, upstream, target].
    + by apply (relays_transparent fwd' reply open_writer).
Qed.
End one_sided.

(** ** Witnesses *)
#[local] Existing Instance sample_httparse.

(** A request that failed once, to a named host. *)
Definition path_request : StreamRequest := MkRequest 1 (Some (Domain "hi" 443)).
Definition path_start : serve_state := Serve (Some path_request) [] [].
Definition path_opens : list (option writer) := [Some (Writer [] (Some 3%nat)); Some open_writer].

Lemma tcp_end_to_end_witness :
  ∃ ingress egress,
    serve_flow codec_config_default true 15000 [] 0 None [Chunk [71; 69]; Chunk [84]] [Chunk [79; 75]] [3; 2; 104; 105; 1; 187]
      = FlowingPlain ingress ∧
    accept_flow codec_config_default None false 15000 [] 0 None (λ _, Some [Chunk [79]; Chunk [75]]) true
      [Chunk [3; 2; 104]; Chunk [105; 1; 187; 71; 69; 84]]
      = AcceptFlowing (ConnectTo (Domain "hi" 443)) (FlowingPlain egress) ∧
    relays ingress [79; 75] [3; 2; 104; 105; 1; 187; 71; 69; 84] ∧ relays egress [71; 69; 84] [79; 75].
Proof.
  apply (tcp_end_to_end true path_opens path_start None false 15000 (λ _, Some [Chunk [79]; Chunk [75]]) [] 0 None [] 0 None
    0%nat path_request [3; 2; 104; 105; 1; 187] (ConnectTo (Domain "hi" 443)) [Chunk [71; 69]; Chunk [84]] [71; 69; 84]
    [Chunk [79]; Chunk [75]] [79; 75]).
  - by repeat constructor.
  - done.
  - by vm_compute.
  - by apply (bool_decide_unpack _); vm_compute.
  - done.
  - done.
  - apply (delivers_chunks [[71; 69]; [84]]).
  - apply (delivers_chunks [[79]; [75]]).
  - apply (delivers_chunks [[3; 2; 104]; [105; 1; 187; 71; 69; 84]]).
  - apply (delivers_chunks [[79; 75]]).
Defined.

(** An upstream that says nothing until it is asked. *)
Lemma one_sided_compression_witness :
  serve_flow (toy_config false) true 15000 [] 9 None [Chunk [71; 69; 84]] [Stall] [] = HandshakeFailed (HsReadFailed Elapsed)
      (checkout [] 9 (config_lru (toy_config false) None)).2 (Writer (to_be_bytes 16 9) None) ∧
  ∃ egress, accept_flow codec_config_default (Some sample_addr) false 15000 [] 0 None (λ _, Some []) true [Chunk (to_be_bytes 16 9)]
      = AcceptFlowing (ConnectTo (Addr sample_addr)) (FlowingPlain egress) ∧
    relays egress (to_be_bytes 16 9) [].
Proof.
  destruct (one_sided_compression (toy_config false) 15000 [] 9 None (Some sample_addr) false (λ _, Some []) [] 0 None
    None None (ConnectTo (Addr sample_addr)) [Chunk [71; 69; 84]] [] 9 0%nat (checkout [] 9 (config_lru (toy_config false) None)).2
    [] [] [Chunk (to_be_bytes 16 9)] []) as (H1 & H2);
    [reflexivity|vm_compute; reflexivity|done|reflexivity|reflexivity|reflexivity|reflexivity|reflexivity|unfold PAIR_ID_SIZE; simpl; lia|].
  split; [exact H1|]. apply H2. apply (delivers_chunks [to_be_bytes 16 9]).
Defined.

(** A client that reuses its pair 5 and one with an empty table. *)
Definition client_a : codec_client :=
  CodecClient (toy_config false) [5] 77 toy_client [1%nat] 5 0%nat (checkout [5] 77 toy_client).2
    [Chunk [1]; Stall; Chunk [2; 3]] [1; 2; 3].
Definition client_b : codec_client :=
  CodecClient (toy_config false) [] 9 toy_lru [] 9 0%nat (checkout [] 9 toy_lru).2 [Chunk [7; 8]] [7; 8].
Definition sent_a : list Z := to_be_bytes 16 5 ++ to_be_bytes 16 0 ++ mask 1 [1; 2; 3].
Definition sent_b : list Z := to_be_bytes 16 9 ++ to_be_bytes 16 0 ++ mask 1 [7; 8].

