(* ===== verification/UdpTunnel.v ===== *)
(** UDP tunnels: [src/src/udp/udp_tunnel.rs].  Datagrams travel over one QUIC
    stream per flow (source address and requested destination).  The ingress
    keeps a map from flows to streams; the channel egress gives every stream a
    synthetic local address by which replies find their way back. *)
From S2P Require Import Prelude Io Net Target AddrText Message Servers.

(** * The egress towards a channel *)

(** [target_family_is_ipv6]. *)
Definition target_family_is_ipv6 (target : option TunnelTarget) (default_upstream : option SocketAddr) : bool :=
  match target with
  | Some (Addr a) => is_ipv6 a
  | Some (Domain _ _) | None => match default_upstream with Some a => is_ipv6 a | None => false end
  end.

Definition channel_local_addr_for_port (port : Z) (ipv6 : bool) : SocketAddr :=
  sa_set_port (socket_addr_with_unspecified_ip_port ipv6) port.

(** The reply map and the port counter; a reply sender is named by the stream
    it belongs to. *)
Record reply_state : Type := Replies {
  reply_map : gmap SocketAddr nat;
  next_local_port : Z
}.

(** The loop of [reserve_channel_local_addr] with [n] attempts left. *)
Fixpoint reserve_loop (n : nat) (ipv6 : bool) (stream : nat) (s : reply_state) :
  option SocketAddr * reply_state :=
  match n with
  | O => (None, s)
  | S n' =>
      let port := next_local_port s in
      let s := Replies (reply_map s) (wrapping_add 16 port 1) in
      if port =? 0 then reserve_loop n' ipv6 stream s
      else
        let local_addr := channel_local_addr_for_port port ipv6 in
        match reply_map s !! local_addr with
        | Some _ => reserve_loop n' ipv6 stream s
        | None => (Some local_addr, Replies (<[local_addr := stream]> (reply_map s)) (next_local_port s))
        end
  end.

(** [for _ in 0..u16::MAX]. *)
Definition reserve_channel_local_addr := reserve_loop (Z.to_nat (umax 16)).

Definition channel_local_addr (local : option SocketAddr) (ipv6 : bool) (stream : nat) (s : reply_state) :
  option SocketAddr * reply_state :=
  match local with
  | Some a => (Some a, s)
  | None => reserve_channel_local_addr ipv6 stream s
  end.

Inductive channel_error : Type :=
| ReadUdpTargetFailed (e : TransferError)
| NoFreeLocalAddr
| ReplyWriterFailed.

(** The receiving loop of [process_channel_io]: what it forwards to the
    channel, and the reply state when it ends. *)
Fixpoint channel_io_loop (fuel : nat) (target : option TunnelTarget) (ipv6 : bool) (stream : nat)
    (local : option SocketAddr) (r : reader) (s : reply_state) :
  option (result channel_error unit) * list UdpPacket * reply_state :=
  match fuel with
  | O => (None, [], s)
  | S f =>
      match recv_raw_from true UDP_PACKET_SIZE r with
      | (Ok bs, r) =>
          match channel_local_addr local ipv6 stream s with
          | (None, s) => (Some (Err NoFreeLocalAddr), [], s)
          | (Some a, s) =>
              match channel_io_loop f target ipv6 stream (Some a) r s with
              | (res, out, s) => (res, MkPacket bs a target :: out, s)
              end
          end
      | (Err _, _) =>
          (Some (Ok ()), [],
           match local with
           | Some a => Replies (delete a (reply_map s)) (next_local_port s)
           | None => s
           end)
      end
  end.

(** [writer_ok] is the outcome of the task that writes the replies, which is
    awaited at the end. *)
Definition process_channel_io (writer_ok : bool) (default_upstream : option SocketAddr) (stream : nat) (r : reader)
    (s : reply_state) : option (result channel_error unit) * list UdpPacket * reply_state :=
  match read_optional_tunnel_target r with
  | (Err e, _) => (Some (Err (ReadUdpTargetFailed e)), [], s)
  | (Ok target, r) =>
      match channel_io_loop (S (reader_size r)) target (target_family_is_ipv6 target default_upstream) stream None r s with
      | (Some (Ok _), out, s) => (Some (if writer_ok then Ok () else Err ReplyWriterFailed), out, s)
      | x => x
      end
  end.

(** [process_channel] is [process_channel_io] on the halves of a QUIC stream. *)
Definition process_channel := process_channel_io.

(** The reply router: the stream a reply is sent to, if any. *)
Definition route_reply (p : UdpPacket) (s : reply_state) : option nat := reply_map s !! local_addr p.

(** [resolve_udp_target]; [lookup_host] is the system resolver, [None] a failed
    or timed-out lookup. *)
Inductive resolve_error : Type := ResolveFailed | ResolveEmpty.

Definition resolve_udp_target (lookup_host : string → Z → option (list SocketAddr)) (t : TunnelTarget) :
  result resolve_error SocketAddr :=
  match t with
  | Addr a => Ok a
  | Domain host port =>
      match lookup_host host port with
      | None => Err ResolveFailed
      | Some addrs =>
          match head (filter (λ a, is_ipv4 a = true) addrs) with
          | Some a => Ok a
          | None => ok_or ResolveEmpty (head addrs)
          end
      end
  end.

(** [process], up to the upstream socket: where the flow goes. *)
Inductive process_error : Type :=
| ReadFlowTargetFailed (e : TransferError)
| ResolveError (e : resolve_error)
| NoUpstream.

Definition process_target (lookup_host : string → Z → option (list SocketAddr))
    (upstream_addr : option SocketAddr) : eff reader process_error SocketAddr :=
  target ← eff_map_err ReadFlowTargetFailed read_optional_tunnel_target;
  match upstream_addr with
  | Some a => mret a
  | None =>
      match target with
      | Some t => lift (map_err ResolveError (resolve_udp_target lookup_host t))
      | None => throw NoUpstream
      end
  end.

(** The rest of [process]: every datagram of the stream is sent on the socket
    ([sendable] gives the outcome of each [send]). *)
Fixpoint process_datagrams (fuel : nat) (sendable : nat → bool) (r : reader) :
  option bool * list (list Z) :=
  match fuel with
  | O => (None, [])
  | S f =>
      match recv_raw_from true UDP_PACKET_SIZE r with
      | (Ok bs, r) =>
          if sendable f then
            match process_datagrams f sendable r with (res, out) => (res, bs :: out) end
          else (Some false, [])
      | (Err _, _) => (Some true, [])
      end
  end.

(** ** Reserving addresses *)

Lemma local_addr_inj p q b : channel_local_addr_for_port p b = channel_local_addr_for_port q b → p = q.
Proof. unfold channel_local_addr_for_port. destruct b; simpl; congruence. Qed.

Lemma local_addr_family p b :
  is_ipv6 (channel_local_addr_for_port p b) = b ∧ sa_port (channel_local_addr_for_port p b) = p.
Proof. by destruct b. Qed.

(** A reserved address is new and is recorded for its stream. *)
Lemma reserve_loop_ok n ipv6 stream s a s' :
  in_u 16 (next_local_port s) → reserve_loop n ipv6 stream s = (Some a, s') →
  reply_map s !! a = None ∧ reply_map s' = <[a := stream]> (reply_map s) ∧
  in_u 16 (next_local_port s') ∧ is_ipv6 a = ipv6 ∧ 0 < sa_port a < 65536.
Proof.
  revert s. induction n as [|n IH]; intros s Hp Hr; [done|]. cbn [reserve_loop] in Hr.
  assert (in_u 16 (wrapping_add 16 (next_local_port s) 1)) as Hp' by by apply wrap_in_u.
  destruct (Z.eqb_spec (next_local_port s) 0).
  { by apply (IH (Replies (reply_map s) (wrapping_add 16 (next_local_port s) 1))) in Hr. }
  cbn [reply_map next_local_port] in Hr.
  destruct (reply_map s !! _) eqn:Hl.
  { by apply (IH (Replies (reply_map s) (wrapping_add 16 (next_local_port s) 1))) in Hr. }
  simplify_eq. destruct (local_addr_family (next_local_port s) ipv6) as [-> ->].
  unfold in_u in Hp. split_and!; try done; lia.
Qed.

(** The ports an exhausted loop has tried. *)
Lemma reserve_loop_fails n ipv6 stream s s' k :
  in_u 16 (next_local_port s) → reserve_loop n ipv6 stream s = (None, s') → (k < n)%nat →
  let port := wrap 16 (next_local_port s + Z.of_nat k) in
  port = 0 ∨ is_Some (reply_map s !! channel_local_addr_for_port port ipv6).
Proof.
  revert s k. induction n as [|n IH]; intros s k Hp Hr Hk; [lia|]. cbn [reserve_loop] in Hr.
  assert (in_u 16 (wrapping_add 16 (next_local_port s) 1)) as Hp' by by apply wrap_in_u.
  assert (∃ s1, s1 = Replies (reply_map s) (wrapping_add 16 (next_local_port s) 1) ∧
    reserve_loop n ipv6 stream s1 = (None, s') ∧
    (next_local_port s = 0 ∨ is_Some (reply_map s !! channel_local_addr_for_port (next_local_port s) ipv6)))
    as (s1 & -> & Hr1 & H0).
  { eexists. split; [done|]. destruct (Z.eqb_spec (next_local_port s) 0); [auto|].
    cbn [reply_map next_local_port] in Hr. destruct (reply_map s !! _) eqn:Hl; [|done]. eauto. }
  destruct k as [|k].
  - rewrite Z.add_0_r, wrap_small by done. done.
  - specialize (IH (Replies (reply_map s) (wrapping_add 16 (next_local_port s) 1)) k Hp' Hr1 ltac:(lia)). cbn [reply_map next_local_port] in IH.
    unfold wrapping_add, wrap in *. rewrite Zplus_mod_idemp_l in IH.
    by replace (next_local_port s + Z.of_nat (S k)) with (next_local_port s + 1 + Z.of_nat k) by lia.
Qed.

Lemma reserve_channel_local_addr_cases ipv6 stream s :
  in_u 16 (next_local_port s) →
  match reserve_channel_local_addr ipv6 stream s with
  | (Some a, s') =>
      reply_map s !! a = None ∧ reply_map s' = <[a := stream]> (reply_map s) ∧
      is_ipv6 a = ipv6 ∧ 0 < sa_port a < 65536
  | (None, _) =>
      ∀ port, 0 < port < 65536 → port ≠ wrap 16 (next_local_port s - 1) →
        is_Some (reply_map s !! channel_local_addr_for_port port ipv6)
  end.
Proof.
  intros Hp. destruct (reserve_channel_local_addr ipv6 stream s) as [[a|] s'] eqn:Hr.
  - apply reserve_loop_ok in Hr as (? & ? & _ & ?); done.
  - intros port Hport Hne. set (k := Z.to_nat ((port - next_local_port s) mod 65536)).
    pose proof (Z.mod_pos_bound (port - next_local_port s) 65536 ltac:(lia)) as Hb.
    assert (wrap 16 (next_local_port s + Z.of_nat k) = port) as Hk.
    { unfold wrap, k. change (2 ^ 16) with 65536. rewrite Z2Nat.id by lia.
      rewrite Zplus_mod_idemp_r. replace (_ + _) with port by lia. apply Z.mod_small. lia. }
    assert (k < Z.to_nat (umax 16))%nat as Hlt.
    { apply Nat2Z.inj_lt. unfold k. rewrite !Z2Nat.id by (unfold umax; lia). change (umax 16) with 65535.
      destruct (decide ((port - next_local_port s) mod 65536 = 65535)) as [He|]; [|lia].
      exfalso. apply Hne. unfold wrap. change (2 ^ 16) with 65536.
      rewrite <-Hk. unfold wrap, k. rewrite He. change (2 ^ 16) with 65536. change (Z.of_nat (Z.to_nat 65535)) with 65535.
      replace (next_local_port s + 65535) with (next_local_port s - 1 + 1 * 65536) by lia.
      by rewrite Z.mod_add. }
    destruct (reserve_loop_fails _ _ _ _ _ k Hp Hr Hlt) as [Hz|Hs]; rewrite Hk in *; [lia|done].
Qed.

Lemma reserve_channel_local_addr_ok ipv6 stream s :
  in_u 16 (next_local_port s) →
  match reserve_channel_local_addr ipv6 stream s with
  | (Some a, s') =>
      reply_map s !! a = None ∧ reply_map s' = <[a := stream]> (reply_map s) ∧ is_ipv6 a = ipv6
  | (None, _) =>
      ∀ port, 0 < port < 65536 → port ≠ wrap 16 (next_local_port s - 1) →
        is_Some (reply_map s !! channel_local_addr_for_port port ipv6)
  end.
Proof.
  intros Hp. pose proof (reserve_channel_local_addr_cases ipv6 stream s Hp) as H.
  destruct (reserve_channel_local_addr ipv6 stream s) as [[a|] s']; [|done].
  by destruct H as (? & ? & ? & _).
Qed.

(** Reserving a synthetic address never takes one that is in use, never
    uses port 0 and keeps the requested family; and it fails only when every
    port is in use, except that the port just before the counter is not tried. *)
Theorem reserve_channel_local_addr_spec ipv6 stream s :
  in_u 16 (next_local_port s) →
  match reserve_channel_local_addr ipv6 stream s with
  | (Some a, s') =>
      reply_map s !! a = None ∧ reply_map s' = <[a := stream]> (reply_map s) ∧
      is_ipv6 a = ipv6 ∧ 0 < sa_port a < 65536
  | (None, _) =>
      ∀ port, 0 < port < 65536 → port ≠ wrap 16 (next_local_port s - 1) →
        is_Some (reply_map s !! channel_local_addr_for_port port ipv6)
  end.
Proof. apply reserve_channel_local_addr_cases. Qed.

(** ** A stream through the channel egress *)

(** Datagrams that fit the buffers. *)
Definition datagrams_ok (ds : list (list Z)) : Prop := Forall (λ d, (length d <= UDP_PACKET_SIZE)%nat) ds.

Definition datagram_frames (ds : list (list Z)) : list Z := ds ≫= datagram_frame.

Lemma recv_datagram d r rest :
  (length d <= UDP_PACKET_SIZE)%nat → delivers r (datagram_frame d ++ rest) →
  ∃ r', recv_raw_from true UDP_PACKET_SIZE r = (Ok d, r') ∧ delivers r' rest.
Proof. intros Hd. apply recv_raw_fits; [done|]. unfold UDP_PACKET_SIZE in Hd. lia. Qed.

Lemma datagram_frames_size ds : (length ds <= length (datagram_frames ds))%nat.
Proof.
  induction ds as [|d ds IH]; [done|]. unfold datagram_frames in *. rewrite bind_cons, length_app.
  assert (2 <= length (datagram_frame d))%nat.
  { unfold datagram_frame. rewrite length_app, length_to_be_bytes. lia. }
  rewrite length_cons. lia.
Qed.

(** Once the stream has its address, every datagram is forwarded with it and
    the address is released at the end. *)
Lemma channel_io_loop_ok ds : ∀ fuel target ipv6 stream a r s,
  (length ds < fuel)%nat → datagrams_ok ds → delivers r (datagram_frames ds) →
  channel_io_loop fuel target ipv6 stream (Some a) r s =
    (Some (Ok ()), (λ d, MkPacket d a target) <$> ds, Replies (delete a (reply_map s)) (next_local_port s)).
Proof.
  induction ds as [|d ds IH]; intros fuel target ipv6 stream a r s Hf Hok Hd;
    (destruct fuel as [|fuel]; [simpl in Hf; lia|]); cbn [channel_io_loop].
  - by rewrite recv_raw_end.
  - apply Forall_cons_1 in Hok as [Hd1 Hok].
    destruct (recv_datagram d r (datagram_frames ds) Hd1 Hd) as (r' & -> & Hd').
    cbn [channel_local_addr]. by rewrite (IH fuel target ipv6 stream a r' s) by (done || simpl in Hf; lia).
Qed.

(** A UDP stream at the channel egress: however the transport chunks it,
    every datagram is forwarded once, in order and unchanged, stamped with the
    target written at stream open and with one local address that no other
    stream has and that matches the target's family; when the stream ends the
    address is free again and the reply map is as it was. *)
Theorem process_channel_io_forwards writer_ok ot bytes ds default_upstream stream r s :
  (∀ t, ot = Some t → target_wf t) → encode_tunnel_target ot true = Ok (Some bytes) →
  datagrams_ok ds → ds ≠ [] → in_u 16 (next_local_port s) →
  (∃ port, 0 < port < 65536 ∧ port ≠ wrap 16 (next_local_port s - 1) ∧
     ∀ ipv6, reply_map s !! channel_local_addr_for_port port ipv6 = None) →
  delivers r (bytes ++ datagram_frames ds) →
  ∃ a port', process_channel_io writer_ok default_upstream stream r s =
      (Some (if writer_ok then Ok () else Err ReplyWriterFailed), (λ d, MkPacket d a (target_normalize <$> ot)) <$> ds, Replies (reply_map s) port') ∧
    reply_map s !! a = None ∧ is_ipv6 a = target_family_is_ipv6 ot default_upstream.
Proof.
  intros Hwf Henc Hok Hne Hp (port & Hport & Hpne & Hfree) Hd.
  destruct (read_encoded_optional ot bytes r (datagram_frames ds) Hwf Henc Hd) as (r1 & Hr1 & Hd1).
  unfold process_channel_io. rewrite Hr1. destruct ds as [|d ds]; [done|].
  apply Forall_cons_1 in Hok as [Hdd Hok].
  pose proof (delivers_length _ _ Hd1) as Hsize. pose proof (datagram_frames_size (d :: ds)) as Hlen.
  assert (target_family_is_ipv6 (target_normalize <$> ot) default_upstream =
          target_family_is_ipv6 ot default_upstream) as -> by by destruct ot as [[[]|]|].
  set (ipv6 := target_family_is_ipv6 ot default_upstream).
  destruct (recv_datagram d r1 (datagram_frames ds) Hdd Hd1) as (r2 & Hr2 & Hd2).
  remember (reader_size r1) as n.
  assert (length ds < n)%nat as Hlt by (rewrite length_cons in Hlen; lia). cbn [channel_io_loop]. rewrite Hr2. cbn [channel_local_addr].
  pose proof (reserve_channel_local_addr_ok ipv6 stream s Hp) as Hres.
  destruct (reserve_channel_local_addr ipv6 stream s) as [[a|] s1].
  - destruct Hres as (Hnone & Hmap & Hfam).
    rewrite (channel_io_loop_ok ds n) by done.
    exists a, (next_local_port s1). rewrite Hmap, delete_insert_id by done. done.
  - destruct (Hres port Hport Hpne) as [? Hx]. by rewrite Hfree in Hx.
Qed.

(** ** Replies go to the stream that owns their address

    [streams] maps a live stream to the address it reserved. *)
Record channel_sys : Type := ChannelSys { cs_replies : reply_state; cs_streams : gmap nat SocketAddr }.

Inductive channel_step : channel_sys → channel_sys → Prop :=
| CReserve s st stream ipv6 a s' :
    st !! stream = None → reserve_channel_local_addr ipv6 stream s = (Some a, s') →
    channel_step (ChannelSys s st) (ChannelSys s' (<[stream := a]> st))
| CExhausted s st stream ipv6 s' :
    reserve_channel_local_addr ipv6 stream s = (None, s') →
    channel_step (ChannelSys s st) (ChannelSys s' st)
| CEnd s st stream a :
    st !! stream = Some a →
    channel_step (ChannelSys s st)
      (ChannelSys (Replies (delete a (reply_map s)) (next_local_port s)) (delete stream st)).

Inductive channel_reachable : channel_sys → Prop :=
| ChInit : channel_reachable (ChannelSys (Replies ∅ 10000) ∅)
| ChNext x y : channel_reachable x → channel_step x y → channel_reachable y.

Definition channel_inv (x : channel_sys) : Prop :=
  in_u 16 (next_local_port (cs_replies x)) ∧
  ∀ a stream, reply_map (cs_replies x) !! a = Some stream ↔ cs_streams x !! stream = Some a.

Lemma reserve_loop_port n ipv6 stream s x s' :
  in_u 16 (next_local_port s) → reserve_loop n ipv6 stream s = (x, s') →
  in_u 16 (next_local_port s') ∧ (x = None → reply_map s' = reply_map s).
Proof.
  revert s. induction n as [|n IH]; intros s Hp Hr; [by simplify_eq/=|]. cbn [reserve_loop] in Hr.
  assert (in_u 16 (wrapping_add 16 (next_local_port s) 1)) as Hp' by by apply wrap_in_u.
  specialize (IH (Replies (reply_map s) (wrapping_add 16 (next_local_port s) 1)) Hp').
  destruct (_ =? 0); [by apply IH in Hr|]. cbn [reply_map next_local_port] in Hr.
  destruct (reply_map s !! _); [by apply IH in Hr|]. by simplify_eq.
Qed.

Lemma channel_step_inv x y : channel_inv x → channel_step x y → channel_inv y.
Proof.
  intros [Hp Hm] Hs. destruct Hs as [s st stream ipv6 a s' Hst Hr|s st stream ipv6 s' Hr|s st stream a Hst]; simpl in *.
  - destruct (reserve_loop_ok _ _ _ _ _ _ Hp Hr) as (Hn & Hmap & Hp' & _). split; [done|].
    intros b t. simpl. rewrite Hmap. destruct (decide (b = a)) as [->|Hba], (decide (t = stream)) as [->|Hts];
      rewrite ?lookup_insert_eq, ?lookup_insert_ne by done.
    + done.
    + split; [by intros [= <-]|]. intros Ht%Hm. by rewrite Hn in Ht.
    + split; [|by intros [= <-]]. intros Hb%Hm. by rewrite Hst in Hb.
    + apply Hm.
  - destruct (reserve_loop_port _ _ _ _ _ _ Hp Hr) as [Hp' Heq]. split; [done|]. simpl. by rewrite Heq.
  - split; [done|]. intros b t. simpl. apply Hm in Hst as Ha.
    destruct (decide (b = a)) as [->|Hba], (decide (t = stream)) as [->|Hts];
      rewrite ?lookup_delete_eq, ?lookup_delete_ne by done.
    + done.
    + split; [done|]. intros Ht%Hm. by rewrite Ht in Ha; simplify_eq.
    + split; [|done]. intros Hb%Hm. by rewrite Hb in Hst; simplify_eq.
    + apply Hm.
Qed.

(** Replies cannot cross flows: however streams start and end, two live
    streams never share a synthetic address, and the router sends a reply that
    carries a stream's address to that stream and a reply whose address no live
    stream has nowhere. *)
Theorem udp_reply_isolation x :
  channel_reachable x →
  (∀ stream a p, cs_streams x !! stream = Some a → local_addr p = a →
     route_reply p (cs_replies x) = Some stream) ∧
  (∀ s1 s2 a, cs_streams x !! s1 = Some a → cs_streams x !! s2 = Some a → s1 = s2) ∧
  (∀ p, (∀ stream, cs_streams x !! stream ≠ Some (local_addr p)) → route_reply p (cs_replies x) = None).
Proof.
  intros Hr. assert (channel_inv x) as [_ Hm].
  { induction Hr as [|x y _ IH Hs]; [|by eapply channel_step_inv].
    split; [by apply (bool_decide_unpack _); vm_compute|]. intros a t. simpl. by rewrite !lookup_empty. }
  unfold route_reply. split_and!.
  - intros stream a p Hst ->. by apply Hm.
  - intros s1 s2 a H1%Hm H2%Hm. congruence.
  - intros p Hno. destruct (reply_map _ !! _) as [t|] eqn:Ht; [|done]. apply Hm in Ht. by apply Hno in Ht.
Qed.

(** * The ingress *)

Definition UdpStreamKey : Type := SocketAddr * option TunnelTarget.
Definition display_stream_key (key : UdpStreamKey) : string :=
  match key.2 with
  | Some peer_addr => (display_socket_addr key.1 +:+ " -> " +:+ display_target peer_addr)%string
  | None => display_socket_addr key.1
  end.
Definition packet_key (p : UdpPacket) : UdpStreamKey := (local_addr p, peer_addr p).

Definition PACKET_QUEUE : nat := 512.

(** A stream of the ingress: its key, the bytes of the target written at open,
    what its writer has sent, what is queued for the writer, and whether the
    writer still runs. *)
Record udp_stream : Type := UStream {
  us_key : UdpStreamKey;
  us_head : list Z;
  us_sent : list UdpPacket;
  us_queue : list UdpPacket;
  us_writer : bool
}.

Record ingress : Type := Ingress {
  stream_map : gmap UdpStreamKey nat;
  streams : gmap nat udp_stream;
  seen : list UdpPacket          (** every packet received so far *)
}.

(** [open_stream]; [opened] is the outcome of [open_bi]. *)
Definition open_stream (opened : option writer) (key : UdpStreamKey) (s : ingress) :
  option nat * ingress :=
  match stream_map s !! key with
  | Some id => (Some id, s)
  | None =>
      match opened with
      | None => (None, s)
      | Some w =>
          match write_tunnel_target key.2 true w with
          | (Err _, _) => (None, s)
          | (Ok _, w) =>
              let id := fresh (dom (streams s)) in
              (Some id, Ingress (<[key := id]> (stream_map s))
                          (<[id := UStream key (w_out w) [] [] true]> (streams s)) (seen s))
          end
      end
  end.

(** [packet_sender.try_send(packet)]: dropped when the queue is full or the
    writer is gone. *)
Definition try_send (p : UdpPacket) (st : udp_stream) : udp_stream :=
  if us_writer st && (length (us_queue st) <? PACKET_QUEUE)%nat
  then UStream (us_key st) (us_head st) (us_sent st) (us_queue st ++ [p]) (us_writer st)
  else st.

(** One packet of [start_serving]. *)
Definition serve_packet (opened : option writer) (p : UdpPacket) (s : ingress) : ingress :=
  let s := Ingress (stream_map s) (streams s) (seen s ++ [p]) in
  match open_stream opened (packet_key p) s with
  | (None, s) => s
  | (Some id, s) => Ingress (stream_map s) (alter (try_send p) id (streams s)) (seen s)
  end.

(** The steps of the tasks: a packet arrives; a writer sends one packet; a
    writer or a reader ends, and removes the map entry of its key. *)
Inductive ingress_step : ingress → ingress → Prop :=
| IPacket s opened p :
    (* nothing has been written yet on a stream just opened *)
    (∀ w, opened = Some w → w_out w = []) → ingress_step s (serve_packet opened p s)
| IWrite s id key head sent p q :
    streams s !! id = Some (UStream key head sent (p :: q) true) →
    ingress_step s (Ingress (stream_map s)
      (<[id := UStream key head (sent ++ [p]) q true]> (streams s)) (seen s))
| IWriterEnds s id st :
    streams s !! id = Some st → us_writer st = true →
    ingress_step s (Ingress (delete (us_key st) (stream_map s))
      (<[id := UStream (us_key st) (us_head st) (us_sent st) (us_queue st) false]> (streams s)) (seen s))
| IReaderEnds s id st :
    streams s !! id = Some st →
    ingress_step s (Ingress (delete (us_key st) (stream_map s)) (streams s) (seen s)).

Inductive ingress_reachable : ingress → Prop :=
| InInit : ingress_reachable (Ingress ∅ ∅ [])
| InNext x y : ingress_reachable x → ingress_step x y → ingress_reachable y.

(** A stream carries only packets of its flow, in the order received. *)
Definition stream_ok (hist : list UdpPacket) (st : udp_stream) : Prop :=
  Forall (λ p, packet_key p = us_key st) (us_sent st ++ us_queue st) ∧
  us_sent st ++ us_queue st `sublist_of` hist.

Definition ingress_inv (s : ingress) : Prop :=
  (∀ id st, streams s !! id = Some st → stream_ok (seen s) st) ∧
  (∀ key id, stream_map s !! key = Some id → ∃ st, streams s !! id = Some st ∧ us_key st = key).

Lemma stream_ok_seen hist p st : stream_ok hist st → stream_ok (hist ++ [p]) st.
Proof. intros [H1 H2]. split; [done|]. by apply sublist_inserts_r. Qed.

Lemma stream_ok_try_send hist p st :
  stream_ok hist st → packet_key p = us_key st → stream_ok (hist ++ [p]) (try_send p st).
Proof.
  intros Hok Hk. unfold try_send. destruct (_ && _); [|by apply stream_ok_seen].
  destruct Hok as [H1 H2]. split; simpl; rewrite app_assoc.
  - apply Forall_app. auto.
  - by apply sublist_app.
Qed.

Lemma open_stream_inv opened key s x s' :
  ingress_inv s → open_stream opened key s = (x, s') →
  ingress_inv s' ∧ seen s' = seen s ∧
  match x with Some id => ∃ st, streams s' !! id = Some st ∧ us_key st = key | None => True end.
Proof.
  intros [Hs Hm] Ho. unfold open_stream in Ho. destruct (stream_map s !! key) as [id|] eqn:Hk.
  { simplify_eq. split_and!; [done|done|]. by apply Hm. }
  destruct opened as [w|]; [|by simplify_eq].
  destruct (write_tunnel_target key.2 true w) as [[[]|e] w']; [|by simplify_eq].
  simplify_eq. set (id := fresh _). split_and!; simpl; [|done|rewrite lookup_insert_eq; eauto].
  assert (streams s !! id = None) as Hn by apply not_elem_of_dom, is_fresh.
  split; simpl.
  - intros i st Hi. apply lookup_insert_Some in Hi as [[<- <-]|[_ Hi]]; [|by eauto].
    split; simpl; [constructor|apply sublist_nil_l].
  - intros k i Hi. apply lookup_insert_Some in Hi as [[<- <-]|[_ Hi]].
    + rewrite lookup_insert_eq. eauto.
    + destruct (Hm _ _ Hi) as (st & Hst & Hkey). exists st. split; [|done].
      rewrite lookup_insert_ne; [done|]. intros <-. by rewrite Hn in Hst.
Qed.

Lemma serve_packet_inv opened p s : ingress_inv s → ingress_inv (serve_packet opened p s).
Proof.
  intros [Hs Hm]. unfold serve_packet. set (s0 := Ingress _ _ _).
  assert (ingress_inv s0) as H0.
  { split; simpl; [|done]. intros id st Hst. by apply stream_ok_seen, (Hs id). }
  destruct (open_stream opened (packet_key p) s0) as [[id|] s1] eqn:Ho;
    destruct (open_stream_inv _ _ _ _ _ H0 Ho) as ([Hs1 Hm1] & Hseen & Hid); [|by split].
  destruct Hid as (st0 & Hst0 & Hkey). split; simpl.
  - intros i st Hi. rewrite lookup_alter in Hi. destruct (decide (id = i)) as [<-|Hne]; [|by eauto].
    rewrite Hst0 in Hi. simpl in Hi. simplify_eq.
    assert (stream_ok (seen s) st0) as Hok.
    { unfold open_stream in Ho. simpl in Ho. destruct (stream_map s !! packet_key p) as [i|] eqn:Hk.
      - simplify_eq. eauto.
      - destruct opened as [w|]; [|done]. destruct (write_tunnel_target _ _ _) as [[]]; [|done].
        simplify_eq. simpl in Hst0. rewrite lookup_insert_eq in Hst0. simplify_eq.
        split; simpl; [constructor|apply sublist_nil_l]. }
    rewrite Hseen. by apply stream_ok_try_send.
  - intros k i Hi. destruct (Hm1 _ _ Hi) as (st & Hst & Hk). rewrite lookup_alter.
    destruct (decide (id = i)) as [<-|]; [|by eauto]. rewrite Hst. simpl. eexists. split; [done|].
    unfold try_send. by destruct (_ && _).
Qed.

Lemma ingress_step_inv x y : ingress_inv x → ingress_step x y → ingress_inv y.
Proof.
  intros Hinv Hs. pose proof Hinv as [Hst Hm].
  destruct Hs as [s opened p _|s id key hd sent p q Hid|s id st Hid Hw|s id st Hid].
  - by apply serve_packet_inv.
  - split; simpl.
    + intros i st Hi. apply lookup_insert_Some in Hi as [[<- <-]|[_ Hi]]; [|by eauto].
      apply Hst in Hid as [H1 H2]. split; simpl in *; by rewrite <-app_assoc.
    + intros k i Hi. destruct (Hm _ _ Hi) as (st & Hs' & Hk).
      destruct (decide (id = i)) as [<-|]; [|by rewrite lookup_insert_ne; eauto].
      rewrite lookup_insert_eq. rewrite Hid in Hs'. simplify_eq. eauto.
  - split; simpl.
    + intros i st' Hi. apply lookup_insert_Some in Hi as [[<- <-]|[_ Hi]]; [|by eauto].
      by apply Hst in Hid.
    + intros k i [_ Hi]%lookup_delete_Some. destruct (Hm _ _ Hi) as (st' & Hs' & Hk).
      destruct (decide (id = i)) as [<-|]; [|by rewrite lookup_insert_ne; eauto].
      rewrite lookup_insert_eq. rewrite Hid in Hs'. simplify_eq. eauto.
  - split; simpl; [done|]. intros k i [_ Hi]%lookup_delete_Some. eauto.
Qed.

(** C18: The ingress never mixes flows: whatever opens, fails or ends in whatever
    order, what a stream has sent or queued are packets with the source address
    and the destination it was opened for,
    each at most once and in the order in which they arrived. *)
Theorem udp_flow_isolation s id st :
  ingress_reachable s → streams s !! id = Some st →
  Forall (λ p, us_key st = (local_addr p, peer_addr p)) (us_sent st ++ us_queue st) ∧
  us_sent st ++ us_queue st `sublist_of` seen s.
Proof.
  intros Hr Hst. enough (stream_ok (seen s) st) as [Hk Hsub].
  { split; [|done]. eapply list.Forall_impl; [exact Hk|]. by intros p <-. } assert (ingress_inv s) as [Hs _]; [|by apply (Hs id)].
  clear Hst. induction Hr as [|x y _ IH Hstep]; [|by eapply ingress_step_inv].
  split; simpl; by intros ? ? ?%lookup_empty_Some.
Qed.

(** ** A late task unhooks a newer stream *)

Definition flow_packet (bs : list Z) : UdpPacket := MkPacket bs sample_addr None.
Definition flow_key : UdpStreamKey := (sample_addr, None).

Definition first_stream : udp_stream := UStream flow_key [0] [flow_packet [1]] [] true.
Definition second_stream (q : list UdpPacket) : udp_stream := UStream flow_key [0] [] q true.

(** The entry of a live stream can be removed by an older task.  The reader
    of a flow's first stream times out and unhooks the flow; the next packet
    opens a second stream under the same key; then the first stream's writer
    ends and removes the second stream's entry.  The second stream is alive and
    healthy but no longer in the map, so the flow's next packet opens a third
    one, and with it the egress sees the flow under a new address. *)
Theorem late_writer_unhooks_new_stream :
  ∃ s, ingress_reachable s ∧
    streams s !! 1%nat = Some (second_stream [flow_packet [2]]) ∧ stream_map s !! flow_key = None ∧
    ∃ s', s' = serve_packet (Some open_writer) (flow_packet [3]) s ∧
      stream_map s' !! flow_key = Some 2%nat ∧
      streams s' !! 2%nat = Some (second_stream [flow_packet [3]]).
Proof.
  set (s1 := serve_packet (Some open_writer) (flow_packet [1]) (Ingress ∅ ∅ [])).
  set (s2 := Ingress (stream_map s1) (<[0%nat := first_stream]> (streams s1)) (seen s1)).
  set (s3 := Ingress (delete flow_key (stream_map s2)) (streams s2) (seen s2)).
  set (s4 := serve_packet (Some open_writer) (flow_packet [2]) s3).
  set (s5 := Ingress (delete flow_key (stream_map s4))
    (<[0%nat := UStream flow_key [0] [flow_packet [1]] [] false]> (streams s4)) (seen s4)).
  exists s5. split_and!; [|by vm_compute|by vm_compute|by eexists; split_and!; [done|by vm_compute..]].
  apply (InNext s4); [apply (InNext s3); [apply (InNext s2); [apply (InNext s1); [apply (InNext (Ingress ∅ ∅ []))|]|]|]|].
  - constructor.
  - apply IPacket. by intros w [= <-].
  - apply (IWrite s1 0%nat flow_key [0] [] (flow_packet [1]) []). by vm_compute.
  - apply (IReaderEnds s2 0%nat first_stream). by vm_compute.
  - apply IPacket. by intros w [= <-].
  - apply (IWriterEnds s4 0%nat first_stream); by vm_compute.
Qed.

(** The resolver prefers an IPv4 address and only uses addresses it was given. *)
Lemma resolve_udp_target_spec lookup_host host port addrs :
  lookup_host host port = Some addrs →
  match resolve_udp_target lookup_host (Domain host port) with
  | Ok a => a ∈ addrs ∧ (is_ipv4 a = false → Forall (λ b, is_ipv4 b = false) addrs)
  | Err e => e = ResolveEmpty ∧ addrs = []
  end.
Proof.
  intros Hl. unfold resolve_udp_target. rewrite Hl.
  destruct (filter (λ a, is_ipv4 a = true) addrs) as [|a f] eqn:Hf; simpl.
  - assert (Forall (λ b, is_ipv4 b = false) addrs) as Hall.
    { apply Forall_forall. intros b Hb%list_elem_of_In. destruct (is_ipv4 b) eqn:Hi; [|done].
      assert (b ∈ filter (λ a, is_ipv4 a = true) addrs) as Hin by (apply list_elem_of_filter; done).
      rewrite Hf in Hin. by apply elem_of_nil in Hin. }
    destruct addrs as [|a addrs]; simpl; [done|]. split; [rewrite elem_of_cons; auto|done].
  - assert (a ∈ filter (λ a, is_ipv4 a = true) addrs) as Hin by (rewrite Hf, elem_of_cons; auto).
    apply list_elem_of_filter in Hin as [Ha Hin]. split; [done|]. by rewrite Ha.
Qed.

(** ** Witnesses *)
Lemma reserve_channel_local_addr_spec_witness :
  reply_map (Replies ∅ 65535) !! SockV4 0 65535 = None ∧
  reply_map (Replies {[SockV4 0 65535 := 7%nat]} 0) = <[SockV4 0 65535 := 7%nat]> (reply_map (Replies ∅ 65535)) ∧
  is_ipv6 (SockV4 0 65535) = false ∧ 0 < sa_port (SockV4 0 65535) < 65536.
Proof.
  pose proof (reserve_channel_local_addr_spec false 7 (Replies ∅ 65535)
    ltac:(by apply (bool_decide_unpack _); vm_compute)) as H.
  unfold reserve_channel_local_addr in H.
  change (Z.to_nat (umax 16)) with (S (Z.to_nat 65534)) in H. cbn [reserve_loop] in H. exact H.
Defined.

Lemma process_channel_io_forwards_witness :
  ∃ a port', process_channel_io true None 3 [Chunk ([0] ++ datagram_frames [[1]; [2; 3]])] (Replies ∅ 10000) =
      (Some (Ok ()), (λ d, MkPacket d a None) <$> [[1]; [2; 3]], Replies ∅ port') ∧
    reply_map (Replies ∅ 10000) !! a = None ∧ is_ipv6 a = target_family_is_ipv6 None None.
Proof.
  apply (process_channel_io_forwards true None [0] [[1]; [2; 3]] None 3 _ (Replies ∅ 10000)).
  - done.
  - done.
  - repeat constructor; unfold UDP_PACKET_SIZE; simpl; lia.
  - done.
  - by apply (bool_decide_unpack _); vm_compute.
  - exists 10000. split_and!; [done|done|by vm_compute|]. intros b. apply lookup_empty.
  - exists []. split; [by rewrite app_nil_r|done].
Defined.

Definition sample_channel_sys : channel_sys :=
  ChannelSys (Replies {[SockV4 0 10000 := 4%nat]} 10001) {[4%nat := SockV4 0 10000]}.

Lemma udp_reply_isolation_witness :
  (∀ stream a p, cs_streams sample_channel_sys !! stream = Some a → local_addr p = a →
     route_reply p (cs_replies sample_channel_sys) = Some stream) ∧
  (∀ s1 s2 a, cs_streams sample_channel_sys !! s1 = Some a →
     cs_streams sample_channel_sys !! s2 = Some a → s1 = s2) ∧
  (∀ p, (∀ stream, cs_streams sample_channel_sys !! stream ≠ Some (local_addr p)) →
     route_reply p (cs_replies sample_channel_sys) = None).
Proof.
  apply (udp_reply_isolation sample_channel_sys).
  eapply ChNext; [apply ChInit|].
  apply (CReserve (Replies ∅ 10000) ∅ 4%nat false); [done|].
  unfold reserve_channel_local_addr. change (Z.to_nat (umax 16)) with (S (Z.to_nat 65534)).
  reflexivity.
Defined.

Lemma udp_flow_isolation_witness :
  Forall (λ p, flow_key = (local_addr p, peer_addr p)) [flow_packet [1]] ∧
  [flow_packet [1]] `sublist_of` seen (serve_packet (Some open_writer) (flow_packet [1]) (Ingress ∅ ∅ [])).
Proof.
  apply (udp_flow_isolation (serve_packet (Some open_writer) (flow_packet [1]) (Ingress ∅ ∅ [])) 0%nat
    (UStream flow_key [0] [] [flow_packet [1]] true)).
  - apply (InNext (Ingress ∅ ∅ [])); [constructor|apply IPacket; by intros w [= <-]].
  - by vm_compute.
Defined.
