(* ===== verification/UdpEgress.v ===== *)
(** A UDP flow from end to end ([src/src/udp/udp_tunnel.rs]): the plain egress
    ([process] with its upstream socket and [udp_to_quic]) composed with the
    ingress of [UdpTunnel], in both directions. *)
From S2P Require Import Prelude Io Net Target AddrText Message Servers UdpTunnel.

(** * The egress *)
Inductive egress_error : Type :=
| EgressTarget (e : process_error)
| BindSocketFailed
| ConnectSocketFailed (a : SocketAddr)
| NoSocket (a : SocketAddr)
| SendDatagramFailed.

(** [create_peer_socket_and_exchange_data]: the upstream the new socket is
    connected to.  [binds local] and [connects local peer] say whether a socket
    can be bound and then connected.  The task it starts is [udp_to_quic]. *)
Definition create_peer_socket_and_exchange_data (binds : SocketAddr → bool) (connects : SocketAddr → SocketAddr → bool)
    (addr : SocketAddr) : result egress_error (option SocketAddr) :=
  let local_addr := socket_addr_with_unspecified_ip_port (is_ipv6 addr) in
  if binds local_addr then
    if connects local_addr addr then Ok (Some addr) else Err (ConnectSocketFailed addr)
  else Err BindSocketFailed.

(** [process]: the result, the upstream the socket is connected to and the
    datagrams sent on it. *)
Definition process (lookup_host : string → Z → option (list SocketAddr)) (binds : SocketAddr → bool)
    (connects : SocketAddr → SocketAddr → bool) (upstream_addr : option SocketAddr) (sendable : nat → bool) (r : reader) :
  option (result egress_error unit) * option SocketAddr * list (list Z) :=
  match process_target lookup_host upstream_addr r with
  | (Err e, _) => (Some (Err (EgressTarget e)), None, [])
  | (Ok resolved, r) =>
      match create_peer_socket_and_exchange_data binds connects resolved with
      | Err e => (Some (Err e), None, [])
      | Ok None => (Some (Err (NoSocket resolved)), None, [])
      | Ok (Some addr) =>
          match process_datagrams (S (reader_size r)) sendable r with
          | (None, out) => (None, Some addr, out)
          | (Some true, out) => (Some (Ok ()), Some addr, out)
          | (Some false, out) => (Some (Err SendDatagramFailed), Some addr, out)
          end
      end
  end.

(** What the upstream socket delivers to [udp_to_quic]. *)
Inductive socket_event : Type :=
| SocketRecv (bs : list Z)
| SocketRecvFailed
| SocketIdle                 (** nothing for [udp_timeout_ms] *)
| SocketShutdown.            (** the flow ended: [process] dropped its end *)

(** [udp_to_quic]: whether it ended, and the stream.  A datagram longer than
    the buffer is cut by the socket; a failed write is ignored. *)
Fixpoint udp_to_quic (evs : list socket_event) (quic_send : writer) : bool * writer :=
  match evs with
  | [] => (false, quic_send)
  | SocketRecv bs :: evs' => udp_to_quic evs' (send_raw_to (take UDP_PACKET_SIZE bs) quic_send).2
  | _ :: _ => (true, quic_send)
  end.

(** * The reader task of an ingress stream

    Every datagram of the stream goes back to the application as a packet of
    the flow. *)
Fixpoint reply_loop (fuel : nat) (key : UdpStreamKey) (r : reader) : option (list UdpPacket) :=
  match fuel with
  | O => None
  | S f =>
      match recv_raw_from true UDP_PACKET_SIZE r with
      | (Ok bs, r) => cons (MkPacket bs key.1 key.2) <$> reply_loop f key r
      | (Err _, _) => Some []
      end
  end.

Definition stream_reader (key : UdpStreamKey) (r : reader) : option (list UdpPacket) :=
  reply_loop (S (reader_size r)) key r.

(** * The accept loops *)
Record ChannelUdpConnectCtx : Type := UdpConnectCtx {
  uctx_default_upstream : option SocketAddr;
  uctx_timeout_ms : Z
}.

(** The task an accepted stream gets. *)
Inductive udp_task : Type :=
| PlainTask (upstream : option SocketAddr) (r : reader)                     (** [process] *)
| BridgeTask (stream : nat) (default_upstream : option SocketAddr) (r : reader).  (** [process_channel] *)

(** Every stream accepted before the first error of [accept_bi]. *)
Fixpoint accepted (streams : list (option reader)) : list reader :=
  match streams with Some r :: rest => r :: accepted rest | _ => [] end.

(** The connector's answer: none, or a channel with or without a stop handle. *)
Inductive connector_answer : Type := ConnectorFailed | ConnectorOk (has_stop : bool).

(** [start_accepting_with_connector]: the tasks started, and whether the stop
    handle of the channel was called. *)
Definition udp_start_accepting_with_connector (default_upstream : option SocketAddr) (udp_timeout_ms : Z)
    (connector : option (ChannelUdpConnectCtx → connector_answer)) (streams : list (option reader)) :
  list udp_task * bool :=
  match connector with
  | Some connector =>
      match connector (UdpConnectCtx default_upstream udp_timeout_ms) with
      | ConnectorOk has_stop => (imap (λ i r, BridgeTask i default_upstream r) (accepted streams), has_stop)
      | ConnectorFailed => ([], false)
      end
  | None => ((λ r, PlainTask default_upstream r) <$> accepted streams, false)
  end.

Definition udp_start_accepting (upstream_addr : option SocketAddr) (udp_timeout_ms : Z)
    (streams : list (option reader)) : list udp_task * bool :=
  udp_start_accepting_with_connector upstream_addr udp_timeout_ms None streams.

Definition udp_start_dynamic_accepting (default_upstream : option SocketAddr) (udp_timeout_ms : Z)
    (connector : option (ChannelUdpConnectCtx → connector_answer)) (streams : list (option reader)) :
  list udp_task * bool :=
  match connector with
  | Some connector => udp_start_accepting_with_connector default_upstream udp_timeout_ms (Some connector) streams
  | None => udp_start_accepting default_upstream udp_timeout_ms streams
  end.

(** ** What a stream carries *)

(** Everything the ingress wrote on a stream. *)
Definition stream_bytes (st : udp_stream) : list Z := us_head st ++ datagram_frames (payload <$> us_sent st).

Definition head_ok (st : udp_stream) : Prop :=
  encode_tunnel_target (us_key st).2 true = Ok (Some (us_head st)).

Lemma write_target_head ot w w' :
  w_out w = [] → write_tunnel_target ot true w = (Ok (), w') →
  encode_tunnel_target ot true = Ok (Some (w_out w')).
Proof.
  unfold write_tunnel_target, mbind, eff_bind, lift, eff_map_err. intros Hw.
  destruct (encode_tunnel_target ot true) as [[b|]|n] eqn:He; simpl; [| |done].
  - destruct (write_all b w) as [[[]|e] w1] eqn:Hwr; intros ?; simplify_eq/=.
    apply write_all_ok in Hwr. by rewrite Hwr, Hw.
  - exfalso. destruct ot as [[[]|]|]; simpl in He; try done. by destruct (invalid_domain_length _).
Qed.

Lemma ingress_heads s : ingress_reachable s → ∀ id st, streams s !! id = Some st → head_ok st.
Proof.
  induction 1 as [|x y _ IH Hstep]; [simpl; by intros ? ? ?%lookup_empty_Some|].
  destruct Hstep as [s opened p Hw|s id key hd sent p q Hid|s id st Hid Hw|s id st Hid]; simpl; [| | |exact IH].
  - intros id st. unfold serve_packet. set (s0 := Ingress _ _ _).
    destruct (open_stream opened (packet_key p) s0) as [x s1] eqn:Ho.
    assert (∀ i st, streams s1 !! i = Some st → head_ok st) as H1.
    { unfold open_stream in Ho. destruct (stream_map s0 !! _) as [?|]; [by simplify_eq|].
      destruct opened as [w|]; [|by simplify_eq].
      destruct (write_tunnel_target _ true w) as [[[]|] w'] eqn:Hwt; simplify_eq; [|done]. simpl.
      intros i st' [[_ <-]|[_ Hi]]%lookup_insert_Some; [|by eapply IH].
      unfold head_ok. simpl. by eapply write_target_head; [apply Hw|]. }
    destruct x as [i|]; [|apply H1]. simpl. rewrite lookup_alter. destruct (decide (i = id)) as [->|]; [|apply H1].
    destruct (streams s1 !! id) as [st1|] eqn:E; [|done]. simpl. intros [= <-]. apply H1 in E.
    unfold try_send. by destruct (_ && _).
  - intros i st' [[_ <-]|[_ Hi]]%lookup_insert_Some; [|by eapply IH]. apply (IH _ _ Hid).
  - intros i st' [[_ <-]|[_ Hi]]%lookup_insert_Some; [|by eapply IH]. apply (IH _ _ Hid).
Qed.

Lemma process_datagrams_ok ds : ∀ fuel sendable r,
  (length ds < fuel)%nat → datagrams_ok ds → (∀ n, sendable n = true) → delivers r (datagram_frames ds) →
  process_datagrams fuel sendable r = (Some true, ds).
Proof.
  induction ds as [|d ds IH]; intros fuel sendable r Hf Hok Hs Hd;
    (destruct fuel as [|fuel]; [simpl in Hf; lia|]); cbn [process_datagrams].
  - by rewrite recv_raw_end.
  - apply Forall_cons_1 in Hok as [Hd1 Hok].
    destruct (recv_datagram d r (datagram_frames ds) Hd1 Hd) as (r' & -> & Hd'). rewrite Hs.
    by rewrite (IH fuel sendable r') by (done || simpl in Hf; lia).
Qed.

Lemma reply_loop_ok key ds : ∀ fuel r,
  (length ds < fuel)%nat → datagrams_ok ds → delivers r (datagram_frames ds) →
  reply_loop fuel key r = Some ((λ d, MkPacket d key.1 key.2) <$> ds).
Proof.
  induction ds as [|d ds IH]; intros fuel r Hf Hok Hd;
    (destruct fuel as [|fuel]; [simpl in Hf; lia|]); cbn [reply_loop].
  - by rewrite recv_raw_end.
  - apply Forall_cons_1 in Hok as [Hd1 Hok].
    destruct (recv_datagram d r (datagram_frames ds) Hd1 Hd) as (r' & -> & Hd').
    by rewrite (IH fuel r') by (done || simpl in Hf; lia).
Qed.

Lemma udp_to_quic_ok ds : ∀ w,
  datagrams_ok ds → w_room w = None →
  udp_to_quic (SocketRecv <$> ds) w = (false, Writer (w_out w ++ datagram_frames ds) None).
Proof.
  induction ds as [|d ds IH]; intros w Hok Hw; cbn [fmap list_fmap udp_to_quic].
  - destruct w; simpl in *; subst. by rewrite app_nil_r.
  - apply Forall_cons_1 in Hok as [Hd Hok]. rewrite take_ge by done.
    rewrite send_raw_open by done. cbn [snd]. rewrite IH by done. cbn [w_out].
    change (to_be_bytes 2 _ ++ d) with (datagram_frame d). by rewrite <-app_assoc.
Qed.

(** C16: A UDP flow from end to end.  For every stream of a reachable ingress,
    however its bytes and those of the answers are cut into chunks: the egress
    sends exactly the datagrams the ingress wrote, in order, to the fixed
    upstream if it has one and otherwise to the address of the destination the
    flow was opened for; and the answers of that upstream come back to the
    application, in order, as packets of the same flow. *)
Theorem udp_end_to_end lookup_host binds connects upstream sendable s id st r replies r_back :
  ingress_reachable s → streams s !! id = Some st →
  (∀ t, (us_key st).2 = Some t → target_wf t) → datagrams_ok (payload <$> us_sent st) → datagrams_ok replies →
  (∀ a, binds a = true) → (∀ a b, connects a b = true) → (∀ n, sendable n = true) →
  delivers r (stream_bytes st) →
  delivers r_back (w_out (udp_to_quic (SocketRecv <$> replies) open_writer).2) →
  process lookup_host binds connects upstream sendable r =
    match upstream, (us_key st).2 with
    | Some a, _ => (Some (Ok ()), Some a, payload <$> us_sent st)
    | None, Some t =>
        match resolve_udp_target lookup_host (target_normalize t) with
        | Ok a => (Some (Ok ()), Some a, payload <$> us_sent st)
        | Err e => (Some (Err (EgressTarget (ResolveError e))), None, [])
        end
    | None, None => (Some (Err (EgressTarget NoUpstream)), None, [])
    end ∧
  stream_reader (us_key st) r_back = Some ((λ d, MkPacket d (us_key st).1 (us_key st).2) <$> replies).
Proof.
  intros Hr Hst Hwf Hok Hrep Hb Hc Hsend Hd Hback. pose proof (ingress_heads s Hr id st Hst) as Hhead. split.
  - destruct (read_encoded_optional _ _ r _ Hwf Hhead Hd) as (r1 & Hr1 & Hd1).
    assert (process_datagrams (S (reader_size r1)) sendable r1 = (Some true, payload <$> us_sent st)) as Hp.
    { apply process_datagrams_ok; [|done..].
      pose proof (delivers_length _ _ Hd1). pose proof (datagram_frames_size (payload <$> us_sent st)). lia. }
    unfold process, process_target, create_peer_socket_and_exchange_data, mbind, eff_bind, eff_map_err. rewrite Hr1. cbn [map_err].
    destruct upstream as [a|]; [unfold mret, eff_ret; by rewrite Hb, Hc, Hp|].
    destruct ((us_key st).2) as [t|]; [|done]. cbn [fmap option_fmap option_map].
    unfold lift. destruct (resolve_udp_target lookup_host (target_normalize t)) as [a|e]; [|done].
    cbn [map_err]. by rewrite Hb, Hc, Hp.
  - rewrite udp_to_quic_ok in Hback by done. cbn [snd w_out open_writer app] in Hback.
    apply reply_loop_ok; [|done..].
    pose proof (delivers_length _ _ Hback). pose proof (datagram_frames_size replies). lia.
Qed.

Definition dns_stream : udp_stream :=
  UStream (sample_addr, Some (Domain "dns.example"%string 53)) [3; 11; 100; 110; 115; 46; 101; 120; 97; 109; 112; 108; 101; 0; 53]
    [MkPacket [1; 2] sample_addr (Some (Domain "dns.example"%string 53))] [] true.
Definition dns_packet : UdpPacket := MkPacket [1; 2] sample_addr (Some (Domain "dns.example"%string 53)).
Definition dns_ingress : ingress :=
  let s := serve_packet (Some open_writer) dns_packet (Ingress ∅ ∅ []) in
  Ingress (stream_map s) (<[0%nat := dns_stream]> (streams s)) (seen s).

Lemma dns_ingress_reachable : ingress_reachable dns_ingress.
Proof.
  eapply InNext; [eapply InNext; [constructor|apply (IPacket _ (Some open_writer) dns_packet); by intros w [= <-]]|].
  apply (IWrite _ 0%nat (us_key dns_stream) (us_head dns_stream) [] dns_packet []). by vm_compute.
Qed.

Lemma udp_end_to_end_witness :
  process (λ _ p, Some [SockV4 9 p]) (λ _, true) (λ _ _, true) None (λ _, true) [Chunk (stream_bytes dns_stream)] =
    (Some (Ok ()), Some (SockV4 9 53), [[1; 2]]) ∧
  stream_reader (us_key dns_stream) [Chunk [0; 1]; Chunk [7]] =
    Some [MkPacket [7] sample_addr (Some (Domain "dns.example"%string 53))].
Proof.
  apply (udp_end_to_end (λ _ p, Some [SockV4 9 p]) (λ _, true) (λ _ _, true) None (λ _, true) dns_ingress 0%nat dns_stream
    [Chunk (stream_bytes dns_stream)] [[7]] [Chunk [0; 1]; Chunk [7]] dns_ingress_reachable).
  - by vm_compute.
  - intros t [= <-]. by apply (bool_decide_unpack _); vm_compute.
  - repeat constructor; unfold UDP_PACKET_SIZE; simpl; lia.
  - repeat constructor; unfold UDP_PACKET_SIZE; simpl; lia.
  - done.
  - done.
  - done.
  - exists []. by rewrite app_nil_r.
  - exists [7]. split; [by vm_compute|]. exists []. by vm_compute.
Defined.
