(* ===== verification/UdpChannel.v ===== *)
(** The UDP tunnels of a connection whose egress is a channel
    ([start_accepting_channel] and what it starts, [src/src/udp/udp_tunnel.rs]):
    every accepted stream has a task that receives and one that writes replies,
    and one router spreads the replies of the connector over the streams.  All
    of them run side by side; a step is what a task does between two suspension
    points.

    [UdpTunnel] describes a stream's task from start to end and the reply map on
    its own; here both are part of one system, in which a reply that the router
    has already picked up can meet a stream that is just ending. *)
From stdpp Require Import relations.
From S2P Require Import Prelude Io Net Target AddrText Message Servers UdpTunnel UdpEgress.

(** * The tasks of a stream *)

(** Where [process_channel_io] is. *)
Inductive bridge_phase : Type :=
| BOpening                                                  (** before the target *)
| BReading (target : option TunnelTarget)                   (** in [recv_raw_from] *)
| BSending (target : option TunnelTarget) (p : UdpPacket)   (** in [udp_sender.send] *)
| BDraining                                                 (** [reply_tx] dropped, the writer awaited *)
| BDone (r : result channel_error unit).

(** The task that writes replies: running, or ended with success or not. *)
Inductive reply_writer : Type := WriterOn | WriterOff (ok : bool).

(** What has happened to a stream: as it was accepted, the packets made of its
    datagrams, those the connector has received, and the replies the router
    found the stream for and those written back. *)
Record bridge_log : Type := BridgeLog {
  lg_source : reader;
  lg_received : list UdpPacket;
  lg_forwarded : list UdpPacket;
  lg_routed : list UdpPacket;
  lg_written : list UdpPacket
}.

Record bridge : Type := Bridge {
  br_phase : bridge_phase;
  br_recv : reader;                  (** [quic_recv] *)
  br_local : option SocketAddr;      (** [local_addr] *)
  br_queue : list UdpPacket;         (** sent by [reply_tx], not yet received *)
  br_writer : reply_writer;
  br_send : writer;                  (** [quic_send] *)
  br_log : bridge_log
}.

Definition REPLY_QUEUE : nat := 512.

(** [spawn_channel_bridge_stream] for an accepted stream. *)
Definition spawn_channel_bridge_stream (quic_send : writer) (quic_recv : reader) : bridge :=
  Bridge BOpening quic_recv None [] WriterOn quic_send (BridgeLog quic_recv [] [] [] []).

Definition log_received (p : UdpPacket) (l : bridge_log) : bridge_log :=
  BridgeLog (lg_source l) (lg_received l ++ [p]) (lg_forwarded l) (lg_routed l) (lg_written l).
Definition log_forwarded (p : UdpPacket) (l : bridge_log) : bridge_log :=
  BridgeLog (lg_source l) (lg_received l) (lg_forwarded l ++ [p]) (lg_routed l) (lg_written l).
Definition log_routed (p : UdpPacket) (l : bridge_log) : bridge_log :=
  BridgeLog (lg_source l) (lg_received l) (lg_forwarded l) (lg_routed l ++ [p]) (lg_written l).
Definition log_written (p : UdpPacket) (l : bridge_log) : bridge_log :=
  BridgeLog (lg_source l) (lg_received l) (lg_forwarded l) (lg_routed l) (lg_written l ++ [p]).

(** One step of [process_channel_io] of stream [id]; [connected] tells whether
    the connector still receives ([send] fails otherwise, which is ignored). *)
Definition bridge_task (default_upstream : option SocketAddr) (connected : bool) (id : nat) (b : bridge)
    (s : reply_state) : option (bridge * reply_state) :=
  let stay phase recv local log := Bridge phase recv local (br_queue b) (br_writer b) (br_send b) log in
  match br_phase b with
  | BOpening =>
      match read_optional_tunnel_target (br_recv b) with
      | (Ok target, r) => Some (stay (BReading target) r (br_local b) (br_log b), s)
      | (Err e, r) => Some (stay (BDone (Err (ReadUdpTargetFailed e))) r (br_local b) (br_log b), s)
      end
  | BReading target =>
      match recv_raw_from true UDP_PACKET_SIZE (br_recv b) with
      | (Ok bs, r) =>
          match channel_local_addr (br_local b) (target_family_is_ipv6 target default_upstream) id s with
          | (Some a, s) =>
              let p := MkPacket bs a target in
              Some (stay (BSending target p) r (Some a) (log_received p (br_log b)), s)
          | (None, s) => Some (stay (BDone (Err NoFreeLocalAddr)) r (br_local b) (br_log b), s)
          end
      | (Err _, r) =>
          Some (stay BDraining r (br_local b) (br_log b),
                match br_local b with
                | Some a => Replies (delete a (reply_map s)) (next_local_port s)
                | None => s
                end)
      end
  | BSending target p =>
      Some (stay (BReading target) (br_recv b) (br_local b) (if connected then log_forwarded p (br_log b) else br_log b), s)
  | BDraining =>
      match br_writer b with
      | WriterOff ok => Some (stay (BDone (if ok then Ok () else Err ReplyWriterFailed)) (br_recv b) (br_local b) (br_log b), s)
      | WriterOn => None
      end
  | BDone _ => None
  end.

(** The stream's own [reply_tx] and its clone in the reply map. *)
Definition holds_sender (b : bridge) : bool :=
  match br_phase b with BOpening | BReading _ | BSending _ _ => true | BDraining | BDone _ => false end.

(** One step of the writer: [recv] yields a reply, or [None] once it is empty
    and no sender is left. *)
Definition writer_task (senders : bool) (b : bridge) : option bridge :=
  match br_writer b, br_queue b with
  | WriterOn, p :: q =>
      match send_raw_to (payload p) (br_send b) with
      | (Ok _, w) => Some (Bridge (br_phase b) (br_recv b) (br_local b) q WriterOn w (log_written p (br_log b)))
      | (Err _, w) => Some (Bridge (br_phase b) (br_recv b) (br_local b) [] (WriterOff false) w (br_log b))
      end
  | WriterOn, [] =>
      if senders then None
      else Some (Bridge (br_phase b) (br_recv b) (br_local b) [] (WriterOff true) (br_send b) (br_log b))
  | WriterOff _, _ => None
  end.

(** [reply_tx.send(packet)] of the router: [None] while the queue is full. *)
Definition send_reply (p : UdpPacket) (b : bridge) : option bridge :=
  match br_writer b with
  | WriterOff _ => Some b
  | WriterOn =>
      if (length (br_queue b) <? REPLY_QUEUE)%nat
      then Some (Bridge (br_phase b) (br_recv b) (br_local b) (br_queue b ++ [p]) WriterOn (br_send b) (br_log b))
      else None
  end.

Definition note_routed (p : UdpPacket) (b : bridge) : bridge :=
  Bridge (br_phase b) (br_recv b) (br_local b) (br_queue b) (br_writer b) (br_send b) (log_routed p (br_log b)).

(** * The system *)

Inductive router : Type :=
| RouterIdle
| RouterSending (stream : nat) (p : UdpPacket)    (** holds a clone of the stream's sender *)
| RouterStopped.

Record bridge_sys : Type := BridgeSys {
  bs_replies : reply_state;
  bs_bridges : gmap nat bridge;
  bs_router : router;
  bs_connected : bool
}.

Definition router_holds (rt : router) (id : nat) : list UdpPacket :=
  match rt with RouterSending stream p => if decide (stream = id) then [p] else [] | _ => [] end.

(** The router takes a reply out of the connector's channel. *)
Definition router_take (m : UdpMessage) (x : bridge_sys) : bridge_sys :=
  match m with
  | UPacket p =>
      match route_reply p (bs_replies x) with
      | Some id =>
          BridgeSys (bs_replies x) (alter (note_routed p) id (bs_bridges x)) (RouterSending id p) (bs_connected x)
      | None => x
      end
  | UQuit => BridgeSys (bs_replies x) (bs_bridges x) RouterStopped (bs_connected x)
  end.

Section system.
Context (default_upstream : option SocketAddr).

Inductive bridge_step : bridge_sys → bridge_sys → Prop :=
| BAccept s bs rt cn id quic_send quic_recv :
    bs !! id = None → w_out quic_send = [] →
    bridge_step (BridgeSys s bs rt cn)
      (BridgeSys s (<[id := spawn_channel_bridge_stream quic_send quic_recv]> bs) rt cn)
| BTask s bs rt cn id b b' s' :
    bs !! id = Some b → bridge_task default_upstream cn id b s = Some (b', s') →
    bridge_step (BridgeSys s bs rt cn) (BridgeSys s' (<[id := b']> bs) rt cn)
| BWriter s bs rt cn id b b' :
    bs !! id = Some b →
    writer_task (holds_sender b || negb (bool_decide (router_holds rt id = []))) b = Some b' →
    bridge_step (BridgeSys s bs rt cn) (BridgeSys s (<[id := b']> bs) rt cn)
| BRouterTake s bs cn m :
    bridge_step (BridgeSys s bs RouterIdle cn) (router_take m (BridgeSys s bs RouterIdle cn))
| BRouterSend s bs cn id p b b' :
    bs !! id = Some b → send_reply p b = Some b' →
    bridge_step (BridgeSys s bs (RouterSending id p) cn) (BridgeSys s (<[id := b']> bs) RouterIdle cn)
| BDisconnect s bs rt cn : bridge_step (BridgeSys s bs rt cn) (BridgeSys s bs rt false).

(** [start_accepting_channel]: an empty reply map, ports from 10000. *)
Definition start_accepting_channel : bridge_sys := BridgeSys (Replies ∅ 10000) ∅ RouterIdle true.

Definition bridge_reachable : bridge_sys → Prop := rtc bridge_step start_accepting_channel.
End system.

(** * Invariants *)

(** The address under which replies reach the stream. *)
Definition live_local (b : bridge) : option SocketAddr :=
  match br_phase b with BReading _ | BSending _ _ => br_local b | _ => None end.

(** The packet on its way to the connector. *)
Definition in_flight (b : bridge) : list UdpPacket :=
  match br_phase b with BSending _ p => [p] | _ => [] end.

(** How far the stream has been read, if it carries the datagrams [ds] of a flow
    opened for [ot]. *)
Definition source_ok (default_upstream : option SocketAddr) (b : bridge) : Prop := ∀ ot bytes ds,
  (∀ t, ot = Some t → target_wf t) → encode_tunnel_target ot true = Ok (Some bytes) → datagrams_ok ds →
  delivers (lg_source (br_log b)) (bytes ++ datagram_frames ds) →
  ∃ rest, ds = (payload <$> lg_received (br_log b)) ++ rest ∧
    Forall (λ p, peer_addr p = target_normalize <$> ot) (lg_received (br_log b)) ∧
    (∀ a, br_local b = Some a → is_ipv6 a = target_family_is_ipv6 ot default_upstream) ∧
    match br_phase b with
    | BOpening => lg_received (br_log b) = [] ∧ br_recv b = lg_source (br_log b)
    | BReading t | BSending t _ => t = target_normalize <$> ot ∧ delivers (br_recv b) (datagram_frames rest)
    | BDraining | BDone (Ok _) | BDone (Err ReplyWriterFailed) => rest = []
    | BDone (Err NoFreeLocalAddr) => True
    | BDone (Err (ReadUdpTargetFailed _)) => False
    end.

(** [held] is what the router holds for the stream. *)
Record bridge_ok (default_upstream : option SocketAddr) (connected : bool) (held : list UdpPacket) (b : bridge) : Prop := {
  ok_source : source_ok default_upstream b;
  ok_local : Forall (λ p, br_local b = Some (local_addr p)) (lg_received (br_log b) ++ lg_routed (br_log b));
  ok_opening : br_phase b = BOpening → br_local b = None;
  ok_forwarded : if connected then lg_forwarded (br_log b) ++ in_flight b = lg_received (br_log b)
                 else lg_forwarded (br_log b) `prefix_of` lg_received (br_log b);
  ok_written : w_room (br_send b) = None →
    w_out (br_send b) = datagram_frames (payload <$> lg_written (br_log b)) ∧ br_writer b ≠ WriterOff false ∧
    lg_routed (br_log b) = lg_written (br_log b) ++ br_queue b ++ held;
  ok_ended : br_writer b = WriterOff true → holds_sender b = false ∧ br_queue b = [] ∧ held = [];
  ok_done : br_phase b = BDone (Ok ()) → br_writer b = WriterOff true
}.

(** The reply map knows exactly the live streams. *)
Definition map_ok (s : reply_state) (bs : gmap nat bridge) : Prop :=
  in_u 16 (next_local_port s) ∧
  ∀ a id, reply_map s !! a = Some id ↔ ∃ b, bs !! id = Some b ∧ live_local b = Some a.

Lemma family_normalize ot d : target_family_is_ipv6 (target_normalize <$> ot) d = target_family_is_ipv6 ot d.
Proof. by destruct ot as [[[]|]|]. Qed.

Lemma datagram_frames_app a b : datagram_frames (a ++ b) = datagram_frames a ++ datagram_frames b.
Proof. apply bind_app. Qed.

Lemma spawn_ok d cn w r : w_out w = [] → bridge_ok d cn [] (spawn_channel_bridge_stream w r).
Proof.
  intros Hw. constructor; cbn; try done; [|by destruct cn].
  intros ot bytes ds Hwf He Hok Hd. exists ds. by split_and!.
Qed.

(** What a step of the stream's task does to its progress. *)
Lemma bridge_task_source d cn id b s b' s' :
  in_u 16 (next_local_port s) → source_ok d b → (br_phase b = BOpening → br_local b = None) →
  bridge_task d cn id b s = Some (b', s') → source_ok d b'.
Proof.
  intros Hp Hb Hopen Hs ot bytes ds Hwf He Hok Hd. unfold bridge_task in Hs.
  assert (lg_source (br_log b') = lg_source (br_log b)) as Hsrc.
  { repeat case_match; simplify_eq/=; done. }
  rewrite Hsrc in Hd. destruct (Hb ot bytes ds Hwf He Hok Hd) as (rest & Hds & Hpeer & Hfam & Hph).
  destruct (br_phase b) as [|t|t p| |] eqn:Eph.
  - destruct Hph as [Hnil Hrecv]. rewrite Hnil in Hds. cbn in Hds. subst rest. rewrite Hrecv in Hs.
    destruct (read_encoded_optional ot bytes _ (datagram_frames ds) Hwf He Hd) as (r1 & Hr1 & Hd1).
    rewrite Hr1 in Hs. simplify_eq/=. rewrite Hnil. exists ds. by split_and!.
  - destruct Hph as [-> Hdel]. rewrite family_normalize in Hs. destruct rest as [|dg rest].
    { rewrite recv_raw_end in Hs by done. simplify_eq/=. exists []. by split_and!. }
    rewrite Hds in Hok. apply list.Forall_app in Hok as [_ Hok]. apply Forall_cons_1 in Hok as [Hdg _].
    destruct (recv_datagram dg (br_recv b) (datagram_frames rest) Hdg Hdel) as (r' & Hr' & Hdel').
    rewrite Hr' in Hs. destruct (channel_local_addr _ _ _ _) as [[a|] s1] eqn:Hc; simplify_eq/=.
    + exists rest. split_and!; [by rewrite fmap_app, <-app_assoc|by rewrite list.Forall_app; auto| |done|done].
      intros a' [= <-]. destruct (br_local b) as [a0|]; cbn in Hc; [simplify_eq; auto|].
      by apply reserve_loop_ok in Hc as (_ & _ & _ & ? & _).
    + exists (dg :: rest). by split_and!.
  - destruct Hph as [-> Hdel]. simplify_eq/=. exists rest. destruct cn; by split_and!.
  - destruct (br_writer b) as [|[]]; simplify_eq/=; exists []; by split_and!.
  - done.
Qed.

(** The fields a stream's task does not touch. *)
Lemma bridge_task_same d cn id b s b' s' :
  bridge_task d cn id b s = Some (b', s') →
  br_queue b' = br_queue b ∧ br_writer b' = br_writer b ∧ br_send b' = br_send b ∧
  lg_routed (br_log b') = lg_routed (br_log b) ∧ lg_written (br_log b') = lg_written (br_log b) ∧
  br_phase b' ≠ BOpening ∧ (holds_sender b = false → holds_sender b' = false) ∧
  (br_phase b' = BDone (Ok ()) → br_writer b = WriterOff true) ∧
  (∀ a, br_local b = Some a → br_local b' = Some a).
Proof.
  unfold bridge_task, holds_sender. intros Hs. destruct (br_phase b) eqn:Eph; [| | |destruct (br_writer b) as [|[]]|done];
    repeat case_match; simplify_eq/=; split_and!; try done; intros; simplify_eq; by destruct (br_local b); simplify_eq/=.
Qed.

Lemma bridge_task_packets d cn id b s b' s' held :
  bridge_ok d cn held b → bridge_task d cn id b s = Some (b', s') →
  Forall (λ p, br_local b' = Some (local_addr p)) (lg_received (br_log b') ++ lg_routed (br_log b')) ∧
  if cn then lg_forwarded (br_log b') ++ in_flight b' = lg_received (br_log b')
  else lg_forwarded (br_log b') `prefix_of` lg_received (br_log b').
Proof.
  intros [_ Hl _ Hf _ _ _] Hs. pose proof (bridge_task_same _ _ _ _ _ _ _ Hs) as (_ & _ & _ & Hr & _ & _ & _ & _ & Hloc).
  assert (Forall (λ p, br_local b' = Some (local_addr p)) (lg_received (br_log b) ++ lg_routed (br_log b))) as Hl'.
  { eapply list.Forall_impl; [exact Hl|]. intros p Hp. cbn in Hp. by apply Hloc. }
  rewrite Hr. clear Hr Hloc Hl. unfold bridge_task, in_flight in *.
  destruct (br_phase b) eqn:Eph; [| | |destruct (br_writer b)|done];
    repeat case_match; simplify_eq/=; rewrite ?app_nil_r in *; try done.
  - split; [|by rewrite Hf]. rewrite !list.Forall_app in *. destruct Hl' as [??]. by split_and!; [|constructor|].
  - split; [|by apply prefix_app_r]. rewrite !list.Forall_app in *. destruct Hl' as [??]. by split_and!; [|constructor|].
Qed.

Lemma bridge_task_ok d cn id b s b' s' held :
  in_u 16 (next_local_port s) → bridge_ok d cn held b → bridge_task d cn id b s = Some (b', s') → bridge_ok d cn held b'.
Proof.
  intros Hp Hb Hs. destruct (bridge_task_packets _ _ _ _ _ _ _ _ Hb Hs) as [Hl Hf].
  destruct (bridge_task_same _ _ _ _ _ _ _ Hs) as (Hq & Hw & Hsend & Hr & Hwr & Hph & Hh & Hdone & _).
  destruct Hb as [Hsrc _ Hop _ Hwritten Hend _]. constructor; rewrite ?Hq, ?Hw, ?Hsend, ?Hr, ?Hwr; try done.
  - by eapply bridge_task_source.
  - by rewrite <-Hr.
  - intros H. destruct (Hend H) as (? & ? & ?). auto.
Qed.

Lemma write_all_room bs w r w' : write_all bs w = (r, w') → w_room w' = None → w_room w = None.
Proof. unfold write_all. intros H. repeat case_hyp H; by simplify_eq/=. Qed.

(** A transport without a limit has had none before. *)
Lemma send_raw_room data w r w' : send_raw_to data w = (r, w') → w_room w' = None → w_room w = None.
Proof.
  unfold send_raw_to, mbind, eff_bind, eff_map_err, mret, eff_ret, write_uint. intros Hs Hw'.
  destruct (write_all _ w) as [[u|e] w1] eqn:H1; cbn in Hs; [|simplify_eq; by eapply write_all_room].
  destruct (write_all data w1) as [[u'|e] w2] eqn:H2; cbn in Hs; simplify_eq;
    by eapply write_all_room, write_all_room.
Qed.

Lemma writer_task_ok d cn rt id b b' :
  bridge_ok d cn (router_holds rt id) b →
  writer_task (holds_sender b || negb (bool_decide (router_holds rt id = []))) b = Some b' →
  bridge_ok d cn (router_holds rt id) b' ∧ live_local b' = live_local b.
Proof.
  intros [Hsrc Hl Hop Hf Hwr Hend Hdone] Hs. unfold writer_task in Hs.
  destruct (br_writer b) as [|ok] eqn:Ew; [|done]. destruct (br_queue b) as [|p q] eqn:Eq.
  - destruct (holds_sender b) eqn:Hh; [done|]. destruct (bool_decide _) eqn:Hb; [|done].
    apply bool_decide_eq_true in Hb. rewrite Hb in *. simplify_eq/=. split; [|done].
    constructor; cbn; try done. intros Hroom. by destruct (Hwr Hroom) as (? & ? & ?).
  - destruct (send_raw_to (payload p) (br_send b)) as [[u|e] w] eqn:Hsend; simplify_eq/=; (split; [|done]);
      (constructor; cbn; try done).
    + intros Hroom. pose proof (send_raw_room _ _ _ _ Hsend Hroom) as Er.
      destruct (Hwr Er) as (Ho & _ & Hrt). rewrite send_raw_open in Hsend by done. simplify_eq/=.
      split_and!; [|done|by rewrite Hrt, <-app_assoc].
      rewrite fmap_app, datagram_frames_app, Ho. cbn. by rewrite app_nil_r.
    + intros Hroom. pose proof (send_raw_room _ _ _ _ Hsend Hroom) as Er. by rewrite send_raw_open in Hsend.
    + intros H. by apply Hdone in H.
Qed.

(** ** The reply map *)

Lemma map_ok_keep s s' bs id b b' :
  map_ok s bs → bs !! id = Some b → live_local b' = live_local b →
  in_u 16 (next_local_port s') → reply_map s' = reply_map s → map_ok s' (<[id := b']> bs).
Proof.
  intros [_ Hm] Hb Hl Hp Heq. split; [done|]. intros a i. rewrite Heq, Hm.
  destruct (decide (i = id)) as [->|Hne]; [|by rewrite lookup_insert_ne].
  rewrite lookup_insert_eq, Hb. split; intros (c & [= <-] & Hc); eexists; (split; [done|]); congruence.
Qed.

Lemma map_ok_new s bs id b :
  map_ok s bs → bs !! id = None → live_local b = None → map_ok s (<[id := b]> bs).
Proof.
  intros [Hp Hm] Hn Hl. split; [done|]. intros a i. rewrite Hm.
  destruct (decide (i = id)) as [->|Hne]; [|by rewrite lookup_insert_ne].
  rewrite lookup_insert_eq, Hn. split; [by intros (c & ? & _)|]. intros (c & [= <-] & Hc). congruence.
Qed.

Lemma map_ok_add s s' bs id b b' a :
  map_ok s bs → bs !! id = Some b → live_local b = None → live_local b' = Some a →
  reply_map s !! a = None → reply_map s' = <[a := id]> (reply_map s) → in_u 16 (next_local_port s') →
  map_ok s' (<[id := b']> bs).
Proof.
  intros [_ Hm] Hb Hl Hl' Hn Heq Hp. split; [done|]. intros a' i. rewrite Heq.
  destruct (decide (a' = a)) as [->|Ha], (decide (i = id)) as [->|Hi];
    rewrite ?lookup_insert_eq, ?lookup_insert_ne by done; [by split; eauto|..].
  - split; [by intros [= <-]|]. intros Hx%Hm. by rewrite Hn in Hx.
  - rewrite Hm, Hb. split; intros (c & [= <-] & Hc); congruence.
  - apply Hm.
Qed.

Lemma map_ok_remove s bs id b b' a :
  map_ok s bs → bs !! id = Some b → live_local b = Some a → live_local b' = None →
  map_ok (Replies (delete a (reply_map s)) (next_local_port s)) (<[id := b']> bs).
Proof.
  intros [Hp Hm] Hb Hl Hl'. assert (reply_map s !! a = Some id) as Ha by (apply Hm; eauto).
  split; [done|]. intros a' i. cbn [reply_map].
  destruct (decide (a' = a)) as [->|Hne], (decide (i = id)) as [->|Hi];
    rewrite ?lookup_delete_eq, ?lookup_insert_eq, ?lookup_delete_ne, ?lookup_insert_ne by done.
  - split; [done|]. intros (c & [= <-] & Hc). congruence.
  - split; [done|]. intros Hx%Hm. congruence.
  - rewrite Hm, Hb. split; intros (c & [= <-] & Hc); congruence.
  - apply Hm.
Qed.

Lemma bridge_task_map d cn id b s b' s' bs :
  map_ok s bs → bs !! id = Some b → (br_phase b = BOpening → br_local b = None) →
  bridge_task d cn id b s = Some (b', s') → map_ok s' (<[id := b']> bs).
Proof.
  intros Hm Hb Hop Hs. pose proof Hm as [Hp _]. unfold bridge_task in Hs.
  destruct (br_phase b) as [|t|t p| |] eqn:Eph.
  - destruct (read_optional_tunnel_target _) as [[]]; simplify_eq; (eapply map_ok_keep; [done..| |done|done]);
      unfold live_local; rewrite Eph; cbn; auto.
  - assert (live_local b = br_local b) as Hl by (unfold live_local; by rewrite Eph).
    destruct (recv_raw_from _ _ _) as [[bs0|e] r].
    + destruct (br_local b) as [a|] eqn:El; cbn [channel_local_addr] in Hs.
      { simplify_eq. eapply map_ok_keep; [done..| |done|done]. by rewrite Hl. }
      destruct (reserve_channel_local_addr _ id s) as [[a|] s1] eqn:Hr; simplify_eq.
      * destruct (reserve_loop_ok _ _ _ _ _ _ Hp Hr) as (Hn & Heq & Hp' & _). by eapply map_ok_add.
      * destruct (reserve_loop_port _ _ _ _ _ _ Hp Hr) as [Hp' Heq]. eapply map_ok_keep; [done..| |done|by apply Heq].
        by rewrite Hl.
    + simplify_eq. destruct (br_local b) as [a|] eqn:El; [by eapply map_ok_remove|].
      eapply map_ok_keep; [done..| |done|done]. by rewrite Hl.
  - simplify_eq. eapply map_ok_keep; [done..| |done|done]. unfold live_local. by rewrite Eph.
  - destruct (br_writer b); simplify_eq. eapply map_ok_keep; [done..| |done|done]. unfold live_local. by rewrite Eph.
  - done.
Qed.

(** * The invariant of the system *)

Definition sys_ok (d : option SocketAddr) (x : bridge_sys) : Prop :=
  map_ok (bs_replies x) (bs_bridges x) ∧
  (∀ id, router_holds (bs_router x) id ≠ [] → is_Some (bs_bridges x !! id)) ∧
  ∀ id b, bs_bridges x !! id = Some b → bridge_ok d (bs_connected x) (router_holds (bs_router x) id) b.

Lemma bridge_ok_routed d cn p b :
  bridge_ok d cn [] b → live_local b = Some (local_addr p) → bridge_ok d cn [p] (note_routed p b).
Proof.
  intros [Hsrc Hl Hop Hf Hwr Hend Hdone] Hlive. constructor; cbn; try done.
  - rewrite app_assoc. apply list.Forall_app. split; [done|]. constructor; [|constructor].
    unfold live_local in Hlive. by destruct (br_phase b).
  - intros Hroom. destruct (Hwr Hroom) as (? & ? & ->). by rewrite app_nil_r, app_assoc.
  - intros H. destruct (Hend H) as [Hh _]. unfold holds_sender, live_local in *. by destruct (br_phase b).
Qed.

Lemma bridge_ok_sent d cn p b b' :
  bridge_ok d cn [p] b → send_reply p b = Some b' → bridge_ok d cn [] b' ∧ live_local b' = live_local b.
Proof.
  intros [Hsrc Hl Hop Hf Hwr Hend Hdone] Hs. unfold send_reply in Hs. destruct (br_writer b) as [|ok] eqn:Ew.
  - destruct (_ <? _)%nat; [|done]. simplify_eq. split; [|done]. constructor; cbn; try done.
    + intros Hroom. destruct (Hwr Hroom) as (? & ? & ->). by rewrite app_nil_r.
  - simplify_eq. split; [|done]. constructor; try done; rewrite Ew; try done.
    + intros Hroom. destruct (Hwr Hroom) as (_ & ? & _). destruct ok; [|done]. by destruct (Hend eq_refl) as (_ & _ & ?).
    + intros [= ->]. by destruct (Hend eq_refl) as (_ & _ & ?).
Qed.

Lemma bridge_ok_disconnect d cn held b : bridge_ok d cn held b → bridge_ok d false held b.
Proof.
  intros [Hsrc Hl Hop Hf Hwr Hend Hdone]. constructor; try done. destruct cn; [|done]. rewrite <-Hf. by eexists.
Qed.

Lemma alter_lookup {A} (f : A → A) (m : gmap nat A) i a : m !! i = Some a → alter f i m = <[i := f a]> m.
Proof.
  intros Hi. apply map_eq. intros j. rewrite lookup_alter, lookup_insert. case_decide; [subst j|done]. by rewrite Hi.
Qed.

Lemma bridge_step_ok d x y : sys_ok d x → bridge_step d x y → sys_ok d y.
Proof.
  intros (Hm & Hr & Hb) Hs.
  destruct Hs as [s bs rt cn id w r Hn Hw|s bs rt cn id b b' s' Hid Hs|s bs rt cn id b b' Hid Hs|s bs cn m
    |s bs cn id p b b' Hid Hs|s bs rt cn]; unfold sys_ok in *; cbn in *.
  - split_and!; [by apply map_ok_new|intros i Hi; apply lookup_insert_is_Some; destruct (decide (id = i)); auto|].
    intros i c [[<- <-]|[_ Hc]]%lookup_insert_Some; [|by apply Hb].
    assert (router_holds rt id = []) as ->; [|by apply spawn_ok].
    apply dec_stable. intros Hne. destruct (Hr id Hne) as [? Hx]. by rewrite Hn in Hx.
  - split_and!; [eapply (bridge_task_map _ _ id b); [done..| |done]; by apply (ok_opening _ _ _ _ (Hb id b Hid))| |].
    { intros i Hi. apply lookup_insert_is_Some. destruct (decide (id = i)); auto. }
    intros i c [[<- <-]|[_ Hc]]%lookup_insert_Some; [|by apply Hb]. eapply bridge_task_ok; [apply Hm| |done]. by apply Hb.
  - destruct (writer_task_ok _ _ _ _ _ _ (Hb id b Hid) Hs) as [Hb' Hl].
    split_and!; [eapply map_ok_keep; [done..|apply Hm|done]| |].
    { intros i Hi. apply lookup_insert_is_Some. destruct (decide (id = i)); auto. }
    intros i c [[<- <-]|[_ Hc]]%lookup_insert_Some; [done|by apply Hb].
  - unfold router_take. destruct m as [p|]; [|done]. cbn. unfold route_reply.
    destruct (reply_map s !! local_addr p) as [id|] eqn:Hp; [|done].
    pose proof (proj1 (proj2 Hm _ _) Hp) as (b & Hid & Hlive). rewrite (alter_lookup _ _ _ b) by done.
    split_and!; [by eapply map_ok_keep; [done..|apply Hm|done]| |].
    { intros i. cbn. case_decide; [subst i|done]. rewrite lookup_insert_eq. eauto. }
    intros i c. cbn. intros [[<- <-]|[Hne Hc]]%lookup_insert_Some.
    + rewrite decide_True by done. apply bridge_ok_routed; [apply (Hb id b Hid)|done].
    + rewrite decide_False by done. apply (Hb i c Hc).
  - pose proof (Hb id b Hid) as Hbid. rewrite decide_True in Hbid by done.
    destruct (bridge_ok_sent _ _ _ _ _ Hbid Hs) as [Hb' Hl].
    split_and!; [eapply map_ok_keep; [done..|apply Hm|done]|done|].
    intros i c [[<- <-]|[Hne Hc]]%lookup_insert_Some; [done|]. pose proof (Hb i c Hc) as Hbi.
    by rewrite decide_False in Hbi.
  - split_and!; [done..|]. intros i c Hc. by eapply bridge_ok_disconnect, Hb.
Qed.

Lemma bridge_reachable_ok d x : bridge_reachable d x → sys_ok d x.
Proof.
  intros Hr. assert (sys_ok d start_accepting_channel) as H0.
  { split_and!; [|done|intros id b Hb; cbn in Hb; by rewrite lookup_empty in Hb].
    split; [by apply (bool_decide_unpack _); vm_compute|]. intros a id. cbn. rewrite lookup_empty.
    split; [done|]. intros (b & Hb & _). by rewrite lookup_empty in Hb. }
  revert H0. unfold bridge_reachable in Hr. induction Hr; eauto using bridge_step_ok.
Qed.

(** * A stream on its own

    With the connector receiving and no other stream in between, the steps of a
    stream's task are [process_channel_io] of [UdpTunnel]. *)

Inductive bridge_steps (d : option SocketAddr) (id : nat) : bridge → reply_state → bridge → reply_state → Prop :=
| StepsDone b s : bridge_steps d id b s b s
| StepsNext b s b1 s1 b2 s2 :
    bridge_task d true id b s = Some (b1, s1) → bridge_steps d id b1 s1 b2 s2 → bridge_steps d id b s b2 s2.

(** How a phase answers to the result of the whole function, before the writer
    is awaited. *)
Definition phase_of_result (res : result channel_error unit) : bridge_phase :=
  match res with Ok _ | Err ReplyWriterFailed => BDraining | Err e => BDone (Err e) end.

Lemma bridge_loop_steps d id : ∀ fuel target local r s res out s' q w wr lg,
  channel_io_loop fuel target (target_family_is_ipv6 target d) id local r s = (Some res, out, s') →
  ∃ b, bridge_steps d id (Bridge (BReading target) r local q wr w lg) s b s' ∧
    br_phase b = phase_of_result res ∧ lg_forwarded (br_log b) = lg_forwarded lg ++ out.
Proof.
  induction fuel as [|f IH]; intros target local r s res out s' q w wr lg Hl; [done|]. cbn [channel_io_loop] in Hl.
  destruct (recv_raw_from true UDP_PACKET_SIZE r) as [[bs|e] r1] eqn:Hr.
  - destruct (channel_local_addr local _ id s) as [[a|] s1] eqn:Hc.
    + destruct (channel_io_loop f target _ id (Some a) r1 s1) as [[res1 out1] s2] eqn:Hl1. simplify_eq.
      set (p := MkPacket bs a target).
      destruct (IH target (Some a) r1 s1 res out1 s' q w wr (log_forwarded p (log_received p lg)) Hl1) as (b & Hb & Hph & Hf).
      exists b. split_and!; [|done|by rewrite Hf; cbn; rewrite <-app_assoc].
      eapply StepsNext; [cbn; by rewrite Hr, Hc|]. by eapply StepsNext.
    + simplify_eq. eexists. split_and!; [eapply StepsNext; [cbn; by rewrite Hr, Hc|constructor]|done|by rewrite app_nil_r].
  - simplify_eq. eexists. split_and!; [eapply StepsNext; [cbn; by rewrite Hr|constructor]|done|by rewrite app_nil_r].
Qed.

(** The two descriptions of [process_channel_io] agree: what the function
    returns, forwards and leaves in the reply map is what the steps of its task
    lead to. *)
Theorem process_channel_io_steps d id writer_ok r w s res out s' :
  process_channel_io writer_ok d id r s = (Some res, out, s') →
  ∃ b, bridge_steps d id (spawn_channel_bridge_stream w r) s b s' ∧
    br_phase b = phase_of_result res ∧ lg_forwarded (br_log b) = out.
Proof.
  unfold process_channel_io. destruct (read_optional_tunnel_target r) as [[target|e] r1] eqn:Hr.
  - destruct (channel_io_loop _ _ _ _ _ _ _) as [[res1 out1] s1] eqn:Hl. intros Hres.
    assert (∃ res0, res1 = Some res0 ∧ out1 = out ∧ s1 = s' ∧ phase_of_result res0 = phase_of_result res) as (res0 & -> & -> & -> & Hph).
    { destruct res1 as [[[]|e]|]; [destruct writer_ok|..]; simplify_eq; by eexists. }
    destruct (bridge_loop_steps d id _ _ _ _ _ _ _ _ [] w WriterOn (BridgeLog r [] [] [] []) Hl) as (b & Hb & Hp & Hf).
    exists b. split_and!; [|congruence|done]. eapply StepsNext; [cbn; by rewrite Hr|done].
  - intros ?. simplify_eq. eexists. split_and!; [eapply StepsNext; [cbn; by rewrite Hr|constructor]|done|done].
Qed.

Lemma process_channel_io_steps_witness :
  ∃ b, bridge_steps None 3 (spawn_channel_bridge_stream open_writer [Chunk ([0] ++ datagram_frames [[1]; [2; 3]])]) (Replies ∅ 10000) b (Replies ∅ 10001) ∧
    br_phase b = BDraining ∧
    lg_forwarded (br_log b) = [MkPacket [1] (SockV4 0 10000) None; MkPacket [2; 3] (SockV4 0 10000) None].
Proof.
  apply (process_channel_io_steps None 3 true [Chunk ([0] ++ datagram_frames [[1]; [2; 3]])] open_writer (Replies ∅ 10000) (Ok ())).
  by vm_compute.
Defined.

(** * From end to end *)

(** The packets a connector gets for a flow opened for [ot]. *)
Definition stamped (a : SocketAddr) (ot : option TunnelTarget) (ds : list (list Z)) : list UdpPacket :=
  (λ d, MkPacket d a (target_normalize <$> ot)) <$> ds.

Lemma stamped_received a ot ps :
  Forall (λ p, local_addr p = a) ps → Forall (λ p, peer_addr p = target_normalize <$> ot) ps →
  ps = stamped a ot (payload <$> ps).
Proof.
  intros Ha Hp. induction Ha as [|[d l t] ps Hl _ IH]; [done|]. apply list.Forall_cons in Hp as [Ht Hp].
  cbn in Hl, Ht. subst. unfold stamped in *. cbn. by rewrite <-IH.
Qed.

(** C17: A UDP flow through a channel, from end to end.  Take any stream of a
    reachable ingress that arrives at the channel egress, among any number of
    others, with all tasks interleaved in any way.  A reply goes to the one stream
    whose address it carries, if that stream is live.  The connector gets exactly the
    datagrams of the flow, in order and without gaps, under one address of the
    right family and with the flow's destination; every reply the router sends to
    the stream carries that address, replies are written back in the order they
    were taken, and the application gets them as packets of its flow.  Once the
    stream's task has ended well, every datagram has been forwarded (as long as
    the connector was there) and every reply written, also one the router held
    while the stream was ending. *)
Theorem udp_channel_end_to_end default_upstream x id b s sid st :
  bridge_reachable default_upstream x → bs_bridges x !! id = Some b →
  ingress_reachable s → streams s !! sid = Some st → (∀ t, (us_key st).2 = Some t → target_wf t) →
  datagrams_ok (payload <$> us_sent st) → delivers (lg_source (br_log b)) (stream_bytes st) →
  w_room (br_send b) = None → datagrams_ok (payload <$> lg_routed (br_log b)) →
  (∀ p i, route_reply p (bs_replies x) = Some i ↔
     ∃ c, bs_bridges x !! i = Some c ∧ live_local c = Some (local_addr p)) ∧
  ∃ a,
    lg_forwarded (br_log b) `prefix_of` stamped a (us_key st).2 (payload <$> us_sent st) ∧
    Forall (λ p, local_addr p = a) (lg_routed (br_log b)) ∧
    (∀ a', br_local b = Some a' → a' = a ∧ is_ipv6 a = target_family_is_ipv6 (us_key st).2 default_upstream) ∧
    lg_written (br_log b) `prefix_of` lg_routed (br_log b) ∧
    (∀ r, delivers r (w_out (br_send b)) →
       stream_reader (us_key st) r =
       Some ((λ p, MkPacket (payload p) (us_key st).1 (us_key st).2) <$> lg_written (br_log b))) ∧
    (br_phase b = BDone (Ok ()) →
       lg_written (br_log b) = lg_routed (br_log b) ∧
       (bs_connected x = true → lg_forwarded (br_log b) = stamped a (us_key st).2 (payload <$> us_sent st))).
Proof.
  intros Hreach Hid Hin Hst Hwf Hok Hsrc Hroom Hrok.
  destruct (bridge_reachable_ok _ _ Hreach) as (Hmap & _ & Hb). split; [intros p i; apply Hmap|]. destruct (Hb id b Hid) as [Hs Hl _ Hf Hw Hend Hdone].
  destruct (Hs (us_key st).2 (us_head st) (payload <$> us_sent st) Hwf (ingress_heads s Hin sid st Hst) Hok Hsrc)
    as (rest & Hds & Hpeer & Hfam & Hphase).
  destruct (Hw Hroom) as (Hout & _ & Hrouted). apply list.Forall_app in Hl as [Hlr Hlo].
  set (a := default (SockV4 0 0) (br_local b)).
  assert (Hat : ∀ ps, Forall (λ p, br_local b = Some (local_addr p)) ps → Forall (λ p, local_addr p = a) ps).
  { intros ps Hps. eapply list.Forall_impl; [exact Hps|]. intros p Hp. cbn in Hp. unfold a. by rewrite Hp. }
  assert (Hrec : stamped a (us_key st).2 (payload <$> us_sent st) = lg_received (br_log b) ++ stamped a (us_key st).2 rest).
  { rewrite Hds. unfold stamped. rewrite fmap_app. f_equal. symmetry. apply stamped_received; auto. }
  exists a. rewrite Hrec. split_and!.
  - destruct (bs_connected x); [rewrite <-Hf, <-app_assoc; by eexists|by apply prefix_app_r].
  - auto.
  - intros a' Ha'. unfold a. rewrite Ha'. split; [done|]. by apply Hfam.
  - rewrite Hrouted. by eexists.
  - intros r Hr. rewrite Hout in Hr. unfold stream_reader. rewrite Hrouted, fmap_app in Hrok.
    apply list.Forall_app in Hrok as [Hwok _].
    rewrite (reply_loop_ok _ (payload <$> lg_written (br_log b))); [by rewrite <-list_fmap_compose| |done..].
    pose proof (delivers_length _ _ Hr). pose proof (datagram_frames_size (payload <$> lg_written (br_log b))). lia.
  - intros Hph. rewrite Hph in Hphase. cbn in Hphase. subst rest. cbn [stamped fmap list_fmap]. rewrite app_nil_r.
    destruct (Hend (Hdone Hph)) as (_ & Hq & Hheld). rewrite Hq, Hheld in Hrouted. split; [by rewrite Hrouted, !app_nil_r|].
    intros Hc. rewrite Hc in Hf. rewrite <-Hf. unfold in_flight. by rewrite Hph, app_nil_r.
Qed.

(** * Concrete runs *)

Inductive bridge_op : Type :=
| OpAccept (id : nat) (quic_recv : reader)
| OpBridge (id : nat)
| OpWriter (id : nat)
| OpRouterTake (m : UdpMessage)
| OpRouterSend.

Definition exec_bridge_op (d : option SocketAddr) (o : bridge_op) (x : bridge_sys) : option bridge_sys :=
  let update s id b := BridgeSys s (<[id := b]> (bs_bridges x)) (bs_router x) (bs_connected x) in
  match o with
  | OpAccept id r =>
      match bs_bridges x !! id with
      | None => Some (update (bs_replies x) id (spawn_channel_bridge_stream open_writer r))
      | Some _ => None
      end
  | OpBridge id =>
      b ← bs_bridges x !! id;
      '(b', s) ← bridge_task d (bs_connected x) id b (bs_replies x);
      Some (update s id b')
  | OpWriter id =>
      b ← bs_bridges x !! id;
      b' ← writer_task (holds_sender b || negb (bool_decide (router_holds (bs_router x) id = []))) b;
      Some (update (bs_replies x) id b')
  | OpRouterTake m => match bs_router x with RouterIdle => Some (router_take m x) | _ => None end
  | OpRouterSend =>
      match bs_router x with
      | RouterSending id p =>
          b ← bs_bridges x !! id; b' ← send_reply p b;
          Some (BridgeSys (bs_replies x) (<[id := b']> (bs_bridges x)) RouterIdle (bs_connected x))
      | _ => None
      end
  end.

Fixpoint exec_bridge (d : option SocketAddr) (os : list bridge_op) (x : bridge_sys) : option bridge_sys :=
  match os with
  | [] => Some x
  | o :: os' => y ← exec_bridge_op d o x; exec_bridge d os' y
  end.

Lemma exec_bridge_op_step d o x y : exec_bridge_op d o x = Some y → bridge_step d x y.
Proof.
  destruct x as [s bs rt cn], o as [id r|id|id|m|]; cbn.
  - destruct (bs !! id) eqn:Hid; [done|]. intros [= <-]. by constructor.
  - destruct (bs !! id) as [b|] eqn:Hid; [|done]. cbn. destruct (bridge_task _ _ _ _ _) as [[b' s']|] eqn:Ht; [|done].
    intros [= <-]. by eapply BTask.
  - destruct (bs !! id) as [b|] eqn:Hid; [|done]. cbn. destruct (writer_task _ _) as [b'|] eqn:Ht; [|done].
    intros [= <-]. by eapply BWriter.
  - destruct rt; try done. intros [= <-]. constructor.
  - destruct rt as [|id p|]; try done. destruct (bs !! id) as [b|] eqn:Hid; [|done]. cbn.
    destruct (send_reply p b) as [b'|] eqn:Ht; [|done]. intros [= <-]. by eapply BRouterSend.
Qed.

Lemma exec_bridge_steps d os x y : exec_bridge d os x = Some y → rtc (bridge_step d) x y.
Proof.
  revert x. induction os as [|o os IH]; intros x; cbn; [intros [= <-]; apply rtc_refl|].
  destruct (exec_bridge_op d o x) as [x'|] eqn:Ho; [|done]. cbn. intros He.
  eapply rtc_l; [by eapply exec_bridge_op_step|by apply IH].
Qed.

(** The stream ends while the router holds a reply for it; the reply is written
    all the same. *)
Definition dns_reply : UdpPacket := MkPacket [7] (SockV4 0 10000) None.
Definition late_reply_run : list bridge_op :=
  [OpAccept 5 [Chunk (stream_bytes dns_stream)]; OpBridge 5; OpBridge 5; OpBridge 5;
   OpRouterTake (UPacket dns_reply); OpBridge 5; OpRouterSend; OpWriter 5; OpWriter 5; OpBridge 5].
Definition late_reply_sys : bridge_sys :=
  default start_accepting_channel (exec_bridge None late_reply_run start_accepting_channel).

Definition late_reply_bridge : bridge :=
  Bridge (BDone (Ok ())) [] (Some (SockV4 0 10000)) [] (WriterOff true) (Writer [0; 1; 7] None)
    (BridgeLog [Chunk (stream_bytes dns_stream)] [MkPacket [1; 2] (SockV4 0 10000) (Some (Domain "dns.example"%string 53))]
       [MkPacket [1; 2] (SockV4 0 10000) (Some (Domain "dns.example"%string 53))] [dns_reply] [dns_reply]).

Lemma udp_channel_end_to_end_witness :
  bs_bridges late_reply_sys !! 5%nat = Some late_reply_bridge ∧
  ∃ a, lg_forwarded (br_log late_reply_bridge) = stamped a (us_key dns_stream).2 [[1; 2]] ∧
    stream_reader (us_key dns_stream) [Chunk [0; 1]; Chunk [7]] =
      Some [MkPacket [7] sample_addr (Some (Domain "dns.example"%string 53))].
Proof.
  assert (bs_bridges late_reply_sys !! 5%nat = Some late_reply_bridge) as Hb by (by vm_compute).
  assert (bs_connected late_reply_sys = true) as Hc by (by vm_compute).
  split; [exact Hb|].
  destruct (udp_channel_end_to_end None late_reply_sys 5 late_reply_bridge dns_ingress 0 dns_stream)
    as (_ & a & _ & _ & _ & _ & Hback & Hend).
  - apply (exec_bridge_steps None late_reply_run); by vm_compute.
  - exact Hb.
  - exact dns_ingress_reachable.
  - clear Hb Hc. by vm_compute.
  - clear Hb Hc. intros t [= <-]. by apply (bool_decide_unpack _); vm_compute.
  - clear Hb Hc. repeat constructor; unfold UDP_PACKET_SIZE; simpl; lia.
  - clear Hb Hc. exists []. by rewrite app_nil_r.
  - reflexivity.
  - clear Hb Hc. repeat constructor; unfold UDP_PACKET_SIZE; simpl; lia.
  - exists a. split; [exact (proj2 (Hend eq_refl) Hc)|]. apply (Hback [Chunk [0; 1]; Chunk [7]]).
    clear. exists [7]. split; [by vm_compute|]. exists []. by vm_compute.
Defined.
