(* ===== verification/Server.v ===== *)
(** The server of [src/src/server.rs]: authentication of a connection, the
    choice of the tunnel it gets, and the clean-up of sessions whose connection
    is closed. *)
From S2P Require Import Prelude Io Net Target AddrText Config Message BincodeStd Servers TcpTunnel.

Record TimeoutConfig : Type := MkTimeouts {
  tcp_timeout_ms : Z;
  udp_timeout_ms : Z
}.

(** [TunnelType] without the connection it carries; a bound listener is named
    by its address. *)
Inductive TunnelType : Type :=
| TcpOut (upstream : SocketAddr)
| TcpIn (listener : SocketAddr)
| UdpOut (upstream : SocketAddr)
| UdpIn (listener : SocketAddr)
| DynamicUpstreamTcpOut
| DynamicUpstreamUdpOut.

Inductive auth_error : Type :=
| AuthRecv (e : msg_error)
| AuthSend (e : msg_error)
| PasswordMismatch
| PortRequired            (** inbound tunnel without an address *)
| NoDefaultUpstream
| NotLoopback (addr : SocketAddr)
| BindFailed (addr : SocketAddr)
| UnexpectedMessage.

(** * Helpers of the login *)

Definition check_password (password1 password2 : string) : result auth_error unit :=
  if decide (password1 = password2) then Ok () else Err PasswordMismatch.

Definition obtain_upstream_addr (cfg : TunnelConfig) (default_upstream : option SocketAddr) :
  result auth_error SocketAddr :=
  match upstream_addr (upstream cfg) with
  | None =>
      if decide (mode cfg = ModeIn) then Err PortRequired
      else ok_or NoDefaultUpstream default_upstream
  | Some addr =>
      if bool_decide (mode cfg = ModeIn) && negb (ip_is_unspecified (sa_ip addr))
         && negb (ip_is_loopback (sa_ip addr))
      then Err (NotLoopback addr) else Ok addr
  end.

Definition effective_timeout (client server : Z) : Z :=
  if 0 <? client then Z.max client server else server.

Record auth_io : Type := AuthIo { ai_recv : reader; ai_send : writer }.

Definition on_recv {E A} (f : E → auth_error) (m : eff reader E A) : eff auth_io auth_error A := λ s,
  let (x, r) := m (ai_recv s) in (map_err f x, AuthIo r (ai_send s)).
Definition on_send {E A} (f : E → auth_error) (m : eff writer E A) : eff auth_io auth_error A := λ s,
  let (x, w) := m (ai_send s) in (map_err f x, AuthIo (ai_recv s) w).

Section server.
Context `{!Bincode}.

(** The operating system's answer to binding a listener: its actual address. *)
Context (bind_listener : UpstreamType → SocketAddr → option SocketAddr).

Definition bind_failure_message (t : UpstreamType) (addr : SocketAddr) : string :=
  ((match t with Tcp => "tcp" | Udp => "udp" end) +:+ " server failed to bind at: "
     +:+ display_socket_addr addr)%string.

(** [TcpServer::bind_and_start] / [UdpServer::bind_and_start] with the failure
    reported to the client. *)
Definition bind_or_reject (t : UpstreamType) (addr : SocketAddr) : eff auth_io auth_error SocketAddr :=
  match bind_listener t addr with
  | Some a => mret a
  | None =>
      _ ← on_send AuthSend (send_failure (bind_failure_message t addr));
      throw (BindFailed addr)
  end.

Definition derive_tunnel_type (cfg : TunnelConfig) (config : ServerConfig) : eff auth_io auth_error TunnelType :=
  addr ← lift (obtain_upstream_addr cfg
                 (match upstream_type (upstream cfg) with
                  | Tcp => sc_default_tcp_upstream config
                  | Udp => sc_default_udp_upstream config
                  end));
  match mode cfg, upstream_type (upstream cfg) with
  | ModeOut, Tcp => mret (TcpOut addr)
  | ModeOut, Udp => mret (UdpOut addr)
  | ModeIn, Tcp => a ← bind_or_reject Tcp addr; mret (TcpIn a)
  | ModeIn, Udp => a ← bind_or_reject Udp addr; mret (UdpIn a)
  end.

(** [authenticate_connection], on the first stream of a connection;
    [ipv6_supported] is the answer of the system's route check. *)
Definition authenticate_connection (config : ServerConfig) (ipv6_supported : bool) :
  eff auth_io auth_error (TunnelType * TimeoutConfig) :=
  msg ← on_recv AuthRecv (recv_from false);
  match msg with
  | ReqLogin login_info =>
      _ ← lift (check_password (sc_password config) (li_password login_info));
      let timeouts := MkTimeouts (effective_timeout (li_tcp_timeout_ms login_info) (sc_tcp_timeout_ms config))
                                 (effective_timeout (li_udp_timeout_ms login_info) (sc_udp_timeout_ms config)) in
      tunnel_type ← match li_tunnel login_info with
                    | NetworkBased cfg => derive_tunnel_type cfg config
                    | ChannelBased Tcp => mret DynamicUpstreamTcpOut
                    | ChannelBased Udp => mret DynamicUpstreamUdpOut
                    end;
      _ ← on_send AuthSend (send_to (RespSuccess (mkServerCapabilities ipv6_supported)));
      mret (tunnel_type, timeouts)
  | _ => throw UnexpectedMessage
  end.

(** What [serve] does with an authenticated connection. *)
Inductive serve_action : Type :=
| AcceptTcp (fixed_upstream : option SocketAddr) (connector : bool) (timeout_ms : Z)
| AcceptUdp (default_upstream : option SocketAddr) (connector : bool) (timeout_ms : Z)
| ServeTcp (listener : SocketAddr) (timeout_ms : Z)
| ServeUdp (listener : SocketAddr) (timeout_ms : Z).

Definition serve_tunnel (config : ServerConfig) (t : TunnelType) (timeouts : TimeoutConfig) : serve_action :=
  match t with
  | TcpOut a => AcceptTcp (Some a) false (tcp_timeout_ms timeouts)
  | UdpOut a => AcceptUdp (Some a) false (udp_timeout_ms timeouts)
  | TcpIn a => ServeTcp a (tcp_timeout_ms timeouts)
  | UdpIn a => ServeUdp a (udp_timeout_ms timeouts)
  | DynamicUpstreamTcpOut =>
      if sc_tcp_connector config then AcceptTcp (sc_default_tcp_upstream config) true (tcp_timeout_ms timeouts)
      else AcceptTcp None false (tcp_timeout_ms timeouts)
  | DynamicUpstreamUdpOut =>
      AcceptUdp (sc_default_udp_upstream config) (sc_udp_connector config) (udp_timeout_ms timeouts)
  end.
End server.

(** * Sessions *)

(** A connection is open or closed; a session pairs it with the channel of its
    listener. *)
Record server_state : Type := ServerState {
  sv_connections : list Z;
  sv_tcp_sessions : list (Z * Z);     (** connection, sender *)
  sv_udp_sessions : list (Z * Z)
}.

(** [clear_expired_sessions]: the new state and the senders that get a [Quit]. *)
Definition clear_expired_sessions (closed : Z → bool) (s : server_state) :
  server_state * (list Z * list Z) :=
  let live := filter (λ c, closed c = false) in
  let keep := filter (λ x : Z * Z, closed x.1 = false) in
  let quit l := (filter (λ x : Z * Z, closed x.1 = true) l).*2 in
  (ServerState (live (sv_connections s)) (keep (sv_tcp_sessions s)) (keep (sv_udp_sessions s)),
   (quit (sv_tcp_sessions s), quit (sv_udp_sessions s))).

(** What [serve] records for an authenticated connection, under two acquisitions
    of the lock: the connection, then (for an inbound tunnel) its session;
    [sender] names the sending end of the listener's channel. *)
Definition push_connection (conn : Z) (s : server_state) : server_state :=
  ServerState (sv_connections s ++ [conn]) (sv_tcp_sessions s) (sv_udp_sessions s).

Definition push_session (conn : Z) (t : TunnelType) (sender : Z) (s : server_state) : server_state :=
  match t with
  | TcpIn _ => ServerState (sv_connections s) (sv_tcp_sessions s ++ [(conn, sender)]) (sv_udp_sessions s)
  | UdpIn _ => ServerState (sv_connections s) (sv_tcp_sessions s) (sv_udp_sessions s ++ [(conn, sender)])
  | _ => s
  end.

Definition server_new : server_state := ServerState [] [] [].

(** ** Properties *)
Section properties.
Context `{!Bincode, !BincodeLaws}.
Context (bind_listener : UpstreamType → SocketAddr → option SocketAddr).

(** What a tunnel type promises for a login. *)
Definition tunnel_matches (config : ServerConfig) (t : Tunnel) (ty : TunnelType) : Prop :=
  match t with
  | ChannelBased Tcp => ty = DynamicUpstreamTcpOut
  | ChannelBased Udp => ty = DynamicUpstreamUdpOut
  | NetworkBased cfg =>
      let dflt := match upstream_type (upstream cfg) with
                  | Tcp => sc_default_tcp_upstream config | Udp => sc_default_udp_upstream config end in
      match mode cfg with
      | ModeOut =>
          ∃ a, (upstream_addr (upstream cfg) = Some a ∨ upstream_addr (upstream cfg) = None ∧ dflt = Some a) ∧
            ty = (match upstream_type (upstream cfg) with Tcp => TcpOut a | Udp => UdpOut a end)
      | ModeIn =>
          ∃ a b, upstream_addr (upstream cfg) = Some a ∧
            (ip_is_loopback (sa_ip a) = true ∨ ip_is_unspecified (sa_ip a) = true) ∧
            bind_listener (upstream_type (upstream cfg)) a = Some b ∧
            ty = (match upstream_type (upstream cfg) with Tcp => TcpIn b | Udp => UdpIn b end)
      end
  end.

Lemma bind_or_reject_ok t a s b s' :
  bind_or_reject bind_listener t a s = (Ok b, s') → s' = s ∧ bind_listener t a = Some b.
Proof.
  unfold bind_or_reject. destruct (bind_listener t a); [by intros [= <- <-]|].
  unfold mbind, eff_bind, throw. by destruct (on_send _ _ _) as [[]].
Qed.

Lemma derive_tunnel_type_ok cfg config s ty s' :
  derive_tunnel_type bind_listener cfg config s = (Ok ty, s') →
  s' = s ∧ tunnel_matches config (NetworkBased cfg) ty.
Proof.
  unfold derive_tunnel_type, tunnel_matches, obtain_upstream_addr. intros Hd.
  unfold mbind at 1, eff_bind at 1, lift in Hd. destruct cfg as [m l [ua ut]]. simpl in *.
  destruct ua as [a|].
  - destruct (bool_decide (m = ModeIn) && _ && _) eqn:Hc; [done|]. destruct m.
    + assert (ip_is_loopback (sa_ip a) = true ∨ ip_is_unspecified (sa_ip a) = true) as Hlo.
      { destruct (ip_is_unspecified _), (ip_is_loopback _); auto. }
      destruct ut; unfold mbind, eff_bind in Hd;
        destruct (bind_or_reject bind_listener _ a s) as [[b|] s1] eqn:Hb; try done;
        apply bind_or_reject_ok in Hb as [-> Hb]; unfold mret, eff_ret in Hd; simplify_eq; eauto 10.
    + destruct ut; unfold mret, eff_ret in Hd; simplify_eq; eauto 10.
  - destruct m; simpl in Hd; [done|].
    destruct ut; simpl in Hd.
    + destruct (sc_default_tcp_upstream config) as [a|]; [|done].
      unfold mret, eff_ret in Hd; simplify_eq/=; eauto 10.
    + destruct (sc_default_udp_upstream config) as [a|]; [|done].
      unfold mret, eff_ret in Hd; simplify_eq/=; eauto 10.
Qed.

Lemma on_recv_ok {E A} (f : E → auth_error) (m : eff reader E A) s x s' :
  on_recv f m s = (Ok x, s') → ∃ r, m (ai_recv s) = (Ok x, r) ∧ s' = AuthIo r (ai_send s).
Proof. unfold on_recv. destruct (m (ai_recv s)) as [[]]; intros ?; simplify_eq/=; eauto. Qed.

Lemma send_to_ok_out m w w' :
  send_to m w = (Ok (), w') →
  ∃ bs, encode_to_vec m = Some bs ∧
    w_out w' = w_out w ++ to_be_bytes 4 (wrap 32 (Z.of_nat (length bs))) ++ bs.
Proof.
  unfold send_to, mbind, eff_bind, lift. destruct (encode_to_vec m) as [bs|]; simpl; [|done].
  unfold eff_map_err, write_uint.
  destruct (write_all (to_be_bytes 4 _) w) as [[[]|] w1] eqn:H1; simpl; [|done].
  destruct (write_all bs w1) as [[[]|] w2] eqn:H2; simpl; [|done].
  intros [= <-]. apply write_all_ok in H1. apply write_all_ok in H2. exists bs.
  split; [done|]. by rewrite H2, H1, <-app_assoc.
Qed.

(** A tunnel that cannot be set up writes nothing, or the reason. *)
Lemma derive_tunnel_type_err cfg config s e s' :
  w_room (ai_send s) = None →
  (∀ a, upstream_addr (upstream cfg) = Some a →
     message_fits (RespFailure (bind_failure_message (upstream_type (upstream cfg)) a))) →
  derive_tunnel_type bind_listener cfg config s = (Err e, s') →
  s' = s ∨ ∃ msg, message_fits (RespFailure msg) ∧
    s' = AuthIo (ai_recv s) (Writer (w_out (ai_send s) ++ message_frame (RespFailure msg)) None).
Proof.
  intros Hw Hfail. unfold derive_tunnel_type, obtain_upstream_addr. intros Hd.
  unfold mbind at 1, eff_bind at 1, lift in Hd. destruct cfg as [m l [ua ut]]. simpl in *.
  destruct ua as [a|].
  - destruct (bool_decide (m = ModeIn) && _ && _); [simplify_eq; by left|]. specialize (Hfail a eq_refl).
    destruct m, ut; try done; unfold mbind, eff_bind, bind_or_reject in Hd;
      (destruct (bind_listener _ a); [done|]); unfold mbind, eff_bind, on_send, send_failure in Hd;
      rewrite (send_fits _ _ Hfail Hw) in Hd; cbn in Hd; simplify_eq; right; eauto.
  - destruct m; simpl in Hd; [simplify_eq; by left|].
    destruct ut; simpl in Hd;
      [destruct (sc_default_tcp_upstream config)|destruct (sc_default_udp_upstream config)];
      simpl in Hd; unfold mret, eff_ret in Hd; simplify_eq; by left.
Qed.

(** What the server writes in answer to a login, in every case. *)
Lemma authenticate_cases config ipv6 s login r :
  recv_from false (ai_recv s) = (Ok (ReqLogin login), r) → w_room (ai_send s) = None →
  message_fits (RespSuccess (mkServerCapabilities ipv6)) →
  (∀ cfg a, li_tunnel login = NetworkBased cfg → upstream_addr (upstream cfg) = Some a →
     message_fits (RespFailure (bind_failure_message (upstream_type (upstream cfg)) a))) →
  ∃ res w', authenticate_connection bind_listener config ipv6 s = (res, AuthIo r w') ∧
    match res with
    | Ok (ty, _) =>
        li_password login = sc_password config ∧ tunnel_matches config (li_tunnel login) ty ∧
        w_out w' = w_out (ai_send s) ++ message_frame (RespSuccess (mkServerCapabilities ipv6))
    | Err _ =>
        w' = ai_send s ∨
        ∃ msg, message_fits (RespFailure msg) ∧ w_out w' = w_out (ai_send s) ++ message_frame (RespFailure msg)
    end.
Proof.
  intros Hr Hw Hok Hfail. unfold authenticate_connection. unfold mbind at 1, eff_bind at 1, on_recv. rewrite Hr. simpl.
  unfold mbind at 1, eff_bind at 1, lift, check_password.
  destruct (decide _) as [Hpw|]; [|eexists _, _; split; [reflexivity|by left]].
  unfold mbind at 1, eff_bind at 1.
  match goal with |- context [match ?m with _ => _ end = _] => destruct m as [[ty|e] s2] eqn:Hty end.
  - assert (s2 = AuthIo r (ai_send s) ∧ tunnel_matches config (li_tunnel login) ty) as [-> Hm].
    { destruct (li_tunnel login) as [cfg|[]].
      - by apply derive_tunnel_type_ok in Hty.
      - unfold mret, eff_ret in Hty. by simplify_eq.
      - unfold mret, eff_ret in Hty. by simplify_eq. }
    unfold mbind, eff_bind, on_send. cbn [ai_send ai_recv]. rewrite (send_fits _ _ Hok Hw). simpl.
    eexists _, _. split; [done|]. cbn. by split_and!.
  - destruct (li_tunnel login) as [cfg|[]]; [|done..].
    destruct (derive_tunnel_type_err cfg config (AuthIo r (ai_send s)) e s2) as [->|(msg & Hmsg & ->)]; [done| |done|..].
    + intros a Ha. by apply Hfail.
    + eexists _, _. split; [reflexivity|by left].
    + eexists _, _. split; [reflexivity|]. right. by exists msg.
Qed.

(** Nobody gets a tunnel without the password.  If authentication succeeds,
    the first message was a login with exactly the server's password; the tunnel
    is the one the login asked for (outbound: the requested upstream, or the
    server's default if none was requested; inbound: a listener really bound to
    the requested loopback or unspecified address); the timeouts are at least
    the server's; and the only thing written is the success response. *)
Theorem authenticate_sound config ipv6 s ty to s' :
  authenticate_connection bind_listener config ipv6 s = (Ok (ty, to), s') →
  ∃ login r bs, recv_from false (ai_recv s) = (Ok (ReqLogin login), r) ∧
    li_password login = sc_password config ∧
    tunnel_matches config (li_tunnel login) ty ∧
    to = MkTimeouts (effective_timeout (li_tcp_timeout_ms login) (sc_tcp_timeout_ms config))
                    (effective_timeout (li_udp_timeout_ms login) (sc_udp_timeout_ms config)) ∧
    sc_tcp_timeout_ms config <= tcp_timeout_ms to ∧ sc_udp_timeout_ms config <= udp_timeout_ms to ∧
    encode_to_vec (RespSuccess (mkServerCapabilities ipv6)) = Some bs ∧
    ai_recv s' = r ∧
    w_out (ai_send s') = w_out (ai_send s) ++ to_be_bytes 4 (wrap 32 (Z.of_nat (length bs))) ++ bs.
Proof.
  unfold authenticate_connection. unfold mbind at 1, eff_bind at 1. intros Ha.
  destruct (on_recv AuthRecv (recv_from false) s) as [[msg|] s1] eqn:Hr; [|done].
  apply on_recv_ok in Hr as (r & Hr & ->). destruct msg as [login| | | |]; try done.
  unfold mbind at 1, eff_bind at 1, lift in Ha. unfold check_password in Ha.
  destruct (decide (sc_password config = li_password login)) as [Hpw|]; [|done].
  unfold mbind at 1, eff_bind at 1 in Ha.
  match type of Ha with match ?m with _ => _ end = _ => destruct m as [[ty'|] s2] eqn:Hty end; [|done].
  assert (s2 = AuthIo r (ai_send s) ∧ tunnel_matches config (li_tunnel login) ty') as [-> Hm].
  { destruct (li_tunnel login) as [cfg|[]].
    - by apply derive_tunnel_type_ok in Hty.
    - unfold mret, eff_ret in Hty. by simplify_eq.
    - unfold mret, eff_ret in Hty. by simplify_eq. }
  unfold mbind, eff_bind, on_send in Ha. simpl in Ha.
  destruct (send_to _ (ai_send s)) as [[[]|] w'] eqn:Hs; simpl in Ha; [|done].
  unfold mret, eff_ret in Ha. simplify_eq. apply send_to_ok_out in Hs as (bs & Hbs & Hout).
  exists login, r, bs. split_and!; try done; simpl; unfold effective_timeout;
    destruct (Z.ltb_spec 0 (li_tcp_timeout_ms login)), (Z.ltb_spec 0 (li_udp_timeout_ms login)); lia.
Qed.

(** A login with another password, and any other first message, is turned
    away without a byte being written: the peer learns nothing. *)
Theorem authenticate_rejects config ipv6 s msg r :
  recv_from false (ai_recv s) = (Ok msg, r) →
  (∀ login, msg = ReqLogin login → li_password login ≠ sc_password config) →
  ∃ e, authenticate_connection bind_listener config ipv6 s = (Err e, AuthIo r (ai_send s)) ∧
    e = (match msg with ReqLogin _ => PasswordMismatch | _ => UnexpectedMessage end).
Proof.
  intros Hr Hpw. unfold authenticate_connection. unfold mbind at 1, eff_bind at 1, on_recv. rewrite Hr. simpl.
  destruct msg as [login| | | |]; try by eexists.
  unfold mbind at 1, eff_bind at 1, lift, check_password.
  destruct (decide _) as [He|]; [|by eexists]. exfalso. by apply (Hpw login).
Qed.
End properties.

(** ** Inbound sessions *)

Definition session_senders (s : server_state) : list Z := (sv_tcp_sessions s).*2 ++ (sv_udp_sessions s).*2.

(** Sweeping splits the senders of a session list into those kept and those
    told to quit. *)
Lemma sweep_senders (closed : Z → bool) (l : list (Z * Z)) :
  (filter (λ x : Z * Z, closed x.1 = true) l).*2 ++ (filter (λ x : Z * Z, closed x.1 = false) l).*2 ≡ₚ l.*2.
Proof.
  induction l as [|x l IH]; [done|]. rewrite !filter_cons. destruct (closed x.1); simpl.
  - by rewrite IH.
  - by rewrite <-Permutation_middle, IH.
Qed.

(** A sweep moves senders from the sessions to the quits. *)
Lemma clear_senders closed s s' tq uq :
  clear_expired_sessions closed s = (s', (tq, uq)) →
  (tq ++ uq) ++ session_senders s' ≡ₚ session_senders s.
Proof.
  unfold clear_expired_sessions, session_senders. intros ?. simplify_eq. simpl.
  rewrite <-(sweep_senders closed (sv_tcp_sessions s)), <-(sweep_senders closed (sv_udp_sessions s)).
  rewrite <-!app_assoc. apply Permutation_app_head, Permutation_app_swap_app.
Qed.

(** The clean-up forgets exactly the connections that are closed, keeps the
    others in order, and tells exactly the listeners of closed connections to
    quit. *)
Theorem clear_expired_sessions_spec closed s :
  let '(s', (tcp_quit, udp_quit)) := clear_expired_sessions closed s in
  (∀ c, c ∈ sv_connections s' ↔ c ∈ sv_connections s ∧ closed c = false) ∧
  sv_connections s' `sublist_of` sv_connections s ∧
  (∀ x, x ∈ sv_tcp_sessions s ↔ x ∈ sv_tcp_sessions s' ∨ (x ∈ sv_tcp_sessions s ∧ closed x.1 = true ∧ x.2 ∈ tcp_quit)) ∧
  (∀ x, x ∈ sv_udp_sessions s ↔ x ∈ sv_udp_sessions s' ∨ (x ∈ sv_udp_sessions s ∧ closed x.1 = true ∧ x.2 ∈ udp_quit)) ∧
  (∀ q, q ∈ tcp_quit → ∃ c, (c, q) ∈ sv_tcp_sessions s ∧ closed c = true) ∧
  (∀ q, q ∈ udp_quit → ∃ c, (c, q) ∈ sv_udp_sessions s ∧ closed c = true) ∧
  (∀ x, x ∈ sv_tcp_sessions s' ∨ x ∈ sv_udp_sessions s' → closed x.1 = false).
Proof.
  unfold clear_expired_sessions. simpl.
  assert (∀ l (x : Z * Z), x ∈ l ↔ x ∈ filter (λ x : Z * Z, closed x.1 = false) l ∨
    (x ∈ l ∧ closed x.1 = true ∧ x.2 ∈ (filter (λ x : Z * Z, closed x.1 = true) l).*2)) as Hsplit.
  { intros l x. rewrite list_elem_of_filter. destruct (closed x.1) eqn:Hc.
    - split; [|tauto]. intros Hx. right. split_and!; [done|done|].
      apply list_elem_of_fmap. exists x. by rewrite list_elem_of_filter.
    - split; [auto|]. tauto. }
  assert (∀ l q, q ∈ (filter (λ x : Z * Z, closed x.1 = true) l).*2 → ∃ c, (c, q) ∈ l ∧ closed c = true) as Hq.
  { intros l q. rewrite list_elem_of_fmap. intros ([c q'] & -> & Hx). apply list_elem_of_filter in Hx as [? ?].
    by exists c. }
  split_and!; auto.
  - intros c. rewrite list_elem_of_filter. tauto.
  - apply sublist_filter.
  - intros x [Hx|Hx]; apply list_elem_of_filter in Hx; tauto.
Qed.

(** ** Witnesses *)
Definition sample_server_config : ServerConfig :=
  MkServerConfig "0.0.0.0:3515" "secret" "" "" 30000 30000 5000 0 0 0
    (Some (SockV4 IPV4_LOCALHOST 80)) None false false "" "".
Definition sample_bind (_ : UpstreamType) (a : SocketAddr) : option SocketAddr := Some a.
Definition good_login : LoginInfo := mkLoginInfo "secret" (NetworkBased
  (mkTunnelConfig ModeIn (Some sample_addr) (mkUpstream (Some (SockV4 IPV4_LOCALHOST 9000)) Tcp))) 60000 0.
Definition bad_login : LoginInfo := mkLoginInfo "guess" (ChannelBased Tcp) 0 0.
Definition login_io (l : LoginInfo) : auth_io := AuthIo [Chunk (message_frame (ReqLogin l))] open_writer.

Lemma authenticate_sound_witness :
  ∃ login r bs, recv_from false (ai_recv (login_io good_login)) = (Ok (ReqLogin login), r) ∧
    li_password login = "secret"%string ∧
    tunnel_matches sample_bind sample_server_config (li_tunnel login) (TcpIn (SockV4 IPV4_LOCALHOST 9000)) ∧
    MkTimeouts 60000 5000 = MkTimeouts (effective_timeout (li_tcp_timeout_ms login) 30000)
                                       (effective_timeout (li_udp_timeout_ms login) 5000) ∧
    30000 <= 60000 ∧ 5000 <= 5000 ∧
    encode_to_vec (RespSuccess (mkServerCapabilities true)) = Some bs ∧
    [] = r ∧
    message_frame (RespSuccess (mkServerCapabilities true)) =
      [] ++ to_be_bytes 4 (wrap 32 (Z.of_nat (length bs))) ++ bs.
Proof.
  apply (authenticate_sound sample_bind sample_server_config true (login_io good_login)
    (TcpIn (SockV4 IPV4_LOCALHOST 9000)) (MkTimeouts 60000 5000)
    (AuthIo [] (Writer (message_frame (RespSuccess (mkServerCapabilities true))) None))).
  by vm_compute.
Defined.

Lemma authenticate_rejects_witness :
  ∃ e, authenticate_connection sample_bind sample_server_config true (login_io bad_login) =
      (Err e, AuthIo [] open_writer) ∧ e = PasswordMismatch.
Proof.
  apply (authenticate_rejects sample_bind sample_server_config true (login_io bad_login) (ReqLogin bad_login) []).
  - by vm_compute.
  - intros login [= <-]. done.
Defined.
