(* ===== verification/ServerRun.v ===== *)
(** The server of [src/src/server.rs], second part: certificates and keys
    ([src/src/pem_util.rs]), binding the endpoint, the daily reload of its
    configuration, the task that handles an incoming connection from the
    handshake to the tunnel, the heartbeat responder and the traffic log. *)
From S2P Require Import Prelude Io Net Target AddrText Ipv6Text Config Message BincodeStd Heartbeat Servers TcpTunnel Server.

#[local] Open Scope string_scope.
#[local] Open Scope Z_scope.

(** * Certificate and key files *)

(** What a section of a PEM file holds; keys and certificates are named by
    numbers. *)
Inductive Item : Type :=
| X509Certificate (cert : Z)
| Pkcs1Key (key : Z)
| Pkcs8Key (key : Z)
| Sec1Key (key : Z)
| OtherItem.

Inductive PrivateKeyDer : Type := KeyPkcs1 (key : Z) | KeyPkcs8 (key : Z) | KeySec1 (key : Z).

#[export] Instance PrivateKeyDer_eq_dec : EqDecision PrivateKeyDer.
Proof. solve_decision. Defined.

Inductive server_error : Type :=
| InvalidListenAddress (addr : string)
| ReadCertFailed (path : string)
| ReadKeyFailed (path : string)
| UnexpectedKey (path : string)
| SelfSignFailed
| QuicConfigFailed
| EndpointIoFailed          (** a bare [io::Error] *)
| NotBound.

(** The PEM parser of the [rustls-pemfile] crate: the certificates of a file,
    with an error for each broken section, and the first section. *)
Class Pemfile : Type := {
  pem_certs : list Z → list (option Z);
  pem_read_one : list Z → result unit (option Item)
}.

(** The rest of the outside world: files, the generator of self-signed
    certificates, whether the TLS library accepts a chain with a key, whether its
    configuration suits QUIC, and opening the endpoint's socket: whether that
    works, and then whether the socket tells its address. *)
Record server_world : Type := ServerWorld {
  w_read_file : string → option (list Z);
  w_self_signed : option (Z * Z);
  w_single_cert : list Z → PrivateKeyDer → bool;
  w_quic_suits : bool;
  w_open_socket : SocketAddr → option (option SocketAddr)
}.

(** The configuration of the QUIC endpoint. *)
Record QuinnServerConfig : Type := MkQuinnConfig {
  qs_certs : list Z;
  qs_key : PrivateKeyDer;
  qs_transport : TransportConfig
}.

(** Loading may also panic: the result of [with_single_cert] is unwrapped. *)
Inductive load_result : Type :=
| Loaded (c : QuinnServerConfig)
| LoadFailed (e : server_error)
| LoadPanicked.

Section pem.
Context `{pem : !Pemfile}.

(** [load_certificates_from_pem]: broken sections are skipped. *)
Definition load_certificates_from_pem (w : server_world) (path : string) : option (list Z) :=
  buf ← w_read_file w path; Some (omap id (pem_certs buf)).

Definition load_private_key_from_pem (w : server_world) (path : string) : result server_error PrivateKeyDer :=
  buf ← ok_or (ReadKeyFailed path) (w_read_file w path);
  match pem_read_one buf with
  | Ok (Some (Pkcs1Key key)) => Ok (KeyPkcs1 key)
  | Ok (Some (Pkcs8Key key)) => Ok (KeyPkcs8 key)
  | Ok (Some (Sec1Key key)) => Ok (KeySec1 key)
  | Ok _ => Err (UnexpectedKey path)
  | Err _ => Err (ReadKeyFailed path)
  end.

Definition read_certs_and_key (w : server_world) (cert_path key_path : string) :
  result server_error (list Z * PrivateKeyDer) :=
  if decide (cert_path = "") then
    '(cert, key) ← ok_or SelfSignFailed (w_self_signed w);
    Ok ([cert], KeyPkcs8 key)
  else
    certs ← ok_or (ReadCertFailed cert_path) (load_certificates_from_pem w cert_path);
    key ← load_private_key_from_pem w key_path;
    Ok (certs, key).

Definition load_quinn_server_config (w : server_world) (config : ServerConfig) : load_result :=
  match read_certs_and_key w (sc_cert_path config) (sc_key_path config) with
  | Err e => LoadFailed e
  | Ok (certs, key) =>
      if negb (w_single_cert w certs key) then LoadPanicked
      else if negb (w_quic_suits w) then LoadFailed QuicConfigFailed
      else Loaded (MkQuinnConfig certs key
             (build_quic_transport_config (sc_quic_timeout_ms config) (sc_quic_receive_window config)
                (sc_stream_receive_window config) (sc_quic_send_window config)))
  end.

(** * Binding *)

(** The endpoint: the address its socket really has, and its configuration. *)
Record server_endpoint : Type := ServerEndpoint { se_local_addr : SocketAddr; se_config : QuinnServerConfig }.

Record Server : Type := MkServer {
  sr_config : ServerConfig;
  sr_endpoint : option server_endpoint;
  sr_state : server_state
}.

Definition server_init (config : ServerConfig) : Server := MkServer config None server_new.

(** [bind]; [None] is a panic. *)
Definition bind (w : server_world) (s : Server) : option (result server_error SocketAddr * Server) :=
  match parse_socket_addr (sc_addr (sr_config s)) with
  | None => Some (Err (InvalidListenAddress (sc_addr (sr_config s))), s)
  | Some addr =>
      match load_quinn_server_config w (sr_config s) with
      | LoadPanicked => None
      | LoadFailed e => Some (Err e, s)
      | Loaded c =>
          match w_open_socket w addr with
          | None | Some None => Some (Err EndpointIoFailed, s)
          | Some (Some local) => Some (Ok addr, MkServer (sr_config s) (Some (ServerEndpoint local c)) (sr_state s))
          end
      end
  end.

(** The task [bind] starts: once a day the configuration is loaded from the same
    files; [worlds] are the worlds it finds.  The flag tells whether the task
    still runs. *)
Fixpoint reload (config : ServerConfig) (worlds : list server_world) (current : QuinnServerConfig) :
  bool * QuinnServerConfig :=
  match worlds with
  | [] => (true, current)
  | w :: worlds' =>
      match load_quinn_server_config w config with
      | Loaded c => reload config worlds' c
      | LoadFailed _ => reload config worlds' current
      | LoadPanicked => (false, current)
      end
  end.

(** ** The reload keeps a working configuration until it panics *)

Definition panics (config : ServerConfig) (w : server_world) : bool :=
  match load_quinn_server_config w config with LoadPanicked => true | _ => false end.
Definition loaded (config : ServerConfig) (w : server_world) : option QuinnServerConfig :=
  match load_quinn_server_config w config with Loaded c => Some c | _ => None end.

(** The configuration of the most recent successful load. *)
Definition latest (config : ServerConfig) (worlds : list server_world) (current : QuinnServerConfig) : QuinnServerConfig :=
  default current (list.last (omap (loaded config) worlds)).

Lemma latest_cons config w worlds current :
  latest config (w :: worlds) current = latest config worlds (default current (loaded config w)).
Proof.
  unfold latest. cbn [omap list_omap]. destruct (loaded config w) as [c|]; [|done].
  rewrite list.last_cons. by destruct (list.last _).
Qed.

(** C34: The endpoint always serves the certificates of the most recent load that
    worked: a reload that fails (files missing or unreadable) changes nothing
    and is tried again the next day.  But a certificate that does not fit the
    key, as when only one of the two files has been replaced yet, is not an
    error but a panic: the task dies, and whatever the files hold on later days
    the endpoint keeps the old configuration for good. *)
Theorem reload_spec config before w after current :
  Forall (λ w, panics config w = false) before →
  reload config before current = (true, latest config before current) ∧
  (panics config w = true →
   reload config (before ++ w :: after) current = (false, latest config before current)).
Proof.
  intros Hf. revert current. induction Hf as [|w0 before Hw0 _ IH]; intros current; cbn [app reload].
  - split; [done|]. unfold panics. destruct (load_quinn_server_config w config); done.
  - rewrite latest_cons. unfold panics, loaded in *.
    destruct (load_quinn_server_config w0 config) as [c|e|]; [| |done]; apply IH.
Qed.
End pem.

(** * Incoming connections *)

(** One incoming connection: whether its handshake completes, the streams of its
    login, what binding a listener answers, whether the host has an IPv6 route,
    and the channel of the listener if it gets one. *)
Record incoming : Type := Incoming {
  in_conn : Z;
  in_handshake : bool;
  in_io : auth_io;
  in_bind : UpstreamType → SocketAddr → option SocketAddr;
  in_ipv6 : bool;
  in_sender : Z
}.

Section serve.
Context `{bc : !Bincode}.

(** The task [serve] spawns for a connection, up to the tunnel it starts, when
    nothing comes in between its steps: the receiver of an inbound listener is
    taken from the listener just bound.  [ServerSessions] has the same task step by
    step, among others. *)
Definition serve_connection (config : ServerConfig) (inc : incoming) (s : server_state) :
  option serve_action * auth_io * server_state :=
  if negb (in_handshake inc) then (None, in_io inc, s)
  else
    match authenticate_connection (in_bind inc) config (in_ipv6 inc) (in_io inc) with
    | (Err _, io) => (None, io, s)
    | (Ok (ty, timeouts), io) =>
        let s := push_connection (in_conn inc) s in
        let s := push_session (in_conn inc) ty (in_sender inc) s in
        let receiver :=
          match ty with
          | TcpIn a => (tcp_take_receiver (tcp_bind a)).1
          | UdpIn a => (udp_take_receiver (udp_bind a)).1
          | _ => true
          end in
        (if receiver then Some (serve_tunnel config ty timeouts) else None, io, s)
    end.

(** The accept loop over a sequence of incoming connections, in the order in
    which they are registered: what is served. *)
Fixpoint serve (config : ServerConfig) (incs : list incoming) (s : server_state) :
  list (Z * serve_action) * server_state :=
  match incs with
  | [] => ([], s)
  | inc :: incs' =>
      let '(action, _, s) := serve_connection config inc s in
      let (served, s) := serve config incs' s in
      (match action with Some a => [(in_conn inc, a)] | None => [] end ++ served, s)%list
  end.

(** [start_heartbeat_responder]: whether it closes the connection.  Either the
    connection closes first, or the responder ends. *)
Definition start_heartbeat_responder (closed_first : bool) (stops : list bool) (closed_after : bool) (io : hb_io) : bool :=
  if closed_first then false
  else match (server_heartbeat stops io).1 with
       | HbFailed _ => negb closed_after
       | _ => false
       end.

(** What the ten second log adds up over the connections that are not closed:
    bytes received and sent and their number ([u64] and [u32] sums). *)
Definition server_traffic (closed : Z → bool) (stats : Z → Z * Z) (s : server_state) : Z * Z * Z :=
  fold_left (λ acc c,
    if closed c then acc
    else let '(rx, tx, active) := acc in
         (wrapping_add 64 rx (stats c).1, wrapping_add 64 tx (stats c).2, wrapping_add 32 active 1))
    (sv_connections s) (0, 0, 0).

(** ** Only clients that know the password are served *)

(** What a served connection must have presented. *)
Definition authorised (config : ServerConfig) (inc : incoming) (a : serve_action) : Prop :=
  in_handshake inc = true ∧
  ∃ login r ty timeouts, recv_from false (ai_recv (in_io inc)) = (Ok (ReqLogin login), r) ∧
    li_password login = sc_password config ∧
    tunnel_matches (in_bind inc) config (li_tunnel login) ty ∧
    sc_tcp_timeout_ms config <= tcp_timeout_ms timeouts ∧ sc_udp_timeout_ms config <= udp_timeout_ms timeouts ∧
    a = serve_tunnel config ty timeouts.

End serve.

(** [bind] succeeds only with a loaded configuration and an open socket, and
    what it returns is the configured address, not the socket's. *)
Lemma bind_ok `{!Pemfile} w s addr s' :
  bind w s = Some (Ok addr, s') →
  parse_socket_addr (sc_addr (sr_config s)) = Some addr ∧
  ∃ local c, w_open_socket w addr = Some (Some local) ∧ loaded (sr_config s) w = Some c ∧
    s' = MkServer (sr_config s) (Some (ServerEndpoint local c)) (sr_state s).
Proof.
  unfold bind, loaded. destruct (parse_socket_addr _) as [a|]; [|done].
  destruct (load_quinn_server_config w (sr_config s)) as [c|e|]; [|done..].
  destruct (w_open_socket w a) as [[local|]|] eqn:Hl; [|done..]. intros [= -> <-]. split; [done|]. by exists local, c.
Qed.

(** ** Witnesses *)

(** A toy PEM file: each number is a section, negative ones are broken. *)
#[local] Instance toy_pemfile : Pemfile := {|
  pem_certs := fmap (λ b, if b <? 0 then None else Some b);
  pem_read_one bs := Ok (Pkcs8Key <$> head bs)
|}.

(** The chain fits the key when it starts with the same number. *)
Definition toy_world (cert key : list Z) : server_world :=
  ServerWorld (λ p, if decide (p = "cert") then Some cert else if decide (p = "key") then Some key else None) (Some (1, 1))
    (λ certs k, bool_decide (head certs = match k with KeyPkcs8 z => Some z | _ => None end)) true
    (λ a, Some (Some (if sa_port a =? 0 then sa_set_port a 40000 else a))).

Definition tls_server_config : ServerConfig :=
  MkServerConfig "0.0.0.0:0" "secret" "cert" "key" 30000 30000 5000 0 0 0 None None false false "" "".

Definition toy_loaded (n : Z) : QuinnServerConfig :=
  MkQuinnConfig [n] (KeyPkcs8 n) (build_quic_transport_config 30000 0 0 0).

(** Day 2 replaces the certificate only; day 3 has both files, too late. *)
Lemma reload_spec_witness :
  reload tls_server_config [toy_world [2] [2]] (toy_loaded 1) = (true, toy_loaded 2) ∧
  (panics tls_server_config (toy_world [3] [2]) = true →
   reload tls_server_config ([toy_world [2] [2]] ++ toy_world [3] [2] :: [toy_world [3] [3]]) (toy_loaded 1) = (false, toy_loaded 2)).
Proof.
  change (toy_loaded 2) with (latest tls_server_config [toy_world [2] [2]] (toy_loaded 1)).
  apply (reload_spec tls_server_config [toy_world [2] [2]] (toy_world [3] [2]) [toy_world [3] [3]] (toy_loaded 1)).
  by repeat constructor.
Defined.

(** The default address asks for any free port; [bind] returns port 0 although
    the socket has another. *)
Example bind_returns_requested_port :
  match bind (toy_world [1] [1]) (server_init tls_server_config) with
  | Some (Ok addr, s) => sa_port addr = 0 ∧ (sa_port ∘ se_local_addr <$> sr_endpoint s) = Some 40000
  | _ => False
  end.
Proof. by vm_compute. Qed.

(** One client with the password and one without. *)
Definition sample_incoming (c : Z) (login : LoginInfo) : incoming :=
  Incoming c true (login_io login) sample_bind true (c + 100).
