(* ===== verification/ServerSessions.v ===== *)
(** The tasks of [serve] ([src/src/server.rs]) side by side: the task of every
    incoming connection, the sweep of expired sessions with the tasks it spawns,
    the loops of the inbound listeners, and connections that close at any time.
    A step of a task is what it does between two acquisitions of a lock or two
    suspension points, except that the login, which touches nothing that is
    shared, is one step. *)
From stdpp Require Import gmap relations.
From S2P Require Import Prelude Io Net Target AddrText Config Message BincodeStd Servers TcpTunnel Server ServerRun.

(** * The system *)

Inductive listener : Type := LTcp (s : TcpState) | LUdp (s : UdpState).

Definition inbound (ty : TunnelType) : bool :=
  match ty with TcpIn _ | UdpIn _ => true | _ => false end.

(** The listener of an inbound tunnel when it has just been bound. *)
Definition fresh_listener (ty : TunnelType) : option listener :=
  match ty with
  | TcpIn a => Some (LTcp (tcp_bind a))
  | UdpIn a => Some (LUdp (udp_bind a))
  | _ => None
  end.

(** Where the task of a connection is. *)
Inductive serve_pc : Type :=
| PcLogin                                               (** handshake and authentication *)
| PcGranted (ty : TunnelType) (timeouts : TimeoutConfig)    (** authenticated *)
| PcRecorded (ty : TunnelType) (timeouts : TimeoutConfig)   (** in the connection table *)
| PcTaking (ty : TunnelType) (timeouts : TimeoutConfig)     (** inbound: its session in the table *)
| PcServing (ty : TunnelType) (a : serve_action)
| PcClosing (ty : TunnelType)                           (** inbound: serving is over *)
| PcEnded.

Record server_task : Type := ServerTask { tk_inc : incoming; tk_pc : serve_pc }.

(** Tasks are named by their connections, listeners by the senders of their
    channels.  [ss_quitting] are the tasks of the sweep that still have a [Quit]
    to send, [ss_swept] the senders of all sessions swept so far, [ss_sessions]
    the senders of all sessions ever recorded. *)
Record server_sys : Type := ServerSys {
  ss_tables : server_state;
  ss_tasks : gmap Z server_task;
  ss_listeners : gmap Z listener;
  ss_closed : gset Z;
  ss_quitting : list Z;
  ss_swept : list Z;
  ss_sessions : list Z
}.

Section system.
Context `{bc : !Bincode}.
Context (config : ServerConfig).

(** The listener that [authenticate_connection] binds on the way, whether or not
    its answer can be sent afterwards. *)
Definition bound_listener (inc : incoming) : option listener :=
  match recv_from false (ai_recv (in_io inc)) with
  | (Ok (ReqLogin login), r) =>
      if decide (sc_password config = li_password login) then
        match li_tunnel login with
        | NetworkBased cfg =>
            match (derive_tunnel_type (in_bind inc) cfg config (AuthIo r (ai_send (in_io inc)))).1 with
            | Ok ty => fresh_listener ty
            | Err _ => None
            end
        | ChannelBased _ => None
        end
      else None
  | _ => None
  end.

(** The next step of the task of connection [c]; [None]: it waits.  [stops] says,
    for a datagram that meets a closed connection, whether the serving loop notices
    (it does not while the stream of the flow still takes datagrams). *)
Definition server_task_step (c : Z) (stops : bool) (x : server_sys) : option server_sys :=
  t ← ss_tasks x !! c;
  let inc := tk_inc t in
  let u := in_sender inc in
  let closed := bool_decide (c ∈ ss_closed x) in
  let goto pc tables heap sessions :=
    Some (ServerSys tables (<[c := ServerTask inc pc]> (ss_tasks x)) heap (ss_closed x) (ss_quitting x)
            (ss_swept x) sessions) in
  let stay pc l := goto pc (ss_tables x) (<[u := l]> (ss_listeners x)) (ss_sessions x) in
  match tk_pc t with
  | PcLogin =>
      if negb (in_handshake inc) then goto PcEnded (ss_tables x) (ss_listeners x) (ss_sessions x)
      else
        let heap := match bound_listener inc with
                    | Some l => <[u := l]> (ss_listeners x)
                    | None => ss_listeners x
                    end in
        match (authenticate_connection (in_bind inc) config (in_ipv6 inc) (in_io inc)).1 with
        | Err _ => goto PcEnded (ss_tables x) heap (ss_sessions x)
        | Ok (ty, timeouts) => goto (PcGranted ty timeouts) (ss_tables x) heap (ss_sessions x)
        end
  | PcGranted ty timeouts =>
      goto (PcRecorded ty timeouts) (push_connection c (ss_tables x)) (ss_listeners x) (ss_sessions x)
  | PcRecorded ty timeouts =>
      if inbound ty
      then goto (PcTaking ty timeouts) (push_session c ty u (ss_tables x)) (ss_listeners x) (u :: ss_sessions x)
      else goto (PcServing ty (serve_tunnel config ty timeouts)) (ss_tables x) (ss_listeners x) (ss_sessions x)
  | PcTaking ty timeouts =>
      let next (taken : bool) := if taken then PcServing ty (serve_tunnel config ty timeouts) else PcEnded in
      match ss_listeners x !! u with
      | Some (LTcp s) => let (taken, s) := tcp_take_receiver s in stay (next taken) (LTcp s)
      | Some (LUdp s) => let (taken, s) := udp_take_receiver s in stay (next taken) (LUdp s)
      | None => None
      end
  | PcServing ty a =>
      if negb (inbound ty) then
        if closed then goto PcEnded (ss_tables x) (ss_listeners x) (ss_sessions x) else None
      else
        match ss_listeners x !! u with
        | Some (LTcp s) =>
            '(m, s) ← tcp_recv s;
            match m with
            | SRequest _ => if closed then stay (PcClosing ty) (LTcp (tcp_drop_receiver s)) else stay (PcServing ty a) (LTcp s)
            | SQuit => stay (PcClosing ty) (LTcp (tcp_drop_receiver s))
            end
        | Some (LUdp s) =>
            '(m, s) ← udp_recv s;
            match m with
            | Some (UPacket _) => stay (if closed && stops then PcClosing ty else PcServing ty a) (LUdp s)
            | Some UQuit | None => stay (PcClosing ty) (LUdp s)
            end
        | None => None
        end
  | PcClosing ty =>
      match ss_listeners x !! u with
      | Some (LTcp s) => stay PcEnded (LTcp (tcp_shutdown s))
      | Some (LUdp s) => s ← udp_shutdown s; stay PcEnded (LUdp (udp_drop_receiver s))
      | None => None
      end
  | PcEnded => None
  end.

(** The [Quit] of a swept session. *)
Definition send_quit (l : listener) : option listener :=
  match l with LTcp s => LTcp <$> tcp_send SQuit s | LUdp s => LUdp <$> udp_send UQuit s end.

(** What a listener does on its own, or with replies of its tunnel. *)
Inductive listener_moves : listener → listener → Prop :=
| LTcpMoves s ev s' : tcp_accept ev s = Some s' → listener_moves (LTcp s) (LTcp s')
| LUdpMoves s s' : udp_moves s s' → listener_moves (LUdp s) (LUdp s').

Definition set_listener (u : Z) (l : listener) (x : server_sys) : server_sys :=
  ServerSys (ss_tables x) (ss_tasks x) (<[u := l]> (ss_listeners x)) (ss_closed x) (ss_quitting x) (ss_swept x) (ss_sessions x).

Inductive server_step : server_sys → server_sys → Prop :=
| SsIncoming s ts ls cl q sw se inc :
    ts !! in_conn inc = None → (∀ c t, ts !! c = Some t → in_sender (tk_inc t) ≠ in_sender inc) →
    server_step (ServerSys s ts ls cl q sw se)
      (ServerSys s (<[in_conn inc := ServerTask inc PcLogin]> ts) ls cl q sw se)
| SsTask c stops x y : server_task_step c stops x = Some y → server_step x y
| SsClose s ts ls cl q sw se c :
    server_step (ServerSys s ts ls cl q sw se) (ServerSys s ts ls ({[c]} ∪ cl) q sw se)
| SsSweep s ts ls cl q sw se s' tq uq :
    clear_expired_sessions (λ c, bool_decide (c ∈ cl)) s = (s', (tq, uq)) →
    server_step (ServerSys s ts ls cl q sw se) (ServerSys s' ts ls cl (q ++ tq ++ uq) (sw ++ tq ++ uq) se)
| SsQuit s ts ls cl q1 u q2 sw se l l' :
    ls !! u = Some l → send_quit l = Some l' →
    server_step (ServerSys s ts ls cl (q1 ++ u :: q2) sw se) (ServerSys s ts (<[u := l']> ls) cl (q1 ++ q2) sw se)
| SsListener x u l l' :
    ss_listeners x !! u = Some l → listener_moves l l' → server_step x (set_listener u l' x).

Definition server_start : server_sys := ServerSys server_new ∅ ∅ ∅ [] [] [].
Definition server_reachable : server_sys → Prop := rtc server_step server_start.

(** * Steps of a task *)

(** Every step of a task, with what it does. *)
Inductive task_moves (c : Z) (inc : incoming) (closed : Prop) (s : server_state) (ls : gmap Z listener) (se : list Z) :
  serve_pc → serve_pc → server_state → gmap Z listener → list Z → Prop :=
| MvRefused heap :
    heap = ls ∨ (∃ l, heap = <[in_sender inc := l]> ls) →
    task_moves c inc closed s ls se PcLogin PcEnded s heap se
| MvGranted ty timeouts heap :
    authorised config inc (serve_tunnel config ty timeouts) →
    heap = match fresh_listener ty with Some l => <[in_sender inc := l]> ls | None => ls end →
    task_moves c inc closed s ls se PcLogin (PcGranted ty timeouts) s heap se
| MvRecord ty timeouts :
    task_moves c inc closed s ls se (PcGranted ty timeouts) (PcRecorded ty timeouts) (push_connection c s) ls se
| MvSession ty timeouts :
    inbound ty = true →
    task_moves c inc closed s ls se (PcRecorded ty timeouts) (PcTaking ty timeouts)
      (push_session c ty (in_sender inc) s) ls (in_sender inc :: se)
| MvOutbound ty timeouts :
    inbound ty = false →
    task_moves c inc closed s ls se (PcRecorded ty timeouts) (PcServing ty (serve_tunnel config ty timeouts)) s ls se
| MvTcpTake ty timeouts l l' taken :
    ls !! in_sender inc = Some (LTcp l) → tcp_take_receiver l = (taken, l') →
    task_moves c inc closed s ls se (PcTaking ty timeouts)
      (if taken then PcServing ty (serve_tunnel config ty timeouts) else PcEnded) s (<[in_sender inc := LTcp l']> ls) se
| MvUdpTake ty timeouts l l' taken :
    ls !! in_sender inc = Some (LUdp l) → udp_take_receiver l = (taken, l') →
    task_moves c inc closed s ls se (PcTaking ty timeouts)
      (if taken then PcServing ty (serve_tunnel config ty timeouts) else PcEnded) s (<[in_sender inc := LUdp l']> ls) se
| MvOutboundEnd ty a :
    inbound ty = false → closed → task_moves c inc closed s ls se (PcServing ty a) PcEnded s ls se
| MvTcpRequest ty a l r l' :
    inbound ty = true → ls !! in_sender inc = Some (LTcp l) → tcp_recv l = Some (SRequest r, l') →
    task_moves c inc closed s ls se (PcServing ty a) (PcServing ty a) s (<[in_sender inc := LTcp l']> ls) se
| MvTcpEnd ty a l m l' :
    inbound ty = true → ls !! in_sender inc = Some (LTcp l) → tcp_recv l = Some (m, l') →
    task_moves c inc closed s ls se (PcServing ty a) (PcClosing ty) s (<[in_sender inc := LTcp (tcp_drop_receiver l')]> ls) se
| MvUdpPacket ty a l p l' :
    inbound ty = true → ls !! in_sender inc = Some (LUdp l) → udp_recv l = Some (Some (UPacket p), l') →
    task_moves c inc closed s ls se (PcServing ty a) (PcServing ty a) s (<[in_sender inc := LUdp l']> ls) se
| MvUdpEnd ty a l m l' :
    inbound ty = true → ls !! in_sender inc = Some (LUdp l) → udp_recv l = Some (m, l') →
    task_moves c inc closed s ls se (PcServing ty a) (PcClosing ty) s (<[in_sender inc := LUdp l']> ls) se
| MvTcpShutdown ty l :
    ls !! in_sender inc = Some (LTcp l) →
    task_moves c inc closed s ls se (PcClosing ty) PcEnded s (<[in_sender inc := LTcp (tcp_shutdown l)]> ls) se
| MvUdpShutdown ty l l' :
    ls !! in_sender inc = Some (LUdp l) → udp_shutdown l = Some l' →
    task_moves c inc closed s ls se (PcClosing ty) PcEnded s (<[in_sender inc := LUdp (udp_drop_receiver l')]> ls) se.

Context `{laws : !BincodeLaws}.

(** The listener bound during a successful login is the one of its tunnel. *)
Lemma bound_listener_granted inc ty timeouts io :
  authenticate_connection (in_bind inc) config (in_ipv6 inc) (in_io inc) = (Ok (ty, timeouts), io) →
  bound_listener inc = fresh_listener ty.
Proof.
  unfold authenticate_connection, bound_listener. unfold mbind at 1, eff_bind at 1, on_recv. intros Ha.
  destruct (recv_from false (ai_recv (in_io inc))) as [[msg|] r]; [|done]. cbn in Ha.
  destruct msg as [login| | | |]; try done.
  unfold mbind at 1, eff_bind at 1, lift, check_password in Ha.
  destruct (decide (sc_password config = li_password login)); [|done].
  unfold mbind at 1, eff_bind at 1 in Ha.
  match type of Ha with match ?m with _ => _ end = _ => destruct m as [[ty'|] s2] eqn:Hty end; [|done].
  assert (ty' = ty) as ->.
  { unfold mbind, eff_bind, on_send in Ha. destruct (send_to _ _) as [[[]|] w']; cbn in Ha; [|done].
    unfold mret, eff_ret in Ha. by simplify_eq. }
  destruct (li_tunnel login) as [cfg|[]]; [by rewrite Hty|..]; unfold mret, eff_ret in Hty; by simplify_eq.
Qed.

Lemma server_task_step_moves c stops x y :
  server_task_step c stops x = Some y →
  ∃ t pc s ls se, ss_tasks x !! c = Some t ∧
    task_moves c (tk_inc t) (c ∈ ss_closed x) (ss_tables x) (ss_listeners x) (ss_sessions x) (tk_pc t) pc s ls se ∧
    y = ServerSys s (<[c := ServerTask (tk_inc t) pc]> (ss_tasks x)) ls (ss_closed x) (ss_quitting x) (ss_swept x) se.
Proof.
  unfold server_task_step. destruct (ss_tasks x !! c) as [[inc pc0]|]; [|done]. cbn [mbind option_bind tk_inc tk_pc].
  intros Hs. exists (ServerTask inc pc0).
  destruct pc0 as [|ty to|ty to|ty to|ty a|ty|]; [| | | | | |done].
  - destruct (in_handshake inc) eqn:Hh; cbn [negb] in Hs.
    2:{ injection Hs as <-. eexists _, _, _, _. split_and!; [done|apply MvRefused; by left|done]. }
    destruct (authenticate_connection _ _ _ _) as [[[ty to]|e] io] eqn:Ha; cbn [fst] in Hs; injection Hs as <-;
      eexists _, _, _, _; (split_and!; [done| |done]).
    + apply MvGranted; [|by rewrite (bound_listener_granted _ _ _ _ Ha)].
      apply authenticate_sound in Ha as (login & r & bs & Hr & Hpw & Hm & _ & Ht & Hu & _). split; [done|].
      by exists login, r, ty, to.
    + apply MvRefused. destruct (bound_listener inc) as [l|]; [right; by eexists|by left].
  - injection Hs as <-. eexists _, _, _, _. split_and!; [done|constructor|done].
  - destruct (inbound ty) eqn:Hi; injection Hs as <-; eexists _, _, _, _; (split_and!; [done|by constructor|done]).
  - destruct (ss_listeners x !! in_sender inc) as [[l|l]|] eqn:Hl; [| |done].
    + destruct (tcp_take_receiver l) as [taken l'] eqn:Ht. injection Hs as <-.
      eexists _, _, _, _. split_and!; [done|by eapply MvTcpTake|done].
    + destruct (udp_take_receiver l) as [taken l'] eqn:Ht. injection Hs as <-.
      eexists _, _, _, _. split_and!; [done|by eapply MvUdpTake|done].
  - destruct (inbound ty) eqn:Hi; cbn [negb] in Hs.
    2:{ destruct (bool_decide _) eqn:Hc; [|done]. apply bool_decide_eq_true in Hc. injection Hs as <-.
        eexists _, _, _, _. split_and!; [done|by constructor|done]. }
    destruct (ss_listeners x !! in_sender inc) as [[l|l]|] eqn:Hl; [| |done].
    + destruct (tcp_recv l) as [[m l']|] eqn:Hr; [|done]. cbn [mbind option_bind] in Hs.
      destruct m as [r|]; [destruct (bool_decide _)|]; injection Hs as <-;
        eexists _, _, _, _; (split_and!; [done| |done]); first [by eapply MvTcpEnd|by eapply MvTcpRequest].
    + destruct (udp_recv l) as [[m l']|] eqn:Hr; [|done]. cbn [mbind option_bind] in Hs.
      destruct m as [[p|]|]; [destruct (bool_decide _ && stops)|..]; injection Hs as <-;
        eexists _, _, _, _; (split_and!; [done| |done]); first [by eapply MvUdpEnd|by eapply MvUdpPacket].
  - destruct (ss_listeners x !! in_sender inc) as [[l|l]|] eqn:Hl; [| |done].
    + injection Hs as <-. eexists _, _, _, _. split_and!; [done|by apply MvTcpShutdown|done].
    + destruct (udp_shutdown l) as [l'|] eqn:Hu; [|done]. injection Hs as <-.
      eexists _, _, _, _. split_and!; [done|by eapply MvUdpShutdown|done].
Qed.

(** * Who is in the tables *)

(** The connections that came in, by name: tasks never change theirs. *)
Definition incs (ts : gmap Z server_task) : gmap Z incoming := tk_inc <$> ts.

Lemma incs_task ts c t pc : ts !! c = Some t → incs (<[c := ServerTask (tk_inc t) pc]> ts) = incs ts.
Proof. intros Hc. unfold incs. rewrite fmap_insert. apply insert_id. by rewrite lookup_fmap, Hc. Qed.

Lemma incs_lookup ts c t : ts !! c = Some t → incs ts !! c = Some (tk_inc t).
Proof. unfold incs. rewrite lookup_fmap. by intros ->. Qed.

Definition sessions (s : server_state) : list (Z * Z) := sv_tcp_sessions s ++ sv_udp_sessions s.

Lemma push_session_in c ty u s y :
  y ∈ sessions (push_session c ty u s) → y ∈ sessions s ∨ y = (c, u).
Proof.
  unfold sessions. destruct ty; simpl; rewrite ?elem_of_app, ?list_elem_of_singleton; tauto.
Qed.

Lemma push_session_connections c ty u s : sv_connections (push_session c ty u s) = sv_connections s.
Proof. by destruct ty. Qed.

(** What a task at [pc] has been granted. *)
Definition pc_authorised (inc : incoming) (pc : serve_pc) : Prop :=
  match pc with
  | PcGranted ty timeouts | PcRecorded ty timeouts | PcTaking ty timeouts =>
      authorised config inc (serve_tunnel config ty timeouts)
  | PcServing _ a => authorised config inc a
  | PcLogin | PcClosing _ | PcEnded => True
  end.

(** A task at [pc] has recorded its connection. *)
Definition pc_recorded (pc : serve_pc) : bool :=
  match pc with PcRecorded _ _ | PcTaking _ _ | PcServing _ _ | PcClosing _ => true | _ => false end.

Definition known (ts : gmap Z server_task) (c : Z) : Prop :=
  ∃ inc a, incs ts !! c = Some inc ∧ authorised config inc a.

Record tables_inv (x : server_sys) : Prop := {
  ti_auth c t : ss_tasks x !! c = Some t → pc_authorised (tk_inc t) (tk_pc t);
  ti_recorded c t : ss_tasks x !! c = Some t → pc_recorded (tk_pc t) = true →
    c ∈ sv_connections (ss_tables x) ∨ c ∈ ss_closed x;
  ti_connections c : c ∈ sv_connections (ss_tables x) → known (ss_tasks x) c;
  ti_sessions c u : (c, u) ∈ sessions (ss_tables x) →
    (c ∈ sv_connections (ss_tables x) ∨ c ∈ ss_closed x) ∧
    ∃ inc a, incs (ss_tasks x) !! c = Some inc ∧ in_sender inc = u ∧ authorised config inc a
}.

Lemma known_mono ts ts' c : (∀ c inc, incs ts !! c = Some inc → incs ts' !! c = Some inc) → known ts c → known ts' c.
Proof. intros Hm (inc & a & Hi & Ha). exists inc, a. auto. Qed.

(** Adding a task keeps the others. *)
Lemma incs_new ts inc t c i :
  ts !! in_conn inc = None → incs ts !! c = Some i → incs (<[in_conn inc := t]> ts) !! c = Some i.
Proof.
  unfold incs. intros Hn Hc. rewrite fmap_insert, lookup_insert_ne; [done|]. intros <-.
  by rewrite lookup_fmap, Hn in Hc.
Qed.

Lemma sweep_connections cl s s' tq uq c :
  clear_expired_sessions (λ c, bool_decide (c ∈ cl)) s = (s', (tq, uq)) →
  (c ∈ sv_connections s' → c ∈ sv_connections s) ∧
  (c ∈ sv_connections s ∨ c ∈ cl → c ∈ sv_connections s' ∨ c ∈ (cl : gset Z)).
Proof.
  unfold clear_expired_sessions. intros. simplify_eq/=. rewrite list_elem_of_filter, bool_decide_eq_false.
  destruct (decide (c ∈ cl)); tauto.
Qed.

Lemma sweep_sessions cl s s' tq uq y :
  clear_expired_sessions (λ c, bool_decide (c ∈ (cl : gset Z))) s = (s', (tq, uq)) →
  y ∈ sessions s' ↔ y ∈ sessions s ∧ y.1 ∉ cl.
Proof.
  unfold clear_expired_sessions, sessions. intros. simplify_eq/=.
  rewrite !elem_of_app, !list_elem_of_filter, !bool_decide_eq_false. tauto.
Qed.

Lemma tables_inv_task c stops x y :
  tables_inv x → server_task_step c stops x = Some y → tables_inv y.
Proof.
  intros [Ha Hr Hc Hs] (t & pc & s & ls & se & Ht & Hm & ->)%server_task_step_moves.
  pose proof (Ha c t Ht) as Hat. pose proof (Hr c t Ht) as Hrt.
  assert (pc_authorised (tk_inc t) pc ∧
    (pc_recorded pc = true → c ∈ sv_connections s ∨ c ∈ ss_closed x) ∧
    (∀ c', c' ∈ sv_connections s → c' ∈ sv_connections (ss_tables x) ∨
       c' = c ∧ ∃ a, authorised config (tk_inc t) a) ∧
    (∀ c', c' ∈ sv_connections (ss_tables x) → c' ∈ sv_connections s) ∧
    (∀ c' u, (c', u) ∈ sessions s → (c', u) ∈ sessions (ss_tables x) ∨
       c' = c ∧ u = in_sender (tk_inc t) ∧ (c ∈ sv_connections s ∨ c ∈ ss_closed x) ∧
       ∃ a, authorised config (tk_inc t) a)) as (H1 & H2 & H3 & H4 & H5).
  { destruct (tk_pc t); inversion Hm; subst; cbn in *; rewrite ?push_session_connections;
      try (destruct taken; cbn); split_and!; try (by auto); try (by eauto).
    - rewrite elem_of_app, list_elem_of_singleton. auto.
    - intros c'. rewrite elem_of_app, list_elem_of_singleton. intros [?| ->]; eauto.
    - intros c'. rewrite elem_of_app. auto.
    - intros c' u [?|[= -> ->]]%push_session_in; [by left|right]. split_and!; eauto. }
  split; cbn [ss_tables ss_tasks ss_closed].
  - intros c' t' [[<- <-]|[_ ?]]%lookup_insert_Some; [done|by eapply Ha].
  - intros c' t' [[<- <-]|[_ Hc']]%lookup_insert_Some Hp; [auto|]. destruct (Hr c' t' Hc' Hp); auto.
  - intros c' Hin. unfold known. rewrite (incs_task _ _ _ pc Ht). destruct (H3 c' Hin) as [?|[-> [a ?]]]; [by apply Hc|].
    exists (tk_inc t), a. split; [by apply incs_lookup|done].
  - intros c' u Hin. rewrite (incs_task _ _ _ pc Ht).
    destruct (H5 c' u Hin) as [Hold|(-> & -> & Hcn & [a ?])].
    + destruct (Hs c' u Hold) as [[?|?] ?]; auto.
    + split; [done|]. exists (tk_inc t), a. split; [by apply incs_lookup|done].
Qed.

Lemma tables_inv_step x y : server_step x y → tables_inv x → tables_inv y.
Proof.
  intros Hst Hinv. destruct Hst as [s ts ls cl q sw se inc Hn Hf|c stops x y Hs|s ts ls cl q sw se c
    |s ts ls cl q sw se s' tq uq Hsw|s ts ls cl q1 u q2 sw se l l' Hl Hq|x u l l' Hl Hm].
  - destruct Hinv as [Ha Hr Hc Hs]. split; cbn in *.
    + intros c t [[<- <-]|[_ ?]]%lookup_insert_Some; [done|eauto].
    + intros c t [[<- <-]|[_ ?]]%lookup_insert_Some; [done|eauto].
    + intros c Hin. eapply known_mono; [|by apply Hc]. intros. by apply incs_new.
    + intros c u Hin. destruct (Hs c u Hin) as [? (i & a & Hi & ?)]. split; [done|]. exists i, a.
      split; [by apply incs_new|done].
  - by eapply tables_inv_task.
  - destruct Hinv as [Ha Hr Hc Hs]. split; cbn in *; [done| |done|].
    + intros c' t Ht Hp. destruct (Hr c' t Ht Hp); [by left|right; by apply elem_of_union_r].
    + intros c' u Hin. destruct (Hs c' u Hin) as [[?|?] ?]; (split; [|done]); [by left|right; by apply elem_of_union_r].
  - destruct Hinv as [Ha Hr Hc Hs]. split; cbn in *; [done| | |].
    + intros c t Ht Hp. apply (sweep_connections _ _ _ _ _ c Hsw). by eapply Hr.
    + intros c Hin. apply Hc. by apply (sweep_connections _ _ _ _ _ c Hsw).
    + intros c u Hin. apply (sweep_sessions _ _ _ _ _ (c, u) Hsw) in Hin as [Hin _].
      destruct (Hs c u Hin) as [? ?]. split; [|done]. by apply (sweep_connections _ _ _ _ _ c Hsw).
  - by destruct Hinv.
  - by destruct Hinv.
Qed.

Lemma reachable_tables x : server_reachable x → tables_inv x.
Proof.
  unfold server_reachable. intros Hr. assert (tables_inv server_start) as H0.
  { split; cbn; [done|done| |]; [by intros c ?%elem_of_nil|by intros c u ?%elem_of_nil]. }
  revert H0. induction Hr as [|x y z Hxy _ IH]; [done|]. intros Hx. by eapply IH, tables_inv_step.
Qed.

(** C1: Nobody gets a tunnel without the password.  Whatever connections come in,
    and however the steps of their tasks interleave with each other, with
    connections that close, with sweeps and with the listeners: a connection that
    is being served completed its handshake and sent as first message a login with
    exactly the server's password; it is served the tunnel it asked for (outbound:
    the requested upstream, or the server's default if it asked for none; inbound:
    a listener bound to the requested loopback or unspecified address), with
    timeouts no shorter than the server's; and it is in the connection table,
    unless it has been closed.  The tables of connections and sessions never hold
    a connection that did not log in like that. *)
Theorem serve_only_authenticated x :
  server_reachable x →
  (∀ c t ty a, ss_tasks x !! c = Some t → tk_pc t = PcServing ty a →
     authorised config (tk_inc t) a ∧ (c ∈ sv_connections (ss_tables x) ∨ c ∈ ss_closed x)) ∧
  (∀ c, c ∈ sv_connections (ss_tables x) ∨ c ∈ (sessions (ss_tables x)).*1 →
     ∃ t a, ss_tasks x !! c = Some t ∧ authorised config (tk_inc t) a).
Proof.
  intros [Ha Hr Hc Hs]%reachable_tables.
  assert (∀ c inc a, incs (ss_tasks x) !! c = Some inc → authorised config inc a →
    ∃ t a, ss_tasks x !! c = Some t ∧ authorised config (tk_inc t) a) as Hback.
  { unfold incs. intros c inc a Hi Hau. rewrite lookup_fmap in Hi.
    destruct (ss_tasks x !! c) as [t|]; cbn in Hi; simplify_eq. by exists t, a. }
  split.
  - intros c t ty a Ht Hp. specialize (Ha c t Ht). specialize (Hr c t Ht). rewrite Hp in Ha, Hr. auto.
  - intros c [(inc & a & ? & ?)%Hc|([c' u] & -> & Hin)%list_elem_of_fmap]; [eauto|].
    destruct (Hs c' u Hin) as [_ (inc & a & ? & _ & ?)]. eauto.
Qed.

(** * Every session is swept once *)

(** A task at [pc] has recorded its session. *)
Definition pc_session (pc : serve_pc) : bool :=
  match pc with
  | PcTaking ty _ | PcServing ty _ => inbound ty
  | PcClosing _ | PcEnded => true
  | _ => false
  end.

Record sessions_inv (x : server_sys) : Prop := {
  si_unique c c' t t' : ss_tasks x !! c = Some t → ss_tasks x !! c' = Some t' →
    in_sender (tk_inc t) = in_sender (tk_inc t') → c = c';
  si_swept : ss_swept x ++ session_senders (ss_tables x) ≡ₚ ss_sessions x;
  si_nodup : NoDup (ss_sessions x);
  si_task u : u ∈ ss_sessions x →
    ∃ c t, ss_tasks x !! c = Some t ∧ in_sender (tk_inc t) = u ∧ pc_session (tk_pc t) = true
}.

Lemma push_session_senders c ty u s :
  inbound ty = true → session_senders (push_session c ty u s) ≡ₚ u :: session_senders s.
Proof.
  unfold session_senders. destruct ty; intros; simplify_eq/=; rewrite fmap_app; simpl.
  - rewrite <-app_assoc. symmetry. apply Permutation_middle.
  - rewrite app_assoc. symmetry. apply Permutation_cons_append.
Qed.

Lemma task_moves_session c inc closed s ls se pc pc' s' ls' se' :
  task_moves c inc closed s ls se pc pc' s' ls' se' →
  (pc_session pc = true → pc_session pc' = true) ∧
  (s' = s ∧ se' = se ∨
   s' = push_connection c s ∧ se' = se ∨
   ∃ ty, inbound ty = true ∧ pc_session pc = false ∧ pc_session pc' = true ∧
     s' = push_session c ty (in_sender inc) s ∧ se' = in_sender inc :: se).
Proof.
  intros Hm. destruct Hm; cbn; (split; [try done; by repeat case_match|]).
  4: { right. right. by exists ty. }
  3: { right. by left. }
  all: by left.
Qed.

Lemma sessions_inv_task c stops x y :
  sessions_inv x → server_task_step c stops x = Some y → sessions_inv y.
Proof.
  intros [Hu Hsw Hn Ht0] (t & pc & s & ls & se & Ht & Hm & ->)%server_task_step_moves.
  apply task_moves_session in Hm as [Hpc Hcases].
  assert (∀ c' t', <[c := ServerTask (tk_inc t) pc]> (ss_tasks x) !! c' = Some t' →
    ∃ t0, ss_tasks x !! c' = Some t0 ∧ tk_inc t' = tk_inc t0) as Hback.
  { intros c' t' [[<- <-]|[_ ?]]%lookup_insert_Some; eauto. }
  assert (∀ u, u ∈ ss_sessions x → ∃ c' t', <[c := ServerTask (tk_inc t) pc]> (ss_tasks x) !! c' = Some t' ∧
    in_sender (tk_inc t') = u ∧ pc_session (tk_pc t') = true) as Hkeep.
  { intros u Hin. destruct (Ht0 u Hin) as (c' & t' & Hc' & <- & Hp). destruct (decide (c' = c)) as [->|Hne].
    - rewrite Ht in Hc'. injection Hc' as <-. eexists _, _. split; [apply lookup_insert_eq|by auto].
    - exists c', t'. by rewrite lookup_insert_ne. }
  assert (∀ c1 c2 t1 t2, <[c := ServerTask (tk_inc t) pc]> (ss_tasks x) !! c1 = Some t1 →
    <[c := ServerTask (tk_inc t) pc]> (ss_tasks x) !! c2 = Some t2 →
    in_sender (tk_inc t1) = in_sender (tk_inc t2) → c1 = c2) as Huniq.
  { intros c1 c2 t1 t2 (t1' & H1 & ->)%Hback (t2' & H2 & ->)%Hback. by apply Hu. }
  destruct Hcases as [[-> ->]|[[-> ->]|(ty & Hi & Hp & Hp' & -> & ->)]]; split; cbn; try done.
  - rewrite push_session_senders by done. by rewrite <-Permutation_middle, Hsw.
  - constructor; [|done]. intros Hin. destruct (Ht0 _ Hin) as (c' & t' & Hc' & Heq & Hp0).
    assert (c' = c) as -> by (by eapply Hu). rewrite Ht in Hc'. congruence.
  - intros u [->|Hin]%elem_of_cons; [|by apply Hkeep]. eexists c, _. split; [apply lookup_insert_eq|done].
Qed.

Lemma sessions_inv_step x y : server_step x y → sessions_inv x → sessions_inv y.
Proof.
  intros Hst Hinv. destruct Hst as [s ts ls cl q sw se inc Hn Hf|c stops x y Hs|s ts ls cl q sw se c
    |s ts ls cl q sw se s' tq uq Hsw|s ts ls cl q1 u q2 sw se l l' Hl Hq|x u l l' Hl Hm].
  - destruct Hinv as [Hu Hsw Hnd Ht]. split; cbn in *; [|done|done|].
    + intros c c' t t' [[<- <-]|[? Hc]]%lookup_insert_Some [[<- <-]|[? Hc']]%lookup_insert_Some; cbn; intros He.
      * done.
      * by destruct (Hf _ _ Hc').
      * by destruct (Hf _ _ Hc).
      * by eapply Hu.
    + intros u Hin. destruct (Ht u Hin) as (c & t & Hc & ? & ?). exists c, t. split; [|done].
      rewrite lookup_insert_ne; [done|]. intros <-. congruence.
  - by eapply sessions_inv_task.
  - by destruct Hinv.
  - destruct Hinv as [Hu Hswp Hnd Ht]. split; cbn in *; [done| |done|done].
    by rewrite <-app_assoc, (clear_senders _ _ _ _ _ Hsw).
  - by destruct Hinv.
  - by destruct Hinv.
Qed.

Lemma reachable_sessions x : server_reachable x → sessions_inv x.
Proof.
  unfold server_reachable. intros Hr. assert (sessions_inv server_start) as H0.
  { split; cbn; [done|done|constructor|by intros u ?%elem_of_nil]. }
  revert H0. induction Hr as [|x y z Hxy _ IH]; [done|]. intros Hx. by eapply IH, sessions_inv_step.
Qed.

(** C32: The sessions of inbound tunnels over the life of the server, under every
    interleaving of its tasks: every session ever recorded is either in the table
    or has been taken out of it by exactly one sweep, which started exactly one
    task to send its listener a [Quit] (a listener may get another one from its
    own [shutdown]); a session in the table belongs to a connection that is
    recorded too or is closed already; and a sweep takes out, and starts a
    [Quit] for, every session whose connection is closed, and no other. *)
Theorem inbound_sessions_swept_once x :
  server_reachable x →
  ss_swept x ++ session_senders (ss_tables x) ≡ₚ ss_sessions x ∧ NoDup (ss_sessions x) ∧
  (∀ c u, (c, u) ∈ sessions (ss_tables x) → c ∈ sv_connections (ss_tables x) ∨ c ∈ ss_closed x) ∧
  (∀ s' tq uq, clear_expired_sessions (λ c, bool_decide (c ∈ ss_closed x)) (ss_tables x) = (s', (tq, uq)) →
     (tq ++ uq) ++ session_senders s' ≡ₚ session_senders (ss_tables x) ∧
     ∀ c u, (c, u) ∈ sessions (ss_tables x) →
       (c ∈ ss_closed x → u ∈ tq ++ uq ∧ (u ∉ session_senders s')) ∧
       (c ∉ ss_closed x → u ∈ session_senders s' ∧ (u ∉ tq ++ uq))).
Proof.
  intros Hr. pose proof (reachable_tables x Hr) as [_ _ _ Hts].
  destruct (reachable_sessions x Hr) as [_ Hsw Hn _].
  split_and!; [done|done|intros c u Hin; by destruct (Hts c u Hin)|].
  intros s' tq uq Hcl. pose proof (clear_senders _ _ _ _ _ Hcl) as Hp. split; [done|]. intros c u Hin.
  assert (NoDup ((tq ++ uq) ++ session_senders s')) as Hn'.
  { rewrite Hp. rewrite <-Hsw in Hn. by apply list.NoDup_app in Hn as (_ & _ & ?). }
  apply list.NoDup_app in Hn' as (_ & Hdisj & _).
  assert (c ∈ ss_closed x → u ∈ tq ++ uq) as Hout.
  { intros Hc. unfold clear_expired_sessions in Hcl. simplify_eq. unfold sessions in Hin. apply elem_of_app.
    apply elem_of_app in Hin as [Hin|Hin]; [left|right]; apply list_elem_of_fmap; exists (c, u); (split; [done|]);
      apply list_elem_of_filter; (split; [by apply bool_decide_eq_true|done]). }
  assert (c ∉ ss_closed x → u ∈ session_senders s') as Hkept.
  { intros Hc. assert ((c, u) ∈ sessions s') as Hin' by (by apply (sweep_sessions _ _ _ _ _ (c, u) Hcl)).
    unfold sessions, session_senders in *. apply elem_of_app.
    apply elem_of_app in Hin' as [?|?]; [left|right]; apply list_elem_of_fmap; by exists (c, u). }
  split; intros Hc; (split; [by auto|]); [by apply Hdisj, Hout|]. intros Hq. by apply (Hdisj u Hq), Hkept.
Qed.

(** * The listener of a session *)

Definition l_receiver (l : listener) : bool := match l with LTcp s => tcp_receiver s | LUdp s => udp_receiver s end.
Definition l_alive (l : listener) : bool := match l with LTcp s => tcp_rx_alive s | LUdp s => udp_rx_alive s end.
Definition l_stopped (l : listener) : bool :=
  match l with LTcp s => match tcp_loop s with AcStopped => true | _ => false end | LUdp s => udp_stopped s end.

(** The kind of listener a tunnel has. *)
Definition l_kind (ty : TunnelType) (l : listener) : bool :=
  match ty, l with TcpIn _, LTcp _ | UdpIn _, LUdp _ => true | _, _ => false end.

(** A [Quit] is on its way to the one who has to stop: the serving function for
    TCP, the loop for UDP. *)
Definition quit_pending (l : listener) : Prop :=
  match l with
  | LTcp s => SQuit ∈ tcp_queue s
  | LUdp s => udp_stopped s = true ∨ UQuit ∈ udp_in_queue s
  end.

(** Nothing holds the loop any more. *)
Definition winding_up (l : listener) : Prop :=
  match l with
  | LTcp s => tcp_rx_alive s = false ∧ tcp_terminated s = true
  | LUdp s => quit_pending (LUdp s)
  end.

(** What neither a listener's own steps nor a [Quit] undo. *)
Record l_grows (l l' : listener) : Prop := {
  lg_kind ty : l_kind ty l' = l_kind ty l;
  lg_receiver : l_receiver l' = l_receiver l;
  lg_alive : l_alive l' = l_alive l;
  lg_pending : quit_pending l → quit_pending l';
  lg_winding : winding_up l → winding_up l'
}.

Lemma udp_iterate_grows ev s s' : udp_iterate ev s = Some s' → l_grows (LUdp s) (LUdp s').
Proof.
  unfold udp_iterate. intros H. destruct (udp_loop s) eqn:Hl, ev; try done.
  - injection H as <-. destruct (negb (udp_active s)); [by split|]. split; try done; unfold winding_up, quit_pending, udp_stopped; cbn; rewrite ?Hl; tauto.
  - injection H as <-. by split.
  - destruct (udp_in_queue s) as [|[p|] q] eqn:Hq; [done|..]; injection H as <-; [|by split; try done; left].
    assert (quit_pending (LUdp s) → UQuit ∈ q) as Hp.
    { unfold quit_pending, udp_stopped. rewrite Hl, Hq. by intros [?|[?|?]%elem_of_cons]. }
    split; try done; right; by apply Hp.
  - injection H as <-. split; try done; unfold winding_up, quit_pending, udp_stopped; cbn; auto.
  - injection H as <-. destruct (channel_send _ _ _); split; try done;
      unfold winding_up, quit_pending, udp_stopped; cbn; rewrite ?Hl; auto.
Qed.

Lemma udp_send_grows m s s' : udp_send m s = Some s' → l_grows (LUdp s) (LUdp s').
Proof.
  unfold udp_send. destruct (channel_send _ _ _) as [q| |] eqn:Hc; intros; simplify_eq; [|by split].
  apply channel_send_done in Hc as (_ & -> & _).
  split; try done; unfold winding_up, quit_pending, udp_stopped; cbn; rewrite elem_of_app; tauto.
Qed.

Lemma listener_moves_grows l l' : listener_moves l l' → l_grows l l'.
Proof.
  intros [s ev s' Ht|s s' [ev s1 Hu|p s1 Hu]]; [|by eapply udp_iterate_grows|by eapply udp_send_grows].
  pose proof (tcp_accept_frame _ _ _ Ht) as (H1 & H2 & H3 & _).
  assert (tcp_terminated s' = tcp_terminated s ∧ (SQuit ∈ tcp_queue s → SQuit ∈ tcp_queue s')) as [H4 H5].
  { unfold tcp_accept in Ht. destruct (tcp_loop s) as [|m|], ev as [[st|]|]; try done.
    - injection Ht as <-. by destruct (tcp_terminated s) eqn:E; [|destruct (negb (tcp_active s))].
    - by injection Ht as <-.
    - destruct (channel_send _ _ _) as [q| |] eqn:Hc; [apply channel_send_done in Hc as (_ & -> & _)|..];
        destruct m; simplify_eq; (split; [done|]); cbn; rewrite ?elem_of_app; tauto. }
  split; cbn; rewrite ?H1, ?H2, ?H4; auto.
Qed.

Lemma send_quit_grows l l' : send_quit l = Some l' → l_grows l l' ∧ (l_alive l = true → quit_pending l').
Proof.
  destruct l as [s|s]; cbn; intros Hs.
  - unfold tcp_send in Hs. destruct (channel_send _ _ _) as [q| |] eqn:Hc; simplify_eq/=.
    + apply channel_send_done in Hc as (Ha & -> & _). assert (SQuit ∈ tcp_queue s ++ [SQuit]) as Hq
        by (rewrite elem_of_app, list_elem_of_singleton; auto).
      split; [|done]. split; try done.
    + split; [by split|]. by rewrite (channel_send_closed _ _ _ Hc).
  - destruct (udp_send UQuit s) as [s'|] eqn:Hu; simplify_eq/=. split; [by eapply udp_send_grows|]. intros _.
    unfold udp_send in Hu. destruct (channel_send _ _ _) as [q| |] eqn:Hc; simplify_eq.
    + apply channel_send_done in Hc as (_ & -> & _). right. cbn. rewrite elem_of_app, list_elem_of_singleton. auto.
    + left. apply channel_send_closed in Hc. by destruct (udp_stopped s').
Qed.

(** What is known of the listener of a task at [pc]. *)
Definition listener_ok (ls : gmap Z listener) (se : list Z) (u : Z) (pc : serve_pc) : Prop :=
  match pc with
  | PcLogin => True
  | PcGranted ty _ | PcRecorded ty _ | PcTaking ty _ =>
      inbound ty = true → ∃ l, ls !! u = Some l ∧ l_kind ty l = true ∧ l_receiver l = true ∧ l_alive l = true
  | PcServing ty _ => inbound ty = true → ∃ l, ls !! u = Some l ∧ l_kind ty l = true ∧ l_alive l = true
  | PcClosing ty => ∃ l, ls !! u = Some l ∧ match l with LTcp s => tcp_rx_alive s = false | LUdp _ => True end
  | PcEnded => u ∈ se → ∃ l, ls !! u = Some l ∧ winding_up l
  end.

Definition waits_for_quit (pc : serve_pc) : bool :=
  match pc with PcTaking ty _ | PcServing ty _ => inbound ty | _ => false end.

Definition listeners_inv (x : server_sys) : Prop :=
  ∀ c t, ss_tasks x !! c = Some t →
    listener_ok (ss_listeners x) (ss_sessions x) (in_sender (tk_inc t)) (tk_pc t) ∧
    (waits_for_quit (tk_pc t) = true → in_sender (tk_inc t) ∈ ss_swept x →
     in_sender (tk_inc t) ∈ ss_quitting x ∨
     ∃ l, ss_listeners x !! in_sender (tk_inc t) = Some l ∧ quit_pending l).

Lemma listener_ok_grows ls se u pc v l l' :
  ls !! v = Some l → l_grows l l' → listener_ok ls se u pc → listener_ok (<[v := l']> ls) se u pc.
Proof.
  intros Hv [Hk Hr Ha Hp Hw] Hok. destruct (decide (v = u)) as [->|Hne].
  - unfold listener_ok in *. rewrite lookup_insert_eq. rewrite Hv in Hok.
    destruct pc as [|ty ?|ty ?|ty ?|ty ?|ty|]; [done|..];
      try (intros Hi; destruct (Hok Hi) as (l0 & [= <-] & H); exists l'; split; [done|]).
    1-4: by rewrite Hk, ?Hr, ?Ha.
    + destruct Hok as (l0 & [= <-] & H). exists l'. split; [done|].
      destruct l, l'; try done; [|by specialize (Hk (TcpIn (SockV4 0 0)))]. cbn in Ha. by rewrite Ha.
    + auto.
  - unfold listener_ok in *. rewrite lookup_insert_ne by done. done.
Qed.

Lemma pending_grows (ls : gmap Z listener) u v l l' :
  ls !! v = Some l → l_grows l l' → (∃ k, ls !! u = Some k ∧ quit_pending k) →
  ∃ k, <[v := l']> ls !! u = Some k ∧ quit_pending k.
Proof.
  intros Hv [_ _ _ Hp _] (k & Hk & Hq). destruct (decide (v = u)) as [->|Hne].
  - rewrite Hv in Hk. simplify_eq. exists l'. rewrite lookup_insert_eq. auto.
  - exists k. by rewrite lookup_insert_ne.
Qed.

(** A task changes no listener but its own. *)
Lemma task_moves_other c inc closed s ls se pc pc' s' ls' se' u :
  task_moves c inc closed s ls se pc pc' s' ls' se' → u ≠ in_sender inc →
  ls' !! u = ls !! u ∧ (u ∈ se' ↔ u ∈ se).
Proof.
  intros Hm Hne.
  destruct Hm as [heap [->|[l ->]]|ty to heap _ ->| | | | | | | | | | | |]; rewrite ?elem_of_cons, ?lookup_insert_ne by done; try done.
  - destruct (fresh_listener ty); by rewrite ?lookup_insert_ne by done.
  - split; [done|]. split; [|by right]. by intros [?|?].
Qed.

Lemma tcp_recv_queue s m s' : tcp_recv s = Some (m, s') →
  tcp_queue s = m :: tcp_queue s' ∧ tcp_rx_alive s' = tcp_rx_alive s.
Proof. unfold tcp_recv. destruct (tcp_queue s); intros; by simplify_eq. Qed.

Lemma udp_recv_frame s m s' : udp_recv s = Some (m, s') →
  udp_rx_alive s' = udp_rx_alive s ∧ udp_stopped s' = udp_stopped s ∧ udp_in_queue s' = udp_in_queue s.
Proof. unfold udp_recv. destruct (udp_out_queue s); [destruct (udp_stopped s) eqn:E|]; intros; by simplify_eq. Qed.

(** The task's own listener. *)
Lemma task_moves_own c inc closed s ls se pc pc' s' ls' se' :
  task_moves c inc closed s ls se pc pc' s' ls' se' →
  (pc_session pc = false → in_sender inc ∉ se) →
  listener_ok ls se (in_sender inc) pc →
  listener_ok ls' se' (in_sender inc) pc' ∧
  (waits_for_quit pc' = true →
   (pc_session pc = false ∧ (in_sender inc ∉ se)) ∨
   waits_for_quit pc = true ∧
   ((∃ l, ls !! in_sender inc = Some l ∧ quit_pending l) → ∃ l, ls' !! in_sender inc = Some l ∧ quit_pending l)).
Proof.
  intros Hm Hnew Hok.
  destruct Hm as [heap _|ty to heap _ ->|ty to|ty to Hi|ty to Hi|ty to l l' taken Hl Ht|ty to l l' taken Hl Ht|ty a Hi _
    |ty a l r l' Hi Hl Hr|ty a l m l' Hi Hl Hr|ty a l p l' Hi Hl Hr|ty a l m l' Hi Hl Hr|ty l Hl|ty l l' Hl Hr];
    cbn [listener_ok waits_for_quit pc_session] in *.
  - split; [|done]. intros Hin. by destruct (Hnew eq_refl).
  - split; [|done]. destruct ty; try done; intros _; eexists; cbn; rewrite lookup_insert_eq; done.
  - by split.
  - split; [done|]. intros _. left. split; [done|]. by apply Hnew.
  - split; [|intros; congruence]. intros. congruence.
  - destruct (inbound ty) eqn:Hi.
    2:{ destruct taken; cbn; rewrite ?Hi; (split; [|done]); [done|]. intros Hin. by destruct (Hnew eq_refl). }
    destruct (Hok eq_refl) as (l0 & Hl0 & Hk & Hr & Ha). rewrite Hl in Hl0. simplify_eq. cbn in Hr, Ha.
    unfold tcp_take_receiver in Ht. rewrite Hr in Ht. simplify_eq. cbn. rewrite Hi, lookup_insert_eq. split.
    + intros _. by eexists.
    + intros _. right. split; [done|]. intros (l0 & Hl0 & Hq). rewrite Hl in Hl0. simplify_eq. by eexists.
  - destruct (inbound ty) eqn:Hi.
    2:{ destruct taken; cbn; rewrite ?Hi; (split; [|done]); [done|]. intros Hin. by destruct (Hnew eq_refl). }
    destruct (Hok eq_refl) as (l0 & Hl0 & Hk & Hr & Ha). rewrite Hl in Hl0. simplify_eq. cbn in Hr, Ha.
    unfold udp_take_receiver in Ht. rewrite Hr in Ht. simplify_eq. cbn. rewrite Hi, lookup_insert_eq. split.
    + intros _. by eexists.
    + intros _. right. split; [done|]. intros (l0 & Hl0 & Hq). rewrite Hl in Hl0. simplify_eq. by eexists.
  - split; [|done]. intros Hin. by destruct (Hnew Hi).
  - destruct (Hok Hi) as (l0 & Hl0 & Hk & Ha). rewrite Hl in Hl0. simplify_eq.
    apply tcp_recv_queue in Hr as [Hq Ha']. rewrite lookup_insert_eq. split.
    + intros _. eexists. split; [done|]. split; [done|]. cbn. by rewrite Ha'.
    + intros _. right. split; [done|]. intros (l0 & Hl0 & Hp). rewrite Hl in Hl0. simplify_eq. eexists. split; [done|].
      cbn in Hp |- *. rewrite Hq in Hp. by apply elem_of_cons in Hp as [?|?].
  - split; [|done]. eexists. by rewrite lookup_insert_eq.
  - destruct (Hok Hi) as (l0 & Hl0 & Hk & Ha). rewrite Hl in Hl0. simplify_eq.
    apply udp_recv_frame in Hr as (Ha' & Hs & Hq). rewrite lookup_insert_eq. split.
    + intros _. eexists. split; [done|]. split; [done|]. cbn. by rewrite Ha'.
    + intros _. right. split; [done|]. intros (l0 & Hl0 & Hp). rewrite Hl in Hl0. simplify_eq. eexists. split; [done|].
      cbn in Hp |- *. by rewrite Hs, Hq.
  - split; [|done]. eexists. by rewrite lookup_insert_eq.
  - split; [|done]. intros _. destruct Hok as (l0 & Hl0 & Ha). rewrite Hl in Hl0. simplify_eq.
    eexists. rewrite lookup_insert_eq. by split.
  - split; [|done]. intros _. eexists. rewrite lookup_insert_eq. split; [done|].
    unfold udp_shutdown in Hr. destruct (send_quit_grows (LUdp l) (LUdp l')) as [_ Hq]; [cbn; by rewrite Hr|].
    unfold udp_send in Hr. destruct (channel_send _ _ _) as [q| |] eqn:Hc; simplify_eq.
    + apply channel_send_done in Hc as (_ & -> & _). right. cbn. rewrite elem_of_app, list_elem_of_singleton. auto.
    + left. apply channel_send_closed in Hc. cbn. unfold udp_stopped in *. cbn. by destruct (udp_loop l').
Qed.

Lemma new_session x c t :
  sessions_inv x → ss_tasks x !! c = Some t → pc_session (tk_pc t) = false → in_sender (tk_inc t) ∉ ss_sessions x.
Proof.
  intros [Hu _ _ Ht] Hc Hp Hin. destruct (Ht _ Hin) as (c' & t' & Hc' & Heq & Hp').
  assert (c' = c) as -> by (by eapply Hu). congruence.
Qed.

Lemma listeners_inv_step x y : server_step x y → sessions_inv x → listeners_inv x → listeners_inv y.
Proof.
  intros Hst Hsi Hinv. destruct Hst as [s ts ls cl q sw se inc Hn Hf|c stops x y Hs|s ts ls cl q sw se c
    |s ts ls cl q sw se s' tq uq Hsw|s ts ls cl q1 u q2 sw se l l' Hl Hq|x u l l' Hl Hm].
  - intros c t Hc. cbn in Hc. apply lookup_insert_Some in Hc as [[<- <-]|[_ Hc]]; [done|exact (Hinv c t Hc)].
  - apply server_task_step_moves in Hs as (t & pc & s & ls & se & Ht & Hm & ->).
    intros c' t' Hc0. cbn [ss_tasks] in Hc0. apply lookup_insert_Some in Hc0 as [[<- <-]|[Hne Hc']]; cbn [ss_tasks ss_listeners ss_sessions ss_swept ss_quitting tk_inc tk_pc].
    + destruct (Hinv c t Ht) as [Hok Hq].
      destruct (task_moves_own _ _ _ _ _ _ _ _ _ _ _ Hm (new_session x c t Hsi Ht) Hok) as [? Hw].
      split; [done|]. intros Hwait Hswept. destruct (Hw Hwait) as [[_ Hnin]|[Hw' Hmono]].
      * exfalso. apply Hnin. rewrite <-(si_swept x Hsi). apply elem_of_app. by left.
      * destruct (Hq Hw' Hswept); auto.
    + assert (in_sender (tk_inc t') ≠ in_sender (tk_inc t)) as Hu.
      { intros E. apply Hne. symmetry. by eapply (si_unique x Hsi). }
      destruct (task_moves_other _ _ _ _ _ _ _ _ _ _ _ _ Hm Hu) as [Hl Hse]. destruct (Hinv c' t' Hc') as [Hok Hq].
      rewrite Hl. split; [|done]. unfold listener_ok in *. rewrite Hl. destruct (tk_pc t'); try done. by rewrite Hse.
  - exact Hinv.
  - intros c t Hc. destruct (Hinv c t Hc) as [Hok Hq]. split; [done|]. cbn in *. intros Hw.
    rewrite !elem_of_app. intros [Hin|Hin]; [|by auto]. destruct (Hq Hw Hin) as [?|?]; auto.
  - destruct (send_quit_grows l l' Hq) as [Hg Hpend]. intros c t Hc. destruct (Hinv c t Hc) as [Hok Hqu]. cbn in *.
    split; [by eapply listener_ok_grows|]. intros Hw Hin. destruct (Hqu Hw Hin) as [Hin'|Hp].
    + destruct (decide (in_sender (tk_inc t) = u)) as [E|Hne].
      * right. exists l'. rewrite E, lookup_insert_eq. split; [done|]. apply Hpend.
        unfold waits_for_quit, listener_ok in *. rewrite E, Hl in Hok.
        destruct (tk_pc t) as [| | |ty ?|ty ?| |]; try done; destruct (Hok Hw) as (l0 & [= <-] & H); tauto.
      * left. rewrite !elem_of_app, elem_of_cons in *. tauto.
    + right. by eapply pending_grows.
  - pose proof (listener_moves_grows l l' Hm) as Hg. intros c t Hc. destruct (Hinv c t Hc) as [Hok Hqu]. cbn.
    split; [by eapply listener_ok_grows|]. intros Hw Hin. destruct (Hqu Hw Hin) as [?|Hp]; [by left|right; by eapply pending_grows].
Qed.

Lemma reachable_listeners x : server_reachable x → listeners_inv x.
Proof.
  unfold server_reachable. intros Hr. assert (sessions_inv server_start ∧ listeners_inv server_start) as H0.
  { split; [split; cbn; [done|done|constructor|by intros u ?%elem_of_nil]|done]. }
  revert H0. induction Hr as [|x y z Hxy _ IH]; [by intros [_ ?]|]. intros [Hs Hl]. apply IH.
  split; [by eapply sessions_inv_step|by eapply listeners_inv_step].
Qed.

(** * A session comes to its end *)

#[export] Instance l_grows_preorder : PreOrder l_grows.
Proof.
  split; [by split|]. intros l1 l2 l3 [K R A P W] [K' R' A' P' W'].
  split; [intros ty; by rewrite K'|congruence|congruence|auto|auto].
Qed.

Lemma rtc_moves_grows l l' : rtc listener_moves l l' → l_grows l l'.
Proof.
  induction 1 as [l|l1 l2 l3 Hm _ IH]; [reflexivity|]. etransitivity; [by apply listener_moves_grows|done].
Qed.

(** A listener whose receiver is gone stops once it is shut down: the connection
    that [shutdown] makes wakes the loop. *)
Lemma tcp_winds_up s :
  tcp_rx_alive s = false → tcp_terminated s = true → ∃ l, rtc listener_moves (LTcp s) l ∧ l_stopped l = true.
Proof.
  intros Ha Ht. destruct (tcp_loop s) eqn:Hl.
  - eexists. split; [eapply rtc_l; [|eapply rtc_l; [|apply rtc_refl]]|].
    + apply (LTcpMoves s (EvAccept (Some 0))). unfold tcp_accept. rewrite Hl, Ht. reflexivity.
    + apply (LTcpMoves _ EvSend). unfold tcp_accept. cbn. unfold channel_send. rewrite Ha. reflexivity.
    + done.
  - eexists. split; [eapply rtc_l; [|apply rtc_refl]|].
    + apply (LTcpMoves s EvSend). unfold tcp_accept. rewrite Hl. unfold channel_send. rewrite Ha. reflexivity.
    + done.
  - exists (LTcp s). split; [apply rtc_refl|]. cbn. by rewrite Hl.
Qed.

(** The loop of a UDP listener works off what is queued for it. *)
Definition udp_idle (s : UdpState) : Prop := udp_stopped s = true ∨ udp_loop s = UdSelecting ∧ udp_in_queue s = [].

Lemma udp_works_off s :
  udp_loop s = UdSelecting → ∃ s', rtc listener_moves (LUdp s) (LUdp s') ∧ udp_idle s'.
Proof.
  remember (udp_in_queue s) as q eqn:Hq. revert s Hq. induction q as [|m q IH]; intros s Hq Hl.
  { exists s. split; [apply rtc_refl|by right]. }
  assert (∃ s1, udp_iterate (Servers.UdpIn true) s = Some s1 ∧ udp_in_queue s1 = q ∧
    (udp_stopped s1 = true ∨ udp_loop s1 = UdSelecting)) as (s1 & H1 & Hq1 & Hs1).
  { unfold udp_iterate. rewrite Hl, <-Hq. destruct m; eexists; (split; [done|split; [done|]]); cbn; auto. }
  assert (listener_moves (LUdp s) (LUdp s1)) as Hm by (apply LUdpMoves; by eapply UdpLoop).
  destruct Hs1 as [Hs1|Hs1]; [exists s1; split; [by apply rtc_once|by left]|].
  destruct (IH s1 (eq_sym Hq1) Hs1) as (s2 & Hr & Hs2). exists s2. split; [by eapply rtc_l|done].
Qed.

Lemma udp_drains s : ∃ s', rtc listener_moves (LUdp s) (LUdp s') ∧ udp_idle s'.
Proof.
  destruct (udp_loop s) eqn:Hl; [by apply udp_works_off| |].
  - assert (∃ s1, udp_iterate UdpForward s = Some s1 ∧ (udp_stopped s1 = true ∨ udp_loop s1 = UdSelecting)) as (s1 & H1 & Hs1).
    { unfold udp_iterate. rewrite Hl. eexists. split; [done|]. destruct (channel_send _ _ _); cbn; auto. }
    assert (listener_moves (LUdp s) (LUdp s1)) as Hm by (apply LUdpMoves; by eapply UdpLoop).
    destruct Hs1 as [Hs1|Hs1]; [exists s1; split; [by apply rtc_once|by left]|].
    destruct (udp_works_off s1 Hs1) as (s2 & Hr & Hs2). exists s2. split; [by eapply rtc_l|done].
  - exists s. split; [apply rtc_refl|]. left. unfold udp_stopped. by rewrite Hl.
Qed.

Lemma udp_winds_up s :
  quit_pending (LUdp s) → ∃ s', rtc listener_moves (LUdp s) (LUdp s') ∧ udp_stopped s' = true.
Proof.
  intros Hp. destruct (udp_drains s) as (s' & Hr & [Hs|[Hs Hq]]); [by exists s'|]. exists s'. split; [done|].
  destruct (lg_pending _ _ (rtc_moves_grows _ _ Hr) Hp) as [?|Hin]; [done|]. rewrite Hq in Hin. by apply elem_of_nil in Hin.
Qed.

(** The listener's steps are steps of the server. *)
Lemma set_listener_steps x u l l' :
  ss_listeners x !! u = Some l → rtc listener_moves l l' → rtc server_step x (set_listener u l' x).
Proof.
  intros Hl Hr. revert x Hl. induction Hr as [l|l1 l2 l3 Hm _ IH]; intros x Hl.
  - destruct x. unfold set_listener. cbn in *. rewrite insert_id by done. apply rtc_refl.
  - eapply rtc_l; [by eapply SsListener|].
    assert (set_listener u l3 x = set_listener u l3 (set_listener u l2 x)) as ->
      by (unfold set_listener; cbn; by rewrite insert_insert_eq).
    apply IH. cbn. apply lookup_insert_eq.
Qed.

(** The task of a session whose connection is closed is at [pc]. *)
Definition session_at (c : Z) (inc : incoming) (pc : serve_pc) (x : server_sys) : Prop :=
  server_reachable x ∧ ss_tasks x !! c = Some (ServerTask inc pc) ∧ c ∈ ss_closed x ∧ in_sender inc ∈ ss_sessions x.

Lemma session_at_task c inc pc stops pc' ls x :
  session_at c inc pc x →
  server_task_step c stops x =
    Some (ServerSys (ss_tables x) (<[c := ServerTask inc pc']> (ss_tasks x)) ls (ss_closed x) (ss_quitting x) (ss_swept x)
            (ss_sessions x)) →
  ∃ y, rtc server_step x y ∧ session_at c inc pc' y ∧ ss_listeners y = ls.
Proof.
  intros (Hr & Hc & Hcl & Hin) Hs. eexists. split; [by eapply rtc_once, SsTask|]. split; [|done].
  split_and!; [by eapply rtc_r; [exact Hr|eapply SsTask]|by apply lookup_insert_eq|done|done].
Qed.

Lemma session_at_listener c inc pc l l' x :
  session_at c inc pc x → ss_listeners x !! in_sender inc = Some l → rtc listener_moves l l' →
  ∃ y, rtc server_step x y ∧ session_at c inc pc y ∧ ss_listeners y !! in_sender inc = Some l' ∧
    ss_quitting y = ss_quitting x.
Proof.
  intros (Hr & Hc & Hcl & Hin) Hl Hm. pose proof (set_listener_steps x _ _ _ Hl Hm) as Hst. eexists. split; [exact Hst|].
  split; [|split; [by apply lookup_insert_eq|done]]. split_and!; [unfold server_reachable in *; by etransitivity|done..].
Qed.

(** The sweep takes the session out. *)
Lemma session_at_sweep c inc pc x :
  session_at c inc pc x →
  ∃ y, rtc server_step x y ∧ session_at c inc pc y ∧ ss_listeners y = ss_listeners x ∧
    (in_sender inc ∉ session_senders (ss_tables y)) ∧ in_sender inc ∈ ss_swept y.
Proof.
  intros (Hr & Hc & Hcl & Hin).
  destruct (clear_expired_sessions (λ c, bool_decide (c ∈ ss_closed x)) (ss_tables x)) as [s' [tq uq]] eqn:Hsw.
  set (y := ServerSys s' (ss_tasks x) (ss_listeners x) (ss_closed x) (ss_quitting x ++ tq ++ uq) (ss_swept x ++ tq ++ uq)
    (ss_sessions x)).
  assert (server_step x y) as Hst by (destruct x; by apply SsSweep).
  assert (server_reachable y) as Hry by (by eapply rtc_r; [exact Hr|]).
  assert (in_sender inc ∉ session_senders s') as Hout.
  { unfold session_senders. intros Hu. assert (∃ c', (c', in_sender inc) ∈ sessions s') as [c' Hc'].
    { unfold sessions. apply elem_of_app in Hu as [Hu|Hu]; apply list_elem_of_fmap in Hu as ([c' u] & E & Hu); cbn in E;
        exists c'; apply elem_of_app; subst; auto. }
    apply (sweep_sessions _ _ _ _ _ (c', in_sender inc) Hsw) in Hc' as [Hold Hn]. cbn in Hn.
    destruct (ti_sessions x (reachable_tables x Hr) c' (in_sender inc) Hold) as [_ (i & a & Hi & E & _)].
    unfold incs in Hi. rewrite lookup_fmap in Hi. destruct (ss_tasks x !! c') as [t'|] eqn:Ht'; cbn in Hi; simplify_eq.
    assert (c' = c) as -> by (by eapply (si_unique x (reachable_sessions x Hr))). done. }
  exists y. split; [by apply rtc_once|]. split; [by split_and!|]. split; [done|]. split; [done|].
  pose proof (si_swept y (reachable_sessions y Hry)) as Hp. assert (in_sender inc ∈ ss_sessions y) as Hin' by done.
  rewrite <-Hp, elem_of_app in Hin'. by destruct Hin'.
Qed.

Lemma session_at_inbound c inc ty a x : session_at c inc (PcServing ty a) x → inbound ty = true.
Proof.
  intros (Hr & Hc & _ & Hin). destruct (inbound ty) eqn:Hi; [done|].
  by destruct (new_session x c _ (reachable_sessions x Hr) Hc Hi).
Qed.

(** Serving ends: TCP. *)
Lemma tcp_serving_ends c inc ty a s x :
  session_at c inc (PcServing ty a) x → ss_listeners x !! in_sender inc = Some (LTcp s) → tcp_queue s ≠ [] →
  ∃ y, rtc server_step x y ∧ session_at c inc (PcClosing ty) y.
Proof.
  intros Hat Hl Hq. destruct (tcp_queue s) as [|m q] eqn:Hqu; [done|].
  pose proof (session_at_inbound _ _ _ _ _ Hat) as Hi.
  destruct (session_at_task c inc (PcServing ty a) true (PcClosing ty)
    (<[in_sender inc := LTcp (tcp_drop_receiver (tcp_goto (tcp_loop s) q s))]> (ss_listeners x)) x Hat) as (y & Hy & Haty & _); [|eauto].
  unfold server_task_step. destruct Hat as (_ & Hc & Hcl & _). rewrite Hc. cbn [mbind option_bind tk_inc tk_pc].
  rewrite Hi. cbn [negb]. rewrite Hl. unfold tcp_recv. rewrite Hqu, bool_decide_true by done. by destruct m.
Qed.

(** Serving ends: UDP, once the loop of the listener is over. *)
Lemma udp_serving_ends c inc ty a s x :
  session_at c inc (PcServing ty a) x → ss_listeners x !! in_sender inc = Some (LUdp s) → udp_stopped s = true →
  ∃ y, rtc server_step x y ∧ session_at c inc (PcClosing ty) y.
Proof.
  intros Hat Hl Hs. remember (udp_out_queue s) as q eqn:Hq. revert s x Hat Hl Hs Hq.
  induction q as [|m q IH]; intros s x Hat Hl Hs Hq; pose proof (session_at_inbound _ _ _ _ _ Hat) as Hi.
  - destruct (session_at_task c inc (PcServing ty a) false (PcClosing ty)
      (<[in_sender inc := LUdp s]> (ss_listeners x)) x Hat) as (y & Hy & Haty & _); [|eauto].
    unfold server_task_step. destruct Hat as (_ & Hc & _). rewrite Hc. cbn [mbind option_bind tk_inc tk_pc].
    rewrite Hi. cbn [negb]. rewrite Hl. unfold udp_recv. by rewrite <-Hq, Hs.
  - set (s' := udp_goto (udp_loop s) q (udp_in_queue s) s).
    set (pc' := match m with UPacket _ => PcServing ty a | UQuit => PcClosing ty end).
    destruct (session_at_task c inc (PcServing ty a) false pc'
      (<[in_sender inc := LUdp s']> (ss_listeners x)) x Hat) as (y & Hy & Haty & Hly).
    { unfold server_task_step. destruct Hat as (_ & Hc & _). rewrite Hc. cbn [mbind option_bind tk_inc tk_pc].
      rewrite Hi. cbn [negb]. rewrite Hl. unfold udp_recv. rewrite <-Hq. cbn [mbind option_bind].
      unfold pc'. destruct m; [by rewrite andb_false_r|done]. }
    destruct m as [p|]; [|eauto].
    destruct (IH s' y Haty) as (z & Hz & ?); [by rewrite Hly, lookup_insert_eq|done|done|].
    exists z. split; [by etransitivity|done].
Qed.

(** Whoever has to notice gets the [Quit]. *)
Lemma session_gets_quit c inc ty a x :
  session_at c inc (PcServing ty a) x →
  ∃ y l, rtc server_step x y ∧ session_at c inc (PcServing ty a) y ∧ ss_listeners y !! in_sender inc = Some l ∧
    (quit_pending l ∨ ∃ s, l = LTcp s ∧ tcp_queue s ≠ []).
Proof.
  intros Hat. destruct (session_at_sweep _ _ _ _ Hat) as (x1 & Hx1 & Hat1 & _ & _ & Hsw).
  pose proof (session_at_inbound _ _ _ _ _ Hat1) as Hi. pose proof Hat1 as (Hr1 & Hc1 & _).
  destruct (reachable_listeners x1 Hr1 c _ Hc1) as [Hok Hq]. cbn in Hok, Hq.
  destruct (Hok Hi) as (l & Hl & _ & Ha). destruct (Hq Hi Hsw) as [Hin|(l' & Hl' & Hp)]; [|exists x1, l'; auto].
  (* the sweep's task has not sent its message yet *)
  assert (∃ x2 l2, rtc server_step x1 x2 ∧ session_at c inc (PcServing ty a) x2 ∧ ss_listeners x2 !! in_sender inc = Some l2 ∧
    in_sender inc ∈ ss_quitting x2 ∧ (is_Some (send_quit l2) ∨ ∃ s, l2 = LTcp s ∧ tcp_queue s ≠ [])) as (x2 & l2 & Hx2 & Hat2 & Hl2 & Hq2 & Hcase).
  { destruct l as [s|s].
    - exists x1, (LTcp s). split_and!; [apply rtc_refl|done|done|done|].
      destruct (tcp_queue s) eqn:Hqu; [left|right; eexists; split; [done|congruence]].
      cbn. unfold tcp_send, channel_send. cbn in Ha. rewrite Ha, Hqu. by eexists.
    - destruct (udp_drains s) as (s' & Hm & Hs'). destruct (session_at_listener _ _ _ _ _ _ Hat1 Hl Hm) as (x2 & Hx2 & Hat2 & Hl2 & Hq2).
      exists x2, (LUdp s'). split_and!; [done|done|done|by rewrite Hq2|]. left. cbn. unfold udp_send, channel_send.
      destruct Hs' as [->|[Hs' Hq']]; [by eexists|]. unfold udp_stopped. rewrite Hs', Hq'. by eexists. }
  destruct Hcase as [[l3 Hs]|?]; [|exists x2, l2; split_and!; [by etransitivity|done|done|by right]].
  destruct (send_quit_grows _ _ Hs) as [_ Hpend].
  apply list_elem_of_split in Hq2 as (q1 & q2 & Hqs).
  set (x3 := ServerSys (ss_tables x2) (ss_tasks x2) (<[in_sender inc := l3]> (ss_listeners x2)) (ss_closed x2) (q1 ++ q2)
    (ss_swept x2) (ss_sessions x2)).
  assert (server_step x2 x3) as Hst by (destruct x2; cbn in *; subst; by eapply SsQuit).
  exists x3, l3. split; [by etransitivity; [exact Hx1|etransitivity; [exact Hx2|by apply rtc_once]]|].
  split; [destruct Hat2 as (Hr2 & ? & ? & ?); split_and!; [by eapply rtc_r; [exact Hr2|]|done..]|].
  split; [apply lookup_insert_eq|]. left. apply Hpend.
  destruct Hat2 as (Hr2 & Hc2 & _). destruct (reachable_listeners x2 Hr2 c _ Hc2) as [Hok2 _].
  destruct (Hok2 Hi) as (l0 & Hl0 & _ & Ha0). cbn in Hl0. congruence.
Qed.

Lemma taking_ends c inc ty to x :
  session_at c inc (PcTaking ty to) x →
  ∃ y, rtc server_step x y ∧ session_at c inc (PcServing ty (serve_tunnel config ty to)) y.
Proof.
  intros Hat. pose proof Hat as (Hr & Hc & _ & Hin).
  assert (inbound ty = true) as Hi.
  { destruct (inbound ty) eqn:Hi; [done|]. by destruct (new_session x c _ (reachable_sessions x Hr) Hc Hi). }
  destruct (reachable_listeners x Hr c _ Hc) as [Hok _]. destruct (Hok Hi) as (l & Hl & _ & Hrx & _). cbn in Hl.
  destruct l as [s|s]; cbn in Hrx.
  - destruct (session_at_task c inc _ false (PcServing ty (serve_tunnel config ty to))
      (<[in_sender inc := LTcp (tcp_take_receiver s).2]> (ss_listeners x)) x Hat) as (y & Hy & ? & _); [|eauto].
    unfold server_task_step. rewrite Hc. cbn [mbind option_bind tk_inc tk_pc]. rewrite Hl.
    unfold tcp_take_receiver. by rewrite Hrx.
  - destruct (session_at_task c inc _ false (PcServing ty (serve_tunnel config ty to))
      (<[in_sender inc := LUdp (udp_take_receiver s).2]> (ss_listeners x)) x Hat) as (y & Hy & ? & _); [|eauto].
    unfold server_task_step. rewrite Hc. cbn [mbind option_bind tk_inc tk_pc]. rewrite Hl.
    unfold udp_take_receiver. by rewrite Hrx.
Qed.

Lemma serving_ends c inc ty a x :
  session_at c inc (PcServing ty a) x → ∃ y, rtc server_step x y ∧ session_at c inc (PcClosing ty) y.
Proof.
  intros Hat. destruct (session_gets_quit _ _ _ _ _ Hat) as (x1 & l & Hx1 & Hat1 & Hl & Hcase).
  assert (∃ y, rtc server_step x1 y ∧ session_at c inc (PcClosing ty) y) as (y & Hy & ?);
    [|exists y; split; [by etransitivity|done]].
  destruct l as [s|s].
  - eapply tcp_serving_ends; [done|exact Hl|]. destruct Hcase as [Hq|(s' & [= <-] & ?)]; [|done].
    intros E. cbn in Hq. rewrite E in Hq. by apply elem_of_nil in Hq.
  - destruct Hcase as [Hq|(s' & ? & _)]; [|done]. destruct (udp_winds_up s Hq) as (s' & Hm & Hs').
    destruct (session_at_listener _ _ _ _ _ _ Hat1 Hl Hm) as (x2 & Hx2 & Hat2 & Hl2 & _).
    destruct (udp_serving_ends c inc ty a s' x2 Hat2 Hl2 Hs') as (y & Hy & ?). exists y. split; [by etransitivity|done].
Qed.

Lemma closing_ends c inc ty x :
  session_at c inc (PcClosing ty) x → ∃ y, rtc server_step x y ∧ session_at c inc PcEnded y.
Proof.
  intros Hat. pose proof Hat as (Hr & Hc & _). destruct (reachable_listeners x Hr c _ Hc) as [(l & Hl & _) _]. cbn in Hl.
  destruct l as [s|s].
  - destruct (session_at_task c inc _ false PcEnded (<[in_sender inc := LTcp (tcp_shutdown s)]> (ss_listeners x)) x Hat)
      as (y & Hy & ? & _); [|eauto]. unfold server_task_step. rewrite Hc. cbn [mbind option_bind tk_inc tk_pc]. by rewrite Hl.
  - destruct (udp_drains s) as (s' & Hm & Hs').
    destruct (session_at_listener _ _ _ _ _ _ Hat Hl Hm) as (x1 & Hx1 & Hat1 & Hl1 & _).
    assert (is_Some (udp_shutdown s')) as [s2 Hs2].
    { unfold udp_shutdown, udp_send, channel_send. destruct Hs' as [->|[Hs' Hq']]; [by eexists|].
      unfold udp_stopped. rewrite Hs', Hq'. by eexists. }
    destruct (session_at_task c inc _ false PcEnded (<[in_sender inc := LUdp (udp_drop_receiver s2)]> (ss_listeners x1)) x1 Hat1)
      as (y & Hy & ? & _); [|exists y; split; [by etransitivity|done]].
    unfold server_task_step. rewrite (proj1 (proj2 Hat1)). cbn [mbind option_bind tk_inc tk_pc]. by rewrite Hl1, Hs2.
Qed.

Lemma listener_ends c inc x :
  session_at c inc PcEnded x →
  ∃ y l, rtc server_step x y ∧ session_at c inc PcEnded y ∧ ss_listeners y !! in_sender inc = Some l ∧ l_stopped l = true.
Proof.
  intros Hat. pose proof Hat as (Hr & Hc & _ & Hin). destruct (reachable_listeners x Hr c _ Hc) as [Hok _].
  destruct (Hok Hin) as (l & Hl & Hw). cbn in Hl.
  assert (∃ l', rtc listener_moves l l' ∧ l_stopped l' = true) as (l' & Hm & Hs).
  { destruct l as [s|s]; [by apply tcp_winds_up; apply Hw|]. destruct (udp_winds_up s Hw) as (s' & ? & ?). by exists (LUdp s'). }
  destruct (session_at_listener _ _ _ _ _ _ Hat Hl Hm) as (y & Hy & ? & ? & _). by exists y, l'.
Qed.


(** * A listener nobody stops *)

(** Only swept sessions have a [Quit] to send. *)
Lemma reachable_quitting x : server_reachable x → ∀ u, u ∈ ss_quitting x → u ∈ ss_swept x.
Proof.
  unfold server_reachable. intros Hr. assert (∀ u, u ∈ ss_quitting server_start → u ∈ ss_swept server_start) as H0 by done.
  revert H0. induction Hr as [|x y z Hxy _ IH]; [done|]. intros Hx. apply IH. clear IH.
  destruct Hxy as [|c stops x y Hs| |s ts ls cl q sw se s' tq uq _|s ts ls cl q1 u q2 sw se l l' _ _|]; try done; cbn in *.
  - by apply server_task_step_moves in Hs as (t & pc & s & ls & se & _ & _ & ->).
  - intros u. rewrite !elem_of_app. intros [?|?]; auto.
  - intros v Hv. apply Hx. rewrite elem_of_app, elem_of_cons in *. tauto.
Qed.

(** If the answer to a login cannot be sent after an inbound listener was bound
    for it, the task ends, but the listener does not: it has no session, no
    connection takes its receiver or shuts it down, and whatever the server does
    from then on, it stays as it is: it accepts connections, and drops them. *)
Theorem unanswered_login_keeps_listener x c inc a y :
  server_reachable x → ss_tasks x !! c = Some (ServerTask inc PcEnded) → in_sender inc ∉ ss_sessions x →
  ss_listeners x !! in_sender inc = Some (LTcp (tcp_bind a)) → rtc server_step x y →
  ss_listeners y !! in_sender inc = Some (LTcp (tcp_bind a)).
Proof.
  intros Hr Hc Hse Hl Hxy. induction Hxy as [|x y z Hst _ IH]; [done|].
  assert (server_reachable y) as Hry by (by eapply rtc_r). pose proof (reachable_sessions x Hr) as Hsi.
  assert (in_sender inc ∉ ss_quitting x) as Hq.
  { intros Hin. apply (reachable_quitting x Hr) in Hin. apply Hse. rewrite <-(si_swept x Hsi). apply elem_of_app. by left. }
  assert (ss_tasks y !! c = Some (ServerTask inc PcEnded) ∧ (in_sender inc ∉ ss_sessions y) ∧
    ss_listeners y !! in_sender inc = Some (LTcp (tcp_bind a))) as (? & ? & ?); [|by apply IH].
  destruct Hst as [s ts ls cl q sw se i Hn Hf|c' stops x y Hs|s ts ls cl q sw se c'
    |s ts ls cl q sw se s' tq uq Hsw|s ts ls cl q1 u q2 sw se l l' Hu _|x u l l' Hu Hm]; cbn in *; try done.
  - split; [|done]. rewrite lookup_insert_ne; [done|]. intros <-. congruence.
  - apply server_task_step_moves in Hs as (t & pc & s & ls & se & Ht & Hm & ->).
    assert (c' ≠ c) as Hne by (intros ->; rewrite Hc in Ht; injection Ht as <-; inversion Hm).
    assert (in_sender inc ≠ in_sender (tk_inc t)) as Hu.
    { intros E. apply Hne. by eapply (si_unique x Hsi c' c t (ServerTask inc PcEnded)). }
    destruct (task_moves_other _ _ _ _ _ _ _ _ _ _ _ _ Hm Hu) as [Hl' Hse']. cbn.
    rewrite lookup_insert_ne, Hl', Hse' by done. done.
  - split; [done|]. split; [done|]. rewrite lookup_insert_ne; [done|]. intros ->. apply Hq, elem_of_app. right. apply elem_of_cons. by left.
  - split; [done|]. split; [done|]. destruct (decide (u = in_sender inc)) as [->|]; [|by rewrite lookup_insert_ne].
    rewrite lookup_insert_eq. rewrite Hl in Hu. simplify_eq. f_equal.
    inversion Hm as [s ev s' Ht|]; subst. f_equal. by destruct ev as [[st|]|]; cbn in Ht; simplify_eq.
Qed.

(** * One task on its own *)

Lemma task_rtc c stops x y z : server_task_step c stops x = Some y → rtc server_step y z → rtc server_step x z.
Proof. intros Hs Hr. eapply rtc_l; [by eapply SsTask|done]. Qed.

(** A task that nothing interrupts does what [serve_connection] says. *)
Theorem serve_connection_steps inc x :
  ss_tasks x !! in_conn inc = Some (ServerTask inc PcLogin) →
  let '(action, _, s) := serve_connection config inc (ss_tables x) in
  ∃ y, rtc server_step x y ∧ ss_tables y = s ∧
    match action with
    | Some a => ∃ ty, ss_tasks y !! in_conn inc = Some (ServerTask inc (PcServing ty a))
    | None => ss_tasks y !! in_conn inc = Some (ServerTask inc PcEnded)
    end.
Proof.
  intros Hc. unfold serve_connection. destruct (in_handshake inc) eqn:Hh; cbn [negb].
  2:{ eexists. split; [eapply (task_rtc (in_conn inc) false); [|apply rtc_refl]; unfold server_task_step; rewrite Hc; cbn; by rewrite Hh|].
      split; [done|apply lookup_insert_eq]. }
  destruct (authenticate_connection _ _ _ _) as [[[ty to]|e] io] eqn:Ha.
  2:{ eexists. split; [eapply (task_rtc (in_conn inc) false); [|apply rtc_refl];
        unfold server_task_step; rewrite Hc; cbn; rewrite Hh, Ha; reflexivity|].
      split; [done|apply lookup_insert_eq]. }
  pose proof (bound_listener_granted _ _ _ _ Ha) as Hb.
  destruct (inbound ty) eqn:Hi.
  - destruct ty as [a|a|a|a| |]; try done; cbn [fresh_listener] in Hb; cbn; eexists; (split; [
      eapply (task_rtc (in_conn inc) false); [unfold server_task_step; rewrite Hc; cbn; rewrite Hh, Ha, Hb; reflexivity|];
      do 2 (eapply (task_rtc (in_conn inc) false); [unfold server_task_step; cbn; rewrite lookup_insert_eq; reflexivity|]);
      eapply (task_rtc (in_conn inc) false);
        [unfold server_task_step; cbn; rewrite lookup_insert_eq; cbn; rewrite lookup_insert_eq; reflexivity|];
      apply rtc_refl|]); (split; [done|]); eexists; apply lookup_insert_eq.
  - assert (fresh_listener ty = None) as Hn by (by destruct ty). rewrite Hn in Hb.
    assert ((if match ty with TcpIn a => (tcp_take_receiver (tcp_bind a)).1 | UdpIn a => (udp_take_receiver (udp_bind a)).1
             | _ => true end then Some (serve_tunnel config ty to) else None) = Some (serve_tunnel config ty to)) as ->
      by (by destruct ty).
    eexists. split; [
      eapply (task_rtc (in_conn inc) false); [unfold server_task_step; rewrite Hc; cbn; rewrite Hh, Ha, Hb; reflexivity|];
      eapply (task_rtc (in_conn inc) false); [unfold server_task_step; cbn; rewrite lookup_insert_eq; reflexivity|];
      eapply (task_rtc (in_conn inc) false); [unfold server_task_step; cbn; rewrite lookup_insert_eq; cbn; rewrite Hi; reflexivity|];
      apply rtc_refl|].
    split; [by destruct ty|]. eexists. apply lookup_insert_eq.
Qed.

End system.

(** ** Witnesses *)

(** Running the task of a connection for up to [n] steps. *)
Fixpoint run_task (config : ServerConfig) (n : nat) (c : Z) (x : server_sys) : server_sys :=
  match n with
  | O => x
  | S n => match server_task_step config c false x with Some y => run_task config n c y | None => x end
  end.

Lemma run_task_steps config n c x : rtc (server_step config) x (run_task config n c x).
Proof.
  revert x. induction n as [|n IH]; intros x; [apply rtc_refl|]. cbn [run_task].
  destruct (server_task_step config c false x) as [y|] eqn:Hs; [|apply rtc_refl]. by eapply task_rtc.
Qed.

Definition arrive (inc : incoming) (x : server_sys) : server_sys :=
  ServerSys (ss_tables x) (<[in_conn inc := ServerTask inc PcLogin]> (ss_tasks x)) (ss_listeners x) (ss_closed x)
    (ss_quitting x) (ss_swept x) (ss_sessions x).

(** One client without the password and one with it, which gets an inbound
    tunnel. *)
Definition two_clients : server_sys :=
  arrive (sample_incoming 2 good_login) (arrive (sample_incoming 1 bad_login) server_start).
Definition one_served : server_sys := run_task sample_server_config 4 2 (run_task sample_server_config 1 1 two_clients).

(** The served connection closes. *)
Definition one_closed : server_sys :=
  ServerSys (ss_tables one_served) (ss_tasks one_served) (ss_listeners one_served) ({[2]} ∪ ss_closed one_served)
    (ss_quitting one_served) (ss_swept one_served) (ss_sessions one_served).

Lemma one_served_reachable : server_reachable sample_server_config one_served.
Proof.
  unfold server_reachable, one_served. etransitivity; [|apply run_task_steps]. etransitivity; [|apply run_task_steps].
  eapply rtc_l; [apply (SsIncoming _ server_new ∅ ∅ ∅ [] [] [] (sample_incoming 1 bad_login)); [done|]|].
  { intros c t Hc. by rewrite lookup_empty in Hc. }
  apply rtc_once.
  apply (SsIncoming _ server_new (<[1 := ServerTask (sample_incoming 1 bad_login) PcLogin]> ∅) ∅ ∅ [] [] []
    (sample_incoming 2 good_login)); [done|].
  intros c t [[<- <-]|[_ Hc]]%lookup_insert_Some; [done|]. by rewrite lookup_empty in Hc.
Qed.

Lemma one_closed_reachable : server_reachable sample_server_config one_closed.
Proof. eapply rtc_r; [exact one_served_reachable|]. unfold one_closed. destruct one_served. apply SsClose. Qed.

Lemma serve_only_authenticated_witness :
  authorised sample_server_config (sample_incoming 2 good_login) (ServeTcp (SockV4 IPV4_LOCALHOST 9000) 60000) ∧
  sv_connections (ss_tables one_served) = [2].
Proof.
  split; [|by vm_compute].
  destruct (serve_only_authenticated sample_server_config one_served one_served_reachable) as [Hs _].
  apply (Hs 2 (ServerTask (sample_incoming 2 good_login) (PcServing (TcpIn (SockV4 IPV4_LOCALHOST 9000))
    (ServeTcp (SockV4 IPV4_LOCALHOST 9000) 60000))) (TcpIn (SockV4 IPV4_LOCALHOST 9000))); [|reflexivity].
  vm_compute. reflexivity.
Defined.

(** The sweep after the connection closed finds session 102. *)
Lemma inbound_sessions_swept_once_witness :
  session_senders (ss_tables one_closed) = [102] ∧
  ∀ s' tq uq, clear_expired_sessions (λ c, bool_decide (c ∈ ss_closed one_closed)) (ss_tables one_closed) = (s', (tq, uq)) →
    102 ∈ tq ++ uq ∧ (102 ∉ session_senders s').
Proof.
  split; [by vm_compute|]. intros s' tq uq Hsw.
  destruct (inbound_sessions_swept_once sample_server_config one_closed one_closed_reachable) as (_ & _ & _ & Hq).
  destruct (Hq s' tq uq Hsw) as [_ Hs]. apply (Hs 2 102).
  - by apply (bool_decide_unpack _); vm_compute.
  - by apply (bool_decide_unpack _); vm_compute.
Defined.


(** The same login on a stream that cannot take the answer. *)
Definition mute_incoming : incoming :=
  Incoming 3 true (AuthIo [Chunk (message_frame (ReqLogin good_login))] (Writer [] (Some 0%nat))) sample_bind true 103.
Definition one_unanswered : server_sys := run_task sample_server_config 1 3 (arrive mute_incoming server_start).

Lemma unanswered_login_keeps_listener_witness :
  ss_tasks one_unanswered !! 3 = Some (ServerTask mute_incoming PcEnded) ∧
  ∀ y, rtc (server_step sample_server_config) one_unanswered y →
    ss_listeners y !! 103 = Some (LTcp (tcp_bind (SockV4 IPV4_LOCALHOST 9000))).
Proof.
  assert (ss_tasks one_unanswered !! 3 = Some (ServerTask mute_incoming PcEnded)) as Ht by (vm_compute; reflexivity).
  split; [exact Ht|]. intros y Hy.
  apply (unanswered_login_keeps_listener sample_server_config one_unanswered 3 mute_incoming (SockV4 IPV4_LOCALHOST 9000) y).
  - unfold server_reachable, one_unanswered. etransitivity; [|apply run_task_steps]. apply rtc_once.
    apply (SsIncoming _ server_new ∅ ∅ ∅ [] [] [] mute_incoming); [done|]. intros c t Hc. by rewrite lookup_empty in Hc.
  - exact Ht.
  - by apply (bool_decide_unpack _); vm_compute.
  - vm_compute. reflexivity.
  - exact Hy.
Defined.
