(* ===== verification/Client.v ===== *)
(** The client of [src/src/client.rs], first part: the decisions it takes before
    and around a connection: which server name it presents and verifies, which
    address it connects to, how long it waits, and the statistics it reports. *)
From Stdlib Require Import Ascii.
From S2P Require Import Prelude Net AddrText HttpReader Config EventBus Lru Codec.

#[local] Open Scope string_scope.
#[local] Open Scope Z_scope.

Definition DEFAULT_SERVER_PORT : Z := 3515.
Definition RETRY_BACKOFF_MIN_MS : Z := 300.
Definition CONNECT_TIMEOUT_MIN_SECS : Z := 3.
Definition CONNECT_TIMEOUT_MAX_SECS : Z := 15.

(** * Server names *)
Section names.
Context (parse_server_name : string → option server_name).

(** [sanitize_sni_names]. *)
Fixpoint sanitize_sni_names (names : list string) : list string :=
  match names with
  | [] => []
  | name :: names' =>
      let trimmed := str_trim name in
      if decide (trimmed = "") then sanitize_sni_names names'
      else match parse_server_name trimmed with
           | Some DnsName => trimmed :: sanitize_sni_names names'
           | _ => sanitize_sni_names names'
           end
  end.

(** [select_sni_name]; [rotation] is the shared [AtomicUsize]. *)
Definition select_sni_name (names : list string) (verify_name : string) (rotation : Z) : string * Z :=
  match names with
  | [] => (verify_name, rotation)
  | _ =>
      (default verify_name (names !! Z.to_nat (rotation mod Z.of_nat (length names))),
       wrapping_add 64 rotation 1)
  end.

(** * Certificate verification *)

(** The verifiers the client installs: none, the platform's, one for the
    certificates of the configured file, and the wrapper used with a custom
    server name. *)
Inductive verifier : Type :=
| InsecureCertVerifier
| PlatformVerifier
| RootsVerifier (certs : list Z)
| CustomSniVerifier (inner : verifier) (real_name : string).

Inductive tls_error : Type :=
| CertFileError
| NoCertificates
| RootRejected
| PlatformVerifierFailed
| WebPkiVerifierFailed
| BadVerifyName (name : string).

(** What the verifiers are made from: the certificates of a file, whether the
    root store takes a certificate, whether the verifier of the platform can be
    created, and whether one can be built for a list of roots. *)
Record tls_world : Type := TlsWorld {
  load_pem : string → option (list Z);
  roots_add : Z → bool;
  platform_verifier : bool;
  webpki_build : list Z → bool
}.
Context (tls : tls_world).

Definition is_ip_addr (addr : string) : bool :=
  match parse_socket_addr addr with Some _ => true | None => false end.

(** The host part of the configured server address. *)
Definition server_host (server_addr : string) : string :=
  match str_rsplit_once ":"%char server_addr with Some (host, _) => host | None => server_addr end.

Definition wrap_with_custom_sni_verifier (inner : verifier) (verify_name : string) : result tls_error verifier :=
  match parse_server_name verify_name with
  | Some _ => Ok (CustomSniVerifier inner verify_name)
  | None => Err (BadVerifyName verify_name)
  end.

(** The verifier of the platform is created directly, or by [PlatformVerifier::new]
    to be wrapped. *)
Definition parse_client_config_and_domain (config : ClientConfig) : result tls_error (verifier * string) :=
  if decide (cc_cert_path config = "") then
    if negb (is_ip_addr (cc_server_addr config)) then
      let domain := server_host (cc_server_addr config) in
      v ← (if negb (platform_verifier tls) then Err PlatformVerifierFailed
           else if decide (cc_sni_names config = []) then Ok PlatformVerifier
           else wrap_with_custom_sni_verifier PlatformVerifier domain);
      Ok (v, domain)
    else Ok (InsecureCertVerifier, "localhost")
  else
    certs ← ok_or CertFileError (load_pem tls (cc_cert_path config));
    if decide (certs = []) then Err NoCertificates
    else if negb (forallb (roots_add tls) certs) then Err RootRejected
    else
      let domain_or_ip := server_host (cc_server_addr config) in
      v ← (if decide (cc_sni_names config = []) then Ok (RootsVerifier certs)
           else if negb (webpki_build tls certs) then Err WebPkiVerifierFailed
           else wrap_with_custom_sni_verifier (RootsVerifier certs) domain_or_ip);
      Ok (v, domain_or_ip).

(** [verify_server_cert]; [checks v cert name] is the answer of the verifiers of
    the TLS library. *)
Fixpoint verify_server_cert (checks : verifier → Z → string → bool) (v : verifier) (cert : Z) (name : string) : bool :=
  match v with
  | InsecureCertVerifier => true
  | CustomSniVerifier inner real_name => verify_server_cert checks inner cert real_name
  | v => checks v cert name
  end.

(** [verify_tls12_signature] and [verify_tls13_signature]: [lib12] is
    [rustls::crypto::verify_tls12_signature] on a signature, [sigs] and [sigs13]
    are the answers of the verifiers of the TLS library. *)
Fixpoint verify_tls12_signature (lib12 : Z → bool) (sigs : verifier → Z → bool) (v : verifier) (dss : Z) : bool :=
  match v with
  | InsecureCertVerifier => lib12 dss
  | CustomSniVerifier inner _ => verify_tls12_signature lib12 sigs inner dss
  | v => sigs v dss
  end.
Fixpoint verify_tls13_signature (lib12 : Z → bool) (sigs13 : verifier → Z → bool) (v : verifier) (dss : Z) : bool :=
  match v with
  | InsecureCertVerifier => lib12 dss
  | CustomSniVerifier inner _ => verify_tls13_signature lib12 sigs13 inner dss
  | v => sigs13 v dss
  end.

(** The verifier that decides in the end. *)
Definition base_verifier (v : verifier) : verifier :=
  match v with CustomSniVerifier inner _ => inner | v => v end.

(** C33: Presenting another server name never weakens verification.  Unless the
    server is given as a bare IP address without a certificate (the documented
    testing mode, and the only one without verification), the certificate is
    checked by the platform or against the configured certificates, and against
    the host of the configured server address, whatever name goes on the wire;
    the signature of the TLS 1.3 handshake is checked by that verifier too. *)
Theorem tls_verifies_real_host config rotation v verify_name checks cert lib12 sigs13 dss :
  parse_client_config_and_domain config = Ok (v, verify_name) →
  let sni := (select_sni_name (cc_sni_names config) verify_name rotation).1 in
  (v = InsecureCertVerifier ∧ cc_cert_path config = "" ∧ is_ip_addr (cc_server_addr config) = true) ∨
  (base_verifier v = (if decide (cc_cert_path config = "") then PlatformVerifier
                      else RootsVerifier (default [] (load_pem tls (cc_cert_path config)))) ∧
   verify_server_cert checks v cert sni
   = checks (base_verifier v) cert (server_host (cc_server_addr config)) ∧
   verify_tls13_signature lib12 sigs13 v dss = sigs13 (base_verifier v) dss).
Proof.
  unfold parse_client_config_and_domain, wrap_with_custom_sni_verifier. intros Hp.
  destruct (decide (cc_cert_path config = "")) as [Hc|Hc].
  - destruct (is_ip_addr (cc_server_addr config)) eqn:Hip; simpl in Hp; [simplify_eq; auto|]. right.
    destruct (platform_verifier tls); [|done]. simpl in Hp.
    destruct (decide (cc_sni_names config = [])) as [E|E]; [simpl in Hp; simplify_eq; by rewrite E|].
    destruct (parse_server_name _); simpl in Hp; by simplify_eq.
  - right. destruct (load_pem tls (cc_cert_path config)) as [certs|]; [|done]. simpl in Hp.
    destruct (decide (certs = [])); [done|]. destruct (forallb _ _); [|done]. simpl in Hp.
    destruct (decide (cc_sni_names config = [])) as [E|E]; [simpl in Hp; simplify_eq; by rewrite E|].
    destruct (webpki_build tls certs); [|done]. destruct (parse_server_name _); simpl in Hp; by simplify_eq.
Qed.

(** The names selected by [n] consecutive logins. *)
Fixpoint selected (n : nat) (names : list string) (verify_name : string) (rotation : Z) : list string :=
  match n with
  | O => []
  | S n' => let (s, rotation) := select_sni_name names verify_name rotation in
            s :: selected n' names verify_name rotation
  end.
End names.

Lemma selected_lookup names vn m r i :
  names ≠ [] → 0 <= r → r + Z.of_nat m <= 2 ^ 64 → (i < m)%nat →
  selected m names vn r !! i = names !! Z.to_nat ((r + Z.of_nat i) mod Z.of_nat (length names)).
Proof.
  intros Hne Hr. revert r Hr i. induction m as [|m IH]; intros r Hr i Hm Hi; [lia|].
  assert (0 < Z.of_nat (length names)) by (destruct names; [done|simpl; lia]).
  assert (select_sni_name names vn r =
    (default vn (names !! Z.to_nat (r mod Z.of_nat (length names))), wrapping_add 64 r 1)) as Hs
    by (by destruct names).
  cbn [selected]. rewrite Hs. destruct i as [|i]; cbn [lookup list_lookup].
  - rewrite Z.add_0_r. pose proof (Z.mod_pos_bound r (Z.of_nat (length names)) ltac:(done)).
    destruct (lookup_lt_is_Some_2 names (Z.to_nat (r mod Z.of_nat (length names)))) as [s Hl]; [lia|].
    by rewrite Hl.
  - unfold wrapping_add. destruct m as [|m]; [lia|]. rewrite wrap_small by (unfold in_u; lia).
    etransitivity; [apply IH; lia|]. do 3 f_equal. lia.
Qed.

(** The custom server names are used round robin: from any value of the
    shared counter short of its overflow, as many consecutive logins as there
    are names present each name exactly as often as it is configured, in
    configuration order starting from the counter's position. *)
Theorem sni_round_robin names vn r :
  names ≠ [] → 0 <= r → r + Z.of_nat (length names) <= 2 ^ 64 →
  let k := Z.to_nat (r mod Z.of_nat (length names)) in
  selected (length names) names vn r = (drop k names ++ take k names)%list ∧
  Permutation (selected (length names) names vn r) names.
Proof.
  intros Hne Hr Hmax k.
  assert (0 < Z.of_nat (length names)) as Hpos by (destruct names; [done|simpl; lia]).
  pose proof (Z.mod_pos_bound r (Z.of_nat (length names)) Hpos) as Hk.
  assert (selected (length names) names vn r = (drop k names ++ take k names)%list) as ->.
  - apply list_eq. intros i. destruct (decide (i < length names)%nat) as [Hi|Hi].
    + rewrite selected_lookup by done.
      rewrite <-Z.add_mod_idemp_l by lia.
      replace (r mod Z.of_nat (length names)) with (Z.of_nat k) by lia.
      destruct (decide (i < length names - k)%nat) as [H|H].
      * rewrite lookup_app_l, lookup_drop by (rewrite length_drop; lia).
        rewrite Z.mod_small by lia. f_equal. lia.
      * rewrite lookup_app_r by (rewrite length_drop; lia). rewrite length_drop, lookup_take_lt by lia.
        rewrite <-(Z.mod_add _ (-1)), Z.mod_small by lia. f_equal. lia.
    + rewrite !lookup_ge_None_2; [done| |].
      * rewrite length_app, length_drop, length_take. lia.
      * clear -Hi. assert (∀ m r, length (selected m names vn r) = m) as Hlen.
        { induction m as [|m IH]; intros r'; [done|]. cbn [selected].
          destruct (select_sni_name _ _ _). simpl. by rewrite IH. }
        rewrite Hlen. lia.
  - split; [done|]. rewrite (Permutation_app_comm (drop k names)). by rewrite take_drop.
Qed.

Lemma sni_round_robin_witness :
  selected 3 ["a.com"; "b.com"; "c.com"] "real" 7 = ["b.com"; "c.com"; "a.com"] ∧
  Permutation (selected 3 ["a.com"; "b.com"; "c.com"] "real" 7) ["a.com"; "b.com"; "c.com"].
Proof. apply (sni_round_robin ["a.com"; "b.com"; "c.com"] "real" 7); done || lia. Defined.

Definition sample_client_config (server_addr cert : string) (sni : list string) : ClientConfig :=
  MkClientConfig cert server_addr "secret" 5000 30000 30000 5000 5000 15000 0 sample_tunnels [""] ["1.1.1.1"] 8
    0 0 0 sni false false 9 24 "" 18000 150.

(** A world without certificate files. *)
Definition sample_tls : tls_world := TlsWorld (λ _, None) (λ _, true) true (λ _, true).

Lemma tls_verifies_real_host_witness :
  parse_client_config_and_domain sample_server_name sample_tls
    (sample_client_config "vpn.example.org:443" "" ["www.bing.com"])
  = Ok (CustomSniVerifier PlatformVerifier "vpn.example.org", "vpn.example.org") ∧
  verify_server_cert (λ _ _ name, bool_decide (name = "vpn.example.org"))
    (CustomSniVerifier PlatformVerifier "vpn.example.org") 0 "www.bing.com" = true ∧
  verify_tls13_signature (λ _, false) (λ v _, match v with PlatformVerifier => true | _ => false end)
    (CustomSniVerifier PlatformVerifier "vpn.example.org") 0 = true.
Proof.
  split; [vm_compute; reflexivity|].
  destruct (tls_verifies_real_host sample_server_name sample_tls
    (sample_client_config "vpn.example.org:443" "" ["www.bing.com"]) 0 _ _
    (λ _ _ name, bool_decide (name = "vpn.example.org")) 0 (λ _, false)
    (λ v _, match v with PlatformVerifier => true | _ => false end) 0
    ltac:(vm_compute; reflexivity)) as [(? & _)|[_ Hv]]; [done|].
  exact Hv.
Defined.

(** * Where to connect *)

(** How the resolver library is to look names up. *)
Inductive DNSResolverLookupIpStrategy : Type := Ipv4Only | Ipv4thenIpv6.
Inductive DNSQueryOrdering : Type := QueryStatistics.
Record DNSResolverConfig : Type := MkDnsConfig {
  strategy : DNSResolverLookupIpStrategy;
  num_conccurent_reqs : Z;
  ordering : DNSQueryOrdering
}.

Definition server_lookup_dns_config (ipv6_supported : bool) : DNSResolverConfig :=
  MkDnsConfig (if ipv6_supported then Ipv4thenIpv6 else Ipv4Only) 3 QueryStatistics.

(** One lookup ([resolver2] and [lookup_first]): the DoT server ([""] for none),
    the name servers ([[]] for the system's), the settings and the domain;
    [None] is a failure. *)
Definition dns_lookup : Type := string → list string → DNSResolverConfig → string → option IpAddr.

Section address.
Context (resolve : dns_lookup).
Context (ipv6_supported : bool).

Definition filter_name_servers (name_servers : list string) (ipv6_supported : bool) : list string :=
  if ipv6_supported then name_servers
  else filter (λ entry, match parse_ip_addr entry with Some ip => ip_is_ipv4 ip | None => true end = true) name_servers.

Definition lookup_server_ip (domain dot_server : string) (name_servers : list string) : option IpAddr :=
  let dns_config := server_lookup_dns_config ipv6_supported in
  let name_servers := filter_name_servers name_servers ipv6_supported in
  if decide (dot_server ≠ "") then resolve dot_server [] dns_config domain
  else if decide (name_servers ≠ []) then resolve "" name_servers dns_config domain
  else resolve "" [] dns_config domain.

Inductive addr_error : Type := BadServerAddress (addr : string) | ResolveDomainFailed (domain : string).

Fixpoint try_dot_servers (domain : string) (dots : list string) : option IpAddr :=
  match dots with
  | [] => None
  | dot :: dots' =>
      match lookup_server_ip domain dot [] with
      | Some ip => Some ip
      | None => try_dot_servers domain dots'
      end
  end.

Definition parse_server_addr (config : ClientConfig) : result addr_error SocketAddr :=
  let addr := cc_server_addr config in
  match parse_socket_addr addr with
  | Some a => Ok a
  | None =>
      '(domain, port) ← match str_rsplit_once ":"%char addr with
                        | Some (before, after) =>
                            port ← ok_or (BadServerAddress addr) (parse_uint 16 after); Ok (before, port)
                        | None => Ok (addr, DEFAULT_SERVER_PORT)
                        end;
      match try_dot_servers domain (cc_dot_servers config) with
      | Some ip => Ok (socket_addr_new ip port)
      | None =>
          match lookup_server_ip domain "" (cc_dns_servers config) with
          | Some ip => Ok (socket_addr_new ip port)
          | None =>
              match lookup_server_ip domain "" [] with
              | Some ip => Ok (socket_addr_new ip port)
              | None => Err (ResolveDomainFailed domain)
              end
          end
      end
  end.
End address.

(** The lookups in the order they are tried. *)
Definition lookups (ipv6_supported : bool) (config : ClientConfig) : list (string * list string) :=
  ((λ dot, (dot, [])) <$> cc_dot_servers config) ++
  [("", filter_name_servers (cc_dns_servers config) ipv6_supported); ("", [])].

Definition first_some {A} (l : list (option A)) : option A := head (omap id l).

Lemma lookup_server_ip_dot resolve v6 domain dot :
  lookup_server_ip resolve v6 domain dot [] = resolve dot [] (server_lookup_dns_config v6) domain.
Proof.
  unfold lookup_server_ip. destruct (decide (dot ≠ "")) as [|E]; [done|].
  apply dec_stable in E as ->. by destruct v6.
Qed.

Lemma lookup_server_ip_dns resolve v6 domain dns :
  lookup_server_ip resolve v6 domain "" dns =
  resolve "" (filter_name_servers dns v6) (server_lookup_dns_config v6) domain.
Proof.
  unfold lookup_server_ip. rewrite decide_False by (intros E; by apply E).
  destruct (decide _) as [|E]; [done|]. by apply dec_stable in E as ->.
Qed.

Lemma first_some_cons {A} (x : option A) l :
  first_some (x :: l) = match x with Some a => Some a | None => first_some l end.
Proof. by destruct x. Qed.

Lemma try_dot_servers_first resolve v6 domain dots rest :
  match try_dot_servers resolve v6 domain dots with Some ip => Some ip | None => first_some rest end =
  first_some (((λ dot, resolve dot [] (server_lookup_dns_config v6) domain) <$> dots) ++ rest)%list.
Proof.
  induction dots as [|dot dots IH]; [done|]. cbn [try_dot_servers fmap list_fmap app].
  rewrite lookup_server_ip_dot, first_some_cons. by destruct (resolve dot [] _ domain).
Qed.

Lemma str_rsplit_once_last c s t :
  str_contains c t = false → str_rsplit_once c (s +:+ String c t) = Some (s, t).
Proof.
  intros Ht. assert (str_rsplit_once c t = None) as Hn.
  { induction t as [|d t IH]; [done|]. cbn [str_contains] in Ht. apply orb_false_iff in Ht as [Hd Ht].
    cbn [str_rsplit_once]. by rewrite (IH Ht), Hd. }
  induction s as [|d s IH]; rewrite ?string_app_cons, ?string_app_nil; cbn [str_rsplit_once].
  - by rewrite Hn, Ascii.eqb_refl.
  - by rewrite IH.
Qed.

Lemma parse_uint_display w z : 0 <= w <= 128 → in_u w z → parse_uint w (display_uint z) = Some z.
Proof.
  intros Hw Hz. pose proof (parse_display_uint w z Hw Hz) as Hr. unfold read_number in Hr. unfold parse_uint.
  assert (match display_uint z with
          | String c (String d s') => if Ascii.eqb c "+"%char then String d s' else display_uint z
          | _ => display_uint z end = display_uint z) as ->.
  { assert (∀ fuel y acc, match show_digits 10 (S fuel) y acc with
                          | String c _ => Ascii.eqb c "+"%char = false | _ => True end) as Hp.
    { assert (∀ y, Ascii.eqb (digit_char (y mod 10)) "+"%char = false) as Hd.
      { intros y. apply digit_char_ne; [|done]. pose proof (Z.mod_pos_bound y 10 ltac:(lia)). lia. }
      induction fuel as [|f IH]; intros y acc; cbn [show_digits]; (destruct (_ =? 0); [apply Hd|]); [apply Hd|].
      apply IH. }
    pose proof (Hp 39%nat z "") as Hc. fold (display_uint z) in Hc.
    destruct (display_uint z) as [|c [|d s]]; [done..|]. by rewrite Hc. }
  destruct (read_digits _ _ _ _ _ _) as [[[[|n] v] r]|]; [done| |done].
  simpl in Hr. simplify_eq. done.
Qed.

(** The order of the name lookups: a host with a port resolves to
    the first answer among the DoT servers in order, the configured name
    servers (without the IPv6 ones when the host has no IPv6 route) and the
    system's, paired with that port; it fails only if all of them fail. *)
Theorem server_addr_resolution resolve v6 config host port :
  cc_server_addr config = host +:+ ":" +:+ display_uint port → in_u 16 port →
  parse_socket_addr (cc_server_addr config) = None →
  parse_server_addr resolve v6 config =
  match first_some ((λ l, resolve l.1 l.2 (server_lookup_dns_config v6) host) <$> lookups v6 config) with
  | Some ip => Ok (socket_addr_new ip port)
  | None => Err (ResolveDomainFailed host)
  end.
Proof.
  intros Haddr Hport Hlit. unfold parse_server_addr. rewrite Hlit, Haddr.
  change (":" +:+ display_uint port) with (String ":"%char (display_uint port)).
  rewrite str_rsplit_once_last by apply display_uint_colon.
  rewrite parse_uint_display by (done || lia). simpl.
  unfold lookups. rewrite fmap_app, <-list_fmap_compose. cbn [fmap list_fmap].
  change (compose _ _) with (λ dot, resolve dot [] (server_lookup_dns_config v6) host). cbn [fst snd].
  rewrite <-(try_dot_servers_first resolve v6 host). destruct (try_dot_servers _ _ _ _); [done|].
  rewrite !lookup_server_ip_dns, !first_some_cons. destruct (resolve "" (filter_name_servers _ _) _ host); [done|].
  replace (filter_name_servers [] v6) with (@nil string) by (by destruct v6).
  by destruct (resolve "" [] _ host).
Qed.

Lemma server_addr_resolution_witness :
  parse_server_addr (λ dot ns _ _, if decide (ns = ["1.1.1.1"]) then Some (IpV4 (ipv4 9 9 9 9)) else None) true
    (sample_client_config "vpn.example.org:443" "" [])
  = Ok (SockV4 (ipv4 9 9 9 9) 443).
Proof.
  rewrite (server_addr_resolution _ true (sample_client_config "vpn.example.org:443" "" []) "vpn.example.org" 443);
    [reflexivity|reflexivity|by unfold in_u|reflexivity].
Defined.

(** With the command line's default for [--dot] (the empty text, which
    splits into one empty server) a name the system resolver knows never reaches
    the servers given with [--dns]. *)
Theorem empty_dot_bypasses_dns resolve v6 config host port ip :
  cc_server_addr config = host +:+ ":" +:+ display_uint port → in_u 16 port →
  parse_socket_addr (cc_server_addr config) = None →
  cc_dot_servers config = str_split ","%char "" →
  resolve "" [] (server_lookup_dns_config v6) host = Some ip →
  parse_server_addr resolve v6 config = Ok (socket_addr_new ip port).
Proof.
  intros Haddr Hport Hlit Hdot Hsys. unfold parse_server_addr. rewrite Hlit, Haddr.
  change (":" +:+ display_uint port) with (String ":"%char (display_uint port)).
  rewrite str_rsplit_once_last by apply display_uint_colon.
  rewrite parse_uint_display by (done || lia). simpl. rewrite Hdot. simpl.
  by rewrite lookup_server_ip_dot, Hsys.
Qed.

Lemma empty_dot_bypasses_dns_witness :
  parse_server_addr (λ dot ns _ _, if decide (ns = []) then Some (IpV4 1) else Some (IpV4 2)) true
    (sample_client_config "vpn.example.org:443" "" []) = Ok (SockV4 1 443).
Proof.
  apply (empty_dot_bypasses_dns _ true (sample_client_config "vpn.example.org:443" "" []) "vpn.example.org" 443 (IpV4 1));
    [reflexivity|by unfold in_u|reflexivity..].
Defined.

(** What the strategy asks of the resolver. *)
Definition ipv4_only_honoured (resolve : dns_lookup) : Prop := ∀ dot ns c domain ip,
  strategy c = Ipv4Only → resolve dot ns c domain = Some ip → ip_is_ipv4 ip = true.

Lemma lookup_server_ip_v4 resolve domain dot ns ip :
  ipv4_only_honoured resolve → lookup_server_ip resolve false domain dot ns = Some ip → ip_is_ipv4 ip = true.
Proof. intros Hr. unfold lookup_server_ip. repeat case_decide; by apply Hr. Qed.

Lemma try_dot_servers_v4 resolve domain dots ip :
  ipv4_only_honoured resolve → try_dot_servers resolve false domain dots = Some ip → ip_is_ipv4 ip = true.
Proof.
  intros Hr. induction dots as [|dot dots IH]; [done|]. cbn [try_dot_servers].
  destruct (lookup_server_ip _ _ _ _ _) eqn:Hl; [|done]. intros [= ->]. by eapply lookup_server_ip_v4.
Qed.

(** A host without an IPv6 route stays with IPv4: every name server it asks by
    address has an IPv4 address, and a server given by name is reached over IPv4
    whichever lookup answers. *)
Theorem ipv4_host_uses_ipv4 resolve config a :
  ipv4_only_honoured resolve → parse_socket_addr (cc_server_addr config) = None →
  parse_server_addr resolve false config = Ok a →
  is_ipv6 a = false ∧
  ∀ dot ns entry ip, (dot, ns) ∈ lookups false config → entry ∈ ns → parse_ip_addr entry = Some ip → ip_is_ipv4 ip = true.
Proof.
  intros Hr Hlit Ha. split.
  - assert (∀ ip port, ip_is_ipv4 ip = true → is_ipv6 (socket_addr_new ip port) = false) as Hnew by by intros [].
    unfold parse_server_addr in Ha. rewrite Hlit in Ha.
    destruct (match str_rsplit_once _ _ with Some _ => _ | None => _ end) as [[domain port]|e]; [|done].
    cbn in Ha. destruct (try_dot_servers _ _ _ _) eqn:Hd; [simplify_eq; by eapply Hnew, try_dot_servers_v4|].
    destruct (lookup_server_ip _ _ _ _ (cc_dns_servers config)) eqn:Hl; [simplify_eq; by eapply Hnew, lookup_server_ip_v4|].
    destruct (lookup_server_ip _ _ _ _ []) eqn:Hl'; [simplify_eq; by eapply Hnew, lookup_server_ip_v4|done].
  - intros dot ns entry ip Hin He Hip. unfold lookups in Hin.
    apply elem_of_app in Hin as [(x & ? & _)%list_elem_of_fmap|Hin]; [simplify_eq; by apply elem_of_nil in He|].
    apply elem_of_cons in Hin as [Hin|Hin]; [|apply list_elem_of_singleton in Hin; simplify_eq; by apply elem_of_nil in He].
    simplify_eq. apply list_elem_of_filter in He as [He _]. by rewrite Hip in He.
Qed.

Lemma ipv4_host_uses_ipv4_witness :
  is_ipv6 (SockV4 (ipv4 9 9 9 9) 443) = false ∧
  ∀ dot ns entry ip, (dot, ns) ∈ lookups false (sample_client_config "vpn.example.org:443" "" []) →
    entry ∈ ns → parse_ip_addr entry = Some ip → ip_is_ipv4 ip = true.
Proof.
  apply (ipv4_host_uses_ipv4
    (λ dot ns c _, match strategy c with Ipv4Only => Some (IpV4 (ipv4 9 9 9 9)) | Ipv4thenIpv6 => Some (IpV6 1) end)).
  - intros dot ns c domain ip Hc. rewrite Hc. by intros [= <-].
  - reflexivity.
  - by vm_compute.
Defined.

(** * Timeouts *)

Definition retry_min_backoff_delay : Z := RETRY_BACKOFF_MIN_MS.
Definition retry_max_backoff_delay (config : ClientConfig) : Z :=
  Z.max (cc_wait_before_retry_ms config) RETRY_BACKOFF_MIN_MS.

(** In milliseconds; [attempt] counts from 0. *)
Definition connect_attempt_timeout_for (attempt : Z) : Z :=
  let shift := Z.min attempt 63 in
  Z.min (saturating_mul 64 CONNECT_TIMEOUT_MIN_SECS (wrap 64 (Z.shiftl 1 shift))) CONNECT_TIMEOUT_MAX_SECS * 1000.

(** A connection attempt gets 3, 6, 12 and then 15 seconds, for every later
    attempt however many there were: the timeout grows and never leaves the
    range, and neither the shift nor the product overflows. *)
Theorem connect_attempt_timeouts attempt :
  0 <= attempt →
  connect_attempt_timeout_for attempt =
    (if attempt =? 0 then 3000 else if attempt =? 1 then 6000 else if attempt =? 2 then 12000 else 15000).
Proof.
  intros Ha. unfold connect_attempt_timeout_for.
  set (shift := Z.min attempt 63).
  assert (wrap 64 (Z.shiftl 1 shift) = 2 ^ shift) as ->.
  { rewrite Z.shiftl_mul_pow2, Z.mul_1_l by lia. apply wrap_small. split; [apply Z.pow_nonneg; lia|].
    apply Z.pow_lt_mono_r; lia. }
  unfold saturating_mul, CONNECT_TIMEOUT_MIN_SECS, CONNECT_TIMEOUT_MAX_SECS.
  destruct (Z.eqb_spec attempt 0) as [->|]; [done|]. destruct (Z.eqb_spec attempt 1) as [->|]; [done|].
  destruct (Z.eqb_spec attempt 2) as [->|]; [done|].
  assert (2 ^ 3 <= 2 ^ shift) by (apply Z.pow_le_mono_r; lia). unfold umax. lia.
Qed.

Lemma connect_attempt_timeouts_witness : connect_attempt_timeout_for (2 ^ 64 - 1) = 15000.
Proof. rewrite (connect_attempt_timeouts (2 ^ 64 - 1)); [reflexivity|lia]. Defined.

(** * Statistics *)

(** What quinn reports about a connection. *)
Record ConnStats : Type := MkConnStats {
  q_rx_bytes : Z; q_tx_bytes : Z; q_rx_datagrams : Z; q_tx_datagrams : Z;
  q_sent_packets : Z; q_lost_packets : Z; q_lost_bytes : Z; q_congestion_events : Z;
  q_rtt_ms : Z; q_cwnd : Z; q_current_mtu : Z; q_black_holes : Z
}.

(** [append_conn_stats_to_tunnel_stat] ([+=] wraps in a release build). *)
Definition append_conn_stats (c : ConnStats) (s : TunnelStat) : TunnelStat :=
  MkStat (wrapping_add 64 (rx_bytes s) (q_rx_bytes c)) (wrapping_add 64 (tx_bytes s) (q_tx_bytes c))
    (wrapping_add 64 (tx_dgrams s) (q_tx_datagrams c)) (wrapping_add 64 (rx_dgrams s) (q_rx_datagrams c))
    (wrapping_add 64 (sent_packets s) (q_sent_packets c)) (wrapping_add 64 (lost_packets s) (q_lost_packets c))
    (wrapping_add 64 (lost_bytes s) (q_lost_bytes c)) (wrapping_add 64 (congestion_events s) (q_congestion_events c))
    (wrapping_add 32 (active_conns s) 1) (Z.max (rtt_ms s) (wrap 64 (q_rtt_ms c)))
    (Z.max (cwnd_bytes s) (q_cwnd c)) (Z.max (current_mtu s) (q_current_mtu c))
    (wrapping_add 64 (black_holes s) (q_black_holes c)).

Definition build_tunnel_stat_from_connection (c : ConnStats) : TunnelStat := append_conn_stats c stat_default.

(** [add_connection_stats_to_total]. *)
Definition add_connection_stats_to_total (c : ConnStats) (s : TunnelStat) : TunnelStat :=
  MkStat (wrapping_add 64 (rx_bytes s) (q_rx_bytes c)) (wrapping_add 64 (tx_bytes s) (q_tx_bytes c))
    (wrapping_add 64 (tx_dgrams s) (q_tx_datagrams c)) (wrapping_add 64 (rx_dgrams s) (q_rx_datagrams c))
    (wrapping_add 64 (sent_packets s) (q_sent_packets c)) (wrapping_add 64 (lost_packets s) (q_lost_packets c))
    (wrapping_add 64 (lost_bytes s) (q_lost_bytes c)) (wrapping_add 64 (congestion_events s) (q_congestion_events c))
    (active_conns s) (rtt_ms s) (cwnd_bytes s) (current_mtu s)
    (wrapping_add 64 (black_holes s) (q_black_holes c)).

(** The statistics one tick of [report_traffic_data_in_background] posts:
    [live] are the connections of the map, [total] the accumulated statistics. *)
Definition traffic_report (live : list ConnStats) (total : TunnelStat) : TunnelStat :=
  let s := fold_left (λ s c, append_conn_stats c s) live stat_default in
  MkStat (wrapping_add 64 (rx_bytes s) (rx_bytes total)) (wrapping_add 64 (tx_bytes s) (tx_bytes total))
    (wrapping_add 64 (tx_dgrams s) (tx_dgrams total)) (wrapping_add 64 (rx_dgrams s) (rx_dgrams total))
    (wrapping_add 64 (sent_packets s) (sent_packets total)) (wrapping_add 64 (lost_packets s) (lost_packets total))
    (wrapping_add 64 (lost_bytes s) (lost_bytes total)) (wrapping_add 64 (congestion_events s) (congestion_events total))
    (active_conns s) (rtt_ms s) (cwnd_bytes s) (current_mtu s)
    (wrapping_add 64 (black_holes s) (black_holes total)).

(** The cumulative counters of a statistic and of a connection, in one order. *)
Definition counters (s : TunnelStat) : list Z :=
  [rx_bytes s; tx_bytes s; tx_dgrams s; rx_dgrams s; sent_packets s; lost_packets s; lost_bytes s;
   congestion_events s; black_holes s].
Definition conn_counters (c : ConnStats) : list Z :=
  [q_rx_bytes c; q_tx_bytes c; q_tx_datagrams c; q_rx_datagrams c; q_sent_packets c; q_lost_packets c;
   q_lost_bytes c; q_congestion_events c; q_black_holes c].

(** Counters add component-wise, modulo 2^64. *)
Definition add_counters (a b : list Z) : list Z := zip_with (wrapping_add 64) a b.

Lemma wrapping_add_comm w a b : wrapping_add w a b = wrapping_add w b a.
Proof. unfold wrapping_add. by rewrite Z.add_comm. Qed.
Lemma wrapping_add_assoc w a b c :
  0 <= w → wrapping_add w (wrapping_add w a b) c = wrapping_add w a (wrapping_add w b c).
Proof.
  intros ?. unfold wrapping_add, wrap. rewrite Z.add_mod_idemp_l, Z.add_mod_idemp_r by (apply Z.pow_nonzero; lia).
  by rewrite Z.add_assoc.
Qed.

Lemma add_counters_comm a b : add_counters a b = add_counters b a.
Proof. revert b. induction a as [|x a IH]; intros [|y b]; simpl; [done..|]. by rewrite wrapping_add_comm, IH. Qed.
Lemma add_counters_assoc a b c : add_counters (add_counters a b) c = add_counters a (add_counters b c).
Proof.
  revert b c. induction a as [|x a IH]; intros [|y b] [|z c]; simpl; [done..|].
  rewrite wrapping_add_assoc by lia. by f_equal.
Qed.

Lemma append_counters c s : counters (append_conn_stats c s) = add_counters (counters s) (conn_counters c).
Proof. done. Qed.
Lemma total_counters c s : counters (add_connection_stats_to_total c s) = add_counters (counters s) (conn_counters c).
Proof. done. Qed.

Definition live_counters (live : list ConnStats) (a : list Z) : list Z :=
  fold_left (λ a c, add_counters a (conn_counters c)) live a.

Lemma report_counters live total :
  counters (traffic_report live total) = add_counters (live_counters live (counters stat_default)) (counters total).
Proof.
  change (counters (traffic_report live total)) with
    (add_counters (counters (fold_left (λ s c, append_conn_stats c s) live stat_default)) (counters total)).
  f_equal. generalize stat_default. induction live as [|c live IH]; intros s; [done|].
  unfold live_counters. cbn [fold_left]. rewrite <-append_counters. apply IH.
Qed.

Lemma live_counters_add live a b : live_counters live (add_counters a b) = add_counters (live_counters live a) b.
Proof.
  unfold live_counters. revert a. induction live as [|c live IH]; intros a; [done|]. cbn [fold_left].
  rewrite <-IH. f_equal. by rewrite !add_counters_assoc, (add_counters_comm b).
Qed.

Lemma live_counters_mid l1 c l2 a :
  live_counters (l1 ++ c :: l2) a = add_counters (live_counters (l1 ++ l2) a) (conn_counters c).
Proof.
  unfold live_counters. rewrite !fold_left_app. cbn [fold_left]. apply live_counters_add.
Qed.

(** When a connection ends, its traffic moves from the live connections to
    the accumulated total without being lost: all nine cumulative counters of
    the report are the same before and after.  Between the two steps of the
    hand-over (the total is updated first, the connection leaves the map later)
    a report counts the connection twice. *)
Theorem traffic_report_handover l1 c l2 total :
  counters (traffic_report (l1 ++ l2) (add_connection_stats_to_total c total)) =
  counters (traffic_report (l1 ++ c :: l2) total) ∧
  counters (traffic_report (l1 ++ c :: l2) (add_connection_stats_to_total c total)) =
  add_counters (counters (traffic_report (l1 ++ c :: l2) total)) (conn_counters c).
Proof.
  rewrite !report_counters, !total_counters, !live_counters_mid, !add_counters_assoc. split.
  - f_equal. apply add_counters_comm.
  - done.
Qed.

(** * Small operations *)

(** [build_tunnel_descriptor]; [channel_input] tells whether the input is
    [ConnectInput::Channel], and [None] is the [unreachable!]. *)
Definition build_tunnel_descriptor (tunnel_id : TunnelId) (tunnel : Tunnel) (channel_input : bool) :
  option TunnelDescriptor :=
  match tunnel, channel_input with
  | NetworkBased cfg, _ => Some (MkDescriptor tunnel_id (upstream_type (upstream cfg)) (mode cfg))
  | ChannelBased t, true => Some (MkDescriptor tunnel_id t ModeOut)
  | ChannelBased _, false => None
  end.

(** [codec_config]; [read_file] reads the dictionary. *)
Definition codec_config (read_file : string → option (list Z)) (config : ClientConfig) : CodecConfig :=
  let cfg := codec_config_new (cc_zstd config) (cc_http config) (cc_zstd_level config) (cc_zstd_window_log config)
               (cc_zstd_pair_ttl_secs config) (cc_zstd_flush_interval_ms config) in
  let cfg := if decide (cc_zstd_dict config ≠ "") then
               match read_file (cc_zstd_dict config) with
               | Some dict_bytes => with_dictionary cfg dict_bytes
               | None => cfg
               end
             else cfg in
  with_global_stats cfg.
