(* ===== verification/ClientRun.v ===== *)
(** The client of [src/src/client.rs], second part: its shared state, the cached
    endpoint, the login on a fresh connection (composed with the server's
    authentication), and the life cycle of tunnels and of the whole client. *)
From stdpp Require Import gmap fin_sets.
From S2P Require Import Prelude Io Net Target AddrText Config Message BincodeStd Heartbeat EventBus Servers Server Client.

#[local] Open Scope string_scope.
#[local] Open Scope Z_scope.

Inductive ClientState : Type := Idle | Stopping | Terminated.

#[export] Instance ClientState_eq_dec : EqDecision ClientState.
Proof. solve_decision. Defined.

Definition display_client_state (s : ClientState) : string :=
  match s with Idle => "Idle" | Stopping => "Stopping" | Terminated => "Terminated" end.

(** A QUIC endpoint: a name for it, and its local address unless asking for it
    fails. *)
Record Endpoint : Type := MkEndpoint { ep_id : Z; ep_local_addr : option SocketAddr }.

(** The shared [State].  A connection is named by its stable id; servers are
    shared handles, so the maps hold handles into a heap of servers. *)
Record State : Type := MkState {
  st_tcp_servers : gmap SocketAddr nat;
  st_udp_servers : gmap SocketAddr nat;
  st_tcp_receivers : gmap SocketAddr nat;     (** the server whose receiver it is *)
  st_endpoint : option Endpoint;
  st_connections : gset Z;
  st_server_ipv6_supported : option bool;
  st_client_state : ClientState;
  st_tunnel_stat : TunnelStat;
  st_event_bus : event_bus;
  tcp_heap : gmap nat TcpState;
  udp_heap : gmap nat UdpState
}.

Definition state_new : State :=
  MkState ∅ ∅ ∅ None ∅ None Idle stat_default bus_new ∅ ∅.

Definition set_endpoint (e : option Endpoint) (s : State) : State :=
  MkState (st_tcp_servers s) (st_udp_servers s) (st_tcp_receivers s) e (st_connections s)
    (st_server_ipv6_supported s) (st_client_state s) (st_tunnel_stat s) (st_event_bus s) (tcp_heap s) (udp_heap s).
Definition set_connections (c : gset Z) (s : State) : State :=
  MkState (st_tcp_servers s) (st_udp_servers s) (st_tcp_receivers s) (st_endpoint s) c
    (st_server_ipv6_supported s) (st_client_state s) (st_tunnel_stat s) (st_event_bus s) (tcp_heap s) (udp_heap s).
Definition set_ipv6_supported (b : option bool) (s : State) : State :=
  MkState (st_tcp_servers s) (st_udp_servers s) (st_tcp_receivers s) (st_endpoint s) (st_connections s)
    b (st_client_state s) (st_tunnel_stat s) (st_event_bus s) (tcp_heap s) (udp_heap s).
Definition set_client_state (c : ClientState) (s : State) : State :=
  MkState (st_tcp_servers s) (st_udp_servers s) (st_tcp_receivers s) (st_endpoint s) (st_connections s)
    (st_server_ipv6_supported s) c (st_tunnel_stat s) (st_event_bus s) (tcp_heap s) (udp_heap s).
Definition set_event_bus (b : event_bus) (s : State) : State :=
  MkState (st_tcp_servers s) (st_udp_servers s) (st_tcp_receivers s) (st_endpoint s) (st_connections s)
    (st_server_ipv6_supported s) (st_client_state s) (st_tunnel_stat s) b (tcp_heap s) (udp_heap s).

(** What a [Client] lets its user see and register for. *)
Definition get_state (s : State) : ClientState := st_client_state s.
Definition is_server_ipv6_supported (s : State) : option bool := st_server_ipv6_supported s.
Definition register_for_events (s : State) : nat * State :=
  let (receiver, bus) := register (st_event_bus s) in (receiver, set_event_bus bus s).
Definition has_event_listeners (s : State) : bool := has_listeners (st_event_bus s).

Definition should_quit (s : State) : bool :=
  bool_decide (st_client_state s = Stopping) || bool_decide (st_client_state s = Terminated).

(** [post_event] and its callers; [now] is the formatted time. *)
Definition post_event (e : TunnelEvent) (s : State) : State :=
  if has_listeners (st_event_bus s) then set_event_bus (post e (st_event_bus s)) s else s.
Definition post_tunnel_log (now : string) (tunnel : TunnelDescriptor) (msg : string) : State → State :=
  post_event (tunnel_event_new (EvLog msg) now tunnel).
Definition post_tunnel_state (now : string) (tunnel : TunnelDescriptor) (st : TunnelState) : State → State :=
  post_event (tunnel_event_new (EvState st) now tunnel).
Definition post_tunnel_stat (now : string) (tunnel : TunnelDescriptor) (stat : TunnelStat) : State → State :=
  post_event (tunnel_event_new (EvStat stat) now tunnel).

(** * The cached endpoint *)

(** The result tells whether an endpoint was dropped. *)
Definition clear_cached_endpoint_if_idle (s : State) : bool * State :=
  if decide (st_connections s ≠ ∅) then (false, s)
  else (match st_endpoint s with Some _ => true | None => false end, set_endpoint None s).

(** The endpoint [connect_once] uses for [remote_addr]; [create_endpoint] is the
    creation of an endpoint bound to the unspecified address of a family. *)
Definition obtain_endpoint (create_endpoint : SocketAddr → option Endpoint) (remote_addr : SocketAddr) (s : State) :
  option Endpoint * State :=
  let '(cached, s) :=
    match st_endpoint s with
    | Some endpoint =>
        match ep_local_addr endpoint with
        | Some a =>
            if bool_decide (is_ipv6 a = is_ipv6 remote_addr) then (Some endpoint, s)
            else let (reset, s) := clear_cached_endpoint_if_idle s in (if reset then None else Some endpoint, s)
        | None =>
            let (reset, s) := clear_cached_endpoint_if_idle s in (if reset then None else Some endpoint, s)
        end
    | None => (None, s)
    end in
  match cached with
  | Some endpoint => (Some endpoint, s)
  | None =>
      match create_endpoint (socket_addr_with_unspecified_ip_port (is_ipv6 remote_addr)) with
      | Some endpoint => (Some endpoint, set_endpoint (Some endpoint) s)
      | None => (None, s)
      end
  end.

(** * The login *)

(** How a stage that waits for the network ends.  A stage that does not end well
    abandons the connection, so what it wrote before is not kept. *)
Inductive stage : Type := StageOk | StageFailed | StageTimedOut | StageStopping.

Inductive login_error : Type :=
| ConnectFailed (st : stage)
| OpenFailed (st : stage)
| SendLogin (e : msg_error)
| SendLoginStage (st : stage)
| RecvLogin (e : msg_error)
| RecvLoginStage (st : stage)
| LoginRefused (msg : string)
| UnexpectedLoginResponse
| LoginPanic.                  (** [unwrap] of a missing local address *)

(** The environment of one login: how the stages end, the times of the events,
    and what the connection's first statistics are. *)
Record login_env : Type := LoginEnv {
  le_connect : stage;
  le_open : stage;
  le_send : stage;
  le_recv : stage;
  le_now : nat → string;
  le_stats : ConnStats
}.

Section login.
Context `{!Bincode}.

(** [login]: [io] is the first stream of the connection.  Returns the result,
    whether the heartbeat task was started, the state and the stream. *)
Definition login (config : ClientConfig) (env : login_env) (tunnel : TunnelDescriptor) (remote_addr : SocketAddr)
    (login_info : LoginInfo) (connect_timeout : Z) (s : State) (io : auth_io) :
  result login_error bool * State * auth_io :=
  let s := post_tunnel_state (le_now env 0%nat) tunnel Connecting s in
  match format_with_remote_addr login_info remote_addr with
  | None => (Err LoginPanic, s, io)
  | Some route =>
      let s := post_tunnel_log (le_now env 1%nat) tunnel
                 (route +:+ " connecting, idle_timeout=" +:+ display_uint (cc_quic_timeout_ms config)
                  +:+ ", retry_timeout=" +:+ display_uint (retry_max_backoff_delay config)
                  +:+ ", connect_timeout=" +:+ display_uint connect_timeout
                  +:+ ", threads=" +:+ display_uint (cc_workers config)) s in
      match le_connect env with
      | StageOk =>
          match le_open env with
          | StageOk =>
              let s := post_tunnel_log (le_now env 2%nat) tunnel (route +:+ " logging in...") s in
              match le_send env with
              | StageOk =>
                  match send_to (ReqLogin login_info) (ai_send io) with
                  | (Err e, w) => (Err (SendLogin e), s, AuthIo (ai_recv io) w)
                  | (Ok _, w) =>
                      match le_recv env with
                      | StageOk =>
                          match recv_from true (ai_recv io) with
                          | (Err e, r) => (Err (RecvLogin e), s, AuthIo r w)
                          | (Ok (RespFailure msg), r) => (Err (LoginRefused msg), s, AuthIo r w)
                          | (Ok (RespSuccess caps), r) =>
                              let s := set_ipv6_supported (Some (ipv6_supported caps)) s in
                              let s := post_tunnel_state (le_now env 3%nat) tunnel Connected s in
                              let s := post_tunnel_log (le_now env 4%nat) tunnel
                                         (route +:+ " login succeeded, ipv6_supported="
                                          +:+ (if ipv6_supported caps then "true" else "false")) s in
                              let s := post_tunnel_stat (le_now env 5%nat) tunnel
                                         (build_tunnel_stat_from_connection (le_stats env)) s in
                              (Ok (negb ((cc_heartbeat_interval_ms config =? 0)
                                         || (cc_heartbeat_timeout_ms config =? 0))), s, AuthIo r w)
                          | (Ok _, r) => (Err UnexpectedLoginResponse, s, AuthIo r w)
                          end
                      | st => (Err (RecvLoginStage st), s, AuthIo (ai_recv io) w)
                      end
                  end
              | st => (Err (SendLoginStage st), s, io)
              end
          | st => (Err (OpenFailed st), s, io)
          end
      | st => (Err (ConnectFailed st), s, io)
      end
  end.
End login.

(** * One connection attempt *)
Inductive connect_error : Type :=
| TlsError (e : tls_error)
| AddrError (e : addr_error)
| EndpointError
| LoginError (e : login_error).

Section connect.
Context `{!Bincode}.
Context (parse_server_name : string → option server_name) (tls : tls_world).
Context (resolve : dns_lookup) (ipv6_route : bool).
Context (create_endpoint : SocketAddr → option Endpoint).
Context (describe : connect_error → string).

(** [prepare_login_config]: the server's address and the name to present; the
    rotation counter moves on once the verifier is ready. *)
Definition prepare_login_config (config : ClientConfig) (rotation : Z) :
  result connect_error (SocketAddr * string) * Z :=
  match parse_client_config_and_domain parse_server_name tls config with
  | Err e => (Err (TlsError e), rotation)
  | Ok (_, verify_name) =>
      let (sni_name, rotation) := select_sni_name (cc_sni_names config) verify_name rotation in
      (match parse_server_addr resolve ipv6_route config with
       | Ok a => Ok (a, sni_name)
       | Err e => Err (AddrError e)
       end, rotation)
  end.

Definition connect_once (config : ClientConfig) (env : login_env) (tunnel : TunnelDescriptor)
    (login_info : LoginInfo) (connect_timeout : Z) (rotation : Z) (s : State) (io : auth_io) :
  result connect_error bool * Z * State * auth_io :=
  let (login_cfg, rotation) := prepare_login_config config rotation in
  let '(result, s, io) :=
    match login_cfg with
    | Err e => (Err e, s, io)
    | Ok (remote_addr, _) =>
        match obtain_endpoint create_endpoint remote_addr s with
        | (None, s) => (Err EndpointError, s, io)
        | (Some _, s) =>
            match login config env tunnel remote_addr login_info connect_timeout s io with
            | (r, s, io) => (map_err LoginError r, s, io)
            end
        end
    end in
  let s := match result with
           | Err err =>
               if negb (should_quit s) then
                 let s := post_tunnel_log (le_now env 6%nat) tunnel
                            ("connect/login failed, will recreate endpoint, err=" +:+ describe err) s in
                 (clear_cached_endpoint_if_idle s).2
               else s
           | Ok _ => s
           end in
  (result, rotation, s, io).
End connect.

(** ** The endpoint cache *)

Lemma post_event_fields e s :
  st_endpoint (post_event e s) = st_endpoint s ∧ st_connections (post_event e s) = st_connections s ∧
  st_server_ipv6_supported (post_event e s) = st_server_ipv6_supported s ∧
  st_client_state (post_event e s) = st_client_state s.
Proof. unfold post_event. by destruct (has_listeners _). Qed.

Definition family_ok (create_endpoint : SocketAddr → option Endpoint) : Prop :=
  ∀ a e, create_endpoint a = Some e → ∃ b, ep_local_addr e = Some b ∧ is_ipv6 b = is_ipv6 a.

(** The endpoint cache: while any connection is registered, the cached
    endpoint is never replaced (the connections of other tunnels run on it);
    otherwise the endpoint used has the address family of the server and is the
    one that stays cached.  Nothing but the cache changes. *)
Theorem obtain_endpoint_spec create_endpoint remote s e s' :
  family_ok create_endpoint → obtain_endpoint create_endpoint remote s = (Some e, s') →
  st_endpoint s' = Some e ∧ st_connections s' = st_connections s ∧
  (st_connections s ≠ ∅ → st_endpoint s = None ∨ st_endpoint s = Some e) ∧
  (st_connections s = ∅ → ∃ a, ep_local_addr e = Some a ∧ is_ipv6 a = is_ipv6 remote).
Proof.
  intros Hfam. unfold obtain_endpoint, clear_cached_endpoint_if_idle. intros Ho.
  assert (∀ s0, match create_endpoint (socket_addr_with_unspecified_ip_port (is_ipv6 remote)) with
      | Some endpoint => (Some endpoint, set_endpoint (Some endpoint) s0) | None => (None, s0) end = (Some e, s') →
      st_endpoint s' = Some e ∧ st_connections s' = st_connections s0 ∧
      ∃ a, ep_local_addr e = Some a ∧ is_ipv6 a = is_ipv6 remote) as Hcreate.
  { intros s0 Hc. destruct (create_endpoint _) as [e'|] eqn:E; [|done]. simplify_eq.
    destruct (Hfam _ _ E) as (b & Hb & Hf). split_and!; [done..|]. exists b. split; [done|].
    rewrite Hf. by destruct (is_ipv6 remote). }
  destruct (st_endpoint s) as [e0|] eqn:He0; [|apply Hcreate in Ho as (? & ? & ?); auto].
  destruct (decide (st_connections s ≠ ∅)) as [Hc|Hc].
  - destruct (ep_local_addr e0) as [a|] eqn:Ha; [destruct (bool_decide _) eqn:Hb|]; simplify_eq; split_and!; auto; done.
  - apply dec_stable in Hc. destruct (ep_local_addr e0) as [a|] eqn:Ha; [destruct (bool_decide _) eqn:Hb|].
    + simplify_eq. apply bool_decide_eq_true in Hb. split_and!; eauto; done.
    + apply Hcreate in Ho as (? & ? & ?). split_and!; auto; done.
    + apply Hcreate in Ho as (? & ? & ?). split_and!; auto; done.
Qed.

Definition sample_create (a : SocketAddr) : option Endpoint := Some (MkEndpoint 2 (Some (sa_set_port a 40000))).
Definition sample_v4_state : State :=
  set_endpoint (Some (MkEndpoint 1 (Some (SockV4 0 50000)))) state_new.

Lemma sample_create_family : family_ok sample_create.
Proof. intros [] e [= <-]; eexists; split; done. Qed.

Lemma obtain_endpoint_spec_witness :
  (obtain_endpoint sample_create (SockV6 1 443 0 0) sample_v4_state).1 = Some (MkEndpoint 2 (Some (SockV6 0 40000 0 0))) ∧
  ∃ a, Some (SockV6 0 40000 0 0) = Some a ∧ is_ipv6 a = true.
Proof.
  split; [reflexivity|].
  apply (obtain_endpoint_spec sample_create (SockV6 1 443 0 0) sample_v4_state
    (MkEndpoint 2 (Some (SockV6 0 40000 0 0))) (obtain_endpoint sample_create (SockV6 1 443 0 0) sample_v4_state).2
    sample_create_family); reflexivity.
Defined.

(** ** The login against the server *)

Definition all_stages_ok (env : login_env) : Prop :=
  le_connect env = StageOk ∧ le_open env = StageOk ∧ le_send env = StageOk ∧ le_recv env = StageOk.

Lemma post_tunnel_ipv6 e s : st_server_ipv6_supported (post_event e s) = st_server_ipv6_supported s.
Proof. apply post_event_fields. Qed.

(** [s'] is [s] with other events on its bus. *)
Definition only_events (s s' : State) : Prop := s' = set_event_bus (st_event_bus s') s.

Lemma only_events_refl s : only_events s s.
Proof. by destruct s. Qed.

Lemma only_events_post e s s' : only_events s s' → only_events s (post_event e s').
Proof. unfold post_event, only_events. intros ->. by destruct (has_listeners _). Qed.

Section agreement.
Context `{!Bincode, !BincodeLaws}.
Context (bind_listener : UpstreamType → SocketAddr → option SocketAddr).

(** How the login ends, by what arrives as an answer. *)
Lemma login_answer config env tunnel remote info timeout s r :
  all_stages_ok env → is_Some (format_with_remote_addr info remote) → message_fits (ReqLogin info) →
  ∃ res s' io', login config env tunnel remote info timeout s (AuthIo r open_writer) = (res, s', io') ∧
    w_out (ai_send io') = message_frame (ReqLogin info) ∧
    match recv_from true r with
    | (Ok (RespSuccess caps), _) => is_ok res = true ∧ st_server_ipv6_supported s' = Some (ipv6_supported caps)
    | _ => is_ok res = false ∧ only_events s s'
    end.
Proof.
  intros (Hc & Ho & Hs & Hr) [route Hroute] Hfit. unfold login. rewrite Hroute, Hc, Ho, Hs, Hr.
  cbn [ai_send ai_recv]. rewrite (send_fits (ReqLogin info) open_writer Hfit eq_refl). cbn [fst snd].
  destruct (recv_from true r) as [[[i|q|q|msg|caps]|e] r']; eexists _, _, _; (split; [reflexivity|]);
    unfold post_tunnel_stat, post_tunnel_log, post_tunnel_state; rewrite ?post_tunnel_ipv6;
    cbn [set_ipv6_supported st_server_ipv6_supported]; rewrite ?post_tunnel_ipv6;
    auto 8 using only_events_post, only_events_refl.
Qed.

(** C2: Client and server agree about a login.  On a connection on which no
    stage of the login fails or times out, and with messages within the 64 KiB
    limit, whatever the chunks in which the bytes arrive: the client sends exactly
    its login; if the server grants a tunnel, the client's login succeeds, the
    password was right, the tunnel is the one of the client's login and the
    client learns whether the server supports IPv6; if the server refuses for any
    reason, the client's login fails and nothing of the client's state but the
    events it has posted has changed.  The tunnel is one the client can describe
    in its log: the description of a network tunnel without a local address
    panics. *)
Theorem login_agreement config env tunnel remote info timeout s sconfig ipv6 r_srv r_cli :
  all_stages_ok env → is_Some (format_with_remote_addr info remote) →
  message_fits (ReqLogin info) → message_fits (RespSuccess (mkServerCapabilities ipv6)) →
  (∀ cfg a, tunnel_normalize (li_tunnel info) = NetworkBased cfg → upstream_addr (upstream cfg) = Some a →
     message_fits (RespFailure (bind_failure_message (upstream_type (upstream cfg)) a))) →
  delivers r_srv (message_frame (ReqLogin info)) →
  ∀ granted srv, authenticate_connection bind_listener sconfig ipv6 (AuthIo r_srv open_writer) = (granted, srv) →
  delivers r_cli (w_out (ai_send srv)) →
  ∃ res s' io', login config env tunnel remote info timeout s (AuthIo r_cli open_writer) = (res, s', io') ∧
    w_out (ai_send io') = message_frame (ReqLogin info) ∧
    match granted with
    | Ok (ty, _) =>
        is_ok res = true ∧ st_server_ipv6_supported s' = Some ipv6 ∧
        li_password info = sc_password sconfig ∧
        tunnel_matches bind_listener sconfig (tunnel_normalize (li_tunnel info)) ty
    | Err _ => is_ok res = false ∧ only_events s s'
    end.
Proof.
  intros Henv Hroute Hreq Hok Hfail Hsrv granted srv Hauth Hcli.
  destruct (recv_fits false (ReqLogin info) r_srv []) as (r1 & Hr1 & _); [done|by rewrite app_nil_r|].
  destruct (authenticate_cases bind_listener sconfig ipv6 (AuthIo r_srv open_writer) _ _ Hr1 eq_refl Hok Hfail)
    as (res & w' & Hres & Hcase).
  rewrite Hauth in Hres. simplify_eq.
  destruct (login_answer config env tunnel remote info timeout s r_cli Henv Hroute Hreq)
    as (cres & s' & io' & Hl & Hout & Hans).
  exists cres, s', io'. split; [done|]. split; [done|]. destruct res as [[ty to]|e].
  - destruct Hcase as (Hpw & Hm & Hw). cbn in Hcli. rewrite Hw in Hcli. cbn [ai_send open_writer w_out app] in Hcli.
    destruct (recv_fits true _ r_cli [] Hok) as (r2 & Hr2 & _); [by rewrite app_nil_r|].
    rewrite Hr2 in Hans. by destruct Hans.
  - cbn in Hcli. destruct Hcase as [->|(msg & Hmsg & Hw)].
    + unfold recv_from in Hans.
      rewrite (eff_bind_err _ _ _ _ _ (map_err_err MsgIo _ _ _ _ (read_uint_short true 4 r_cli [] Hcli ltac:(simpl; lia))))
        in Hans. done.
    + rewrite Hw in Hcli. destruct (recv_fits true _ r_cli [] Hmsg) as (r2 & Hr2 & _); [by rewrite app_nil_r|].
      by rewrite Hr2 in Hans.
Qed.
End agreement.

Definition sample_env : login_env :=
  LoginEnv StageOk StageOk StageOk StageOk (λ _, "2024-01-01 00:00:00.000")
    (MkConnStats 1 2 3 4 5 6 7 8 9 10 11 12).
Definition sample_descriptor : TunnelDescriptor := MkDescriptor (IdNetwork 0) Tcp ModeIn.

Lemma login_agreement_witness :
  ∃ res s' io', login (sample_client_config "10.0.0.1:443" "" []) sample_env sample_descriptor sample_addr good_login 3000
      state_new (AuthIo [Chunk (message_frame (RespSuccess (mkServerCapabilities true)))] open_writer) = (res, s', io') ∧
    w_out (ai_send io') = message_frame (ReqLogin good_login) ∧
    is_ok res = true ∧ st_server_ipv6_supported s' = Some true ∧
    li_password good_login = sc_password sample_server_config ∧
    tunnel_matches sample_bind sample_server_config (tunnel_normalize (li_tunnel good_login))
      (TcpIn (SockV4 IPV4_LOCALHOST 9000)).
Proof.
  eapply (login_agreement sample_bind (sample_client_config "10.0.0.1:443" "" []) sample_env sample_descriptor sample_addr
    good_login 3000 state_new sample_server_config true [Chunk (message_frame (ReqLogin good_login))]
    [Chunk (message_frame (RespSuccess (mkServerCapabilities true)))]) with
    (granted := Ok (TcpIn (SockV4 IPV4_LOCALHOST 9000), MkTimeouts 60000 5000)).
  - by repeat split.
  - eexists; reflexivity.
  - split; [by apply (bool_decide_unpack _); vm_compute|by vm_compute].
  - split; [done|by vm_compute].
  - intros cfg a [= <-] [= <-]. split; [by apply (bool_decide_unpack _); vm_compute|by vm_compute].
  - exists []. by rewrite app_nil_r.
  - vm_compute; reflexivity.
  - exists []. by vm_compute.
Defined.

(** * Listeners *)

(** [get_or_init_tcp_receiver] for the server [h] at [addr]: the result says
    whether the tunnel gets the receiver. *)
Definition get_or_init_tcp_receiver (addr : SocketAddr) (h : nat) (s : State) : option nat * State :=
  match st_tcp_receivers s !! addr with
  | Some r => (Some r, s)
  | None =>
      match tcp_heap s !! h with
      | Some server =>
          let (taken, server) := tcp_take_receiver server in
          let heap := <[h := server]> (tcp_heap s) in
          let receivers := if taken then <[addr := h]> (st_tcp_receivers s) else st_tcp_receivers s in
          (if taken then Some h else None,
           MkState (st_tcp_servers s) (st_udp_servers s) receivers (st_endpoint s) (st_connections s)
             (st_server_ipv6_supported s) (st_client_state s) (st_tunnel_stat s) (st_event_bus s) heap (udp_heap s))
      | None => (None, s)
      end
  end.

(** [start_tcp_server]: [bind] is the handle of the listener the retried bind
    yields, if it succeeds. *)
Definition start_tcp_server (bind : option nat) (addr : SocketAddr) (s : State) : option nat * State :=
  match bind with
  | None => (None, s)
  | Some h =>
      (Some h,
       MkState (<[addr := h]> (st_tcp_servers s)) (st_udp_servers s) (st_tcp_receivers s) (st_endpoint s)
         (st_connections s) (st_server_ipv6_supported s) (st_client_state s) (st_tunnel_stat s)
         (st_event_bus s) (<[h := tcp_bind addr]> (tcp_heap s)) (udp_heap s))
  end.

(** The two listener lookups of [serve_outbound_tcp]: the server at [addr],
    started if there is none, and its receiver. *)
Definition outbound_tcp_receiver (bind : option nat) (addr : SocketAddr) (s : State) : option nat * State :=
  match st_tcp_servers s !! addr with
  | Some h => get_or_init_tcp_receiver addr h s
  | None =>
      match start_tcp_server bind addr s with
      | (None, s) => (None, s)
      | (Some h, s) => get_or_init_tcp_receiver addr h s
      end
  end.

(** The locked part of [stop] and [stop_async]: every registered connection is
    closed, every listener told to stop, and the maps emptied.  Returns the
    connections closed and the UDP listeners that get a [Quit].  A poisoned lock,
    which makes [stop] skip this part, is not modelled: that takes a panic of
    another task while it holds the lock. *)
Definition stop_sweep (s : State) : State * gset Z * list nat :=
  let shut h := alter tcp_shutdown h in
  (MkState ∅ ∅ ∅ (st_endpoint s) ∅ (st_server_ipv6_supported s) (st_client_state s) (st_tunnel_stat s)
     (st_event_bus s) (foldr shut (tcp_heap s) (map_to_list (st_tcp_servers s)).*2) (udp_heap s),
   st_connections s, (map_to_list (st_udp_servers s)).*2).

(** * The life cycle of the client

    Each tunnel runs [connect_and_serve]; [stop] runs beside them.  The steps
    are the sections of the code between two accesses to the client's state and
    its table of connections. *)

Inductive phase : Type :=
| PConnecting             (** in the retried [connect_once] *)
| PChecked (c : Z)        (** connected, [should_quit] was false *)
| PServing (c : Z)        (** registered, waiting for the connection to close *)
| PLeft                   (** unregistered, before the last check *)
| PDone.

Inductive stop_pc : Type := StopNone | StopBegun | StopSwept | StopEnded.

Record client_sys : Type := ClientSys {
  cl_state : State;
  cl_tasks : gmap nat phase;
  cl_closed : gset Z;        (** connections closed by anyone *)
  cl_used : gset Z;          (** every connection ever made *)
  cl_stop : stop_pc;
  cl_late : gset nat         (** tunnels between check and registration at the sweep *)
}.

Definition checked_tasks (tasks : gmap nat phase) : gset nat :=
  dom (filter (λ x : nat * phase, match x.2 with PChecked _ => true | _ => false end = true) tasks).

Inductive client_step : client_sys → client_sys → Prop :=
| LConnected s ts cl us pc lt t c :
    ts !! t = Some PConnecting → c ∉ us → should_quit s = false →
    client_step (ClientSys s ts cl us pc lt) (ClientSys s (<[t := PChecked c]> ts) cl ({[c]} ∪ us) pc lt)
| LConnectedQuit s ts cl us pc lt t c :
    ts !! t = Some PConnecting → c ∉ us → should_quit s = true →
    client_step (ClientSys s ts cl us pc lt) (ClientSys s (<[t := PDone]> ts) ({[c]} ∪ cl) ({[c]} ∪ us) pc lt)
| LConnectStopped s ts cl us pc lt t :
    ts !! t = Some PConnecting → should_quit s = true →
    client_step (ClientSys s ts cl us pc lt) (ClientSys s (<[t := PDone]> ts) cl us pc lt)
| LRegister s ts cl us pc lt t c :
    ts !! t = Some (PChecked c) →
    client_step (ClientSys s ts cl us pc lt)
      (ClientSys (set_connections ({[c]} ∪ st_connections s) s) (<[t := PServing c]> ts) cl us pc lt)
| LClosed s ts cl us pc lt c :
    c ∈ us → client_step (ClientSys s ts cl us pc lt) (ClientSys s ts ({[c]} ∪ cl) us pc lt)
| LLeave s ts cl us pc lt t c :
    ts !! t = Some (PServing c) → c ∈ cl →
    client_step (ClientSys s ts cl us pc lt)
      (ClientSys (set_connections (st_connections s ∖ {[c]}) s) (<[t := PLeft]> ts) cl us pc lt)
| LAgain s ts cl us pc lt t :
    ts !! t = Some PLeft →
    client_step (ClientSys s ts cl us pc lt)
      (ClientSys s (<[t := if should_quit s then PDone else PConnecting]> ts) cl us pc lt)
| LStopBegin s ts cl us lt :
    client_step (ClientSys s ts cl us StopNone lt) (ClientSys (set_client_state Stopping s) ts cl us StopBegun lt)
| LStopSweep s ts cl us lt s' closed quits :
    stop_sweep s = (s', closed, quits) →
    client_step (ClientSys s ts cl us StopBegun lt) (ClientSys s' ts (closed ∪ cl) us StopSwept (checked_tasks ts))
| LStopEnd s ts cl us lt :
    client_step (ClientSys s ts cl us StopSwept lt) (ClientSys (set_client_state Terminated s) ts cl us StopEnded lt).

(** A client with tunnels [0 .. n-1], all connecting. *)
Inductive client_reachable (n : nat) : client_sys → Prop :=
| ClInit : client_reachable n (ClientSys state_new (gset_to_gmap PConnecting (set_seq 0 n)) ∅ ∅ StopNone ∅)
| ClNext x y : client_reachable n x → client_step x y → client_reachable n y.

Definition swept (pc : stop_pc) : bool := match pc with StopSwept | StopEnded => true | _ => false end.

Record client_inv (x : client_sys) : Prop := {
  inv_registered : ∀ t c, cl_tasks x !! t = Some (PServing c) →
    c ∈ st_connections (cl_state x) ∨ c ∈ cl_closed x;
  inv_state : st_client_state (cl_state x) =
    match cl_stop x with StopNone => Idle | StopEnded => Terminated | _ => Stopping end;
  inv_checked : swept (cl_stop x) = true → ∀ t c, cl_tasks x !! t = Some (PChecked c) → t ∈ cl_late x;
  inv_serving : swept (cl_stop x) = true → ∀ t c, cl_tasks x !! t = Some (PServing c) →
    c ∈ cl_closed x ∨ t ∈ cl_late x
}.

Lemma should_quit_state s : should_quit s = bool_decide (st_client_state s ≠ Idle).
Proof. unfold should_quit. by destruct (st_client_state s). Qed.

Lemma elem_of_checked ts t c : ts !! t = Some (PChecked c) → t ∈ checked_tasks ts.
Proof. intros Ht. apply elem_of_dom. exists (PChecked c). by apply map_lookup_filter_Some. Qed.

(** A phase that is neither checked nor serving keeps the invariant. *)
Lemma client_inv_quiet s ts cl us us' pc lt t p cl' :
  client_inv (ClientSys s ts cl us pc lt) → cl ⊆ cl' →
  match p with PChecked _ => swept pc = false | PServing _ => False | _ => True end →
  client_inv (ClientSys s (<[t := p]> ts) cl' us' pc lt).
Proof.
  intros [H1 H2 H3 H4] Hcl Hp. simpl in *. split; simpl.
  - intros t' c [[<- ->]|[? Ht]]%lookup_insert_Some; [done|]. destruct (H1 t' c Ht); auto.
  - done.
  - intros Hs t' c [[<- ->]|[? Ht]]%lookup_insert_Some; [congruence|eauto].
  - intros Hs t' c [[<- ->]|[? Ht]]%lookup_insert_Some; [done|]. destruct (H4 Hs t' c Ht); auto.
Qed.

Lemma client_step_inv x y : client_step x y → client_inv x → client_inv y.
Proof.
  intros Hst Hi.
  destruct Hst as [s ts cl us pc lt t c Ht Hc Hq|s ts cl us pc lt t c Ht Hc Hq|s ts cl us pc lt t Ht Hq
                  |s ts cl us pc lt t c Ht|s ts cl us pc lt c Hc|s ts cl us pc lt t c Ht Hc|s ts cl us pc lt t Ht
                  |s ts cl us lt|s ts cl us lt s' closed quits Hsw|s ts cl us lt].
  - eapply client_inv_quiet; [done..|]. destruct Hi as [_ H2 _ _]. simpl in H2.
    rewrite should_quit_state, H2 in Hq. by destruct pc.
  - eapply client_inv_quiet; [done| |done]. apply union_subseteq_r.
  - by eapply client_inv_quiet.
  - destruct Hi as [H1 H2 H3 H4]. simpl in *. split; simpl.
    + intros t' c' [[<- [= <-]]|[? Ht']]%lookup_insert_Some.
      * left. apply elem_of_union_l, elem_of_singleton_2. done.
      * destruct (H1 t' c' Ht'); [left; by apply elem_of_union_r|by right].
    + done.
    + intros Hs t' c' [[<- ?]|[? Ht']]%lookup_insert_Some; [done|eauto].
    + intros Hs t' c' [[<- [= <-]]|[? Ht']]%lookup_insert_Some; [right; eauto|eauto].
  - destruct Hi as [H1 H2 H3 H4]. simpl in *. split; simpl; [|done|done|].
    + intros t' c' Ht'. destruct (H1 t' c' Ht'); [by left|right; by apply elem_of_union_r].
    + intros Hs t' c' Ht'. destruct (H4 Hs t' c' Ht'); [left; by apply elem_of_union_r|by right].
  - destruct Hi as [H1 H2 H3 H4]. simpl in *. split; simpl; [| done | |].
    + intros t' c' [[<- ?]|[? Ht']]%lookup_insert_Some; [done|].
      destruct (decide (c' = c)) as [->|Hne]; [by right|].
      destruct (H1 t' c' Ht') as [?|?]; [left|by right].
      apply elem_of_difference. split; [done|]. by intros ?%elem_of_singleton.
    + intros Hs t' c' [[<- ?]|[? Ht']]%lookup_insert_Some; [done|eauto].
    + intros Hs t' c' [[<- ?]|[? Ht']]%lookup_insert_Some; [done|eauto].
  - eapply client_inv_quiet; [done..|]. by destruct (should_quit s).
  - destruct Hi as [H1 H2 H3 H4]. by split.
  - unfold stop_sweep in Hsw. simplify_eq. destruct Hi as [H1 H2 H3 H4]. simpl in *. split; simpl.
    + intros t c Ht. right. apply elem_of_union. by destruct (H1 t c Ht); auto.
    + done.
    + intros _ t c Ht. by eapply elem_of_checked.
    + intros _ t c Ht. left. apply elem_of_union. by destruct (H1 t c Ht); auto.
  - destruct Hi as [H1 H2 H3 H4]. split; simpl; auto.
Qed.

Lemma client_inv_init n :
  client_inv (ClientSys state_new (gset_to_gmap PConnecting (set_seq 0 n)) ∅ ∅ StopNone ∅).
Proof. split; simpl; try done. intros t c [_ ?]%lookup_gset_to_gmap_Some. done. Qed.

Lemma client_reachable_inv n x : client_reachable n x → client_inv x.
Proof. induction 1; [apply client_inv_init|by eapply client_step_inv]. Qed.

(** C24: When [stop] has returned, every connection a tunnel is still serving has
    been closed, except those of tunnels that had passed their last
    [should_quit] check but not yet registered their connection at the moment
    [stop] swept the table; and no tunnel but those can start serving any more. *)
Theorem stop_closes_connections n x :
  client_reachable n x → cl_stop x = StopEnded →
  st_client_state (cl_state x) = Terminated ∧
  (∀ t c, cl_tasks x !! t = Some (PServing c) → c ∈ cl_closed x ∨ t ∈ cl_late x) ∧
  (∀ t c, cl_tasks x !! t = Some (PChecked c) → t ∈ cl_late x).
Proof.
  intros Hr%client_reachable_inv Hend. destruct Hr as [H1 H2 H3 H4].
  rewrite Hend in *. split_and!; [done|by apply H4|by apply H3].
Qed.

(** One tunnel, its connection 7 registered and closed by [stop]. *)
Definition stopped_clean : client_sys :=
  ClientSys (set_client_state Terminated (stop_sweep (set_client_state Stopping (set_connections {[7]} state_new))).1.1)
    {[0%nat := PServing 7]} {[7]} {[7]} StopEnded ∅.

(** One tunnel that registers its connection 7 only after the sweep. *)
Definition stopped_late : client_sys :=
  ClientSys (set_connections {[7]} (set_client_state Terminated (stop_sweep (set_client_state Stopping state_new)).1.1))
    {[0%nat := PServing 7]} ∅ {[7]} StopEnded {[0%nat]}.

Lemma client_next n x y z : client_reachable n x → client_step x y → y = z → client_reachable n z.
Proof. intros Hx Hs <-. by eapply ClNext. Qed.

Lemma connected_once : client_reachable 1 (ClientSys state_new {[0%nat := PChecked 7]} ∅ {[7]} StopNone ∅).
Proof.
  eapply client_next; [apply ClInit|apply (LConnected _ _ _ _ _ _ 0 7)|by vm_compute];
    [by vm_compute|by apply not_elem_of_empty|done].
Qed.

Lemma stopped_clean_reachable : client_reachable 1 stopped_clean.
Proof.
  eapply client_next; [|apply LStopEnd|reflexivity].
  eapply client_next; [|apply (LStopSweep (set_client_state Stopping (set_connections {[7]} state_new))
    {[0%nat := PServing 7]} ∅ {[7]} ∅ _ _ _ eq_refl)|by vm_compute]. eapply ClNext; [|apply LStopBegin].
  eapply client_next; [apply connected_once|by apply (LRegister _ _ _ _ _ _ 0 7)|by vm_compute].
Qed.

Lemma stop_closes_connections_witness :
  st_client_state (cl_state stopped_clean) = Terminated ∧
  (∀ t c, cl_tasks stopped_clean !! t = Some (PServing c) → c ∈ cl_closed stopped_clean ∨ t ∈ cl_late stopped_clean) ∧
  (∀ t c, cl_tasks stopped_clean !! t = Some (PChecked c) → t ∈ cl_late stopped_clean).
Proof. apply (stop_closes_connections 1 stopped_clean stopped_clean_reachable). reflexivity. Defined.

(** The exception is real: a tunnel can pass its check, [stop] run to
    completion, and the tunnel then register and serve a connection that nobody
    has closed, in a client that reports [Terminated]. *)
Theorem stop_misses_late_connection :
  client_reachable 1 stopped_late ∧
  st_client_state (cl_state stopped_late) = Terminated ∧
  cl_tasks stopped_late !! 0%nat = Some (PServing 7) ∧ (7 ∉ cl_closed stopped_late) ∧
  (7 ∈ st_connections (cl_state stopped_late)).
Proof.
  split; [|split_and!; [done|done|by apply (bool_decide_unpack _); vm_compute..]].
  eapply client_next; [|by apply (LRegister (set_client_state Terminated (stop_sweep (set_client_state Stopping state_new)).1.1)
    {[0%nat := PChecked 7]} ∅ {[7]} StopEnded {[0%nat]} 0 7)|by vm_compute].
  eapply ClNext; [|apply LStopEnd]. eapply client_next; [|apply (LStopSweep (set_client_state Stopping state_new)
    {[0%nat := PChecked 7]} ∅ {[7]} ∅ _ _ _ eq_refl)|by vm_compute].
  eapply ClNext; [apply connected_once|apply LStopBegin].
Qed.

(** A tunnel that reconnects gets the receiver it already has: once
    [serve_outbound_tcp] obtained the receiver of a local address, asking again
    succeeds with the same receiver and changes nothing, whatever binding a new
    listener would give; in particular the listener stays active. *)
Theorem reconnect_keeps_receiver bind bind' addr s h s' :
  outbound_tcp_receiver bind addr s = (Some h, s') →
  outbound_tcp_receiver bind' addr s' = (Some h, s').
Proof.
  assert (∀ h0 s0, get_or_init_tcp_receiver addr h0 s0 = (Some h, s') →
    st_tcp_servers s' = st_tcp_servers s0 ∧ st_tcp_receivers s' !! addr = Some h) as Hget.
  { intros h0 s0 Hg. unfold get_or_init_tcp_receiver in Hg.
    destruct (st_tcp_receivers s0 !! addr) eqn:Hr; [by simplify_eq|].
    destruct (tcp_heap s0 !! h0) as [server|]; [|done].
    destruct (tcp_take_receiver server) as [[] server']; simplify_eq. simpl. by rewrite lookup_insert_eq. }
  intros Ho. assert (∃ h1, st_tcp_servers s' !! addr = Some h1 ∧ st_tcp_receivers s' !! addr = Some h) as (h1 & Hs & Hr).
  { unfold outbound_tcp_receiver, start_tcp_server in Ho. destruct (st_tcp_servers s !! addr) as [h0|] eqn:Hh.
    - apply Hget in Ho as [-> ?]. eauto.
    - destruct bind as [h0|]; [|done]. apply Hget in Ho as [-> ?]. simpl. rewrite lookup_insert_eq. eauto. }
  unfold outbound_tcp_receiver, start_tcp_server, get_or_init_tcp_receiver. by rewrite Hs, Hr.
Qed.

Lemma reconnect_keeps_receiver_witness :
  outbound_tcp_receiver None sample_addr (outbound_tcp_receiver (Some 3%nat) sample_addr state_new).2
  = (Some 3%nat, (outbound_tcp_receiver (Some 3%nat) sample_addr state_new).2).
Proof. apply (reconnect_keeps_receiver (Some 3%nat) None sample_addr state_new). reflexivity. Defined.
