(* ===== verification/ClientStage.v ===== *)
(** The stages of a login with their clocks ([run_login_stage] and
    [wait_until_stopping] of [src/src/client.rs]): how long a login can take,
    and how soon it notices that the client is stopping.  Times are milliseconds
    since the start of the stage; what runs between two stages takes none. *)
From S2P Require Import Prelude Io Net Config Message BincodeStd EventBus Servers Server Client ClientRun.

#[local] Open Scope Z_scope.

Definition STOP_CHECK_INTERVAL_MS : Z := 100.

(** What happens to the future of a stage: when it is ready and whether it
    succeeded ([None]: never), and which branch the [select!] takes if both are
    ready at the same moment. *)
Record stage_script : Type := StageScript {
  ss_done : option (Z * bool);
  ss_stop_first : bool
}.

(** [wait_until_stopping]: the client starts to stop at [stop], if ever; the
    state is looked at right away and then every 100 ms. *)
Definition wait_until_stopping (stop : option Z) : option Z :=
  t ← stop;
  Some (if t <=? 0 then 0
        else STOP_CHECK_INTERVAL_MS * ((t + (STOP_CHECK_INTERVAL_MS - 1)) / STOP_CHECK_INTERVAL_MS)).

(** [tokio::time::timeout] looks at the future before the clock. *)
Definition with_timeout (timeout : Z) (done : option (Z * bool)) : stage * Z :=
  match done with
  | Some (t, ok) => if t <=? timeout then (if ok then StageOk else StageFailed, t) else (StageTimedOut, timeout)
  | None => (StageTimedOut, timeout)
  end.

Definition run_login_stage (timeout : Z) (stop : option Z) (sc : stage_script) : stage * Z :=
  let '(st, t) := with_timeout timeout (ss_done sc) in
  match wait_until_stopping stop with
  | None => (st, t)
  | Some a => if (a <? t) || ((a =? t) && ss_stop_first sc) then (StageStopping, a) else (st, t)
  end.

(** The stages of a login, one after the other until one does not succeed: how
    each ended and the time that passed. *)
Fixpoint run_stages (timeout : Z) (stop : option Z) (scs : list stage_script) : list stage * Z :=
  match scs with
  | [] => ([], 0)
  | sc :: scs' =>
      match run_login_stage timeout stop sc with
      | (StageOk, t) =>
          let (sts, elapsed) := run_stages timeout ((λ x, x - t) <$> stop) scs' in (StageOk :: sts, t + elapsed)
      | (st, t) => ([st], t)
      end
  end.

(** The four stages of [login]; a stage that was not reached counts as not ended. *)
Definition login_stages (sts : list stage) (now : nat → string) (stats : ConnStats) : login_env :=
  let nth i := default StageTimedOut (sts !! i) in
  LoginEnv (nth 0%nat) (nth 1%nat) (nth 2%nat) (nth 3%nat) now stats.

(** * Bounds *)

Lemma wait_until_stopping_bound t a :
  wait_until_stopping (Some t) = Some a →
  Z.max 0 t <= a ∧ a < Z.max 0 t + STOP_CHECK_INTERVAL_MS ∧ (t <= 0 → a = 0).
Proof.
  unfold wait_until_stopping, STOP_CHECK_INTERVAL_MS. cbn. intros [= <-].
  destruct (Z.leb_spec t 0); [lia|].
  pose proof (Z.div_mod (t + (100 - 1)) 100 ltac:(lia)). pose proof (Z.mod_pos_bound (t + (100 - 1)) 100 ltac:(lia)). lia.
Qed.

(** Elapsed times in the presence of a stop. *)
Definition prompt (stop : option Z) (t : Z) : Prop :=
  ∀ u, stop = Some u → t < Z.max 0 u + STOP_CHECK_INTERVAL_MS ∧ (u <= 0 → t <= 0).

(** Futures become ready after their stage started. *)
Definition script_ok (sc : stage_script) : Prop := match ss_done sc with Some (t, _) => 0 <= t | None => True end.

#[export] Instance script_ok_dec sc : Decision (script_ok sc).
Proof. unfold script_ok. destruct (ss_done sc) as [[]|]; apply _. Defined.

Lemma run_login_stage_bound timeout stop sc :
  0 <= timeout → script_ok sc →
  let '(st, t) := run_login_stage timeout stop sc in
  0 <= t <= timeout ∧ prompt stop t ∧
  (st = StageOk → ∃ t', ss_done sc = Some (t', true) ∧ t = t') ∧
  (st = StageStopping → ∃ u, stop = Some u ∧ u <= t).
Proof.
  intros Ht Hsc. unfold run_login_stage, with_timeout.
  assert (∃ st t, with_timeout timeout (ss_done sc) = (st, t) ∧ 0 <= t <= timeout ∧ st ≠ StageStopping ∧
    (st = StageOk → ss_done sc = Some (t, true))) as (st & t & Hw & Hb & Hns & Hok).
  { unfold with_timeout, script_ok in *. destruct (ss_done sc) as [[t []]|]; [destruct (Z.leb_spec t timeout)..|];
      eexists _, _; (split; [done|]); split_and!; (lia || done). }
  unfold with_timeout in Hw. rewrite Hw. destruct stop as [u|]; [|split; [done|]; split; [done|]; split; [eauto|done]].
  destruct (wait_until_stopping (Some u)) as [a|] eqn:Ha; [|done]. apply wait_until_stopping_bound in Ha as (Ha1 & Ha2 & Ha3).
  destruct (Z.ltb_spec a t), (Z.eqb_spec a t), (ss_stop_first sc); cbn [orb andb];
    split_and!; try lia; try (intros ? [= <-]; split; lia); try done; try (intros _; exists u; split; [done|lia]); intros ->; eauto.
Qed.

Lemma run_stages_bound timeout stop scs :
  0 <= timeout → Forall script_ok scs →
  let '(sts, elapsed) := run_stages timeout stop scs in
  0 <= elapsed <= Z.of_nat (length scs) * timeout ∧ prompt stop elapsed ∧
  ∀ i, sts !! i = Some StageOk →
    ∃ sc t, scs !! i = Some sc ∧ ss_done sc = Some (t, true) ∧ t <= timeout.
Proof.
  intros Ht Hs. revert stop. induction Hs as [|sc scs Hsc _ IH]; intros stop; cbn [run_stages].
  { split; [cbn; lia|]. split; [intros u _; unfold STOP_CHECK_INTERVAL_MS; split; lia|]. by intros i; rewrite lookup_nil. }
  pose proof (run_login_stage_bound timeout stop sc Ht Hsc) as Hst.
  destruct (run_login_stage timeout stop sc) as [st t]. destruct Hst as (Hb & Hstop & Hok & _).
  assert (∀ st', st' ≠ StageOk → 0 <= t <= Z.of_nat (length (sc :: scs)) * timeout ∧
    prompt stop t ∧
    ∀ i, [st'] !! i = Some StageOk → ∃ sc' t', (sc :: scs) !! i = Some sc' ∧ ss_done sc' = Some (t', true) ∧ t' <= timeout) as Hend.
  { intros st' Hne. split; [cbn [length]; rewrite Nat2Z.inj_succ, Z.mul_succ_l; lia|]. split; [done|].
    intros [|i] Hi; by simplify_eq/=. }
  destruct st; [|by apply Hend..].
  specialize (IH ((λ x, x - t) <$> stop)). destruct (run_stages _ _ scs) as [sts elapsed].
  destruct IH as (Hb' & Hstop' & Hok'). destruct (Hok eq_refl) as (t' & Hd & ->).
  split_and!; [lia|cbn [length]; rewrite Nat2Z.inj_succ, Z.mul_succ_l; lia| |].
  - intros u ->. destruct (Hstop' (u - t') eq_refl), (Hstop u eq_refl). unfold STOP_CHECK_INTERVAL_MS in *. split; lia.
  - intros [|i] Hi; [|by apply Hok']. exists sc, t'. split; [done|]. split; [done|lia].
Qed.

(** A login that succeeds went through all four stages. *)
Lemma login_ok_stages `{!Bincode} config env tunnel remote info timeout s io b s' io' :
  login config env tunnel remote info timeout s io = (Ok b, s', io') →
  le_connect env = StageOk ∧ le_open env = StageOk ∧ le_send env = StageOk ∧ le_recv env = StageOk.
Proof.
  unfold login. destruct (format_with_remote_addr info remote); [|done].
  destruct (le_connect env); [|done..]. destruct (le_open env); [|done..]. destruct (le_send env); [|done..].
  destruct (send_to _ _) as [[?|?] w]; [|done]. by destruct (le_recv env).
Qed.

Lemma stage_reached (sts : list stage) (i : nat) : default StageTimedOut (sts !! i) = StageOk → sts !! i = Some StageOk.
Proof. destruct (sts !! i) as [st|]; [by intros [= ->]|done]. Qed.

(** C26: A login always ends, and soon.  Whatever the network does to its four
    stages (connect, open a stream, send, receive; each may also never answer)
    and whenever the client is stopped: it takes at most four times the timeout
    of the attempt, never more than a minute; once the client stops it ends
    before the next check, 100 ms later; and it succeeds only if every stage
    did, each within its timeout. *)
Theorem login_ends_in_time `{!Bincode} config tunnel remote info attempt stop scs now stats s io :
  0 <= attempt → length scs = 4%nat → Forall script_ok scs →
  let timeout := connect_attempt_timeout_for attempt in
  let '(sts, elapsed) := run_stages timeout stop scs in
  0 <= elapsed <= 4 * timeout ∧ elapsed <= 60000 ∧
  (∀ u, stop = Some u → elapsed < Z.max 0 u + STOP_CHECK_INTERVAL_MS) ∧
  (∀ b s' io', login config (login_stages sts now stats) tunnel remote info timeout s io = (Ok b, s', io') →
     Forall (λ sc, ∃ t, ss_done sc = Some (t, true) ∧ t <= timeout) scs).
Proof.
  intros Ha Hl Hs. cbv zeta.
  assert (0 <= connect_attempt_timeout_for attempt <= 15000) as Ht
    by (rewrite connect_attempt_timeouts by done; repeat case_match; lia).
  pose proof (run_stages_bound _ stop scs (proj1 Ht) Hs) as Hb. destruct (run_stages _ stop scs) as [sts elapsed].
  destruct Hb as (Hb & Hstop & Hok). rewrite Hl in Hb. split; [lia|]. split; [lia|]. split; [intros u Hu; by apply (Hstop u)|].
  intros b s' io' (H0 & H1 & H2 & H3)%login_ok_stages. cbn in H0, H1, H2, H3.
  apply stage_reached, Hok in H0, H1, H2, H3. destruct scs as [|a [|b' [|c [|d [|]]]]]; try done.
  destruct H0 as (? & t0 & [= <-] & ?), H1 as (? & t1 & [= <-] & ?), H2 as (? & t2 & [= <-] & ?), H3 as (? & t3 & [= <-] & ?).
  repeat constructor; eauto.
Qed.

(** A server that takes the connection and never answers the login, and a client
    that is stopped after five seconds: it gives up at the next check. *)
Definition silent_scripts : list stage_script :=
  [StageScript (Some (80, true)) false; StageScript (Some (1, true)) true; StageScript (Some (2, true)) false; StageScript None false].

Lemma login_ends_in_time_witness : ∃ sts elapsed,
  run_stages (connect_attempt_timeout_for 1) (Some 5000) silent_scripts = (sts, elapsed) ∧
  sts = [StageOk; StageOk; StageOk; StageStopping] ∧ elapsed = 5083 ∧ elapsed < 5000 + STOP_CHECK_INTERVAL_MS.
Proof.
  pose proof (login_ends_in_time (sample_client_config "vpn.example.org:443" "" []) (MkDescriptor (IdNetwork 0) Tcp ModeOut)
    sample_addr (mkLoginInfo "" (ChannelBased Tcp) 0 0) 1 (Some 5000) silent_scripts (λ _, "now"%string)
    (MkConnStats 0 0 0 0 0 0 0 0 0 0 0 0) state_new (AuthIo [] open_writer) ltac:(lia) eq_refl
    ltac:(by apply (bool_decide_unpack _); vm_compute)) as H. cbv zeta in H.
  destruct (run_stages _ _ _) as [sts elapsed] eqn:E. destruct H as (_ & _ & Hstop & _).
  exists sts, elapsed. split; [done|]. specialize (Hstop 5000 eq_refl). vm_compute in E. by simplify_eq.
Defined.
