(* ===== verification/ClientEndpoint.v ===== *)
(** The client's QUIC endpoint: the socket protector of
    [src/src/socket_protector.rs], the creation of an endpoint and its periodic
    migration to a new local port ([src/src/client.rs]). *)
From stdpp Require Import gmap fin_sets.
From S2P Require Import Prelude Io Net Target AddrText Config Message BincodeStd EventBus Servers Server Client ClientRun.

#[local] Open Scope Z_scope.

(** * The socket protector *)

(** The two platform modules. *)
Inductive platform : Type := Android | NotAndroid.

(** The installed callback, if any; it answers for a file descriptor. *)
Definition SocketProtector : Type := Z → bool.

Definition set_socket_protector (p : platform) (protector : option SocketProtector) (holder : option SocketProtector) :
  option SocketProtector :=
  match p with Android => protector | NotAndroid => holder end.

Definition protect_socket_fd (p : platform) (holder : option SocketProtector) (fd : Z) : bool :=
  match p with
  | Android => match holder with None => true | Some callback => callback fd end
  | NotAndroid => true
  end.

Definition protect_udp_socket (p : platform) (holder : option SocketProtector) (fd : Z) : result Z unit :=
  if protect_socket_fd p holder fd then Ok () else Err fd.

(** * Sockets and endpoints *)

(** A bound socket: its descriptor and local address. *)
Record udp_socket : Type := UdpSocket { us_fd : Z; us_local : SocketAddr }.

Inductive endpoint_error : Type :=
| LocalAddrFailed
| SocketBindFailed
| SocketRejected (fd : Z)
| NoRuntime
| EndpointFailed
| RebindFailed.

Section endpoint.
Context (p : platform) (holder : option SocketProtector).

(** [os_bind] is the answer of the operating system. *)
Definition bind_client_udp_socket (os_bind : SocketAddr → option udp_socket) (bind_addr : SocketAddr) :
  result endpoint_error udp_socket :=
  socket ← ok_or SocketBindFailed (os_bind bind_addr);
  _ ← map_err SocketRejected (protect_udp_socket p holder (us_fd socket));
  Ok socket.

(** [create_client_endpoint]: [quinn_new] names the endpoint made from a socket,
    if the runtime and the library agree. *)
Definition create_client_endpoint (os_bind : SocketAddr → option udp_socket) (runtime : bool) (quinn_new : udp_socket → option Z)
    (local_addr : SocketAddr) : result endpoint_error Endpoint :=
  socket ← bind_client_udp_socket os_bind local_addr;
  _ ← (if runtime then Ok () else Err NoRuntime);
  id ← ok_or EndpointFailed (quinn_new socket);
  Ok (MkEndpoint id (Some (us_local socket))).

(** [migrate_endpoint] on the endpoint, which all its handles share. *)
Definition migrate_endpoint (os_bind : SocketAddr → option udp_socket) (rebind : bool) (e : Endpoint) :
  result endpoint_error unit * Endpoint :=
  match ep_local_addr e with
  | None => (Err LocalAddrFailed, e)
  | Some current_addr =>
      match bind_client_udp_socket os_bind (socket_addr_with_unspecified_ip_port (is_ipv6 current_addr)) with
      | Err err => (Err err, e)
      | Ok socket => if rebind then (Ok (), MkEndpoint (ep_id e) (Some (us_local socket))) else (Err RebindFailed, e)
      end
  end.

(** One tick of [start_migration_task] on the client's state: the cached endpoint
    is migrated, an error is ignored. *)
Definition migration_tick (tick : (SocketAddr → option udp_socket) * bool) (s : State) : State :=
  match st_endpoint s with
  | Some e => set_endpoint (Some (migrate_endpoint tick.1 tick.2 e).2) s
  | None => s
  end.

(** The task: a tick every [hop_interval_ms], without end. *)
Definition start_migration_task (ticks : list ((SocketAddr → option udp_socket) * bool)) (s : State) : State :=
  fold_left (λ s tick, migration_tick tick s) ticks s.

(** ** Properties *)

(** The operating system binds the requested family. *)
Definition binds_family (os_bind : SocketAddr → option udp_socket) : Prop :=
  ∀ a sock, os_bind a = Some sock → is_ipv6 (us_local sock) = is_ipv6 a.

Definition protected_addr (ticks : list ((SocketAddr → option udp_socket) * bool)) (a : SocketAddr) : Prop :=
  ∃ tick addr sock, tick ∈ ticks ∧ tick.1 addr = Some sock ∧ us_local sock = a ∧ protect_socket_fd p holder (us_fd sock) = true.

Lemma bind_client_udp_socket_ok os_bind a sock :
  bind_client_udp_socket os_bind a = Ok sock → os_bind a = Some sock ∧ protect_socket_fd p holder (us_fd sock) = true.
Proof.
  unfold bind_client_udp_socket, protect_udp_socket. destruct (os_bind a) as [s0|]; [|done]. cbn.
  destruct (protect_socket_fd p holder (us_fd s0)) eqn:E; [|done]. cbn. by intros [= ->].
Qed.

(** Endpoints made by [create_client_endpoint] have the family that was asked
    for: what the endpoint cache relies on. *)
Lemma create_client_endpoint_family os_bind runtime quinn_new :
  binds_family os_bind →
  family_ok (λ a, match create_client_endpoint os_bind runtime quinn_new a with Ok e => Some e | Err _ => None end).
Proof.
  intros Hb a e. unfold create_client_endpoint.
  destruct (bind_client_udp_socket os_bind a) as [sock|] eqn:Hs; [|done]. apply bind_client_udp_socket_ok in Hs as [Hs _].
  cbn. destruct runtime; [|done]. cbn. destruct (quinn_new sock) as [id|]; [|done]. cbn. intros [= <-].
  exists (us_local sock). split; [done|]. by apply Hb.
Qed.

Lemma unspecified_family b : is_ipv6 (socket_addr_with_unspecified_ip_port b) = b.
Proof. by destruct b. Qed.

Lemma set_endpoint_set e e' s : set_endpoint e (set_endpoint e' s) = set_endpoint e s.
Proof. done. Qed.

(** C35: Migration never disturbs what runs on the endpoint.  Over any number of
    ticks, whatever sockets the system gives, whether or not the protector
    accepts them and rebinding works: nothing of the client's state but the
    cached endpoint's local address changes; the endpoint stays the same object
    with the same address family; and its local address is the old one or that
    of a socket the protector accepted. *)
Theorem migration_safe ticks s e a :
  Forall (λ tick, binds_family tick.1) ticks → st_endpoint s = Some e → ep_local_addr e = Some a →
  ∃ b, start_migration_task ticks s = set_endpoint (Some (MkEndpoint (ep_id e) (Some b))) s ∧
    is_ipv6 b = is_ipv6 a ∧ (b = a ∨ protected_addr ticks b).
Proof.
  intros Hf. revert s e a. induction Hf as [|[os_bind rebind] ticks Hb Hf IH]; intros s e a He Ha.
  { exists a. split; [|by auto]. destruct s, e. simpl in *. by subst. }
  change (start_migration_task ((os_bind, rebind) :: ticks) s) with (start_migration_task ticks (migration_tick (os_bind, rebind) s)).
  unfold migration_tick. rewrite He. cbn [fst snd]. unfold migrate_endpoint. rewrite Ha.
  assert (∀ x, protected_addr ticks x → protected_addr ((os_bind, rebind) :: ticks) x) as Hmono.
  { intros x (t & ? & ? & Ht & ?). exists t. eexists _, _. split; [apply elem_of_cons; by right|done]. }
  destruct (bind_client_udp_socket os_bind _) as [sock|err] eqn:Hs; [destruct rebind|]; cbn [snd].
  - apply bind_client_udp_socket_ok in Hs as [Hs Hp].
    destruct (IH (set_endpoint (Some (MkEndpoint (ep_id e) (Some (us_local sock)))) s) _ _ eq_refl eq_refl) as (b & -> & Hfam & Hor).
    exists b. split; [done|]. split; [by rewrite Hfam, (Hb _ _ Hs), unspecified_family|]. right.
    destruct Hor as [->|?]; [|by apply Hmono]. exists (os_bind, true). eexists _, sock.
    split; [apply elem_of_cons; by left|done].
  - destruct (IH (set_endpoint (Some e) s) e a eq_refl Ha) as (b & -> & Hfam & Hor). exists b.
    split; [done|]. split; [done|]. destruct Hor; auto.
  - destruct (IH (set_endpoint (Some e) s) e a eq_refl Ha) as (b & -> & Hfam & Hor). exists b.
    split; [done|]. split; [done|]. destruct Hor; auto.
Qed.
End endpoint.

(** The migration task has no end: the endpoint is still moved to a new socket
    after the client has terminated. *)
Example migration_after_stop :
  let s := set_client_state Terminated (stop_sweep (set_client_state Stopping sample_v4_state)).1.1 in
  st_endpoint (start_migration_task NotAndroid None [(λ a, Some (UdpSocket 5 (sa_set_port a 40000)), true)] s)
  = Some (MkEndpoint 1 (Some (SockV4 0 40000))).
Proof. reflexivity. Qed.

Lemma migration_safe_witness :
  ∃ b, start_migration_task Android (Some (λ fd, fd =? 5))
      [(λ a, Some (UdpSocket 6 (sa_set_port a 40001)), true); (λ a, Some (UdpSocket 5 (sa_set_port a 40000)), true)] sample_v4_state
    = set_endpoint (Some (MkEndpoint 1 (Some b))) sample_v4_state ∧ is_ipv6 b = false ∧
    (b = SockV4 0 50000 ∨ protected_addr Android (Some (λ fd, fd =? 5))
      [(λ a, Some (UdpSocket 6 (sa_set_port a 40001)), true); (λ a, Some (UdpSocket 5 (sa_set_port a 40000)), true)] b).
Proof.
  apply (migration_safe Android (Some (λ fd, fd =? 5)) _ sample_v4_state (MkEndpoint 1 (Some (SockV4 0 50000))) (SockV4 0 50000)); [|done..].
  repeat constructor; intros [] sock [= <-]; done.
Defined.
