(* ===== verification/ClientTunnel.v ===== *)
(** The client of [src/src/client.rs], third part: [connect_and_serve], the task
    that keeps one tunnel up, step by step, for any number of tunnels that share
    the client's state, together with [stop] and the outside world.

    [ClientRun] describes the life cycle with five phases; here the points where
    the task reads or changes the tables of the client are separate steps, with
    everything they do to the shared state: endpoint cache, listeners, events and
    statistics.  Two steps are coarser than the code, which suspends inside them:
    a whole connection attempt ([connect_once]: address lookup, endpoint, login),
    which besides events touches only the endpoint cache and the flag for IPv6,
    and the start of serving with its retried bind.  Whether the client stops
    during them is part of their outcome ([StageStopping]), and [should_quit] is
    read at their end.  The phases are then shown to be an abstraction of these
    steps. *)
From stdpp Require Import gmap fin_sets.
From S2P Require Import Prelude Io Net Target AddrText Config Message BincodeStd Heartbeat EventBus Servers TcpTunnel Server Client ClientRun.

#[local] Open Scope string_scope.
#[local] Open Scope Z_scope.

(** * Local listeners *)

Definition set_udp_heap (heap : gmap nat UdpState) (s : State) : State :=
  MkState (st_tcp_servers s) (st_udp_servers s) (st_tcp_receivers s) (st_endpoint s) (st_connections s)
    (st_server_ipv6_supported s) (st_client_state s) (st_tunnel_stat s) (st_event_bus s) (tcp_heap s) heap.
Definition set_tcp_heap (heap : gmap nat TcpState) (s : State) : State :=
  MkState (st_tcp_servers s) (st_udp_servers s) (st_tcp_receivers s) (st_endpoint s) (st_connections s)
    (st_server_ipv6_supported s) (st_client_state s) (st_tunnel_stat s) (st_event_bus s) heap (udp_heap s).
Definition set_tunnel_stat (stat : TunnelStat) (s : State) : State :=
  MkState (st_tcp_servers s) (st_udp_servers s) (st_tcp_receivers s) (st_endpoint s) (st_connections s)
    (st_server_ipv6_supported s) (st_client_state s) stat (st_event_bus s) (tcp_heap s) (udp_heap s).

(** [start_udp_server]: [bind] is the handle of the listener the retried bind
    yields, if it succeeds. *)
Definition start_udp_server (bind : option nat) (addr : SocketAddr) (s : State) : option nat * State :=
  match bind with
  | None => (None, s)
  | Some h =>
      (Some h,
       MkState (st_tcp_servers s) (<[addr := h]> (st_udp_servers s)) (st_tcp_receivers s) (st_endpoint s)
         (st_connections s) (st_server_ipv6_supported s) (st_client_state s) (st_tunnel_stat s)
         (st_event_bus s) (tcp_heap s) (<[h := udp_bind addr]> (udp_heap s)))
  end.

(** What can happen to a listener besides taking and returning its receiver: its
    loop goes on, a tunnel sends it a reply or takes a message from it, or [stop]
    shuts it down. *)
Inductive udp_listener_step (swept : bool) (s : UdpState) : UdpState → Prop :=
| UdMoves s' : udp_moves s s' → udp_listener_step swept s s'
| UdTaken m s' : udp_recv s = Some (m, s') → udp_listener_step swept s s'
| UdShutdown s' : swept = true → udp_shutdown s = Some s' → udp_listener_step swept s s'.

Inductive tcp_listener_step (s : TcpState) : TcpState → Prop :=
| TcAccepts ev s' : tcp_accept ev s = Some s' → tcp_listener_step s s'
| TcTaken m s' : tcp_recv s = Some (m, s') → tcp_listener_step s s'.

Lemma udp_send_frame m s s' :
  udp_send m s = Some s' → udp_receiver s' = udp_receiver s ∧ udp_rx_alive s' = udp_rx_alive s.
Proof. unfold udp_send. by destruct (channel_send _ _ _); intros; simplify_eq. Qed.

Lemma udp_iterate_frame ev s s' :
  udp_iterate ev s = Some s' → udp_receiver s' = udp_receiver s ∧ udp_rx_alive s' = udp_rx_alive s.
Proof.
  unfold udp_iterate. intros H. destruct (udp_loop s), ev; try done.
  - injection H as <-. by destruct (negb (udp_active s)).
  - by injection H as <-.
  - destruct (udp_in_queue s) as [|[] ?]; by simplify_eq.
  - by injection H as <-.
  - injection H as <-. by destruct (channel_send _ _ _).
Qed.

Lemma udp_listener_frame swept s s' :
  udp_listener_step swept s s' → udp_receiver s' = udp_receiver s ∧ udp_rx_alive s' = udp_rx_alive s.
Proof.
  intros [s1 [ev s2 H|p s2 H]|m s1 H|s1 _ H]; [by eapply udp_iterate_frame|by eapply udp_send_frame| |by eapply udp_send_frame].
  unfold udp_recv in H. destruct (udp_out_queue s); [destruct (udp_stopped s)|]; by simplify_eq.
Qed.

(** * The heartbeat task *)

(** [start_heartbeat_task]: whether it closes the connection.  Either the
    connection closes first, or the heartbeat ends; [stops] are the answers of
    the check for a stopping client. *)
Definition start_heartbeat_task `{!Bincode} (config : ClientConfig) (closed_first : bool) (stops : list bool) (io : hb_io) :
  bool :=
  if (cc_heartbeat_interval_ms config =? 0) || (cc_heartbeat_timeout_ms config =? 0) then false
  else if closed_first then false
  else match (client_heartbeat stops 0 io).1 with HbFailed _ => true | _ => false end.

Section dead_peer.
Context `{!Bincode, !BincodeLaws}.

(** C25: A dead peer is noticed, a live one left alone.  With the heartbeat on, a
    stream that takes the requests and a connection that nobody else closes: as
    long as the answers arrive, in order and in chunks of any size, the task does
    not close the connection; if after any number of answers the next one does not
    arrive in full before the timeout (any strict prefix of it may have), the task
    closes the connection at that very tick. *)
Theorem dead_peer_closes_connection config n m part r r1 r2 w log :
  cc_heartbeat_interval_ms config ≠ 0 → cc_heartbeat_timeout_ms config ≠ 0 →
  message_fits m → part `prefix_of` message_frame m → part ≠ message_frame m → w_room w = None →
  delivers r (frames (RespHeartbeat <$> seqs n 0)) → delivers r1 part →
  start_heartbeat_task config false (replicate n false) (HbIo r w log) = false ∧
  start_heartbeat_task config false (replicate (S n) false) (HbIo (r ++ r1 ++ Stall :: r2)%list w log) = true.
Proof.
  intros Hi Ht Hm Hpre Hne Hw Hr Hr1. unfold start_heartbeat_task.
  rewrite !(proj2 (Z.eqb_neq _ _)) by done. cbn [orb]. split.
  - destruct (client_heartbeat_lockstep n 0 r w log [] Hw) as (r' & _ & ->); [by rewrite app_nil_r|done].
  - by destruct (client_heartbeat_timeout n 0 m part r r1 r2 w log) as (io & ->).
Qed.
End dead_peer.

Lemma dead_peer_closes_connection_witness :
  start_heartbeat_task (sample_client_config "10.0.0.1:443" "" []) false [false]
    (HbIo [Chunk (frames [RespHeartbeat 1])] open_writer []) = false ∧
  start_heartbeat_task (sample_client_config "10.0.0.1:443" "" []) false [false; false]
    (HbIo ([Chunk (frames [RespHeartbeat 1])] ++ [Chunk [0; 0]] ++ [Stall])%list open_writer []) = true.
Proof.
  apply (dead_peer_closes_connection (sample_client_config "10.0.0.1:443" "" []) 1 (RespHeartbeat 2) [0; 0]
    [Chunk (frames [RespHeartbeat 1])] [Chunk [0; 0]] [] open_writer []).
  - done.
  - done.
  - by apply heartbeat_fits.
  - eexists. vm_compute. reflexivity.
  - by vm_compute.
  - reflexivity.
  - exists []. split; [by rewrite app_nil_r|done].
  - exists []. split; [by rewrite app_nil_r|done].
Defined.

(** * Serving a connection

    A tunnel is served inside [wait_for_connection_close]: a [select!] between
    the end of the connection and the end of the serving future.  [serve_*]
    below are the parts of the serving functions before that wait. *)

Inductive serve_start : Type :=
| Serving (held : option nat)   (** serving; the UDP listener whose receiver it holds *)
| SetupFailed.                  (** [return Err(_)] before serving *)

(** What a start depends on: the outcome of binding a listener, the times of the
    events, and the address of the peer. *)
Record serve_env : Type := ServeEnv {
  se_bind : option nat;
  se_now : nat → string;
  se_remote : SocketAddr
}.

(** The log line and the state event every serving function posts first. *)
Definition announce (env : serve_env) (tunnel : TunnelDescriptor) (msg : string) (s : State) : State :=
  post_tunnel_state (se_now env 1%nat) tunnel Tunneling
    (post_tunnel_log (se_now env 0%nat) tunnel (msg +:+ " via " +:+ display_socket_addr (se_remote env)) s).

Definition serve_outbound_tcp (env : serve_env) (tunnel : TunnelDescriptor) (addr : SocketAddr) (s : State) :
  serve_start * State :=
  match outbound_tcp_receiver (se_bind env) addr s with
  | (None, s) => (SetupFailed, s)
  | (Some _, s) =>
      let server := h ← st_tcp_servers s !! addr; tcp_heap s !! h in
      (Serving None,
       announce env tunnel ("TCP_OUT start serving from "
         +:+ display_socket_addr (default addr (tcp_addr <$> server))) s)
  end.

Definition serve_outbound_udp (env : serve_env) (tunnel : TunnelDescriptor) (addr : SocketAddr) (s : State) :
  serve_start * State :=
  let '(handle, s) :=
    match st_udp_servers s !! addr with
    | Some h => (Some h, s)
    | None => start_udp_server (se_bind env) addr s
    end in
  match h ← handle; server ← udp_heap s !! h; Some (h, server) with
  | None => (SetupFailed, s)
  | Some (h, server) =>
      let s := announce env tunnel ("UDP_OUT start serving from " +:+ display_socket_addr (udp_addr server)) s in
      let (taken, server) := udp_take_receiver server in
      (if taken then Serving (Some h) else SetupFailed, set_udp_heap (<[h := server]> (udp_heap s)) s)
  end.

Definition serve_inbound_tcp (env : serve_env) (tunnel : TunnelDescriptor) (s : State) : serve_start * State :=
  (Serving None, announce env tunnel "TCP_IN start serving" s).

Definition serve_inbound_udp (env : serve_env) (tunnel : TunnelDescriptor) (s : State) : serve_start * State :=
  (Serving None, announce env tunnel "UDP_IN start serving" s).

(** [handle_network_based_tunnel] up to the wait; [None] is the panic of
    [local_server_addr.unwrap()]. *)
Definition handle_network_based_tunnel (env : serve_env) (tunnel : TunnelDescriptor) (cfg : TunnelConfig) (s : State) :
  option (serve_start * State) :=
  addr ← local_server_addr cfg;
  Some (match mode cfg, upstream_type (upstream cfg) with
        | ModeOut, Tcp => serve_outbound_tcp env tunnel addr s
        | ModeOut, Udp => serve_outbound_udp env tunnel addr s
        | ModeIn, Tcp => serve_inbound_tcp env tunnel s
        | ModeIn, Udp => serve_inbound_udp env tunnel s
        end).

(** [handle_channel_based_tunnel] up to the wait. *)
Definition handle_channel_based_tunnel (env : serve_env) (tunnel : TunnelDescriptor) (t : UpstreamType) (s : State) :
  serve_start * State :=
  (Serving None,
   announce env tunnel (match t with Tcp => "STREAM_OUT start serving" | Udp => "UDP_OUT start serving" end) s).

Definition handle_tunnel (env : serve_env) (tunnel : TunnelDescriptor) (t : Tunnel) (s : State) :
  option (serve_start * State) :=
  match t with
  | NetworkBased cfg => handle_network_based_tunnel env tunnel cfg s
  | ChannelBased ut => Some (handle_channel_based_tunnel env tunnel ut s)
  end.

(** What happens to a held receiver when the wait ends.  If the serving future
    ran to its end it puts the receiver back; if the outer [select!] saw the
    closed connection first the future is dropped, and the receiver with it. *)
Definition end_serving (cut : bool) (held : option nat) (s : State) : State :=
  match held with
  | None => s
  | Some h => set_udp_heap (alter (if cut then udp_drop_receiver else udp_put_receiver) h (udp_heap s)) s
  end.

(** The end of both handlers. *)
Definition report_end (now : string) (tunnel : TunnelDescriptor) (stats : ConnStats) (s : State) : State :=
  let s := if should_quit s then s else post_tunnel_state now tunnel Reconnecting s in
  set_tunnel_stat (add_connection_stats_to_total stats (st_tunnel_stat s)) s.

(** * The tunnel tasks *)

(** Where a tunnel task is. *)
Inductive tunnel_pc : Type :=
| TcConnect (attempt : Z)                  (** in the retried connect *)
| TcChecked (c : Z)                        (** connected, [should_quit] was false *)
| TcRegistered (c : Z)                     (** in the connection table *)
| TcServing (c : Z) (held : option nat)    (** in the wait *)
| TcClosing (c : Z) (held : option nat)    (** the serving future ended, the connection is being closed *)
| TcServed (c : Z)                         (** the wait is over *)
| TcReported (c : Z)
| TcLeft                                   (** out of the connection table *)
| TcFinal                                  (** out of the loop *)
| TcDone.

(** The environment of one connection attempt. *)
Record attempt_env : Type := AttemptEnv {
  ae_resolve : dns_lookup;
  ae_ipv6_route : bool;
  ae_create_endpoint : SocketAddr → option Endpoint;
  ae_describe : connect_error → string;
  ae_login : login_env;
  ae_io : auth_io
}.

Record tunnel_sys : Type := TunnelSys {
  ty_state : State;
  ty_tasks : gmap nat tunnel_pc;
  ty_closed : gset Z;
  ty_used : gset Z;
  ty_stop : stop_pc;
  ty_late : gset nat;
  ty_rotation : Z                           (** [sni_rotation] *)
}.

(** What a step of a task depends on. *)
Inductive choice : Type :=
| ChConnect (env : attempt_env) (c : Z)
| ChRegister
| ChStart (env : serve_env)
| ChTaskEnd
| ChLeave (cut : bool)
| ChReport (now : string) (stats : ConnStats)
| ChUnregister
| ChAgain
| ChQuit (now : string).

(** The tunnels of a client: [connect_and_serve_async] starts one task per
    configured tunnel, [connect_and_serve_channel_async] one per call, numbered
    by [next_tunnel_id]. *)
Definition connect_and_serve_async (config : ClientConfig) : list (TunnelId * Tunnel) :=
  imap (λ i cfg, (IdNetwork (Z.of_nat i), NetworkBased cfg)) (cc_tunnels config).
Definition connect_and_serve_channel_async (channels : list UpstreamType) : list (TunnelId * Tunnel) :=
  imap (λ i t, (IdChannel (Z.of_nat i) t, ChannelBased t)) channels.
Definition client_tunnels (config : ClientConfig) (channels : list UpstreamType) : list (TunnelId * Tunnel) :=
  (connect_and_serve_async config ++ connect_and_serve_channel_async channels)%list.

Definition tunnel_channel_input (t : Tunnel) : bool :=
  match t with NetworkBased _ => false | ChannelBased _ => true end.

Section tasks.
Context `{bc : !Bincode}.
Context (parse_server_name : string → option server_name) (tls : tls_world).
Context (config : ClientConfig) (chans : list UpstreamType).

Definition login_info_of (t : Tunnel) : LoginInfo :=
  mkLoginInfo (cc_password config) t (cc_tcp_timeout_ms config) (cc_udp_timeout_ms config).

(** One step of [connect_and_serve] for the tunnel [t] described by [d]: the
    next point, the shared state, the connections closed and used, and the
    rotation counter.  A whole connection attempt ([ChConnect]) and the start of
    serving with its retried bind ([ChStart]) are one step each, although the code
    suspends inside them. *)
Definition connect_and_serve_step (d : TunnelDescriptor) (t : Tunnel) (ch : choice) (pc : tunnel_pc)
    (s : State) (closed used : gset Z) (rotation : Z) : option (tunnel_pc * State * gset Z * gset Z * Z) :=
  match pc, ch with
  | TcConnect attempt, ChConnect env c =>
      let '(result, rotation, s, _) :=
        connect_once parse_server_name tls (ae_resolve env) (ae_ipv6_route env) (ae_create_endpoint env)
          (ae_describe env) config (ae_login env) d (login_info_of t) (connect_attempt_timeout_for attempt)
          rotation s (ae_io env) in
      match result with
      | Err (LoginError LoginPanic) => None
      | Err _ => Some (if should_quit s then TcFinal else TcConnect (attempt + 1), s, closed, used, rotation)
      | Ok _ =>
          if decide (c ∈ used) then None
          else if should_quit s then Some (TcFinal, s, {[c]} ∪ closed, {[c]} ∪ used, rotation)
          else Some (TcChecked c, s, closed, {[c]} ∪ used, rotation)
      end
  | TcChecked c, ChRegister =>
      Some (TcRegistered c, set_connections ({[c]} ∪ st_connections s) s, closed, used, rotation)
  | TcRegistered c, ChStart env =>
      match handle_tunnel env d t s with
      | None => None
      | Some (Serving held, s) => Some (TcServing c held, s, closed, used, rotation)
      | Some (SetupFailed, s) => Some (TcClosing c None, s, {[c]} ∪ closed, used, rotation)
      end
  | TcServing c held, ChTaskEnd => Some (TcClosing c held, s, {[c]} ∪ closed, used, rotation)
  | (TcServing c held | TcClosing c held), ChLeave cut =>
      if decide (c ∈ closed) then Some (TcServed c, end_serving cut held s, closed, used, rotation) else None
  | TcServed c, ChReport now stats => Some (TcReported c, report_end now d stats s, closed, used, rotation)
  | TcReported c, ChUnregister =>
      Some (TcLeft, set_connections (st_connections s ∖ {[c]}) s, closed, used, rotation)
  | TcLeft, ChAgain => Some (if should_quit s then TcFinal else TcConnect 0, s, closed, used, rotation)
  | TcFinal, ChQuit now =>
      Some (TcDone, post_tunnel_log now d ("[" +:+ display_login_info (login_info_of t) +:+ "] quit") s,
            closed, used, rotation)
  | _, _ => None
  end.

(** A step of task [i] of the client. *)
Definition task_step (i : nat) (ch : choice) (x : tunnel_sys) : option tunnel_sys :=
  pc ← ty_tasks x !! i;
  '(id, t) ← client_tunnels config chans !! i;
  d ← build_tunnel_descriptor id t (tunnel_channel_input t);
  '(pc, s, closed, used, rotation) ← connect_and_serve_step d t ch pc (ty_state x) (ty_closed x) (ty_used x) (ty_rotation x);
  Some (TunnelSys s (<[i := pc]> (ty_tasks x)) closed used (ty_stop x) (ty_late x) rotation).

Definition late_tasks (tasks : gmap nat tunnel_pc) : gset nat :=
  dom (filter (λ x : nat * tunnel_pc, match x.2 with TcChecked _ => true | _ => false end = true) tasks).

(** The listener handle a task is about to bind must be new. *)
Definition fresh_bind (ch : choice) (s : State) : bool :=
  match ch with
  | ChStart (ServeEnv (Some h) _ _) => bool_decide (tcp_heap s !! h = None) && bool_decide (udp_heap s !! h = None)
  | _ => true
  end.

Definition stop_swept (pc : stop_pc) : bool := match pc with StopSwept | StopEnded => true | _ => false end.

(** The client: its tasks, [stop] (or [stop_async]), connections that close, the
    loops of the listeners, and whoever else uses the event bus: the traffic
    reporter, whose events name no tunnel, and other listeners ([watch] is one
    that stays registered and only collects). *)
Inductive sys_step (watch : nat) : tunnel_sys → tunnel_sys → Prop :=
| SysTask x i ch y :
    task_step i ch x = Some y → fresh_bind ch (ty_state x) = true → sys_step watch x y
| SysClosed s ts cl us pc lt r c :
    c ∈ us → sys_step watch (TunnelSys s ts cl us pc lt r) (TunnelSys s ts ({[c]} ∪ cl) us pc lt r)
| SysUdpListener s ts cl us pc lt r h server server' :
    udp_heap s !! h = Some server → udp_listener_step (stop_swept pc) server server' →
    sys_step watch (TunnelSys s ts cl us pc lt r)
      (TunnelSys (set_udp_heap (<[h := server']> (udp_heap s)) s) ts cl us pc lt r)
| SysTcpListener s ts cl us pc lt r h server server' :
    tcp_heap s !! h = Some server → tcp_listener_step server server' →
    sys_step watch (TunnelSys s ts cl us pc lt r)
      (TunnelSys (set_tcp_heap (<[h := server']> (tcp_heap s)) s) ts cl us pc lt r)
| SysBus s ts cl us pc lt r o :
    match o with OpRegister => True | OpPost e => tunnel e = None | OpRecv c | OpDrop c => c ≠ watch end →
    sys_step watch (TunnelSys s ts cl us pc lt r)
      (TunnelSys (set_event_bus (bus_step o (st_event_bus s)).2 s) ts cl us pc lt r)
| SysStopBegin s ts cl us lt r :
    sys_step watch (TunnelSys s ts cl us StopNone lt r) (TunnelSys (set_client_state Stopping s) ts cl us StopBegun lt r)
| SysStopSweep s ts cl us lt r s' closed quits :
    stop_sweep s = (s', closed, quits) →
    sys_step watch (TunnelSys s ts cl us StopBegun lt r) (TunnelSys s' ts (closed ∪ cl) us StopSwept (late_tasks ts) r)
| SysStopEnd s ts cl us lt r :
    sys_step watch (TunnelSys s ts cl us StopSwept lt r) (TunnelSys (set_client_state Terminated s) ts cl us StopEnded lt r).

(** At the start all tunnels are connecting and only [watch] listens. *)
Definition sys_init : tunnel_sys :=
  TunnelSys (set_event_bus (register bus_new).2 state_new)
    (gset_to_gmap (TcConnect 0) (set_seq 0 (length (client_tunnels config chans)))) ∅ ∅ StopNone ∅ 0.

Definition watch : nat := (register bus_new).1.

Definition sys_reachable : tunnel_sys → Prop := rtc (sys_step watch) sys_init.

(** * What a step leaves alone *)

(** The parts of the state that only registering, serving and [stop] change. *)
Definition same_core (s s' : State) : Prop :=
  st_connections s' = st_connections s ∧ st_client_state s' = st_client_state s ∧
  udp_heap s' = udp_heap s ∧ st_udp_servers s' = st_udp_servers s ∧
  st_tcp_servers s' = st_tcp_servers s ∧ st_tcp_receivers s' = st_tcp_receivers s.

#[export] Instance same_core_preorder : PreOrder same_core.
Proof. split; [by intros s|]. intros ??? (?&?&?&?&?&?) (?&?&?&?&?&?). unfold same_core. split_and!; congruence. Qed.

Lemma post_event_core e s : same_core s (post_event e s).
Proof. unfold post_event. by destruct (has_listeners _). Qed.

Lemma clear_cached_core s : same_core s (clear_cached_endpoint_if_idle s).2.
Proof. unfold clear_cached_endpoint_if_idle. by destruct (decide _). Qed.

Lemma obtain_endpoint_core create remote s : same_core s (obtain_endpoint create remote s).2.
Proof.
  unfold obtain_endpoint, clear_cached_endpoint_if_idle.
  repeat (case_match; simplify_eq/=); try done.
Qed.

Ltac core :=
  repeat first
    [ reflexivity
    | etransitivity; [|apply post_event_core]
    | etransitivity; [|apply clear_cached_core] ].

Lemma login_core cfg env d remote info timeout s io : same_core s (login cfg env d remote info timeout s io).1.2.
Proof.
  unfold login, post_tunnel_log, post_tunnel_state, post_tunnel_stat.
  repeat (case_match; simpl); core.
Qed.

Lemma connect_once_core resolve route create describe cfg env d info timeout rotation s io :
  same_core s (connect_once parse_server_name tls resolve route create describe cfg env d info timeout rotation s io).1.2.
Proof.
  unfold connect_once. destruct (prepare_login_config _ _ _ _ _ _) as [[[remote sni]|e] rot]; simpl.
  - pose proof (obtain_endpoint_core create remote s) as Ho.
    destruct (obtain_endpoint create remote s) as [[ep|] s1]; simpl in *.
    + pose proof (login_core cfg env d remote info timeout s1 io) as Hl.
      destruct (login _ _ _ _ _ _ _ _) as [[[hb|e] s2] io2]; simpl in *; (etransitivity; [exact Ho|]); [done|].
      etransitivity; [exact Hl|]. destruct (should_quit _); simpl; unfold post_tunnel_log; core.
    + etransitivity; [exact Ho|]. destruct (should_quit _); simpl; unfold post_tunnel_log; core.
  - destruct (should_quit _); simpl; unfold post_tunnel_log; core.
Qed.

(** * What a listener observes *)

Definition event_info (d : TunnelDescriptor) : option TunnelInfo := tunnel (tunnel_event_new (EvLog "") "" d).

Definition queue (c : nat) (s : State) : list TunnelEvent :=
  match channels (st_event_bus s) !! c with Some ch => ch_queue ch | None => [] end.

(** The state changes of tunnel [d] among the events. *)
Definition event_state (d : TunnelDescriptor) (e : TunnelEvent) : option TunnelState :=
  if decide (tunnel e = event_info d) then match event_type e with EvState st => Some st | _ => None end else None.
Definition observed (c : nat) (d : TunnelDescriptor) (s : State) : list TunnelState :=
  omap (event_state d) (queue c s).

Definition listening (c : nat) (s : State) : Prop :=
  bus_wf (st_event_bus s) ∧ ∃ q, channels (st_event_bus s) !! c = Some (Chan q true).

(** From [s] to [s'] the listener [c] sees tunnel [d] pass through [sts], and no
    change of another tunnel. *)
Definition advance (c : nat) (d : TunnelDescriptor) (s s' : State) (sts : list TunnelState) : Prop :=
  listening c s →
  listening c s' ∧
  ∀ d', observed c d' s' = (observed c d' s ++ if decide (event_info d' = event_info d) then sts else [])%list.

Lemma advance_bus c d s s' : st_event_bus s' = st_event_bus s → advance c d s s' [].
Proof.
  intros Hb Hl. unfold listening, observed, queue in *. rewrite Hb. split; [done|]. intros d'.
  destruct (decide _); by rewrite app_nil_r.
Qed.

Lemma advance_trans c d s1 s2 s3 l1 l2 :
  advance c d s1 s2 l1 → advance c d s2 s3 l2 → advance c d s1 s3 (l1 ++ l2)%list.
Proof.
  intros H12 H23 H1. destruct (H12 H1) as [H2 Ho2]. destruct (H23 H2) as [H3 Ho3]. split; [done|].
  intros d'. rewrite Ho3, Ho2, <-app_assoc. by destruct (decide _).
Qed.

Lemma advance_post c d s e :
  tunnel e = event_info d →
  advance c d s (post_event e s) (match event_type e with EvState st => [st] | _ => [] end).
Proof.
  intros He (Hwf & q & Hq).
  assert (has_listeners (st_event_bus s) = true) as Hh.
  { unfold has_listeners. rewrite bool_decide_false; [done|]. destruct Hwf as (_ & _ & Hal).
    intros Hnil. assert (c ∈ listeners (st_event_bus s)) as Hc; [|by rewrite Hnil in Hc; apply elem_of_nil in Hc].
    apply Hal. unfold alive. by rewrite Hq. }
  unfold post_event. rewrite Hh. unfold listening, observed, queue. cbn [set_event_bus st_event_bus].
  rewrite post_channel, Hq by done. cbn [fmap option_fmap option_map ch_alive ch_queue]. split.
  - split; [|by eexists]. apply (bus_step_wf (OpPost e) _ Hwf).
  - intros d'. rewrite omap_app. f_equal. unfold event_state. cbn [omap list_omap]. rewrite He.
    destruct (decide (event_info d = event_info d')) as [E|E], (decide (event_info d' = event_info d)); try congruence.
    by destruct (event_type e).
Qed.

Lemma advance_state c d s s' l now st :
  advance c d s s' l → advance c d s (post_tunnel_state now d st s') (l ++ [st])%list.
Proof. intros H. eapply advance_trans; [exact H|]. by apply (advance_post c d s' (tunnel_event_new (EvState st) now d)). Qed.

Lemma advance_log c d s s' l now msg :
  advance c d s s' l → advance c d s (post_tunnel_log now d msg s') l.
Proof.
  intros H. rewrite <-(app_nil_r l). eapply advance_trans; [exact H|].
  by apply (advance_post c d s' (tunnel_event_new (EvLog msg) now d)).
Qed.

Lemma advance_stat c d s s' l now stat :
  advance c d s s' l → advance c d s (post_tunnel_stat now d stat s') l.
Proof.
  intros H. rewrite <-(app_nil_r l). eapply advance_trans; [exact H|].
  by apply (advance_post c d s' (tunnel_event_new (EvStat stat) now d)).
Qed.

Lemma advance_silent c d s s' s'' l :
  advance c d s s' l → st_event_bus s'' = st_event_bus s' → advance c d s s'' l.
Proof. intros H Hb. rewrite <-(app_nil_r l). eapply advance_trans; [exact H|]. by apply advance_bus. Qed.

Lemma advance_refl c d s : advance c d s s [].
Proof. by apply advance_bus. Qed.

(** The states a login and a connection attempt pass through. *)
Definition login_states {E A} (r : result E A) : list TunnelState :=
  match r with Ok _ => [Connecting; Connected] | Err _ => [Connecting] end.

Lemma login_advance c cfg env d remote info timeout s io :
  advance c d s (login cfg env d remote info timeout s io).1.2
    (login_states (login cfg env d remote info timeout s io).1.1).
Proof.
  assert (advance c d s (post_tunnel_state (le_now env 0%nat) d Connecting s) [Connecting]) as H0
    by apply (advance_state c d s s []), advance_refl.
  unfold login. case_match; [|exact H0].
  repeat (case_match; simpl);
    repeat first [ exact H0 | apply advance_log | apply advance_stat | apply (advance_state c d s _ [Connecting])
                 | eapply advance_silent; [|reflexivity] ].
Qed.

Lemma obtain_endpoint_bus create remote s : st_event_bus (obtain_endpoint create remote s).2 = st_event_bus s.
Proof.
  unfold obtain_endpoint, clear_cached_endpoint_if_idle.
  repeat (case_match; simplify_eq/=); done.
Qed.

Lemma clear_cached_bus s : st_event_bus (clear_cached_endpoint_if_idle s).2 = st_event_bus s.
Proof. unfold clear_cached_endpoint_if_idle. by destruct (decide _). Qed.

(** What a failed attempt adds: a log line, and the endpoint cache. *)
Lemma attempt_failed_advance c d s s' l now msg :
  advance c d s s' l →
  advance c d s (if negb (should_quit s') then (clear_cached_endpoint_if_idle (post_tunnel_log now d msg s')).2 else s') l.
Proof.
  intros H. destruct (should_quit s'); simpl; [done|].
  eapply advance_silent; [|apply clear_cached_bus]. by apply advance_log.
Qed.

Lemma connect_once_advance resolve route create describe cfg env d info timeout rotation s io :
  let r := connect_once parse_server_name tls resolve route create describe cfg env d info timeout rotation s io in
  ∃ l, (∀ c, advance c d s r.1.2 l) ∧
    match r.1.1.1 with Ok _ => l = [Connecting; Connected] | Err _ => l = [] ∨ l = [Connecting] end.
Proof.
  unfold connect_once. destruct (prepare_login_config _ _ _ _ _ _) as [[[remote sni]|e] rot]; simpl.
  - assert (∀ c, advance c d s (obtain_endpoint create remote s).2 []) as Ho
      by (intros; apply advance_bus, obtain_endpoint_bus).
    destruct (obtain_endpoint create remote s) as [[ep|] s1]; simpl in *.
    + pose proof (λ c, login_advance c cfg env d remote info timeout s1 io) as Hl.
      destruct (login _ _ _ _ _ _ _ _) as [[[hb|e] s2] io2]; simpl in *;
        pose proof (λ c, advance_trans _ _ _ _ _ _ _ (Ho c) (Hl c)) as H; simpl in H.
      * eexists; split; [exact H|done].
      * exists [Connecting]. split; [intros; by apply attempt_failed_advance|by right].
    + exists []. split; [intros; by apply attempt_failed_advance|by left].
  - exists []. split; [intros; apply attempt_failed_advance, advance_refl|by left].
Qed.

Lemma announce_advance c env d msg s s' :
  advance c d s s' [] → advance c d s (announce env d msg s') [Tunneling].
Proof. intros H. apply (advance_state c d s _ []), advance_log, H. Qed.

Lemma get_receiver_bus addr h s : st_event_bus (get_or_init_tcp_receiver addr h s).2 = st_event_bus s.
Proof. unfold get_or_init_tcp_receiver. repeat (case_match; simplify_eq/=); done. Qed.

Lemma outbound_tcp_bus bind addr s : st_event_bus (outbound_tcp_receiver bind addr s).2 = st_event_bus s.
Proof.
  unfold outbound_tcp_receiver, start_tcp_server.
  destruct (st_tcp_servers s !! addr); [|destruct bind; [|done]]; by rewrite get_receiver_bus.
Qed.

Lemma handle_tunnel_advance env d t s st s' :
  handle_tunnel env d t s = Some (st, s') →
  ∃ l, (∀ c, advance c d s s' l) ∧ match st with Serving _ => l = [Tunneling] | SetupFailed => l = [] ∨ l = [Tunneling] end.
Proof.
  assert (∀ msg c, advance c d s (announce env d msg s) [Tunneling]) as Ha
    by (intros; apply announce_advance, advance_refl).
  destruct t as [cfg|ut]; [|intros [= <- <-]; eauto]. cbn [handle_tunnel]. unfold handle_network_based_tunnel.
  destruct (local_server_addr cfg) as [addr|]; [|done]. cbn [mbind option_bind]. intros [= Hh].
  destruct (mode cfg), (upstream_type (upstream cfg)); [injection Hh as <- <-; by eauto..| |].
  - unfold serve_outbound_tcp in Hh. assert (∀ c, advance c d s (outbound_tcp_receiver (se_bind env) addr s).2 []) as Ho
      by (intros; apply advance_bus, outbound_tcp_bus).
    destruct (outbound_tcp_receiver _ _ _) as [[r|] s1]; simplify_eq/=; eauto using announce_advance.
  - unfold serve_outbound_udp in Hh.
    set (step := match st_udp_servers s !! addr with Some h => (Some h, s) | None => start_udp_server (se_bind env) addr s end) in Hh.
    assert (∀ c, advance c d s step.2 []) as Hs.
    { intros c. apply advance_bus. unfold step, start_udp_server. by repeat (case_match; simpl). }
    destruct step as [handle s1]. cbn [snd] in Hs. destruct (h ← handle; _) as [[h server]|]; [|simplify_eq; eauto].
    destruct (udp_take_receiver server) as [taken server'].
    assert (∀ c, advance c d s s' [Tunneling]) as Hadv.
    { intros c. simplify_eq. eapply advance_silent; [|reflexivity]. by apply announce_advance. }
    exists [Tunneling]. split; [done|]. destruct taken; simplify_eq; auto.
Qed.

Lemma report_end_advance c now d stats s :
  advance c d s (report_end now d stats s) (if should_quit s then [] else [Reconnecting]).
Proof.
  unfold report_end. destruct (should_quit s); [by apply advance_bus|].
  eapply advance_silent; [|reflexivity]. apply (advance_state c d s _ []), advance_refl.
Qed.

(** The core of the state over a start. *)
Lemma announce_core env d msg s : same_core s (announce env d msg s).
Proof. unfold announce, post_tunnel_state, post_tunnel_log. core. Qed.

(** Registration and the client's state survive serving. *)
Definition same_life (s s' : State) : Prop :=
  st_connections s' = st_connections s ∧ st_client_state s' = st_client_state s.

Lemma same_core_life s s' : same_core s s' → same_life s s'.
Proof. by intros (? & ? & _). Qed.

Lemma same_life_trans s1 s2 s3 : same_life s1 s2 → same_life s2 s3 → same_life s1 s3.
Proof. unfold same_life. intuition congruence. Qed.

Lemma outbound_tcp_life bind addr s :
  same_life s (outbound_tcp_receiver bind addr s).2 ∧
  udp_heap (outbound_tcp_receiver bind addr s).2 = udp_heap s ∧
  st_udp_servers (outbound_tcp_receiver bind addr s).2 = st_udp_servers s.
Proof.
  unfold outbound_tcp_receiver, start_tcp_server, get_or_init_tcp_receiver.
  repeat (case_match; simplify_eq/=); done.
Qed.

Lemma handle_tunnel_life env d t s st s' : handle_tunnel env d t s = Some (st, s') → same_life s s'.
Proof.
  pose proof (λ msg, same_core_life _ _ (announce_core env d msg s)) as Ha.
  destruct t as [cfg|ut]; [|by intros [= <- <-]]. cbn [handle_tunnel]. unfold handle_network_based_tunnel.
  destruct (local_server_addr cfg) as [addr|]; [|done]. cbn [mbind option_bind]. intros [= Hh].
  destruct (mode cfg), (upstream_type (upstream cfg)); [by injection Hh as <- <-..| |].
  - unfold serve_outbound_tcp in Hh. destruct (outbound_tcp_life (se_bind env) addr s) as [Ho _].
    destruct (outbound_tcp_receiver _ _ _) as [[r|] s1]; simplify_eq/=; [|done].
    eapply same_life_trans; [exact Ho|]. apply same_core_life, announce_core.
  - unfold serve_outbound_udp in Hh.
    set (step := match st_udp_servers s !! addr with Some h => (Some h, s) | None => start_udp_server (se_bind env) addr s end) in Hh.
    assert (same_life s step.2) as Hs by (unfold step, start_udp_server; by repeat (case_match; simpl)).
    destruct step as [handle s1]. cbn [snd] in Hs. destruct (h ← handle; _) as [[h server]|]; [|by simplify_eq].
    destruct (udp_take_receiver server) as [taken server']. simplify_eq.
    eapply same_life_trans; [exact Hs|].
    by apply (same_core_life _ (announce env d _ s1)), announce_core.
Qed.

Lemma should_quit_life s s' : same_life s s' → should_quit s' = should_quit s.
Proof. intros [_ H]. unfold should_quit. by rewrite H. Qed.

(** Every step of a task, with what it does to the shared state. *)
Inductive task_spec (d : TunnelDescriptor) (t : Tunnel) (ch : choice) (s : State) (cl us : gset Z) :
  tunnel_pc → tunnel_pc → State → gset Z → gset Z → Prop :=
| SpAttemptFailed a s' l :
    same_core s s' → (∀ c, advance c d s s' l) → l = [] ∨ l = [Connecting] →
    task_spec d t ch s cl us (TcConnect a) (if should_quit s then TcFinal else TcConnect (a + 1)) s' cl us
| SpConnectedQuit a c s' :
    c ∉ us → same_core s s' → (∀ w, advance w d s s' [Connecting; Connected]) → should_quit s = true →
    task_spec d t ch s cl us (TcConnect a) TcFinal s' ({[c]} ∪ cl) ({[c]} ∪ us)
| SpConnected a c s' :
    c ∉ us → same_core s s' → (∀ w, advance w d s s' [Connecting; Connected]) → should_quit s = false →
    task_spec d t ch s cl us (TcConnect a) (TcChecked c) s' cl ({[c]} ∪ us)
| SpRegister c :
    task_spec d t ch s cl us (TcChecked c) (TcRegistered c) (set_connections ({[c]} ∪ st_connections s) s) cl us
| SpServe env c held s' :
    ch = ChStart env → handle_tunnel env d t s = Some (Serving held, s') →
    same_life s s' → (∀ w, advance w d s s' [Tunneling]) →
    task_spec d t ch s cl us (TcRegistered c) (TcServing c held) s' cl us
| SpSetupFailed env c s' l :
    ch = ChStart env → handle_tunnel env d t s = Some (SetupFailed, s') →
    same_life s s' → (∀ w, advance w d s s' l) → l = [] ∨ l = [Tunneling] →
    task_spec d t ch s cl us (TcRegistered c) (TcClosing c None) s' ({[c]} ∪ cl) us
| SpTaskEnd c held : task_spec d t ch s cl us (TcServing c held) (TcClosing c held) s ({[c]} ∪ cl) us
| SpLeave c held pc cut :
    pc = TcServing c held ∨ pc = TcClosing c held → c ∈ cl →
    task_spec d t ch s cl us pc (TcServed c) (end_serving cut held s) cl us
| SpReport c now stats : task_spec d t ch s cl us (TcServed c) (TcReported c) (report_end now d stats s) cl us
| SpUnregister c :
    task_spec d t ch s cl us (TcReported c) TcLeft (set_connections (st_connections s ∖ {[c]}) s) cl us
| SpAgain : task_spec d t ch s cl us TcLeft (if should_quit s then TcFinal else TcConnect 0) s cl us
| SpQuit now msg : task_spec d t ch s cl us TcFinal TcDone (post_tunnel_log now d msg s) cl us.

Lemma connect_and_serve_step_spec d t ch pc s cl us r pc' s' cl' us' r' :
  connect_and_serve_step d t ch pc s cl us r = Some (pc', s', cl', us', r') →
  task_spec d t ch s cl us pc pc' s' cl' us'.
Proof.
  unfold connect_and_serve_step. intros Hs.
  destruct pc as [a|c|c|c held|c held|c|c| | |], ch as [env c'| |env| |cut|now stats| | |now]; try done.
  - destruct (connect_once _ _ _ _ _ _ _ _ _ _ _ _ _ _) as [[[result rot] s1] io] eqn:Hc.
    pose proof (connect_once_core (ae_resolve env) (ae_ipv6_route env) (ae_create_endpoint env) (ae_describe env)
      config (ae_login env) d (login_info_of t) (connect_attempt_timeout_for a) r s (ae_io env)) as Hcore.
    destruct (connect_once_advance (ae_resolve env) (ae_ipv6_route env) (ae_create_endpoint env) (ae_describe env)
      config (ae_login env) d (login_info_of t) (connect_attempt_timeout_for a) r s (ae_io env)) as (l & Hadv & Hl).
    rewrite Hc in Hcore, Hadv, Hl. cbn [fst snd] in *.
    rewrite (should_quit_life _ _ (same_core_life _ _ Hcore)) in Hs. destruct result as [hb|e].
    + subst l. destruct (decide (c' ∈ us)); [done|]. destruct (should_quit s) eqn:Hq; simplify_eq; by constructor.
    + destruct e as [e|e| |[]]; simplify_eq; by eapply SpAttemptFailed.
  - simplify_eq. constructor.
  - destruct (handle_tunnel env d t s) as [[[held|] s1]|] eqn:Hh; [| |done];
      pose proof (handle_tunnel_life _ _ _ _ _ _ Hh); destruct (handle_tunnel_advance _ _ _ _ _ _ Hh) as (l & Hadv & Hl);
      simplify_eq; by econstructor.
  - simplify_eq. constructor.
  - destruct (decide _); simplify_eq. apply (SpLeave _ _ _ _ _ _ _ held); auto.
  - destruct (decide _); simplify_eq. apply (SpLeave _ _ _ _ _ _ _ held); auto.
  - simplify_eq. constructor.
  - simplify_eq. constructor.
  - simplify_eq. constructor.
  - simplify_eq. constructor.
Qed.

Lemma task_step_spec i ch x y :
  task_step i ch x = Some y →
  ∃ pc id t d pc', ty_tasks x !! i = Some pc ∧ client_tunnels config chans !! i = Some (id, t) ∧
    build_tunnel_descriptor id t (tunnel_channel_input t) = Some d ∧
    task_spec d t ch (ty_state x) (ty_closed x) (ty_used x) pc pc' (ty_state y) (ty_closed y) (ty_used y) ∧
    ty_tasks y = <[i := pc']> (ty_tasks x) ∧ ty_stop y = ty_stop x ∧ ty_late y = ty_late x.
Proof.
  unfold task_step. destruct (ty_tasks x !! i) as [pc|]; [|done].
  destruct (client_tunnels config chans !! i) as [[id t]|]; [|done]. cbn.
  destruct (build_tunnel_descriptor id t _) as [d|] eqn:Hd; [|done]. cbn.
  destruct (connect_and_serve_step _ _ _ _ _ _ _ _) as [[[[[pc' s'] cl'] us'] r']|] eqn:Hs; [|done].
  intros [= <-]. apply connect_and_serve_step_spec in Hs. eexists _, _, _, _, _. cbn. split_and!; eauto.
Qed.
End tasks.
