(* ===== verification/TunnelLife.v ===== *)
(** What the tunnel tasks of [ClientTunnel] guarantee: they implement the life
    cycle of [ClientRun], listeners see every tunnel pass through its states in
    the documented order, and after [stop] all tasks end.  Also: the receiver of
    a UDP listener does not survive every reconnect. *)
From stdpp Require Import gmap fin_sets.
From S2P Require Import Prelude Io Net Target AddrText Config Message BincodeStd Heartbeat EventBus Servers TcpTunnel Server Client ClientRun ClientTunnel.

#[local] Open Scope string_scope.
#[local] Open Scope Z_scope.

(** * The life cycle *)

Definition abs_pc (pc : tunnel_pc) : phase :=
  match pc with
  | TcConnect _ => PConnecting
  | TcChecked c => PChecked c
  | TcRegistered c | TcServing c _ | TcClosing c _ | TcServed c | TcReported c => PServing c
  | TcLeft => PLeft
  | TcFinal | TcDone => PDone
  end.

Definition abs_state (s : State) : State :=
  set_client_state (st_client_state s) (set_connections (st_connections s) state_new).

Definition abs_sys (x : tunnel_sys) : client_sys :=
  ClientSys (abs_state (ty_state x)) (abs_pc <$> ty_tasks x) (ty_closed x) (ty_used x) (ty_stop x) (ty_late x).

(** The connection a task works with. *)
Definition pc_conn (pc : tunnel_pc) : option Z :=
  match pc with
  | TcChecked c | TcRegistered c | TcServing c _ | TcClosing c _ | TcServed c | TcReported c => Some c
  | _ => None
  end.

Definition pc_closed (pc : tunnel_pc) : option Z :=
  match pc with TcClosing c _ | TcServed c | TcReported c => Some c | _ => None end.

Definition conns_ok (ts : gmap nat tunnel_pc) (cl us : gset Z) : Prop :=
  ∀ i pc, ts !! i = Some pc →
    (∀ c, pc_conn pc = Some c → c ∈ us) ∧ (∀ c, pc_closed pc = Some c → c ∈ cl).

Section life.
Context `{bc : !Bincode}.
Context (parse_server_name : string → option server_name) (tls : tls_world).
Context (config : ClientConfig) (chans : list UpstreamType).

Abbreviation step := (sys_step parse_server_name tls config chans watch).
Abbreviation reachable := (sys_reachable parse_server_name tls config chans).

Lemma task_spec_conns d t ch s cl us pc pc' s' cl' us' i ts :
  task_spec d t ch s cl us pc pc' s' cl' us' → ts !! i = Some pc → conns_ok ts cl us →
  conns_ok (<[i := pc']> ts) cl' us' ∧ cl ⊆ cl' ∧ us ⊆ us'.
Proof.
  intros Hsp Hi Hok. destruct (Hok i pc Hi) as [Hu Hc].
  assert (cl ⊆ cl' ∧ us ⊆ us' ∧ (∀ c, pc_conn pc' = Some c → c ∈ us') ∧ (∀ c, pc_closed pc' = Some c → c ∈ cl'))
    as (Hcl & Hus & Hu' & Hc').
  { destruct Hsp as [| | | | | | |c held pc cut [->| ->] Hin| | | |]; try destruct (should_quit s); simpl in *;
      split_and!; try set_solver. }
  split_and!; [|done..]. intros j pc0 [[<- <-]|[? Hj]]%lookup_insert_Some; [done|].
  destruct (Hok j pc0 Hj). set_solver.
Qed.

Lemma step_conns x y : step x y → conns_ok (ty_tasks x) (ty_closed x) (ty_used x) →
  conns_ok (ty_tasks y) (ty_closed y) (ty_used y).
Proof.
  intros Hs Hok. destruct Hs as [x i ch y Hs Hf| | | | | | |]; simpl in *; try done.
  - apply task_step_spec in Hs as (pc & id & t & d & pc' & Hi & _ & _ & Hsp & -> & _ & _).
    by eapply task_spec_conns.
  - intros j p Hj. destruct (Hok j p Hj). set_solver.
  - intros j p Hj. destruct (Hok j p Hj). set_solver.
Qed.

Lemma reachable_conns x : reachable x → conns_ok (ty_tasks x) (ty_closed x) (ty_used x).
Proof.
  unfold sys_reachable. intros Hr. remember (sys_init config chans) as x0 eqn:E.
  assert (conns_ok (ty_tasks x0) (ty_closed x0) (ty_used x0)) as H0.
  { subst x0. by intros i pc [_ <-]%lookup_gset_to_gmap_Some. }
  clear E. induction Hr as [|x y z Hxy _ IH]; [done|]. by eapply IH, step_conns.
Qed.

(** A step of a task is a step of its phase or leaves it as it is. *)
Lemma task_spec_refines d t ch s cl us pc pc' s' cl' us' i ts st lt :
  task_spec d t ch s cl us pc pc' s' cl' us' → ts !! i = Some pc → conns_ok ts cl us →
  let x := ClientSys (abs_state s) (abs_pc <$> ts) cl us st lt in
  let y := ClientSys (abs_state s') (abs_pc <$> <[i := pc']> ts) cl' us' st lt in
  y = x ∨ client_step x y.
Proof.
  intros Hsp Hi Hok x y. destruct (Hok i pc Hi) as [Hu Hc].
  assert ((abs_pc <$> ts) !! i = Some (abs_pc pc)) as Hai by (by rewrite lookup_fmap, Hi).
  assert (∀ s1, same_life s s1 → abs_state s1 = abs_state s) as Hlife.
  { intros s1 [Hconn Hcs]. unfold abs_state. by rewrite Hconn, Hcs. }
  assert (abs_pc pc' = abs_pc pc → abs_pc <$> <[i := pc']> ts = abs_pc <$> ts) as Hsame.
  { intros E. by rewrite fmap_insert, E, insert_id. }
  subst x y. destruct Hsp as [a s' l Hcore _ _|a c s' Hn Hcore _ Hq|a c s' Hn Hcore _ Hq|c|env c held s' _ _ Hl _|env c s' l _ _ Hl _ _|c held
    |c held pc cut Hpc Hin|c now stats|c| |now msg]; cbn [abs_pc pc_conn pc_closed] in *.
  - apply same_core_life in Hcore. rewrite (Hlife _ Hcore). destruct (should_quit s) eqn:Hq.
    + right. rewrite fmap_insert. by apply LConnectStopped.
    + left. by rewrite Hsame.
  - apply same_core_life in Hcore. rewrite (Hlife _ Hcore), fmap_insert. right. by apply LConnectedQuit.
  - apply same_core_life in Hcore. rewrite (Hlife _ Hcore), fmap_insert. right. by apply LConnected.
  - right. rewrite fmap_insert. by apply (LRegister (abs_state s)).
  - left. by rewrite (Hlife _ Hl), Hsame.
  - right. rewrite (Hlife _ Hl), Hsame by done. by apply LClosed, Hu.
  - right. rewrite Hsame by done. by apply LClosed, Hu.
  - left. rewrite Hsame by (by destruct Hpc as [-> | ->]). f_equal. by destruct held.
  - left. rewrite Hsame by done. f_equal. apply Hlife. unfold report_end.
    destruct (should_quit s); [done|]. apply same_core_life, post_event_core.
  - right. rewrite fmap_insert. apply (LLeave (abs_state s)); [done|]. by apply Hc.
  - right. rewrite fmap_insert. assert (should_quit (abs_state s) = should_quit s) as <- by done.
    replace (abs_pc _) with (if should_quit (abs_state s) then PDone else PConnecting) by (by destruct (should_quit _)).
    by apply LAgain.
  - left. rewrite Hsame by done. f_equal. apply Hlife, same_core_life, post_event_core.
Qed.

Lemma checked_late ts : checked_tasks (abs_pc <$> ts) = late_tasks ts.
Proof.
  unfold checked_tasks, late_tasks. apply set_eq. intros i. rewrite !elem_of_dom. split; intros [p Hp].
  - apply map_lookup_filter_Some in Hp as [Hp Hc]. rewrite lookup_fmap_Some in Hp. destruct Hp as (pc & <- & Hpc).
    exists pc. apply map_lookup_filter_Some. split; [done|]. by destruct pc.
  - apply map_lookup_filter_Some in Hp as [Hp Hc]. exists (abs_pc p). apply map_lookup_filter_Some.
    rewrite lookup_fmap, Hp. split; [done|]. by destruct p.
Qed.

Lemma step_refines x y :
  step x y → conns_ok (ty_tasks x) (ty_closed x) (ty_used x) →
  abs_sys y = abs_sys x ∨ client_step (abs_sys x) (abs_sys y).
Proof.
  intros Hs Hok. destruct Hs as [x i ch y Hs Hf|s ts cl us pc lt r c Hc| | | |s ts cl us lt r|s ts cl us lt r s' closed quits Hsw
    |s ts cl us lt r]; try (by left).
  - apply task_step_spec in Hs as (pc & id & t & d & pc' & Hi & _ & _ & Hsp & Hts & Hst & Hlt).
    unfold abs_sys. rewrite Hts, Hst, Hlt. by eapply task_spec_refines.
  - right. by apply LClosed.
  - right. apply (LStopBegin (abs_state s)).
  - right. unfold abs_sys. simpl. rewrite <-checked_late.
    unfold stop_sweep in Hsw. simplify_eq. by apply (LStopSweep (abs_state s) _ _ _ _ _ _ _ eq_refl).
  - right. apply (LStopEnd (abs_state s)).
Qed.

(** C6: The tasks implement the life cycle.  Whatever the tasks, [stop], the
    network and the listeners do and in whatever order, the phases of the tasks,
    the connection table and the client's state evolve by steps of the life
    cycle of [ClientRun] only. *)
Theorem tunnels_refine_life_cycle x :
  reachable x → client_reachable (length (client_tunnels config chans)) (abs_sys x).
Proof.
  intros Hr. pose proof (reachable_conns (sys_init config chans) (rtc_refl _ _)) as H0. unfold sys_reachable in Hr.
  assert (client_reachable (length (client_tunnels config chans)) (abs_sys (sys_init config chans))) as Hi.
  { assert (abs_sys (sys_init config chans) = ClientSys state_new
      (gset_to_gmap PConnecting (set_seq 0 (length (client_tunnels config chans)))) ∅ ∅ StopNone ∅) as ->; [|apply ClInit].
    unfold abs_sys, sys_init. f_equal. simpl. by rewrite fmap_gset_to_gmap. }
  revert H0 Hi. induction Hr as [|x y z Hxy _ IH]; [done|]. intros Hok Hi. apply IH; [by eapply step_conns|].
  destruct (step_refines x y Hxy Hok) as [-> |Hc]; [done|by eapply ClNext].
Qed.


(** * The states listeners see *)

(** The order in which a tunnel may report its states. *)
Definition may_follow (prev : option TunnelState) (next : TunnelState) : bool :=
  match prev, next with
  | (None | Some Connecting | Some Reconnecting), Connecting => true
  | Some Connecting, Connected => true
  | Some Connected, Tunneling => true
  | (Some Connected | Some Tunneling), Reconnecting => true
  | _, _ => false
  end.

Fixpoint lifecycle (prev : option TunnelState) (l : list TunnelState) : bool :=
  match l with
  | [] => true
  | st :: l' => may_follow prev st && lifecycle (Some st) l'
  end.

Definition final_state (prev : option TunnelState) (l : list TunnelState) : option TunnelState :=
  match list.last l with Some st => Some st | None => prev end.

Lemma lifecycle_app prev l k : lifecycle prev (l ++ k) = lifecycle prev l && lifecycle (final_state prev l) k.
Proof.
  revert prev. induction l as [|st l IH]; intros prev; [done|]. cbn [app lifecycle]. rewrite IH, andb_assoc. do 2 f_equal.
  unfold final_state. rewrite list.last_cons. by destruct (list.last l).
Qed.

Lemma final_state_app prev l k : final_state prev (l ++ k) = final_state (final_state prev l) k.
Proof. unfold final_state. rewrite list.last_app. by destruct (list.last k). Qed.

(** What the last reported state says about where the task is. *)
Definition pc_reported (quit : bool) (pc : tunnel_pc) (st : option TunnelState) : bool :=
  match pc, st with
  | TcConnect _, (None | Some Connecting | Some Reconnecting) => true
  | (TcChecked _ | TcRegistered _), Some Connected => true
  | TcServing _ _, Some Tunneling => true
  | (TcClosing _ _ | TcServed _), (Some Connected | Some Tunneling) => true
  | (TcReported _ | TcLeft), Some Reconnecting => true
  | (TcReported _ | TcLeft), _ => quit
  | (TcFinal | TcDone), _ => true
  | _, _ => false
  end.

Lemma task_spec_reported d t ch s cl us pc pc' s' cl' us' :
  task_spec d t ch s cl us pc pc' s' cl' us' →
  should_quit s' = should_quit s ∧
  ∃ l, (∀ w, advance w d s s' l) ∧
    ∀ st, pc_reported (should_quit s) pc st = true →
      lifecycle st l = true ∧ pc_reported (should_quit s) pc' (final_state st l) = true.
Proof.
  assert (∀ s1, st_event_bus s1 = st_event_bus s → ∀ w, advance w d s s1 []) as Hbus
    by (intros; by apply advance_bus).
  intros Hsp. destruct Hsp as [a s' l Hcore Hadv Hl|a c s' Hn Hcore Hadv Hq|a c s' Hn Hcore Hadv Hq|c|env c held s' _ _ Hlf Hadv
    |env c s' l _ _ Hlf Hadv Hl|c held|c held pc cut Hpc Hin|c now stats|c| |now msg].
  - split; [by apply should_quit_life, same_core_life|]. exists l. split; [done|]. intros st.
    by destruct Hl as [-> | ->], (should_quit s), st as [[]|].
  - split; [by apply should_quit_life, same_core_life|]. eexists. split; [exact Hadv|]. by intros [[]|].
  - split; [by apply should_quit_life, same_core_life|]. eexists. split; [exact Hadv|]. by intros [[]|].
  - split; [done|]. exists []. split; [by apply Hbus|]. by intros [[]|].
  - split; [by apply should_quit_life|]. eexists. split; [exact Hadv|]. by intros [[]|].
  - split; [by apply should_quit_life|]. exists l. split; [done|]. by destruct Hl as [-> | ->]; intros [[]|].
  - split; [done|]. exists []. split; [by apply Hbus|]. by intros [[]|].
  - split; [by destruct held|]. exists []. split; [apply Hbus; by destruct held|]. by destruct Hpc as [-> | ->]; intros [[]|].
  - split.
    + unfold report_end. destruct (should_quit s) eqn:Hq; [done|].
      rewrite <-Hq. by apply (should_quit_life _ (post_event _ s)), same_core_life, post_event_core.
    + eexists. split; [intros; apply report_end_advance|]. by intros [[]|]; destruct (should_quit s).
  - split; [done|]. exists []. split; [by apply Hbus|]. by intros [[]|].
  - split; [done|]. exists []. split; [by apply Hbus|]. by intros [[]|]; destruct (should_quit s).
  - split; [apply should_quit_life, same_core_life, post_event_core|]. exists [].
    split; [intros; apply advance_log, advance_refl|]. by intros [[]|].
Qed.

(** The tunnel of task [i] and its descriptor. *)
Definition task_descriptor (i : nat) (d : TunnelDescriptor) : Prop :=
  ∃ id t, client_tunnels config chans !! i = Some (id, t) ∧
    build_tunnel_descriptor id t (tunnel_channel_input t) = Some d.

Definition info_of_id (id : TunnelId) : TunnelSource * Z :=
  match id with IdNetwork n => (SourceNetwork, n) | IdChannel n _ => (SourceChannel, n) end.

Lemma event_info_id d :
  (λ i, (ti_source i, ti_id i)) <$> event_info d = Some ((info_of_id (td_id d)).1, Some (info_of_id (td_id d)).2).
Proof. unfold event_info, tunnel_event_new. by destruct (td_id d). Qed.

Lemma client_tunnels_id i id t :
  client_tunnels config chans !! i = Some (id, t) →
  info_of_id id = if (i <? length (cc_tunnels config))%nat then (SourceNetwork, Z.of_nat i)
                  else (SourceChannel, Z.of_nat (i - length (cc_tunnels config))).
Proof.
  unfold client_tunnels, connect_and_serve_async, connect_and_serve_channel_async.
  destruct (Nat.ltb_spec i (length (cc_tunnels config))) as [Hi|Hi].
  - rewrite lookup_app_l by (by rewrite length_imap). rewrite list_lookup_imap.
    destruct (cc_tunnels config !! i); intros; by simplify_eq/=.
  - rewrite lookup_app_r by (by rewrite length_imap). rewrite length_imap, list_lookup_imap.
    destruct (chans !! _); intros; by simplify_eq/=.
Qed.

(** Different tasks report under different names. *)
Lemma task_descriptor_inj i j d d' :
  task_descriptor i d → task_descriptor j d' → event_info d = event_info d' → i = j.
Proof.
  intros (id & t & Hi & Hd) (id' & t' & Hj & Hd') He.
  assert (td_id d = id ∧ td_id d' = id') as [<- <-].
  { split; [destruct t|destruct t']; simpl in Hd, Hd'; simplify_eq; done. }
  apply client_tunnels_id in Hi. apply client_tunnels_id in Hj.
  pose proof (event_info_id d) as E. rewrite He, event_info_id in E. injection E as E1 E2.
  rewrite Hi, Hj in E1, E2. destruct (Nat.ltb_spec i (length (cc_tunnels config))), (Nat.ltb_spec j (length (cc_tunnels config)));
    simpl in *; lia || done.
Qed.

Definition reported_inv (x : tunnel_sys) : Prop :=
  listening watch (ty_state x) ∧
  ∀ i d, task_descriptor i d →
    lifecycle None (observed watch d (ty_state x)) = true ∧
    ∀ pc, ty_tasks x !! i = Some pc →
      pc_reported (should_quit (ty_state x)) pc (final_state None (observed watch d (ty_state x))) = true.

Lemma pc_reported_mono q q' pc st :
  (q = true → q' = true) → pc_reported q pc st = true → pc_reported q' pc st = true.
Proof. destruct q, q'; intros Hq; [done|by specialize (Hq eq_refl)| |done]. by destruct pc, st as [[]|]. Qed.

(** Steps that report nothing about a tunnel. *)
Lemma reported_inv_silent x y :
  reported_inv x → ty_tasks y = ty_tasks x → (should_quit (ty_state x) = true → should_quit (ty_state y) = true) →
  listening watch (ty_state y) → (∀ d, observed watch d (ty_state y) = observed watch d (ty_state x)) →
  reported_inv y.
Proof.
  intros [_ H] Hts Hq Hl Ho. split; [done|]. intros i d Hd. rewrite Hts, Ho.
  destruct (H i d Hd) as [? Hpc]. split; [done|]. intros pc Hi. by eapply pc_reported_mono, Hpc.
Qed.

Lemma bus_silent s o :
  listening watch s → match o with OpRegister => True | OpPost e => tunnel e = None | OpRecv c | OpDrop c => c ≠ watch end →
  let s' := set_event_bus (bus_step o (st_event_bus s)).2 s in
  listening watch s' ∧ ∀ d, observed watch d s' = observed watch d s.
Proof.
  intros [Hwf [q Hq]] Ho s'. destruct (bus_step_channel o _ watch q Hwf Hq) as (q' & Hq' & Heq); [by intros ->|].
  split; [split; [by apply bus_step_wf|by eexists]|]. intros d. unfold observed, queue, s'. simpl. rewrite Hq, Hq'. simpl.
  assert (received watch (bus_step o (st_event_bus s)).1 = []) as Hr.
  { destruct o as [|e|c|c]; [done..| |done]. simpl. destruct (recv_event c _) as [[e|] b]; [|done].
    unfold received. simpl. by rewrite bool_decide_false. }
  rewrite Hr, app_nil_l in Heq. rewrite <-Heq, omap_app.
  assert (omap (event_state d) (posted [o]) = []) as ->; [|by rewrite app_nil_r].
  destruct o as [|e|c|c]; [done| |done..]. cbn. unfold event_state. rewrite Ho.
  rewrite decide_False; [done|]. unfold event_info, tunnel_event_new. by destruct (td_id d).
Qed.

Lemma step_reported x y : step x y → reported_inv x → reported_inv y.
Proof.
  intros Hs Hinv. destruct Hs as [x i ch y Hs Hf|s ts cl us pc lt r c Hc|s ts cl us pc lt r h server server' Hh Hu|s ts cl us pc lt r h server server' Hh Hu
    |s ts cl us pc lt r o Ho|s ts cl us lt r|s ts cl us lt r s' closed quits Hsw|s ts cl us lt r].
  2,3,4,6,8: by (eapply reported_inv_silent; [exact Hinv|done..|apply Hinv|done]).
  - apply task_step_spec in Hs as (pc & id & t & d & pc' & Hi & Ht & Hd & Hsp & Hts & _ & _).
    destruct (task_spec_reported _ _ _ _ _ _ _ _ _ _ _ Hsp) as (Hq & l & Hadv & Hl).
    destruct Hinv as [Hlis Hinv]. destruct (Hadv watch Hlis) as [Hlis' Hobs].
    split; [done|]. intros j d' Hd'. rewrite Hobs, Hq, Hts.
    assert (task_descriptor i d) as Hdi by (by exists id, t).
    destruct (decide (event_info d' = event_info d)) as [E|E].
    + pose proof (task_descriptor_inj _ _ _ _ Hd' Hdi E) as ->.
      destruct (Hinv i d' Hd') as [H1 H2]. destruct (Hl _ (H2 pc Hi)). rewrite lifecycle_app, final_state_app, H1.
      split; [done|]. intros p. rewrite lookup_insert_eq. by intros [= <-].
    + rewrite app_nil_r, lookup_insert_ne; [by apply Hinv|]. intros ->. apply E.
      destruct Hd' as (? & ? & Ht' & Hd'). rewrite Ht in Ht'. by simplify_eq.
  - destruct (bus_silent s o) as [? ?]; [apply Hinv|done|]. by eapply reported_inv_silent.
  - unfold stop_sweep in Hsw. simplify_eq. by (eapply reported_inv_silent; [exact Hinv|done..|apply Hinv|done]).
Qed.

(** C7: Every listener sees every tunnel live through its states in order: it
    connects (as often as it takes), is connected, tunnels, reconnects when the
    connection is lost, and connects again; a tunnel that could not start
    serving goes from connected to reconnecting; nothing is reported twice or
    skipped, whatever the other tunnels, other listeners, the network and [stop]
    do. *)
Theorem tunnel_states_in_order x i d :
  reachable x → task_descriptor i d → lifecycle None (observed watch d (ty_state x)) = true.
Proof.
  intros Hr Hd. assert (reported_inv x) as [_ Hinv].
  { assert (reported_inv (sys_init config chans)) as H0.
    { split; [split; [apply (bus_step_wf OpRegister bus_new)|by eexists]|].
      - split_and!; [apply NoDup_nil_2|by intros ? ?%elem_of_nil|done].
      - intros j d' _. split; [done|]. by intros pc [_ <-]%lookup_gset_to_gmap_Some. }
    unfold sys_reachable in Hr. induction Hr as [|x y z Hxy _ IH]; [done|]. by apply IH, (step_reported x). }
  by apply Hinv with i.
Qed.

(** * After [stop] every task ends *)

(** Steps a task can still take once the client is stopping. *)
Definition weight (pc : tunnel_pc) : nat :=
  match pc with
  | TcChecked _ => 9 | TcRegistered _ => 8 | TcServing _ _ => 7 | TcClosing _ _ => 6 | TcServed _ => 5
  | TcReported _ => 4 | TcLeft => 3 | TcConnect _ => 2 | TcFinal => 1 | TcDone => 0
  end.

Lemma task_spec_weight d t ch s cl us pc pc' s' cl' us' :
  task_spec d t ch s cl us pc pc' s' cl' us' → should_quit s = true → (weight pc' < weight pc)%nat ∧ should_quit s' = true.
Proof.
  intros Hsp Hq. destruct (task_spec_reported _ _ _ _ _ _ _ _ _ _ _ Hsp) as [Hq' _]. split; [|congruence].
  destruct Hsp as [| | | | | | |c held pc cut [-> | ->] Hin| | | |]; rewrite ?Hq; simpl; lia || congruence.
Qed.

(** A run in which task [i] makes [n] steps, among any steps of the other tasks
    and of the world around them. *)
Inductive task_run (i : nat) : nat → tunnel_sys → tunnel_sys → Prop :=
| RunEnd x : task_run i 0 x x
| RunOwn n x y z ch :
    task_step parse_server_name tls config chans i ch x = Some y → fresh_bind ch (ty_state x) = true →
    task_run i n y z → task_run i (S n) x z
| RunOther n x y z : step x y → ty_tasks y !! i = ty_tasks x !! i → task_run i n y z → task_run i n x z.

Lemma step_quit x y : step x y → should_quit (ty_state x) = true → should_quit (ty_state y) = true.
Proof.
  intros Hs Hq. destruct Hs as [x i ch y Hs Hf| | | | | |s ts cl us lt r s' closed quits Hsw|]; try done.
  - apply task_step_spec in Hs as (pc & id & t & d & pc' & _ & _ & _ & Hsp & _). by eapply task_spec_weight.
  - unfold stop_sweep in Hsw. by simplify_eq.
Qed.

Lemma task_run_weight i n x y :
  task_run i n x y → should_quit (ty_state x) = true →
  (n <= match ty_tasks x !! i with Some pc => weight pc | None => 0 end)%nat.
Proof.
  induction 1 as [x|n x y z ch Hs Hf _ IH|n x y z Hs Ht _ IH]; intros Hq; [lia| |].
  - pose proof (step_quit x y (SysTask _ _ _ _ _ x i ch y Hs Hf) Hq) as Hq'. specialize (IH Hq').
    apply task_step_spec in Hs as (pc & id & t & d & pc' & Hi & _ & _ & Hsp & Hts & _).
    destruct (task_spec_weight _ _ _ _ _ _ _ _ _ _ _ Hsp Hq) as [Hw _].
    rewrite Hts, lookup_insert_eq in IH. rewrite Hi. lia.
  - rewrite <-Ht. by eapply IH, step_quit.
Qed.

(** Every tunnel of the configuration has a local address; [create] makes no
    other. *)
Definition startable (cfg : TunnelConfig) : Prop := is_Some (local_server_addr cfg).

Lemma client_tunnels_startable i id t :
  Forall startable (cc_tunnels config) → client_tunnels config chans !! i = Some (id, t) →
  match t with NetworkBased cfg => startable cfg | ChannelBased _ => True end ∧
  is_Some (build_tunnel_descriptor id t (tunnel_channel_input t)).
Proof.
  intros Hf. unfold client_tunnels, connect_and_serve_async, connect_and_serve_channel_async.
  rewrite lookup_app, !list_lookup_imap. destruct (cc_tunnels config !! i) as [cfg|] eqn:Hc; simpl.
  - intros [= <- <-]. split; [by eapply Forall_lookup_1|by eexists].
  - destruct (chans !! _); [|done]. intros [= <- <-]. split; [done|by eexists].
Qed.

Lemma format_startable info remote :
  match li_tunnel info with NetworkBased cfg => startable cfg | ChannelBased _ => True end →
  is_Some (format_with_remote_addr info remote).
Proof.
  unfold format_with_remote_addr, startable. destruct (li_tunnel info) as [cfg|ut]; [|by eexists].
  intros [a ->]. destruct (mode cfg); by eexists.
Qed.

(** An attempt that is aborted because the client is stopping. *)
Definition aborted_attempt : choice :=
  ChConnect (AttemptEnv (λ _ _ _ _, None) false (λ _, None) (λ _, "")
    (LoginEnv StageStopping StageStopping StageStopping StageStopping (λ _, "") (MkConnStats 0 0 0 0 0 0 0 0 0 0 0 0))
    (AuthIo [] open_writer)) 0.

Lemma aborted_attempt_steps d t a s cl us r :
  match t with NetworkBased cfg => startable cfg | ChannelBased _ => True end →
  is_Some (connect_and_serve_step parse_server_name tls config d t aborted_attempt (TcConnect a) s cl us r).
Proof.
  intros Ht. unfold aborted_attempt. cbn [connect_and_serve_step ae_resolve ae_ipv6_route ae_create_endpoint ae_describe ae_login ae_io].
  unfold connect_once. destruct (prepare_login_config _ _ _ _ _ _) as [[[remote sni]|e] rot] eqn:Hp.
  2:{ unfold prepare_login_config in Hp. repeat case_hyp Hp; simplify_eq; by eexists. }
  destruct (obtain_endpoint _ remote s) as [[ep|] s1]; [|by eexists].
  destruct (format_startable (login_info_of config t) remote Ht) as [route Hr]. unfold login. rewrite Hr. by eexists.
Qed.

Lemma task_progress x i pc :
  Forall startable (cc_tunnels config) → ty_tasks x !! i = Some pc → is_Some (client_tunnels config chans !! i) →
  pc ≠ TcDone → (∀ c, pc_conn pc = Some c → c ∈ ty_closed x) →
  ∃ ch y, task_step parse_server_name tls config chans i ch x = Some y ∧ fresh_bind ch (ty_state x) = true.
Proof.
  intros Hst Hi [[id t] Ht] Hne Hc. destruct (client_tunnels_startable i id t Hst Ht) as [Hok [d Hd]].
  assert (∃ ch, is_Some (connect_and_serve_step parse_server_name tls config d t ch pc (ty_state x) (ty_closed x)
    (ty_used x) (ty_rotation x)) ∧ fresh_bind ch (ty_state x) = true) as (ch & [[[[[pc' s'] cl'] us'] r'] Hs] & Hf).
  { destruct pc as [a|c|c|c held|c held|c|c| | |]; cbn [pc_conn] in Hc.
    - exists aborted_attempt. split; [by apply aborted_attempt_steps|done].
    - by exists ChRegister.
    - exists (ChStart (ServeEnv None (λ _, "") (SockV4 0 0))). split; [|done]. cbn [connect_and_serve_step].
      assert (is_Some (handle_tunnel (ServeEnv None (λ _, "") (SockV4 0 0)) d t (ty_state x))) as [[[held|] s'] ->];
        [|by eexists..]. destruct t as [cfg|ut]; [|by eexists]. destruct Hok as [addr Ha]. cbn.
      unfold handle_network_based_tunnel. rewrite Ha. by eexists.
    - exists (ChLeave false). cbn. rewrite decide_True by auto. by split; [eexists|].
    - exists (ChLeave false). cbn. rewrite decide_True by auto. by split; [eexists|].
    - by exists (ChReport "" (MkConnStats 0 0 0 0 0 0 0 0 0 0 0 0)).
    - by exists ChUnregister.
    - by exists ChAgain.
    - by exists (ChQuit "").
    - done. }
  exists ch. unfold task_step. rewrite Hi, Ht. cbn. rewrite Hd. cbn. rewrite Hs. by eexists.
Qed.

Lemma reachable_dom x : reachable x → dom (ty_tasks x) = set_seq 0 (length (client_tunnels config chans)).
Proof.
  unfold sys_reachable. intros Hr. remember (sys_init config chans) as x0 eqn:E.
  assert (dom (ty_tasks x0) = set_seq 0 (length (client_tunnels config chans))) as H0.
  { subst x0. cbn. by rewrite dom_gset_to_gmap. }
  clear E. induction Hr as [|x y z Hxy _ IH]; [done|]. apply IH. rewrite <-H0.
  destruct Hxy as [x i ch y Hs Hf| | | | | | |]; try done.
  apply task_step_spec in Hs as (pc & id & t & d & pc' & Hi & _ & _ & _ & -> & _).
  rewrite dom_insert_lookup_L; [done|by eexists].
Qed.

(** C11: [stop] ends the client's tasks.  In a client whose configured tunnels
    have local addresses, as [create] makes them: from the moment the client is
    stopping, no task takes more than nine further steps, whatever the other tasks
    and the world around them do, so nothing is retried or reconnected for ever;
    and as long as a task has not ended, and the connections made so far are
    closed, that task can make its next step. *)
Theorem stop_terminates x :
  Forall startable (cc_tunnels config) → reachable x → should_quit (ty_state x) = true →
  (∀ i n y, task_run i n x y → (n <= 9)%nat) ∧
  (∀ y i pc, rtc step x y → ty_used y ⊆ ty_closed y → ty_tasks y !! i = Some pc → pc ≠ TcDone →
     ∃ ch z, task_step parse_server_name tls config chans i ch y = Some z ∧ fresh_bind ch (ty_state y) = true).
Proof.
  intros Hst Hr Hq. split.
  - intros i n y Hrun%task_run_weight; [|done]. destruct (ty_tasks x !! i) as [pc|]; [|lia].
    assert (weight pc <= 9)%nat by (destruct pc; simpl; lia). lia.
  - intros y i pc Hxy Hcl Hi Hne. assert (reachable y) as Hry by (unfold sys_reachable in *; by transitivity x).
    apply (task_progress y i pc); [done|done| |done|].
    + apply lookup_lt_is_Some. apply elem_of_dom_2 in Hi. rewrite (reachable_dom y Hry) in Hi.
      apply elem_of_set_seq in Hi. lia.
    + intros c Hc. apply Hcl. by eapply (reachable_conns y Hry i pc).
Qed.

(** * The receiver of a UDP listener *)

Definition pc_held (pc : tunnel_pc) : option nat :=
  match pc with TcServing _ held | TcClosing _ held => held | _ => None end.

(** Nobody has the receiver: it was dropped. *)
Definition heap_lost (h : nat) (s : State) : Prop :=
  ∃ server, udp_heap s !! h = Some server ∧ udp_receiver server = false ∧ udp_rx_alive server = false.
Definition receiver_lost (h : nat) (x : tunnel_sys) : Prop :=
  heap_lost h (ty_state x) ∧ ∀ i pc, ty_tasks x !! i = Some pc → pc_held pc ≠ Some h.

Lemma heap_lost_eq h s s' : udp_heap s' = udp_heap s → heap_lost h s → heap_lost h s'.
Proof. unfold heap_lost. by intros ->. Qed.

(** An outbound UDP tunnel that finds its listener without a receiver fails. *)
Lemma serve_outbound_udp_lost env d addr s h :
  heap_lost h s → fresh_bind (ChStart env) s = true →
  heap_lost h (serve_outbound_udp env d addr s).2 ∧ (serve_outbound_udp env d addr s).1 ≠ Serving (Some h) ∧
  (st_udp_servers s !! addr = Some h → (serve_outbound_udp env d addr s).1 = SetupFailed).
Proof.
  intros (server & Hh & Hr & Ha) Hf. unfold serve_outbound_udp.
  set (step := match st_udp_servers s !! addr with Some h => (Some h, s) | None => start_udp_server (se_bind env) addr s end).
  assert (udp_heap step.2 !! h = Some server ∧ (st_udp_servers s !! addr = Some h → step.1 = Some h)) as [Hs Hsame].
  { unfold step, start_udp_server. destruct (st_udp_servers s !! addr) as [h'|]; [split; [done|by intros [= ->]]|].
    destruct env as [[h'|] now remote]; [|done]. cbn in Hf |- *. split; [|done].
    apply andb_true_iff in Hf as [_ Hf]. rewrite bool_decide_eq_true in Hf.
    rewrite lookup_insert_ne; [done|]. intros ->. congruence. }
  destruct step as [handle s1]. cbn [fst snd] in *. destruct handle as [h'|]; cbn [mbind option_bind].
  2:{ split_and!; [by exists server|done|done]. }
  destruct (udp_heap s1 !! h') as [server'|] eqn:Hh'; cbn [mbind option_bind].
  2:{ split_and!; [by exists server|done|done]. }
  match goal with |- context [announce env d ?msg s1] => destruct (announce_core env d msg s1) as (_ & _ & Hheap & _) end.
  unfold udp_take_receiver. destruct (decide (h' = h)) as [->|Hne].
  - rewrite Hs in Hh'. simplify_eq. rewrite Hr. cbn [fst snd]. split_and!; [|done|done].
    exists (udp_set server' false false). cbn. by rewrite lookup_insert_eq.
  - split_and!.
    + exists server. destruct (udp_receiver server'); cbn [snd set_udp_heap udp_heap]; rewrite lookup_insert_ne, Hheap by done; done.
    + destruct (udp_receiver server'); cbn; congruence.
    + intros Heq. specialize (Hsame Heq). congruence.
Qed.

Lemma handle_tunnel_lost env d t s st s' h :
  heap_lost h s → fresh_bind (ChStart env) s = true → handle_tunnel env d t s = Some (st, s') →
  heap_lost h s' ∧ st ≠ Serving (Some h).
Proof.
  intros Hl Hf.
  assert (∀ msg s1, heap_lost h s1 → heap_lost h (announce env d msg s1)) as Ha.
  { intros msg s1. apply heap_lost_eq, announce_core. }
  destruct t as [cfg|ut]; [|intros [= <- <-]; auto]. cbn [handle_tunnel]. unfold handle_network_based_tunnel.
  destruct (local_server_addr cfg) as [addr|]; [|done]. cbn [mbind option_bind]. intros [= Hh].
  destruct (mode cfg), (upstream_type (upstream cfg)); [injection Hh as <- <-; by auto..| |].
  - unfold serve_outbound_tcp in Hh. destruct (outbound_tcp_life (se_bind env) addr s) as (_ & Ho & _).
    destruct (outbound_tcp_receiver _ _ _) as [[r|] s1]; simplify_eq/=; (split; [|done]); [apply Ha|]; by eapply heap_lost_eq.
  - destruct (serve_outbound_udp_lost env d addr s h Hl Hf) as (? & ? & _). rewrite Hh in *. done.
Qed.

Lemma task_spec_lost d t ch s cl us pc pc' s' cl' us' h :
  task_spec d t ch s cl us pc pc' s' cl' us' → fresh_bind ch s = true → heap_lost h s → pc_held pc ≠ Some h →
  heap_lost h s' ∧ pc_held pc' ≠ Some h.
Proof.
  intros Hsp Hf Hl Hne.
  destruct Hsp as [a s' l Hcore _ _|a c s' _ Hcore _ _|a c s' _ Hcore _ _|c|env c held s' -> Hh _ _|env c s' l -> Hh _ _ _|c held
    |c held pc cut Hpc Hin|c now stats|c| |now msg]; cbn [pc_held] in *; try done.
  - split; [by eapply heap_lost_eq; [apply Hcore|]|by destruct (should_quit s)].
  - split; [by eapply heap_lost_eq; [apply Hcore|]|done].
  - split; [by eapply heap_lost_eq; [apply Hcore|]|done].
  - destruct (handle_tunnel_lost _ _ _ _ _ _ h Hl Hf Hh). split; congruence.
  - by destruct (handle_tunnel_lost _ _ _ _ _ _ h Hl Hf Hh).
  - split; [|done]. assert (held ≠ Some h) as Hn by (by destruct Hpc as [-> | ->]).
    destruct held as [h'|]; [|done]. destruct Hl as (server & Hs & ?). exists server. split; [|done].
    cbn. rewrite lookup_alter_ne; congruence.
  - split; [|done]. unfold report_end. destruct (should_quit s); [done|].
    by eapply (heap_lost_eq h s); [apply post_event_core|].
  - by split; [|destruct (should_quit s)].
  - split; [|done]. by eapply heap_lost_eq; [apply post_event_core|].
Qed.

Lemma step_lost h x y : step x y → receiver_lost h x → receiver_lost h y.
Proof.
  intros Hs [Hl Hne]. destruct Hs as [x i ch y Hs Hf|s ts cl us pc lt r c Hc|s ts cl us pc lt r h' server server' Hh Hu| | | |
    s ts cl us lt r s' closed quits Hsw|]; try done.
  - apply task_step_spec in Hs as (pc & id & t & d & pc' & Hi & _ & _ & Hsp & Hts & _).
    destruct (task_spec_lost _ _ _ _ _ _ _ _ _ _ _ h Hsp Hf Hl (Hne i pc Hi)) as [? ?].
    split; [done|]. rewrite Hts. intros j p [[<- <-]|[_ ?]]%lookup_insert_Some; [done|]. by eapply Hne.
  - split; [|done]. destruct Hl as (sv & Hsv & Hr & Ha). cbn [ty_state] in *.
    destruct (decide (h' = h)) as [->|Hn].
    + rewrite Hsv in Hh. simplify_eq. eexists. cbn. rewrite lookup_insert_eq. split; [done|].
      destruct (udp_listener_frame _ _ _ Hu) as [-> ->]. done.
    + exists sv. cbn. by rewrite lookup_insert_ne.
  - unfold stop_sweep in Hsw. by simplify_eq.
Qed.

Lemma lost_for_good h x y : rtc step x y → receiver_lost h x → receiver_lost h y.
Proof. induction 1; [done|]. eauto using step_lost. Qed.

(** What is left of a tunnel whose listener lost its receiver: every session
    fails before it serves anything and closes its own connection. *)
Lemma lost_session_fails h x i id cfg addr c env y :
  receiver_lost h x → client_tunnels config chans !! i = Some (id, NetworkBased cfg) →
  mode cfg = ModeOut → upstream_type (upstream cfg) = Udp → local_server_addr cfg = Some addr →
  st_udp_servers (ty_state x) !! addr = Some h → ty_tasks x !! i = Some (TcRegistered c) →
  task_step parse_server_name tls config chans i (ChStart env) x = Some y → fresh_bind (ChStart env) (ty_state x) = true →
  ty_tasks y !! i = Some (TcClosing c None) ∧ c ∈ ty_closed y.
Proof.
  intros [Hl _] Ht Hm Hu Ha Hsv Hi Hs Hf. unfold task_step in Hs. rewrite Hi, Ht in Hs. cbn in Hs.
  unfold handle_network_based_tunnel in Hs. rewrite Ha, Hm, Hu in Hs. cbn in Hs.
  match type of Hs with context [serve_outbound_udp env ?d addr ?s] =>
    destruct (serve_outbound_udp_lost env d addr s h Hl Hf) as (_ & _ & Hfail);
    specialize (Hfail Hsv); destruct (serve_outbound_udp env d addr s) as [st s'] end.
  cbn in Hfail. subst st. cbn in Hs. injection Hs as <-. cbn. rewrite lookup_insert_eq. split; [done|].
  apply elem_of_union_l, elem_of_singleton_2. done.
Qed.

(** Without a receiver the loop queues nothing. *)
Lemma lost_queue ev server server' :
  udp_rx_alive server = false → udp_iterate ev server = Some server' → udp_out_queue server' = udp_out_queue server.
Proof.
  unfold udp_iterate. intros Ha H. destruct (udp_loop server), ev; try done.
  - injection H as <-. by destruct (negb (udp_active server)).
  - by injection H as <-.
  - destruct (udp_in_queue server) as [|[] ?]; by simplify_eq.
  - by injection H as <-.
  - injection H as <-. unfold channel_send. by rewrite Ha.
Qed.

(** * Concrete runs *)

Inductive sys_op : Type := OpTask (i : nat) (ch : choice) | OpClosed (c : Z) | OpStop.

Definition exec_op (o : sys_op) (x : tunnel_sys) : option tunnel_sys :=
  match o with
  | OpTask i ch => if fresh_bind ch (ty_state x) then task_step parse_server_name tls config chans i ch x else None
  | OpClosed c =>
      if decide (c ∈ ty_used x)
      then Some (TunnelSys (ty_state x) (ty_tasks x) ({[c]} ∪ ty_closed x) (ty_used x) (ty_stop x) (ty_late x) (ty_rotation x))
      else None
  | OpStop =>
      match ty_stop x with
      | StopNone => Some (TunnelSys (set_client_state Stopping (ty_state x)) (ty_tasks x) (ty_closed x) (ty_used x)
                            StopBegun (ty_late x) (ty_rotation x))
      | _ => None
      end
  end.

Fixpoint exec (os : list sys_op) (x : tunnel_sys) : option tunnel_sys :=
  match os with
  | [] => Some x
  | o :: os' => y ← exec_op o x; exec os' y
  end.

Lemma exec_steps os x y : exec os x = Some y → rtc step x y.
Proof.
  revert x. induction os as [|o os IH]; intros x; cbn [exec].
  { intros [= <-]. apply rtc_refl. }
  destruct (exec_op o x) as [x'|] eqn:Ho; [|done]. cbn. intros He. eapply rtc_l; [|by apply IH].
  destruct x as [s ts cl us pc lt r], o as [i ch|c|]; cbn in Ho.
  - destruct (fresh_bind ch s) eqn:Hf; [|done]. by eapply SysTask.
  - destruct (decide _); [|done]. injection Ho as <-. by constructor.
  - destruct pc; try done. injection Ho as <-. constructor.
Qed.
End life.

(** A client with one outbound UDP tunnel. *)
Definition udp_tunnel : TunnelConfig := mkTunnelConfig ModeOut (Some sample_addr) (mkUpstream None Udp).
Definition udp_client : ClientConfig :=
  MkClientConfig "" "10.0.0.1:443" "secret" 5000 30000 30000 5000 5000 15000 0 [udp_tunnel] [] [] 8
    0 0 0 [] false false 9 24 "" 18000 150.

Definition granted_attempt : attempt_env :=
  AttemptEnv (λ _ _ _ _, None) true sample_create (λ _, "") sample_env
    (AuthIo [Chunk (message_frame (RespSuccess (mkServerCapabilities true)))] open_writer).
Definition sample_serve_env : serve_env := ServeEnv (Some 0%nat) (λ _, "now") (SockV4 167772161 443).

(** It connects and serves, the connection is lost, and the [select!] around the
    serving future notices first. *)
Definition cut_run : list sys_op :=
  [OpTask 0 (ChConnect granted_attempt 1); OpTask 0 ChRegister; OpTask 0 (ChStart sample_serve_env);
   OpClosed 1; OpTask 0 (ChLeave true)].
Definition cut_sys : tunnel_sys :=
  default (sys_init udp_client []) (exec sample_server_name sample_tls udp_client [] cut_run (sys_init udp_client [])).

Abbreviation udp_step := (sys_step sample_server_name sample_tls udp_client [] watch).

Lemma cut_sys_reachable : sys_reachable sample_server_name sample_tls udp_client [] cut_sys.
Proof. apply (exec_steps _ _ _ _ cut_run). by vm_compute. Qed.

Lemma cut_sys_lost : receiver_lost 0 cut_sys.
Proof.
  split; [eexists; split; [by vm_compute|by vm_compute]|].
  assert (ty_tasks cut_sys = {[0%nat := TcServed 1]}) as -> by (by vm_compute).
  by intros i pc [<- <-]%lookup_singleton_Some.
Qed.


(** ** Witnesses *)

(** A whole cycle: served, lost, reported, and connecting again. *)
Definition cycle_run : list sys_op :=
  (cut_run ++ [OpTask 0 (ChReport "now" (MkConnStats 1 2 3 4 5 6 7 8 9 10 11 12)); OpTask 0 ChUnregister; OpTask 0 ChAgain;
    OpTask 0 (ChConnect granted_attempt 2)])%list.
Definition cycle_sys : tunnel_sys :=
  default (sys_init udp_client []) (exec sample_server_name sample_tls udp_client [] cycle_run (sys_init udp_client [])).
Definition udp_descriptor : TunnelDescriptor := MkDescriptor (IdNetwork 0) Udp ModeOut.

Lemma cycle_sys_reachable : sys_reachable sample_server_name sample_tls udp_client [] cycle_sys.
Proof. apply (exec_steps _ _ _ _ cycle_run). by vm_compute. Qed.

Lemma tunnels_refine_life_cycle_witness :
  client_reachable 1 (abs_sys cycle_sys) ∧ cl_tasks (abs_sys cycle_sys) = {[0%nat := PChecked 2]}.
Proof.
  split; [|by vm_compute].
  apply (tunnels_refine_life_cycle sample_server_name sample_tls udp_client [] cycle_sys cycle_sys_reachable).
Defined.

Lemma tunnel_states_in_order_witness :
  observed watch udp_descriptor (ty_state cycle_sys)
    = [Connecting; Connected; Tunneling; Reconnecting; Connecting; Connected] ∧
  lifecycle None (observed watch udp_descriptor (ty_state cycle_sys)) = true.
Proof.
  split; [by vm_compute|].
  apply (tunnel_states_in_order sample_server_name sample_tls udp_client [] cycle_sys 0 udp_descriptor cycle_sys_reachable).
  by exists (IdNetwork 0), (NetworkBased udp_tunnel).
Defined.

(** The same tunnel, stopped while it is served. *)
Definition stopping_run : list sys_op :=
  [OpTask 0 (ChConnect granted_attempt 1); OpTask 0 ChRegister; OpTask 0 (ChStart sample_serve_env); OpStop; OpClosed 1].
Definition stopping_sys : tunnel_sys :=
  default (sys_init udp_client []) (exec sample_server_name sample_tls udp_client [] stopping_run (sys_init udp_client [])).

Lemma stopping_sys_reachable : sys_reachable sample_server_name sample_tls udp_client [] stopping_sys.
Proof. apply (exec_steps _ _ _ _ stopping_run). by vm_compute. Qed.

Lemma stop_terminates_witness :
  (∀ n y, task_run sample_server_name sample_tls udp_client [] 0 n stopping_sys y → (n <= 9)%nat) ∧
  ∃ ch z, task_step sample_server_name sample_tls udp_client [] 0 ch stopping_sys = Some z ∧
    fresh_bind ch (ty_state stopping_sys) = true.
Proof.
  destruct (stop_terminates sample_server_name sample_tls udp_client [] stopping_sys) as [Hb Hp].
  - constructor; [by eexists|constructor].
  - exact stopping_sys_reachable.
  - by vm_compute.
  - split; [exact (Hb 0%nat)|]. apply (Hp stopping_sys 0%nat (TcServing 1 (Some 0%nat))).
    + apply rtc_refl.
    + by apply (bool_decide_unpack _); vm_compute.
    + by vm_compute.
    + done.
Defined.
