(* ===== verification/TunnelUp.v ===== *)
(** A tunnel comes up: the task of a tunnel ([src/src/client.rs]) meets the
    server's task for its connection ([src/src/server.rs]).  Both sides run their
    own code; each reads what the other wrote. *)
From S2P Require Import Prelude Io Net Target AddrText Config Message BincodeStd Heartbeat EventBus Servers TcpTunnel Server ServerRun Client ClientRun ClientTunnel TunnelLife.

#[local] Open Scope string_scope.
#[local] Open Scope Z_scope.

Section grants.
Context `{bc : !Bincode, laws : !BincodeLaws}.
Context (bind_listener : UpstreamType → SocketAddr → option SocketAddr).

(** A tunnel the server can provide is derived. *)
Lemma derive_tunnel_type_matches cfg sconfig ty s :
  tunnel_matches bind_listener sconfig (NetworkBased cfg) ty →
  derive_tunnel_type bind_listener cfg sconfig s = (Ok ty, s).
Proof.
  unfold tunnel_matches, derive_tunnel_type, obtain_upstream_addr. destruct cfg as [[] l [ua ut]]; cbn.
  - intros (a & b & -> & Hip & Hb & ->).
    unfold mbind at 1, eff_bind at 1, lift. rewrite bool_decide_true by done. cbn [andb].
    assert (negb (ip_is_unspecified (sa_ip a)) && negb (ip_is_loopback (sa_ip a)) = false) as ->
      by (destruct Hip as [->| ->]; by rewrite ?andb_false_r).
    destruct ut; unfold mbind, eff_bind, bind_or_reject; by rewrite Hb.
  - intros (a & [->|[-> Hd]] & ->); unfold mbind, eff_bind, lift; [by destruct ut|].
    destruct ut; by rewrite Hd.
Qed.

(** The timeouts a login gets. *)
Definition granted_timeouts (sconfig : ServerConfig) (login : LoginInfo) : TimeoutConfig :=
  MkTimeouts (effective_timeout (li_tcp_timeout_ms login) (sc_tcp_timeout_ms sconfig))
    (effective_timeout (li_udp_timeout_ms login) (sc_udp_timeout_ms sconfig)).

Lemma effective_timeout_ge client server : server <= effective_timeout client server.
Proof. unfold effective_timeout. destruct (Z.ltb_spec 0 client); lia. Qed.

(** A login with the password, for a tunnel that can be provided, is granted. *)
Lemma authenticate_grants sconfig ipv6 s login r ty :
  recv_from false (ai_recv s) = (Ok (ReqLogin login), r) → w_room (ai_send s) = None →
  message_fits (RespSuccess (mkServerCapabilities ipv6)) →
  li_password login = sc_password sconfig → tunnel_matches bind_listener sconfig (li_tunnel login) ty →
  authenticate_connection bind_listener sconfig ipv6 s =
    (Ok (ty, granted_timeouts sconfig login),
     AuthIo r (Writer (w_out (ai_send s) ++ message_frame (RespSuccess (mkServerCapabilities ipv6)))%list None)).
Proof.
  intros Hr Hw Hfit Hpw Hm. unfold authenticate_connection. unfold mbind at 1, eff_bind at 1, on_recv. rewrite Hr.
  cbn [map_err]. unfold mbind at 1, eff_bind at 1, lift, check_password. rewrite decide_True by done.
  unfold mbind at 1, eff_bind at 1.
  assert (∀ st, match li_tunnel login with
    | NetworkBased cfg => derive_tunnel_type bind_listener cfg sconfig
    | ChannelBased Tcp => mret DynamicUpstreamTcpOut
    | ChannelBased Udp => mret DynamicUpstreamUdpOut end st = (Ok ty, st)) as ->.
  { intros st. destruct (li_tunnel login) as [cfg|[]]; [by apply derive_tunnel_type_matches|by rewrite Hm..]. }
  unfold mbind, eff_bind, on_send. cbn [ai_send ai_recv]. by rewrite (send_fits _ _ Hfit Hw).
Qed.
End grants.

Section up.
Context `{bc : !Bincode, laws : !BincodeLaws}.
Context (parse_server_name : string → option server_name) (tls : tls_world).
Context (config : ClientConfig) (chans : list UpstreamType).

(** The network lets an attempt through: the server's name is resolved, there is
    an endpoint, and no stage of the login fails or times out. *)
Definition reaches (env : attempt_env) (x : tunnel_sys) : Prop :=
  ∃ remote sni,
    (prepare_login_config parse_server_name tls (ae_resolve env) (ae_ipv6_route env) config (ty_rotation x)).1
      = Ok (remote, sni) ∧
    is_Some (obtain_endpoint (ae_create_endpoint env) remote (ty_state x)).1 ∧ all_stages_ok (ae_login env).

(** An outbound tunnel can be served: its local address is free and can be bound,
    or it has a listener already whose receiver is there to be used. *)
Definition listener_ready (env : serve_env) (t : Tunnel) (s : State) : Prop :=
  match t with
  | NetworkBased cfg =>
      mode cfg = ModeOut → ∀ a, local_server_addr cfg = Some a →
      match upstream_type (upstream cfg) with
      | Tcp => (is_Some (se_bind env) ∧ st_tcp_servers s !! a = None ∧ st_tcp_receivers s !! a = None) ∨
               (is_Some (st_tcp_servers s !! a) ∧ is_Some (st_tcp_receivers s !! a))
      | Udp => (is_Some (se_bind env) ∧ st_udp_servers s !! a = None) ∨
               (∃ h server, st_udp_servers s !! a = Some h ∧ udp_heap s !! h = Some server ∧ udp_receiver server = true)
      end
  | ChannelBased _ => True
  end.

Lemma listener_ready_core env t s s' : same_core s s' → listener_ready env t s → listener_ready env t s'.
Proof. unfold listener_ready. by intros (_ & _ & -> & -> & -> & ->). Qed.

(** Then it is served. *)
Lemma handle_tunnel_serves env d t s :
  match t with NetworkBased cfg => startable cfg | ChannelBased _ => True end → listener_ready env t s →
  ∃ held s', handle_tunnel env d t s = Some (Serving held, s').
Proof.
  intros Hst Hf. destruct t as [cfg|ut]; [|by eexists _, _]. destruct Hst as [a Ha]. cbn [handle_tunnel].
  unfold handle_network_based_tunnel. rewrite Ha. cbn.
  destruct (mode cfg) eqn:Hm; [destruct (upstream_type _); by eexists _, _|].
  specialize (Hf Hm a Ha). destruct (upstream_type (upstream cfg)).
  - unfold serve_outbound_tcp, outbound_tcp_receiver, start_tcp_server, get_or_init_tcp_receiver.
    destruct Hf as [([h Hb] & H1 & H2)|[[h H1] [r H2]]].
    + rewrite H1, Hb. cbn. rewrite H2, lookup_insert_eq. by eexists _, _.
    + rewrite H1, H2. by eexists _, _.
  - unfold serve_outbound_udp, start_udp_server. destruct Hf as [([h Hb] & H1)|(h & server & H1 & H2 & H3)].
    + rewrite H1, Hb. cbn. rewrite lookup_insert_eq. by eexists _, _.
    + rewrite H1. cbn. rewrite H2. cbn. unfold udp_take_receiver. rewrite H3. by eexists _, _.
Qed.

(** An attempt whose login is granted. *)
Lemma granted_attempt_connects env t d x a c r_cli ipv6 :
  match t with NetworkBased cfg => startable cfg | ChannelBased _ => True end →
  reaches env x → ae_io env = AuthIo r_cli open_writer → should_quit (ty_state x) = false → c ∉ ty_used x →
  message_fits (ReqLogin (login_info_of config t)) → message_fits (RespSuccess (mkServerCapabilities ipv6)) →
  delivers r_cli (message_frame (RespSuccess (mkServerCapabilities ipv6))) →
  ∃ s' rot, connect_and_serve_step parse_server_name tls config d t (ChConnect env c) (TcConnect a) (ty_state x)
      (ty_closed x) (ty_used x) (ty_rotation x) = Some (TcChecked c, s', ty_closed x, {[c]} ∪ ty_used x, rot).
Proof.
  intros Hst (remote & sni & Hp & [ep He] & Henv) Hio Hq Hc Hreq Hok Hd.
  cbn [connect_and_serve_step]. unfold connect_once.
  destruct (prepare_login_config _ _ _ _ _ _) as [res rot]. cbn [fst] in Hp. subst res.
  pose proof (obtain_endpoint_core (ae_create_endpoint env) remote (ty_state x)) as Hcore.
  destruct (obtain_endpoint _ remote (ty_state x)) as [e s1]. cbn [fst snd] in *. subst e.
  rewrite Hio.
  destruct (login_answer config (ae_login env) d remote (login_info_of config t) (connect_attempt_timeout_for a) s1 r_cli Henv)
    as (lres & s2 & io2 & Hl & _ & Hans); [by apply format_startable|done|].
  destruct (recv_fits true _ r_cli [] Hok) as (r2 & Hr2 & _); [by rewrite app_nil_r|].
  rewrite Hr2 in Hans. cbn [message_normalize] in Hans. destruct Hans as [Hlok _].
  pose proof (login_core config (ae_login env) d remote (login_info_of config t) (connect_attempt_timeout_for a) s1
    (AuthIo r_cli open_writer)) as Hlc.
  rewrite Hl in Hlc |- *. cbn [fst snd] in Hlc. destruct lres as [hb|]; [|done]. cbn [map_err].
  rewrite decide_False by done.
  assert (should_quit s2 = false) as ->.
  { rewrite <-Hq. apply should_quit_life, same_core_life. by apply (PreOrder_Transitive _ s1). }
  by eexists _, _.
Qed.

(** One step of a task, from a step of its program. *)
Lemma task_step_of i ch x id t d pc pc' s cl us rot :
  ty_tasks x !! i = Some pc → client_tunnels config chans !! i = Some (id, t) →
  build_tunnel_descriptor id t (tunnel_channel_input t) = Some d →
  connect_and_serve_step parse_server_name tls config d t ch pc (ty_state x) (ty_closed x) (ty_used x) (ty_rotation x)
    = Some (pc', s, cl, us, rot) →
  task_step parse_server_name tls config chans i ch x
    = Some (TunnelSys s (<[i := pc']> (ty_tasks x)) cl us (ty_stop x) (ty_late x) rot).
Proof. intros Hi Ht Hd Hs. unfold task_step. rewrite Hi, Ht. cbn. rewrite Hd. cbn. by rewrite Hs. Qed.

(** The server's side: a login with the password that arrives whole is served. *)
Lemma serve_connection_grants sconfig inc sv t ty r_srv :
  in_handshake inc = true → in_io inc = AuthIo r_srv open_writer →
  message_fits (ReqLogin (login_info_of config t)) → message_fits (RespSuccess (mkServerCapabilities (in_ipv6 inc))) →
  delivers r_srv (message_frame (ReqLogin (login_info_of config t))) →
  sc_password sconfig = cc_password config → tunnel_matches (in_bind inc) sconfig (tunnel_normalize t) ty →
  ∃ io, serve_connection sconfig inc sv =
      (Some (serve_tunnel sconfig ty (granted_timeouts sconfig (login_info_of config t))), io,
       push_session (in_conn inc) ty (in_sender inc) (push_connection (in_conn inc) sv)) ∧
    w_out (ai_send io) = message_frame (RespSuccess (mkServerCapabilities (in_ipv6 inc))).
Proof.
  intros Hh Hio Hreq Hok Hd Hpw Hm. unfold serve_connection. rewrite Hh, Hio. cbn [negb].
  destruct (recv_fits false _ r_srv [] Hreq) as (r1 & Hr1 & _); [by rewrite app_nil_r|].
  rewrite (authenticate_grants (in_bind inc) sconfig (in_ipv6 inc) (AuthIo r_srv open_writer)
    (mkLoginInfo (cc_password config) (tunnel_normalize t) (cc_tcp_timeout_ms config) (cc_udp_timeout_ms config)) r1 ty
    Hr1 eq_refl Hok (eq_sym Hpw) Hm).
  eexists. split; [by destruct ty|done].
Qed.

(** The client's side: a granted attempt ends in serving. *)
Lemma granted_task_serves x i id t d a c env senv r_cli ipv6 :
  Forall startable (cc_tunnels config) → client_tunnels config chans !! i = Some (id, t) →
  build_tunnel_descriptor id t (tunnel_channel_input t) = Some d →
  ty_tasks x !! i = Some (TcConnect a) → should_quit (ty_state x) = false → c ∉ ty_used x →
  reaches env x → listener_ready senv t (ty_state x) → ae_io env = AuthIo r_cli open_writer →
  message_fits (ReqLogin (login_info_of config t)) → message_fits (RespSuccess (mkServerCapabilities ipv6)) →
  delivers r_cli (message_frame (RespSuccess (mkServerCapabilities ipv6))) →
  ∃ x1 x2 x3 held,
    task_step parse_server_name tls config chans i (ChConnect env c) x = Some x1 ∧
    task_step parse_server_name tls config chans i ChRegister x1 = Some x2 ∧
    task_step parse_server_name tls config chans i (ChStart senv) x2 = Some x3 ∧
    ty_tasks x3 !! i = Some (TcServing c held) ∧ c ∈ st_connections (ty_state x3) ∧
    ∀ w, listening w (ty_state x) →
      observed w d (ty_state x3) = (observed w d (ty_state x) ++ [Connecting; Connected; Tunneling])%list.
Proof.
  intros Hall Ht Hd Hi Hq Hc Hreach Hready Hcio Hreq Hok Hcli.
  destruct (client_tunnels_startable config chans i id t Hall Ht) as [Hst _].
  destruct (granted_attempt_connects env t d x a c r_cli ipv6 Hst Hreach Hcio Hq Hc Hreq Hok Hcli) as (s1 & rot & Hs1).
  pose proof (connect_and_serve_step_spec _ _ _ _ _ _ _ _ _ _ _ _ _ _ _ _ Hs1) as Hsp.
  assert (same_core (ty_state x) s1 ∧ ∀ w, advance w d (ty_state x) s1 [Connecting; Connected]) as [Hcore Hadv]
    by (inversion Hsp; subst; try done; by destruct (should_quit _)).
  set (s2 := set_connections ({[c]} ∪ st_connections s1) s1).
  destruct (handle_tunnel_serves senv d t s2 Hst) as (held & s3 & Hs3); [by apply (listener_ready_core _ _ (ty_state x) s1)|].
  destruct (handle_tunnel_advance _ _ _ _ _ _ Hs3) as (l & Hadv3 & ->). pose proof (handle_tunnel_life _ _ _ _ _ _ Hs3) as Hlife.
  pose proof (task_step_of i _ x id t d _ _ _ _ _ _ Hi Ht Hd Hs1) as T1. eexists _, _, _, held. split; [exact T1|].
  split; [eapply task_step_of; [apply lookup_insert_eq|done..]|].
  split; [eapply task_step_of; [apply lookup_insert_eq|done|done|]; cbn [connect_and_serve_step ty_state]; fold s2; by rewrite Hs3|].
  cbn [ty_tasks ty_state]. split; [apply lookup_insert_eq|]. split; [rewrite (proj1 Hlife); set_solver|].
  intros w Hw. destruct (Hadv w Hw) as [Hw1 Ho1]. destruct (Hadv3 w Hw1) as [_ Ho3].
  rewrite Ho3, decide_True by done. change (observed w d s2) with (observed w d s1).
  rewrite Ho1, decide_True by done. by rewrite <-app_assoc.
Qed.

(** C4: A tunnel comes up.  Take a client whose configured tunnels have local
    addresses, in any state that is not stopping, a tunnel of it that is
    connecting and, if it is outbound, whose local address is free or has a
    listener with its receiver in place; and a server with the same password that
    can provide the tunnel (outbound: there is an upstream, requested or default;
    inbound: the requested loopback or unspecified address can be bound).  If the
    network lets the attempt through, the login and its answer fit into a message,
    and each side reads what the other wrote, in chunks of any size, then the
    server records the connection, and the session if the tunnel is inbound, and
    serves exactly that tunnel, with timeouts no shorter than its own; and after
    three steps the client's task is serving it on a registered connection, having
    announced to every listener that the tunnel was connecting, connected and
    tunnelling, and nothing else. *)
Theorem tunnel_comes_up x i id t d a c env senv r_cli sconfig inc sv ty r_srv :
  Forall startable (cc_tunnels config) → client_tunnels config chans !! i = Some (id, t) →
  build_tunnel_descriptor id t (tunnel_channel_input t) = Some d →
  ty_tasks x !! i = Some (TcConnect a) → should_quit (ty_state x) = false → c ∉ ty_used x →
  reaches env x → listener_ready senv t (ty_state x) →
  message_fits (ReqLogin (login_info_of config t)) → message_fits (RespSuccess (mkServerCapabilities (in_ipv6 inc))) →
  sc_password sconfig = cc_password config → tunnel_matches (in_bind inc) sconfig (tunnel_normalize t) ty →
  in_handshake inc = true → in_io inc = AuthIo r_srv open_writer → ae_io env = AuthIo r_cli open_writer →
  delivers r_srv (message_frame (ReqLogin (login_info_of config t))) →
  delivers r_cli (w_out (ai_send (serve_connection sconfig inc sv).1.2)) →
  ∃ x1 x2 x3 held timeouts,
    serve_connection sconfig inc sv =
      (Some (serve_tunnel sconfig ty timeouts), (serve_connection sconfig inc sv).1.2,
       push_session (in_conn inc) ty (in_sender inc) (push_connection (in_conn inc) sv)) ∧
    sc_tcp_timeout_ms sconfig <= tcp_timeout_ms timeouts ∧ sc_udp_timeout_ms sconfig <= udp_timeout_ms timeouts ∧
    task_step parse_server_name tls config chans i (ChConnect env c) x = Some x1 ∧
    task_step parse_server_name tls config chans i ChRegister x1 = Some x2 ∧
    task_step parse_server_name tls config chans i (ChStart senv) x2 = Some x3 ∧
    ty_tasks x3 !! i = Some (TcServing c held) ∧ c ∈ st_connections (ty_state x3) ∧
    ∀ w, listening w (ty_state x) →
      observed w d (ty_state x3) = (observed w d (ty_state x) ++ [Connecting; Connected; Tunneling])%list.
Proof.
  intros Hall Ht Hd Hi Hq Hc Hreach Hready Hreq Hok Hpw Hm Hh Hsio Hcio Hsrv Hcli.
  destruct (serve_connection_grants sconfig inc sv t ty r_srv Hh Hsio Hreq Hok Hsrv Hpw Hm) as (sio & Hserve & Hout).
  rewrite Hserve in Hcli |- *. cbn [fst snd] in *. rewrite Hout in Hcli.
  destruct (granted_task_serves x i id t d a c env senv r_cli (in_ipv6 inc)) as (x1 & x2 & x3 & held & Hsteps); [done..|].
  eexists x1, x2, x3, held, _. split; [reflexivity|]. split; [apply effective_timeout_ge|].
  split; [apply effective_timeout_ge|]. exact Hsteps.
Qed.
End up.

(** ** Witness *)

(** The outbound UDP tunnel of [udp_client] and a server with a default upstream. *)
Definition up_server : ServerConfig :=
  MkServerConfig "0.0.0.0:3515" (cc_password udp_client) "" "" 30000 30000 9000 0 0 0 None (Some (SockV4 (ipv4 1 1 1 1) 53))
    false false "" "".
Definition up_login : LoginInfo := login_info_of udp_client (NetworkBased udp_tunnel).
Definition up_incoming : incoming :=
  Incoming 7 true (AuthIo [Chunk (message_frame (ReqLogin up_login))] open_writer) (λ _ _, None) true 8.

Abbreviation up_step := (task_step sample_server_name sample_tls udp_client [] 0).

Lemma tunnel_comes_up_witness : ∃ x1 x2 x3 held,
  up_step (ChConnect granted_attempt 1) (sys_init udp_client []) = Some x1 ∧ up_step ChRegister x1 = Some x2 ∧
  up_step (ChStart sample_serve_env) x2 = Some x3 ∧ ty_tasks x3 !! 0%nat = Some (TcServing 1 held) ∧
  observed watch udp_descriptor (ty_state x3) = [Connecting; Connected; Tunneling] ∧
  (serve_connection up_server up_incoming server_new).1.1 = Some (AcceptUdp (Some (SockV4 (ipv4 1 1 1 1) 53)) false 9000).
Proof.
  destruct (tunnel_comes_up sample_server_name sample_tls udp_client [] (sys_init udp_client []) 0 (IdNetwork 0)
    (NetworkBased udp_tunnel) udp_descriptor 0 1 granted_attempt sample_serve_env
    [Chunk (message_frame (RespSuccess (mkServerCapabilities true)))] up_server up_incoming server_new
    (UdpOut (SockV4 (ipv4 1 1 1 1) 53)) [Chunk (message_frame (ReqLogin up_login))])
    as (x1 & x2 & x3 & held & to & Hserve & _ & _ & H1 & H2 & H3 & Hpc & _ & Hobs).
  - constructor; [by eexists|constructor].
  - reflexivity.
  - reflexivity.
  - by vm_compute.
  - reflexivity.
  - by apply (bool_decide_unpack _); vm_compute.
  - eexists _, _. split; [by vm_compute|]. split; [eexists; vm_compute; reflexivity|by repeat split].
  - intros _ a [= <-]. left. split; [by eexists|]. by vm_compute.
  - split; [by apply (bool_decide_unpack _); vm_compute|by vm_compute].
  - split; [done|by vm_compute].
  - reflexivity.
  - exists (SockV4 (ipv4 1 1 1 1) 53). split; [by right|done].
  - reflexivity.
  - reflexivity.
  - reflexivity.
  - exists []. by rewrite app_nil_r.
  - exists []. by vm_compute.
  - exists x1, x2, x3, held. split_and!; [exact H1|exact H2|exact H3|exact Hpc| |by vm_compute].
    rewrite Hobs; [by vm_compute|]. split; [|eexists; vm_compute; reflexivity].
    apply (bus_step_wf OpRegister bus_new). split; [constructor|]. split; [by intros ? ?%elem_of_nil|].
    intros w. unfold alive. cbn. by rewrite lookup_empty.
Defined.
