(* ===== verification/TunnelRecovers.v ===== *)
(** A tunnel that loses its connection comes up again ([connect_and_serve],
    [src/src/client.rs]).  The listener of an outbound tunnel outlives the
    connection: it stays in the client's tables until the client stops, and its
    receiver is returned when serving ends, so the next connection can be served
    from it. *)
From stdpp Require Import relations.
From S2P Require Import Prelude Io Net Target AddrText Config Message BincodeStd Heartbeat EventBus Servers TcpTunnel Server ServerRun Client ClientRun ClientTunnel TunnelLife TunnelUp.

#[local] Open Scope string_scope.
#[local] Open Scope Z_scope.

(** * Listeners stay *)

(** The listener a tunnel is served from, with the UDP receiver it holds. *)
Definition serving_listener (t : Tunnel) (held : option nat) (s : State) : Prop :=
  match t with
  | NetworkBased cfg =>
      mode cfg = ModeOut → ∀ a, local_server_addr cfg = Some a →
      match upstream_type (upstream cfg) with
      | Tcp => is_Some (st_tcp_servers s !! a) ∧ is_Some (st_tcp_receivers s !! a)
      | Udp => ∃ h, held = Some h ∧ st_udp_servers s !! a = Some h ∧ is_Some (udp_heap s !! h)
      end
  | ChannelBased _ => True
  end.

(** From [s] to [s'] no listener goes away. *)
Definition listeners_grow (s s' : State) : Prop :=
  (∀ a, is_Some (st_tcp_servers s !! a) → is_Some (st_tcp_servers s' !! a)) ∧
  (∀ a, is_Some (st_tcp_receivers s !! a) → is_Some (st_tcp_receivers s' !! a)) ∧
  st_udp_servers s ⊆ st_udp_servers s' ∧
  (∀ h, is_Some (udp_heap s !! h) → is_Some (udp_heap s' !! h)).

#[export] Instance listeners_grow_preorder : PreOrder listeners_grow.
Proof.
  split; [by intros s|]. intros s1 s2 s3 (H1 & H2 & H3 & H4) (K1 & K2 & K3 & K4).
  split_and!; [auto..|by etransitivity|auto].
Qed.

Lemma serving_listener_grows t held s s' : listeners_grow s s' → serving_listener t held s → serving_listener t held s'.
Proof.
  intros (H1 & H2 & H3 & H4) Hs. destruct t as [cfg|]; [|done]. intros Hm a Ha. specialize (Hs Hm a Ha).
  destruct (upstream_type _); [destruct Hs; auto|]. destruct Hs as (h & -> & Hh & Hheap). exists h.
  split_and!; [done|by eapply lookup_weaken|auto].
Qed.

Lemma same_core_grows s s' : same_core s s' → listeners_grow s s'.
Proof. intros (_ & _ & H1 & H2 & H3 & H4). unfold listeners_grow. by rewrite H1, H2, H3, H4. Qed.

Lemma is_Some_insert {K A} `{Countable K} (m : gmap K A) i j x : is_Some (m !! j) → is_Some (<[i := x]> m !! j).
Proof. intros Hj. apply lookup_insert_is_Some. destruct (decide (i = j)); auto. Qed.

Ltac grow := unfold listeners_grow; split_and!; cbn; auto using is_Some_insert; try done.

Lemma insert_grows s h server : listeners_grow s (set_udp_heap (<[h := server]> (udp_heap s)) s).
Proof. grow. Qed.

Lemma end_serving_grows cut held s : listeners_grow s (end_serving cut held s).
Proof.
  destruct held as [h|]; [|done]. split_and!; cbn; try done. intros i. by rewrite lookup_alter_is_Some.
Qed.

Lemma outbound_tcp_grows bind a s :
  listeners_grow s (outbound_tcp_receiver bind a s).2 ∧
  (is_Some (outbound_tcp_receiver bind a s).1 →
   is_Some (st_tcp_servers (outbound_tcp_receiver bind a s).2 !! a) ∧
   is_Some (st_tcp_receivers (outbound_tcp_receiver bind a s).2 !! a)).
Proof.
  assert (∀ h s0, listeners_grow s0 (get_or_init_tcp_receiver a h s0).2 ∧
    st_tcp_servers (get_or_init_tcp_receiver a h s0).2 = st_tcp_servers s0 ∧
    (is_Some (get_or_init_tcp_receiver a h s0).1 → is_Some (st_tcp_receivers (get_or_init_tcp_receiver a h s0).2 !! a))) as Hg.
  { intros h s0. unfold get_or_init_tcp_receiver. destruct (st_tcp_receivers s0 !! a) eqn:Hr; [by cbn; rewrite Hr|].
    destruct (tcp_heap s0 !! h) as [server|]; [|split_and!; [done|done|by intros [? ?]]].
    destruct (tcp_take_receiver server) as [[] server']; cbn; (split; [grow|]); (split; [done|]).
    - intros _. rewrite lookup_insert_eq. eauto.
    - by intros [? ?]. }
  unfold outbound_tcp_receiver, start_tcp_server. destruct (st_tcp_servers s !! a) as [h|] eqn:Hs.
  - destruct (Hg h s) as (G1 & -> & G3). rewrite Hs. split; [done|]. eauto.
  - destruct bind as [h|]; [|split; [done|by intros [? ?]]]. set (s0 := MkState _ _ _ _ _ _ _ _ _ _ _).
    destruct (Hg h s0) as (G1 & -> & G3). split.
    + etransitivity; [|exact G1]. grow.
    + intros Ho. split; [|auto]. cbn. rewrite lookup_insert_eq. eauto.
Qed.

(** Starting to serve: no listener is lost, and the tunnel has one. *)
Lemma handle_tunnel_listeners env d t s st s' :
  handle_tunnel env d t s = Some (st, s') →
  listeners_grow s s' ∧ match st with Serving held => serving_listener t held s' | SetupFailed => True end.
Proof.
  assert (∀ msg s0, listeners_grow s0 (announce env d msg s0)) as Ha by (intros; apply same_core_grows, announce_core).
  destruct t as [cfg|ut]; [|intros [= <- <-]; by split]. cbn [handle_tunnel serving_listener].
  unfold handle_network_based_tunnel. destruct (local_server_addr cfg) as [a|] eqn:El; [|done]. cbn [mbind option_bind]. intros [= Hh].
  destruct (mode cfg), (upstream_type (upstream cfg)); [injection Hh as <- <-; by split..| |].
  - unfold serve_outbound_tcp in Hh. destruct (outbound_tcp_grows (se_bind env) a s) as [Hg Hr].
    destruct (outbound_tcp_receiver _ _ _) as [[r|] s1]; simplify_eq/=; [|by split].
    specialize (Hr ltac:(eauto)). split; [by etransitivity; [|apply Ha]|].
    intros _ a' [= <-]. pose proof (Ha ("TCP_OUT start serving from " +:+ display_socket_addr (default a
      (tcp_addr <$> (h ← st_tcp_servers s1 !! a; tcp_heap s1 !! h)))) s1) as (H1 & H2 & _). destruct Hr. auto.
  - unfold serve_outbound_udp in Hh.
    set (step := match st_udp_servers s !! a with Some h => (Some h, s) | None => start_udp_server (se_bind env) a s end) in Hh.
    assert (listeners_grow s step.2 ∧ ∀ h, step.1 = Some h → st_udp_servers step.2 !! a = Some h) as [Hs Hl].
    { unfold step, start_udp_server. destruct (st_udp_servers s !! a) as [h|] eqn:E; [by split; [done|intros h' [= <-]]|].
      destruct (se_bind env) as [h|]; [|done]. cbn. split; [|by intros h' [= <-]; rewrite lookup_insert_eq].
      grow. by apply insert_subseteq. }
    destruct step as [[h|] s1]; cbn [fst snd mbind option_bind] in *; [|simplify_eq; by split].
    destruct (udp_heap s1 !! h) as [server|] eqn:Eh; cbn in Hh; [|simplify_eq; by split].
    destruct (udp_take_receiver server) as [taken server'] eqn:Et.
    pose proof (Ha ("UDP_OUT start serving from " +:+ display_socket_addr (udp_addr server)) s1) as Hg.
    set (s2 := announce env d _ s1) in *. injection Hh as <- <-. split.
    { etransitivity; [exact Hs|]. etransitivity; [exact Hg|]. apply insert_grows. }
    destruct taken; [|done]. intros _ a' [= <-]. exists h. split; [done|]. cbn. rewrite lookup_insert_eq.
    split; [|by eexists]. destruct Hg as (_ & _ & Hg & _). by eapply lookup_weaken; [apply Hl|].
Qed.

(** * Every served tunnel has its listener *)
Section recovers.
Context `{bc : !Bincode, laws : !BincodeLaws}.
Context (parse_server_name : string → option server_name) (tls : tls_world).
Context (config : ClientConfig) (chans : list UpstreamType).

Abbreviation step := (sys_step parse_server_name tls config chans watch).

(** Several steps of one task. *)
Fixpoint task_steps (i : nat) (chs : list choice) (x : tunnel_sys) : option tunnel_sys :=
  match chs with
  | [] => Some x
  | ch :: chs' => y ← task_step parse_server_name tls config chans i ch x; task_steps i chs' y
  end.

Lemma task_spec_grows d t ch s cl us pc pc' s' cl' us' :
  task_spec d t ch s cl us pc pc' s' cl' us' →
  listeners_grow s s' ∧ ∀ c held, pc' = TcServing c held → serving_listener t held s'.
Proof.
  intros Hsp. destruct Hsp as [a s' l Hc|a c s' _ Hc|a c s' _ Hc|c|env c held s' _ Hh|env c s' l _ Hh|c held
    |c held pc cut|c now stats|c| |now msg]; try (split; [by apply same_core_grows|]; by repeat case_match).
  - split; [grow|done].
  - destruct (handle_tunnel_listeners _ _ _ _ _ _ Hh) as [Hg Hl]. split; [done|]. by intros ? ? [= <- <-].
  - destruct (handle_tunnel_listeners _ _ _ _ _ _ Hh) as [Hg _]. by split.
  - split; [apply end_serving_grows|done].
  - split; [|done]. unfold report_end. destruct (should_quit s); [grow|].
    etransitivity; [apply same_core_grows, (post_event_core (tunnel_event_new (EvState Reconnecting) now d))|grow].
  - split; [grow|done].
  - split; [apply same_core_grows, post_event_core|done].
Qed.

Definition serving_inv (x : tunnel_sys) : Prop :=
  (ty_stop x ≠ StopNone → should_quit (ty_state x) = true) ∧
  (should_quit (ty_state x) = false → ∀ i c held id t,
     ty_tasks x !! i = Some (TcServing c held) → client_tunnels config chans !! i = Some (id, t) →
     serving_listener t held (ty_state x)).

Lemma serving_inv_step x y : serving_inv x → step x y → serving_inv y.
Proof.
  intros [Hst Hsv] Hs. pose proof (step_quit parse_server_name tls config chans x y Hs) as Hq.
  assert (Hq' : should_quit (ty_state y) = false → should_quit (ty_state x) = false).
  { destruct (should_quit (ty_state x)); [|done]. by rewrite Hq. }
  assert (Hkeep : listeners_grow (ty_state x) (ty_state y) → ty_tasks y = ty_tasks x →
    should_quit (ty_state y) = false → ∀ i c held id t, ty_tasks y !! i = Some (TcServing c held) →
    client_tunnels config chans !! i = Some (id, t) → serving_listener t held (ty_state y)).
  { intros Hg -> Hy i c held id t Hi Ht. eapply serving_listener_grows; [done|]. by eapply Hsv; [apply Hq'|..]. }
  destruct Hs as [x i ch y Hs _|s ts cl us pc lt r c|s ts cl us pc lt r h server sendable ev Hh|s ts cl us pc lt r h server ev Hh
    |s ts cl us pc lt r o|s ts cl us lt r|s ts cl us lt r s' closed quits Hsw|s ts cl us lt r]; cbn [ty_state ty_tasks ty_stop] in *.
  - apply task_step_spec in Hs as (pc & id & t & d & pc' & Hi & Ht & _ & Hsp & Hts & Hstop & _).
    destruct (task_spec_grows _ _ _ _ _ _ _ _ _ _ _ Hsp) as [Hg Hnew]. split; [rewrite Hstop; auto|].
    intros Hy j c held id' t' Hj Ht'. rewrite Hts in Hj.
    apply lookup_insert_Some in Hj as [[<- ->]|[_ Hj]]; [rewrite Ht in Ht'; simplify_eq; by eapply Hnew|].
    eapply serving_listener_grows; [done|]. by eapply Hsv; [apply Hq'|..].
  - by split.
  - split; [done|]. apply Hkeep; [|done]. apply insert_grows.
  - split; [done|]. apply Hkeep; [|done]. grow.
  - split; [done|]. apply Hkeep; [|done]. grow.
  - by split.
  - assert (should_quit s' = true) as Hs' by (apply Hq, Hst; done). split; [done|]. intros Hy. cbn in Hy. congruence.
  - by split.
Qed.

Lemma reachable_serving x : sys_reachable parse_server_name tls config chans x → serving_inv x.
Proof.
  intros Hr. assert (serving_inv (sys_init config chans)) as H0.
  { split; [done|]. intros _ i c held id t Hi _. cbn in Hi. by apply lookup_gset_to_gmap_Some in Hi as [_ ?]. }
  revert H0. unfold sys_reachable in Hr. induction Hr; eauto using serving_inv_step.
Qed.

(** When serving ends the tunnel is ready to be served again, unless the future
    that held a UDP receiver was dropped. *)
Lemma ended_listener_ready senv t held cut s :
  serving_listener t held s → held = None ∨ cut = false → listener_ready senv t (end_serving cut held s).
Proof.
  intros Hs Hcut. destruct t as [cfg|]; [|done]. intros Hm a Ha. specialize (Hs Hm a Ha).
  destruct (upstream_type _).
  - right. by destruct held.
  - destruct Hs as (h & -> & Hh & [server Hserver]). destruct Hcut as [?| ->]; [done|]. right.
    exists h, (udp_put_receiver server). cbn. split_and!; [done| |done]. rewrite lookup_alter_eq. by rewrite Hserver.
Qed.

(** The network lets attempts through, whatever the client has cached. *)
Definition network_up (env : attempt_env) : Prop := ∀ x, reaches parse_server_name tls config env x.

(** C10: A tunnel recovers.  Take any reachable state of a client that is not
    stopping, in which a tunnel is served and its connection has gone (because
    the heartbeat closed it, the peer did, or the network timed out).  Unless a
    UDP receiver was dropped with the serving future, the tunnel's task leaves the
    connection, takes it out of the table and connects again; and if the network
    is up again and the login is granted, after seven steps in all it is serving
    on the new connection, which is in the table, and every listener to events has
    been told that the tunnel was reconnecting, connecting, connected and
    tunnelling. *)
Theorem tunnel_recovers x i id t d c held cut now stats env c' senv r_cli ipv6 :
  Forall startable (cc_tunnels config) → sys_reachable parse_server_name tls config chans x →
  client_tunnels config chans !! i = Some (id, t) → build_tunnel_descriptor id t (tunnel_channel_input t) = Some d →
  ty_tasks x !! i = Some (TcServing c held) → should_quit (ty_state x) = false → c ∈ ty_closed x →
  held = None ∨ cut = false →
  network_up env → c' ∉ ty_used x → ae_io env = AuthIo r_cli open_writer →
  message_fits (ReqLogin (login_info_of config t)) → message_fits (RespSuccess (mkServerCapabilities ipv6)) →
  delivers r_cli (message_frame (RespSuccess (mkServerCapabilities ipv6))) →
  ∃ x4 x7 held',
    task_steps i [ChLeave cut; ChReport now stats; ChUnregister; ChAgain] x = Some x4 ∧
    ty_tasks x4 !! i = Some (TcConnect 0) ∧ (c ∉ st_connections (ty_state x4)) ∧
    task_steps i [ChConnect env c'; ChRegister; ChStart senv] x4 = Some x7 ∧
    ty_tasks x7 !! i = Some (TcServing c' held') ∧ c' ∈ st_connections (ty_state x7) ∧
    ∀ w, listening w (ty_state x) →
      observed w d (ty_state x7) =
      (observed w d (ty_state x) ++ [Reconnecting; Connecting; Connected; Tunneling])%list.
Proof.
  intros Hall Hr Ht Hd Hi Hq Hc Hcut Hnet Hc' Hio Hreq Hok Hcli.
  pose proof (proj2 (reachable_serving x Hr) Hq i c held id t Hi Ht) as Hlisten.
  set (s1 := end_serving cut held (ty_state x)). set (s2 := report_end now d stats s1).
  set (s3 := set_connections (st_connections s2 ∖ {[c]}) s2).
  assert (Hq1 : should_quit s1 = false) by (unfold s1; by destruct held).
  assert (Hcore : same_core s1 s2).
  { unfold s2, report_end. rewrite Hq1. apply (post_event_core (tunnel_event_new (EvState Reconnecting) now d)). }
  assert (Hq3 : should_quit s3 = false).
  { rewrite <-Hq1. apply (should_quit_life s1 s2). by apply same_core_life. }
  assert (Hready : listener_ready senv t s3).
  { apply (listener_ready_core senv t s1 s2 Hcore). by apply ended_listener_ready. }
  set (x4 := TunnelSys s3 (<[i := TcConnect 0]> (<[i := TcLeft]> (<[i := TcReported c]> (<[i := TcServed c]> (ty_tasks x)))))
    (ty_closed x) (ty_used x) (ty_stop x) (ty_late x) (ty_rotation x)).
  destruct (granted_task_serves parse_server_name tls config chans x4 i id t d 0 c' env senv r_cli ipv6)
    as (x5 & x6 & x7 & held' & T1 & T2 & T3 & Hpc & Hconn & Hobs); [done|done|done|apply lookup_insert_eq|done|done|apply Hnet|done..|].
  exists x4, x7, held'. split_and!.
  - cbn [task_steps]. rewrite (task_step_of _ _ _ _ i (ChLeave cut) x id t d (TcServing c held) (TcServed c) s1 (ty_closed x) (ty_used x) (ty_rotation x))
      by (done || (cbn [connect_and_serve_step]; by rewrite decide_True)).
    cbn [mbind option_bind].
    rewrite (task_step_of _ _ _ _ i (ChReport now stats) _ id t d (TcServed c) (TcReported c) s2 (ty_closed x) (ty_used x) (ty_rotation x))
      by (done || apply lookup_insert_eq).
    cbn [mbind option_bind ty_tasks ty_state ty_closed ty_used ty_rotation ty_stop ty_late].
    rewrite (task_step_of _ _ _ _ i ChUnregister _ id t d (TcReported c) TcLeft s3 (ty_closed x) (ty_used x) (ty_rotation x))
      by (done || apply lookup_insert_eq).
    cbn [mbind option_bind ty_tasks ty_state ty_closed ty_used ty_rotation ty_stop ty_late].
    rewrite (task_step_of _ _ _ _ i ChAgain _ id t d TcLeft (TcConnect 0) s3 (ty_closed x) (ty_used x) (ty_rotation x));
      [done|apply lookup_insert_eq|done|done|cbn [connect_and_serve_step ty_state]; by rewrite Hq3].
  - apply lookup_insert_eq.
  - intros [_ Hn]%elem_of_difference. by apply Hn, elem_of_singleton.
  - cbn [task_steps]. rewrite T1. cbn [mbind option_bind]. rewrite T2. cbn [mbind option_bind]. by rewrite T3.
  - done.
  - done.
  - intros w Hw. assert (Hadv : advance w d (ty_state x) s3 [Reconnecting]).
    { apply (advance_silent w d (ty_state x) s2); [|done].
      pose proof (report_end_advance w now d stats s1) as Ha. rewrite Hq1 in Ha.
      apply (advance_trans w d _ s1 _ [] _); [|exact Ha]. apply advance_bus. by destruct held. }
    destruct (Hadv Hw) as [Hw3 Ho]. rewrite (Hobs w Hw3). cbn [x4 ty_state]. rewrite Ho, decide_True by done. by rewrite <-app_assoc.
Qed.
End recovers.

(** ** Witness *)

(** The client of [TunnelLife] with its connection lost. *)
Definition lost_run : list sys_op :=
  [OpTask 0 (ChConnect granted_attempt 1); OpTask 0 ChRegister; OpTask 0 (ChStart sample_serve_env); OpClosed 1].
Definition lost_sys : tunnel_sys :=
  default (sys_init udp_client []) (exec sample_server_name sample_tls udp_client [] lost_run (sys_init udp_client [])).

Lemma lost_sys_reachable : sys_reachable sample_server_name sample_tls udp_client [] lost_sys.
Proof. apply (exec_steps sample_server_name sample_tls udp_client [] lost_run). by vm_compute. Qed.

Lemma obtain_endpoint_total create remote s :
  (∀ a, is_Some (create a)) → is_Some (obtain_endpoint create remote s).1.
Proof.
  intros Hc. unfold obtain_endpoint. destruct (Hc (socket_addr_with_unspecified_ip_port (is_ipv6 remote))) as [e He].
  destruct (match st_endpoint s with Some _ => _ | None => _ end) as [[e0|] s']; [by eexists|]. rewrite He. by eexists.
Qed.

Lemma sample_network_up : network_up sample_server_name sample_tls udp_client granted_attempt.
Proof.
  intros x. exists (SockV4 167772161 443), "localhost". split; [by vm_compute|]. split; [|by repeat split].
  apply obtain_endpoint_total. intros a. by eexists.
Qed.

Lemma tunnel_recovers_witness : ∃ x4 x7 held',
  task_steps sample_server_name sample_tls udp_client [] 0 [ChLeave false; ChReport "now" (MkConnStats 0 0 0 0 0 0 0 0 0 0 0 0); ChUnregister; ChAgain] lost_sys = Some x4 ∧
  task_steps sample_server_name sample_tls udp_client [] 0 [ChConnect granted_attempt 2; ChRegister; ChStart sample_serve_env] x4 = Some x7 ∧
  ty_tasks x7 !! 0%nat = Some (TcServing 2 held').
Proof.
  destruct (tunnel_recovers sample_server_name sample_tls udp_client [] lost_sys 0 (IdNetwork 0) (NetworkBased udp_tunnel)
    udp_descriptor 1 (Some 0%nat) false "now" (MkConnStats 0 0 0 0 0 0 0 0 0 0 0 0) granted_attempt 2 sample_serve_env
    [Chunk (message_frame (RespSuccess (mkServerCapabilities true)))] true)
    as (x4 & x7 & held' & H1 & _ & _ & H2 & H3 & _).
  - constructor; [by eexists|constructor].
  - exact lost_sys_reachable.
  - reflexivity.
  - reflexivity.
  - by vm_compute.
  - by vm_compute.
  - by apply (bool_decide_unpack _); vm_compute.
  - by right.
  - exact sample_network_up.
  - by apply (bool_decide_unpack _); vm_compute.
  - reflexivity.
  - split; [by apply (bool_decide_unpack _); vm_compute|by vm_compute].
  - split; [done|by vm_compute].
  - exists []. by rewrite app_nil_r.
  - by exists x4, x7, held'.
Defined.
