(* ===== verification/Secrets.v ===== *)
(** What becomes of the secrets: the password of a client and of a server
    ([src/src/lib.rs], [src/src/client.rs], [src/src/server.rs]) and the
    credential of the dashboard.

    Each theorem compares two runs of the same code that differ in a secret and
    nothing else, so that whatever the runs produce (log lines, events, printed
    configurations, answers) cannot tell the secrets apart. *)
From Stdlib Require Import Ascii.
From S2P Require Import Prelude Io Net Target AddrText Config Message BincodeStd Heartbeat EventBus Servers TcpTunnel Server ServerRun Client ClientRun ClientTunnel TunnelLife.

#[local] Open Scope string_scope.
#[local] Open Scope Z_scope.

(** * Printing a server's configuration *)
Section debug.

(** The text of a string in a [Debug] output: quoted, with what needs it
    escaped. *)
Context (debug_str : string → string).

Definition debug_option {A} (debug : A → string) (o : option A) : string :=
  match o with Some a => "Some(" +:+ debug a +:+ ")" | None => "None" end.

(** [Formatter::debug_struct] with its fields; [SocketAddr] prints the same with
    [Debug] as with [Display]. *)
Fixpoint debug_fields (fields : list (string * string)) : string :=
  match fields with
  | [] => ""
  | [(name, value)] => name +:+ ": " +:+ value
  | (name, value) :: fields' => name +:+ ": " +:+ value +:+ ", " +:+ debug_fields fields'
  end.
Definition debug_struct (name : string) (fields : list (string * string)) : string :=
  match fields with
  | [] => name
  | _ => name +:+ " { " +:+ debug_fields fields +:+ " }"
  end.

Definition debug_connector (connector : bool) : string :=
  debug_option debug_str (if connector then Some "Some(<connector>)" else None).

Definition debug_server_config (c : ServerConfig) : string :=
  debug_struct "ServerConfig"
    [("addr", debug_str (sc_addr c));
     ("password", debug_str "<redacted>");
     ("cert_path", debug_str (sc_cert_path c));
     ("key_path", debug_str (sc_key_path c));
     ("quic_timeout_ms", display_uint (sc_quic_timeout_ms c));
     ("tcp_timeout_ms", display_uint (sc_tcp_timeout_ms c));
     ("udp_timeout_ms", display_uint (sc_udp_timeout_ms c));
     ("quic_receive_window", display_uint (sc_quic_receive_window c));
     ("stream_receive_window", display_uint (sc_stream_receive_window c));
     ("quic_send_window", display_uint (sc_quic_send_window c));
     ("default_tcp_upstream", debug_option display_socket_addr (sc_default_tcp_upstream c));
     ("default_udp_upstream", debug_option display_socket_addr (sc_default_udp_upstream c));
     ("channel_tcp_connector", debug_connector (sc_tcp_connector c));
     ("channel_udp_connector", debug_connector (sc_udp_connector c));
     ("dashboard_server", debug_str (sc_dashboard_server c));
     ("dashboard_server_credential", debug_str "<redacted>")].
End debug.

(** * The same configuration with other secrets *)

Definition with_password (p : string) (c : ClientConfig) : ClientConfig :=
  MkClientConfig (cc_cert_path c) (cc_server_addr c) p (cc_wait_before_retry_ms c)
    (cc_quic_timeout_ms c) (cc_tcp_timeout_ms c) (cc_udp_timeout_ms c) (cc_heartbeat_interval_ms c)
    (cc_heartbeat_timeout_ms c) (cc_hop_interval_ms c) (cc_tunnels c) (cc_dot_servers c) (cc_dns_servers c)
    (cc_workers c) (cc_quic_receive_window c) (cc_stream_receive_window c) (cc_quic_send_window c)
    (cc_sni_names c) (cc_zstd c) (cc_http c) (cc_zstd_level c) (cc_zstd_window_log c) (cc_zstd_dict c)
    (cc_zstd_pair_ttl_secs c) (cc_zstd_flush_interval_ms c).

Definition with_secrets (p credential : string) (c : ServerConfig) : ServerConfig :=
  MkServerConfig (sc_addr c) p (sc_cert_path c) (sc_key_path c) (sc_quic_timeout_ms c) (sc_tcp_timeout_ms c)
    (sc_udp_timeout_ms c) (sc_quic_receive_window c) (sc_stream_receive_window c) (sc_quic_send_window c)
    (sc_default_tcp_upstream c) (sc_default_udp_upstream c) (sc_tcp_connector c) (sc_udp_connector c)
    (sc_dashboard_server c) credential.

(** * The client *)
Section client.
Context `{bc : !Bincode, laws : !BincodeLaws}.
Context (parse_server_name : string → option server_name) (tls : tls_world).

(** Logins that ask for the same thing. *)
Definition same_request (i j : LoginInfo) : Prop :=
  li_tunnel i = li_tunnel j ∧ li_tcp_timeout_ms i = li_tcp_timeout_ms j ∧
  li_udp_timeout_ms i = li_udp_timeout_ms j.

Lemma same_request_format i j remote :
  same_request i j → format_with_remote_addr i remote = format_with_remote_addr j remote.
Proof. intros [H _]. unfold format_with_remote_addr. by rewrite H. Qed.

(** Sending succeeds for both, and what is received does not depend on what was
    sent. *)
Lemma login_same_request config p env d remote i j timeout s io :
  same_request i j → login_wf i → login_wf j → w_room (ai_send io) = None →
  (login (with_password p config) env d remote i timeout s io).1 = (login config env d remote j timeout s io).1.
Proof.
  intros Hij Hi Hj Hw. unfold login. rewrite (same_request_format i j) by done.
  destruct (format_with_remote_addr j remote); [|done].
  destruct (le_connect env); [|done..]. destruct (le_open env); [|done..]. destruct (le_send env); [|done..].
  destruct (encode_total (ReqLogin i) Hi) as [bi Hbi]. destruct (encode_total (ReqLogin j) Hj) as [bj Hbj].
  rewrite (send_to_open _ _ _ Hbi Hw), (send_to_open _ _ _ Hbj Hw).
  destruct (le_recv env); [|done..]. destruct (recv_from true (ai_recv io)) as [[[]|] r]; done.
Qed.

Lemma connect_once_same_request resolve route create describe config p env d i j timeout rotation s io :
  same_request i j → login_wf i → login_wf j → w_room (ai_send io) = None →
  (connect_once parse_server_name tls resolve route create describe (with_password p config) env d i timeout rotation s io).1
  = (connect_once parse_server_name tls resolve route create describe config env d j timeout rotation s io).1.
Proof.
  intros Hij Hi Hj Hw. unfold connect_once.
  change (prepare_login_config parse_server_name tls resolve route (with_password p config) rotation)
    with (prepare_login_config parse_server_name tls resolve route config rotation).
  destruct (prepare_login_config _ _ _ _ _ _) as [[[remote sni]|e] rot]; [|done].
  destruct (obtain_endpoint create remote s) as [[ep|] s1]; [|done].
  pose proof (login_same_request config p env d remote i j timeout s1 io Hij Hi Hj Hw) as Hl.
  destruct (login (with_password p config) _ _ _ _ _ _ _) as [[r s2] io2].
  destruct (login config _ _ _ _ _ _ _) as [[r' s2'] io2']. cbn [fst] in Hl. by simplify_eq.
Qed.

(** The stream of a login can take what the client writes. *)
Definition writable (o : sys_op) : bool :=
  match o with
  | OpTask _ (ChConnect env _) => match w_room (ai_send (ae_io env)) with None => true | Some _ => false end
  | _ => true
  end.

Lemma task_step_same config chans p i ch x :
  string_wf p → Forall (λ it, login_wf (login_info_of config it.2)) (client_tunnels config chans) →
  writable (OpTask i ch) = true →
  task_step parse_server_name tls (with_password p config) chans i ch x
  = task_step parse_server_name tls config chans i ch x.
Proof.
  intros Hp Hwf Hw. unfold task_step. destruct (ty_tasks x !! i) as [pc|]; [|done]. cbn [mbind option_bind].
  change (client_tunnels (with_password p config) chans) with (client_tunnels config chans).
  destruct (client_tunnels config chans !! i) as [[id t]|] eqn:Hi; [|done]. cbn [mbind option_bind].
  destruct (build_tunnel_descriptor id t _) as [d|]; [|done]. cbn [mbind option_bind].
  pose proof (list.Forall_lookup_1 _ _ _ _ Hwf Hi) as Ht. cbn [snd] in Ht.
  assert (Hreq : same_request (login_info_of (with_password p config) t) (login_info_of config t)) by done.
  assert (Ht' : login_wf (login_info_of (with_password p config) t)) by (destruct Ht as [_ Ht]; done).
  f_equal. unfold connect_and_serve_step. destruct pc, ch as [env conn| | | | | | | |now]; try done.
  cbn in Hw. destruct (w_room _) eqn:Hroom; [done|].
  pose proof (connect_once_same_request (ae_resolve env) (ae_ipv6_route env) (ae_create_endpoint env) (ae_describe env)
    config p (ae_login env) d _ _ (connect_attempt_timeout_for attempt) (ty_rotation x) (ty_state x) (ae_io env) Hreq Ht' Ht Hroom) as Hc.
  destruct (connect_once _ _ _ _ _ _ (with_password p config) _ _ _ _ _ _ _) as [[[r rot] s] io].
  destruct (connect_once _ _ _ _ _ _ config _ _ _ _ _ _ _) as [[[r' rot'] s'] io']. cbn [fst] in Hc. by simplify_eq.
Qed.

(** C8: A client never gives its password away.  Two runs of a client that differ
    only in the password go through the same states: every event and log line
    posted to a listener, every reported state and statistic, the endpoint and
    connection tables, and what is retried are the same.  The password goes into
    the login message on the encrypted connection and nowhere else. *)
Theorem client_password_not_observable config chans p ops x :
  string_wf p → Forall (λ it, login_wf (login_info_of config it.2)) (client_tunnels config chans) →
  Forall (λ o, writable o = true) ops →
  exec parse_server_name tls (with_password p config) chans ops x
  = exec parse_server_name tls config chans ops x.
Proof.
  intros Hp Hwf Hops. revert x. induction Hops as [|o ops Ho _ IH]; intros x; [done|]. cbn [exec].
  assert (exec_op parse_server_name tls (with_password p config) chans o x
          = exec_op parse_server_name tls config chans o x) as ->.
  { destruct o; cbn [exec_op]; [|done..]. by rewrite task_step_same. }
  destruct (exec_op _ _ _ _ _ _) as [y|]; [apply IH|done].
Qed.
End client.

(** * The server *)
Section server.
Context `{bc : !Bincode}.

(** A login tells the passwords [p] and [q] apart when it carries one of them. *)
Definition tells_apart (p q : string) (inc : incoming) : bool :=
  match (recv_from false (ai_recv (in_io inc))).1 with
  | Ok (ReqLogin login) =>
      negb (bool_decide (bool_decide (li_password login = p) = bool_decide (li_password login = q)))
  | _ => false
  end.

Lemma serve_connection_same config p credential inc s :
  tells_apart (sc_password config) p inc = false →
  serve_connection (with_secrets p credential config) inc s = serve_connection config inc s.
Proof.
  unfold tells_apart, serve_connection. intros Hsame. destruct (in_handshake inc); [|done]. cbn [negb].
  assert (authenticate_connection (in_bind inc) (with_secrets p credential config) (in_ipv6 inc) (in_io inc)
          = authenticate_connection (in_bind inc) config (in_ipv6 inc) (in_io inc)) as ->; [|done].
  unfold authenticate_connection, check_password, mbind, eff_bind, lift, on_recv.
  destruct (recv_from false (ai_recv (in_io inc))) as [[[login| | | |]|e] r]; cbn [fst map_err] in *; try done.
  apply negb_false_iff, bool_decide_eq_true in Hsame.
  cbn [sc_password with_secrets].
  destruct (decide (p = li_password login)) as [E|E], (decide (sc_password config = li_password login)) as [E'|E']; try done.
  - rewrite bool_decide_false, bool_decide_true in Hsame; congruence.
  - rewrite bool_decide_true, bool_decide_false in Hsame; congruence.
Qed.

(** C9: A server's secrets are only ever compared with.  Its printed configuration
    shows neither the password nor the credential of the dashboard; and clients
    that try other passwords get from it, whatever its password is, the same
    answers, byte for byte, the same tunnels and the same sessions: a wrong guess
    tells nothing but that it was wrong. *)
Theorem server_secrets_only_compared (debug_str : string → string) config p credential incs s :
  Forall (λ inc, tells_apart (sc_password config) p inc = false) incs →
  debug_server_config debug_str (with_secrets p credential config) = debug_server_config debug_str config ∧
  (∀ inc s, inc ∈ incs →
     serve_connection (with_secrets p credential config) inc s = serve_connection config inc s) ∧
  serve (with_secrets p credential config) incs s = serve config incs s.
Proof.
  intros Hall. split; [done|]. split.
  { intros inc s0 Hin. apply serve_connection_same. by rewrite list.Forall_forall in Hall; apply Hall. }
  revert s. induction Hall as [|inc incs Hinc _ IH]; intros s; [done|]. cbn [serve].
  rewrite serve_connection_same by done. destruct (serve_connection config inc s) as [[a io] s1]. by rewrite IH.
Qed.
End server.

(** ** Witnesses *)

Lemma client_password_not_observable_witness :
  exec sample_server_name sample_tls (with_password "other" udp_client) [] cut_run (sys_init udp_client [])
  = Some cut_sys.
Proof.
  rewrite (client_password_not_observable sample_server_name sample_tls udp_client [] "other" cut_run (sys_init udp_client [])).
  - by vm_compute.
  - by apply (bool_decide_unpack _); vm_compute.
  - apply (bool_decide_unpack _). by vm_compute.
  - by repeat constructor.
Defined.

Lemma server_secrets_only_compared_witness :
  (serve (with_secrets "another" "user:hidden" sample_server_config) [sample_incoming 1 bad_login] server_new).1 = [] ∧
  serve (with_secrets "another" "user:hidden" sample_server_config) [sample_incoming 1 bad_login] server_new
  = serve sample_server_config [sample_incoming 1 bad_login] server_new.
Proof.
  split; [by vm_compute|].
  apply (server_secrets_only_compared (λ s, s) sample_server_config "another" "user:hidden" [sample_incoming 1 bad_login] server_new).
  repeat constructor.
Defined.
