(* ===== verification/Cli.v ===== *)
(** The command line of [src/src/bin/rstun.rs]: the arguments with the defaults
    their attributes declare, and the two programs they start, from the
    arguments to the running client or server.  Splitting the command line into
    these structures is [clap]'s. *)
From S2P Require Import Prelude Io Net AddrText Ipv6Text HttpReader Config Message BincodeStd Servers TcpTunnel Server ServerRun EventBus Lru StreamFlow Codec Client ClientRun ClientTunnel.

#[local] Open Scope string_scope.
#[local] Open Scope Z_scope.

(** * Arguments *)

(** The value parser of the log level: the five letters [clap] lets through, and
    the catch-all the match ends with. *)
Definition loglevel_value (v : string) : string :=
  if decide (v = "T") then "trace"
  else if decide (v = "D") then "debug"
  else if decide (v = "I") then "info"
  else if decide (v = "W") then "warn"
  else if decide (v = "E") then "error"
  else "info".

Record ClientArgs : Type := MkClientArgs {
  ca_server_addr : string;
  ca_password : string;
  ca_tcp_mappings : string;
  ca_udp_mappings : string;
  ca_cert : string;
  ca_workers : Z;
  ca_wait_before_retry_ms : Z;
  ca_quic_timeout_ms : Z;
  ca_tcp_timeout_ms : Z;
  ca_udp_timeout_ms : Z;
  ca_heartbeat_interval_ms : Z;
  ca_heartbeat_timeout_ms : Z;
  ca_hop_interval_ms : Z;
  ca_dot : string;
  ca_dns : string;
  ca_sni_names : string;
  ca_zstd : bool;
  ca_http : bool;
  ca_zstd_level : Z;
  ca_zstd_window_log : Z;
  ca_zstd_dict : string;
  ca_zstd_pair_ttl_secs : Z;
  ca_zstd_flush_interval_ms : Z;
  ca_loglevel : string
}.

(** The arguments of [rstun client -a ADDR -p PASSWORD -t TCP -u UDP], with the
    [default_value]s of all others. *)
Definition client_args (server_addr password tcp_mappings udp_mappings : string) : ClientArgs :=
  MkClientArgs server_addr password tcp_mappings udp_mappings ""
    0 5000 30000 30000 5000 5000 15000 0 "" "" "" false false 9 24 "" 0 0 (loglevel_value "I").

Record ServerArgs : Type := MkServerArgs {
  sa_addr : string;
  sa_tcp_upstream : string;
  sa_udp_upstream : string;
  sa_password : string;
  sa_cert : string;
  sa_key : string;
  sa_workers : Z;
  sa_quic_timeout_ms : Z;
  sa_tcp_timeout_ms : Z;
  sa_udp_timeout_ms : Z;
  sa_loglevel : string
}.

(** [rstun server -p PASSWORD]. *)
Definition server_args (password : string) : ServerArgs :=
  MkServerArgs "0.0.0.0:0" "" "" password "" "" 0 30000 30000 5000 (loglevel_value "I").

Inductive Commands : Type :=
| CommandClient (args : ClientArgs)
| CommandServer (args : ServerArgs).

Definition log_filter (level : string) : string := "rstun=" +:+ level +:+ ",rs_utilities=" +:+ level.

(** * The client *)

(** A [Client] as [Client::new] makes it. *)
Record Client : Type := MkClient {
  cl_config : ClientConfig;
  cl_state : State;
  cl_traffic_reporter_once : bool;     (** whether the reporter has been started *)
  cl_next_tunnel_id : Z;
  cl_sni_rotation : Z;
  cl_codec_stats : CodecStats
}.

(** [start_traffic_reporter_once]. *)
Definition start_traffic_reporter_once (c : Client) : Client :=
  MkClient (cl_config c) (cl_state c) true (cl_next_tunnel_id c) (cl_sni_rotation c) (cl_codec_stats c).

Definition set_sni_names (names : list string) (c : ClientConfig) : ClientConfig :=
  MkClientConfig (cc_cert_path c) (cc_server_addr c) (cc_password c) (cc_wait_before_retry_ms c)
    (cc_quic_timeout_ms c) (cc_tcp_timeout_ms c) (cc_udp_timeout_ms c) (cc_heartbeat_interval_ms c)
    (cc_heartbeat_timeout_ms c) (cc_hop_interval_ms c) (cc_tunnels c) (cc_dot_servers c) (cc_dns_servers c)
    (cc_workers c) (cc_quic_receive_window c) (cc_stream_receive_window c) (cc_quic_send_window c) names
    (cc_zstd c) (cc_http c) (cc_zstd_level c) (cc_zstd_window_log c) (cc_zstd_dict c)
    (cc_zstd_pair_ttl_secs c) (cc_zstd_flush_interval_ms c).

(** What [start_tunneling] sets going: the threads of its runtime, the tunnel
    tasks of [connect_and_serve_async], and whether endpoints are migrated. *)
Record running_client : Type := RunningClient {
  rc_client : Client;
  rc_workers : Z;
  rc_tasks : list (TunnelId * Tunnel);
  rc_migrates : bool
}.

Section cli.
Context (parse_server_name : string → option server_name) (num_cpus : Z).

Definition client_new (config : ClientConfig) : Client :=
  MkClient (set_sni_names (sanitize_sni_names parse_server_name (cc_sni_names config)) config) state_new false 0 0 stats_default.

(** [None] is a panic: the runtime's builder refuses zero threads. *)
Definition start_tunneling (c : Client) : option running_client :=
  if cc_workers (cl_config c) =? 0 then None
  else Some (RunningClient (start_traffic_reporter_once c) (cc_workers (cl_config c)) (connect_and_serve_async (cl_config c))
               (0 <? cc_hop_interval_ms (cl_config c))).

Definition run_client (args : ClientArgs) : option (result config_error running_client) :=
  match create parse_server_name num_cpus (ca_server_addr args) (ca_password args) (ca_cert args)
          (ca_tcp_mappings args) (ca_udp_mappings args) (ca_dot args) (ca_dns args) (ca_sni_names args)
          (ca_workers args) (ca_wait_before_retry_ms args) (ca_quic_timeout_ms args) (ca_tcp_timeout_ms args)
          (ca_udp_timeout_ms args) (ca_heartbeat_interval_ms args) (ca_heartbeat_timeout_ms args)
          (ca_hop_interval_ms args) (ca_zstd args) (ca_http args) (ca_zstd_level args) (ca_zstd_window_log args)
          (ca_zstd_dict args) (ca_zstd_pair_ttl_secs args) (ca_zstd_flush_interval_ms args) with
  | Err e => Some (Err e)
  | Ok config => Ok <$> start_tunneling (client_new config)
  end.

(** * The server *)

Inductive run_server_error : Type :=
| BadArguments (e : config_error)
| ServerFailed (e : server_error).

Section server.
Context `{pem : !Pemfile, bc : !Bincode}.

(** [run_server_async] with the world the server is started in and the
    connections that come in until its endpoint is closed; [None] is a panic. *)
Definition run_server_async (w : server_world) (args : ServerArgs) (incs : list incoming) :
  option (result run_server_error (list (Z * serve_action) * Server)) :=
  match server_config_of_args (sa_addr args) (sa_password args) (sa_cert args) (sa_key args)
          (sa_tcp_upstream args) (sa_udp_upstream args)
          (sa_quic_timeout_ms args) (sa_tcp_timeout_ms args) (sa_udp_timeout_ms args) with
  | Err e => Some (Err (BadArguments e))
  | Ok config =>
      match bind w (server_init config) with
      | None => None
      | Some (Err e, _) => Some (Err (ServerFailed e))
      | Some (Ok _, server) =>
          match sr_endpoint server with
          | None => Some (Err (ServerFailed NotBound))
          | Some _ =>
              let (served, s) := serve (sr_config server) incs (sr_state server) in
              Some (Ok (served, MkServer (sr_config server) None s))
          end
      end
  end.

(** The threads of the server's runtime and its run. *)
Definition run_server (w : server_world) (args : ServerArgs) (incs : list incoming) :
  option (Z * result run_server_error (list (Z * serve_action) * Server)) :=
  let workers := if 0 <? sa_workers args then sa_workers args else num_cpus in
  if workers =? 0 then None else pair workers <$> run_server_async w args incs.

Definition main (w : server_world) (command : Commands) (incs : list incoming) :
  option (result config_error running_client + Z * result run_server_error (list (Z * serve_action) * Server)) :=
  match command with
  | CommandClient args => inl <$> run_client args
  | CommandServer args => inr <$> run_server w args incs
  end.
End server.
End cli.

(** * From the command line to the tunnels *)

Section client_cli.
Context (parse_server_name : string → option server_name) (num_cpus : Z).

(** A name that passed the parser of [create]. *)
Definition accepted_name (n : string) : Prop := str_trim n = n ∧ dns_name parse_server_name n.

Lemma parse_sni_each_accepts raws names out :
  Forall accepted_name names → parse_sni_each parse_server_name raws names = Ok out → Forall accepted_name out.
Proof.
  revert names. induction raws as [|raw raws IH]; intros names Hn Hp; cbn [parse_sni_each] in Hp; [by simplify_eq|].
  destruct (decide (str_trim raw = "")); [by eapply IH|].
  destruct (parse_server_name (str_trim raw)) as [[]|] eqn:E; [|done..].
  eapply IH; [|done]. apply Forall_app; split; [done|]. repeat constructor; [apply str_trim_idemp|done..].
Qed.

(** The guard of [Client::new] drops nothing that [create] let through. *)
Lemma sanitize_accepted names : Forall accepted_name names → sanitize_sni_names parse_server_name names = names.
Proof.
  induction 1 as [|n names (Ht & Hne & Hd) _ IH]; [done|]. cbn [sanitize_sni_names].
  rewrite Ht, decide_False, Hd, IH by done. done.
Qed.

(** The text of a list of tunnels of one kind, and that it is read back. *)
Definition display_mappings (ts : list TunnelConfig) : string := join "," (display_mapping <$> ts).

Lemma parse_display_mappings ty ts v :
  Forall (mapping_ok ty) ts → parse_addr_mappings (display_mappings ts) ty v = Ok (v ++ ts)%list.
Proof.
  intros Hts. destruct ts as [|t ts]; [by rewrite app_nil_r|]. by apply mappings_roundtrip.
Qed.

Lemma display_mappings_empty ts : display_mappings ts = "" ↔ ts = [].
Proof.
  split; [|by intros ->]. destruct ts as [|t ts]; [done|]. intros E. exfalso. revert E.
  apply join_nonempty. by destruct t as [[]].
Qed.

(** The tasks a client starts for a list of tunnels. *)
Definition tasks_for (ts : list TunnelConfig) : list (TunnelId * Tunnel) :=
  imap (λ i t, (IdNetwork (Z.of_nat i), NetworkBased t)) ts.

(** C21: The command line is carried out.  Whatever tunnels are written as the
    [--tcp-mappings] and [--udp-mappings] of a client, whatever its other
    arguments: if its server names are acceptable the client starts, with a
    positive number of threads and with exactly one task per tunnel, in the order
    written, TCP before UDP, each with the mode, local address and destination
    that was written; the names it presents are those of the command line, none
    of them dropped by the second check in [Client::new]; and the endpoint is
    migrated if and only if an interval was given. *)
Theorem cli_client_roundtrip args tcp udp names :
  0 < num_cpus → in_u 64 (ca_workers args) → in_u 64 (ca_hop_interval_ms args) →
  (tcp ++ udp)%list ≠ [] → Forall (mapping_ok Tcp) tcp → Forall (mapping_ok Udp) udp →
  ca_tcp_mappings args = display_mappings tcp → ca_udp_mappings args = display_mappings udp →
  parse_sni_names parse_server_name (ca_sni_names args) = Ok names →
  ∃ r, run_client parse_server_name num_cpus args = Some (Ok r) ∧
    rc_tasks r = tasks_for (tcp ++ udp) ∧ 0 < rc_workers r ∧
    cc_sni_names (cl_config (rc_client r)) = names ∧
    (rc_migrates r = true ↔ ca_hop_interval_ms args ≠ 0).
Proof.
  intros Hcpus Hw Hhop Hne Htcp Hudp Et Eu Hsni. unfold run_client, create. rewrite Et, Eu.
  assert (bool_decide (display_mappings tcp = "") && bool_decide (display_mappings udp = "") = false) as ->.
  { apply andb_false_iff. rewrite !bool_decide_eq_false, !display_mappings_empty. destruct tcp; [by right|by left]. }
  destruct (heartbeat_settings _ _) as [i t]. rewrite Hsni. cbn [mbind result_bind].
  rewrite (parse_display_mappings Tcp) by done. cbn [mbind result_bind app].
  rewrite (parse_display_mappings Udp) by done. cbn [mbind result_bind app].
  set (workers := if 0 <? ca_workers args then _ else _).
  assert (0 < workers) as Hpos by (unfold workers; destruct (Z.ltb_spec 0 (ca_workers args)); lia).
  unfold start_tunneling, client_new, set_sni_names. cbn [cl_config cc_workers].
  rewrite (proj2 (Z.eqb_neq workers 0)) by lia. eexists. split; [reflexivity|].
  split; [done|]. split; [done|]. split; [apply sanitize_accepted; by eapply parse_sni_each_accepts, Hsni|].
  cbn. unfold in_u in Hhop. rewrite Z.ltb_lt.
  destruct (Z.eqb_spec (ca_hop_interval_ms args) 0), (Z.ltb_spec (ca_hop_interval_ms args) 5000); cbn; lia.
Qed.
End client_cli.

(** * From the command line to the server *)

(** An upstream argument: empty, or a printed address. *)
Definition display_upstream (a : option SocketAddr) : string :=
  match a with None => "" | Some a => display_socket_addr a end.

Definition upstream_printable (a : option SocketAddr) : Prop :=
  match a with None => True | Some a => addr_printable a end.

#[export] Instance upstream_printable_dec a : Decision (upstream_printable a).
Proof. destruct a; apply _. Defined.

Lemma parse_upstreams_display a :
  upstream_printable a → parse_upstreams (display_upstream a) = Ok (loopback_if_unspecified <$> a).
Proof. destruct a as [a|]; [|done]. apply parse_upstreams_spec. Qed.

Section server_cli.
Context `{pem : !Pemfile, bc : !Bincode}.

(** The configuration a server started with printed addresses runs under. *)
Definition config_for (args : ServerArgs) (addr : SocketAddr) (tcp udp : option SocketAddr) : ServerConfig :=
  MkServerConfig (display_socket_addr addr) (sa_password args) (sa_cert args) (sa_key args)
    (sa_quic_timeout_ms args) (sa_tcp_timeout_ms args) (sa_udp_timeout_ms args) 0 0 0
    (loopback_if_unspecified <$> tcp) (loopback_if_unspecified <$> udp) false false "" "".

Lemma server_config_of_printed args addr tcp udp :
  upstream_printable tcp → upstream_printable udp →
  server_config_of_args (display_socket_addr addr) (sa_password args) (sa_cert args) (sa_key args)
    (display_upstream tcp) (display_upstream udp)
    (sa_quic_timeout_ms args) (sa_tcp_timeout_ms args) (sa_udp_timeout_ms args) = Ok (config_for args addr tcp udp).
Proof.
  intros Ht Hu. unfold server_config_of_args. pose proof (display_socket_addr_colon addr) as Hc.
  rewrite decide_False by (intros E; by rewrite E in Hc). rewrite Hc. cbn [negb].
  rewrite (parse_upstreams_display tcp) by done. cbn [mbind result_bind].
  by rewrite (parse_upstreams_display udp) by done.
Qed.

(** The errors of loading the certificates: those about a file name it. *)
Definition load_failure (args : ServerArgs) (e : server_error) : Prop :=
  match e with
  | ReadCertFailed path => path = sa_cert args
  | ReadKeyFailed path | UnexpectedKey path => path = sa_key args
  | SelfSignFailed | QuicConfigFailed => True
  | _ => False
  end.

Lemma load_error w args addr tcp udp e :
  load_quinn_server_config w (config_for args addr tcp udp) = LoadFailed e → load_failure args e.
Proof.
  unfold load_quinn_server_config, read_certs_and_key, load_certificates_from_pem, load_private_key_from_pem, ok_or.
  cbn. intros Hl. repeat (case_match; simplify_eq/=; try done).
Qed.

(** C31: What a server started from the command line can end in.  With a listen
    address and default upstreams that are addresses at all (IPv4 or IPv6), none
    of its arguments is rejected.  Either the certificates cannot be loaded: the
    error names the certificate or the key file it is about, or says that no
    certificate could be generated or that TLS does not suit QUIC.  Or the
    certificate does not fit the key and the process panics.  Or the socket cannot
    be opened or does not tell its address: the operating system's error, and no
    more.  Or the server serves the incoming connections under exactly the given
    password, timeouts, listen address and upstreams, an upstream on the
    unspecified IPv4 address meaning the loopback. *)
Theorem cli_server_outcome w args addr tcp udp incs :
  addr_printable addr → upstream_printable tcp → upstream_printable udp →
  sa_addr args = display_socket_addr addr → sa_tcp_upstream args = display_upstream tcp →
  sa_udp_upstream args = display_upstream udp →
  let config := config_for args addr tcp udp in
  match load_quinn_server_config w config, w_open_socket w addr with
  | LoadPanicked, _ => run_server_async w args incs = None
  | LoadFailed e, _ => run_server_async w args incs = Some (Err (ServerFailed e)) ∧ load_failure args e
  | Loaded _, (None | Some None) => run_server_async w args incs = Some (Err (ServerFailed EndpointIoFailed))
  | Loaded _, Some (Some _) =>
      run_server_async w args incs =
      Some (Ok ((serve config incs server_new).1, MkServer config None (serve config incs server_new).2))
  end.
Proof.
  intros Ha Ht Hu E1 E2 E3. cbv zeta. unfold run_server_async. rewrite E1, E2, E3, server_config_of_printed by done.
  unfold bind. cbn [sr_config server_init config_for sc_addr]. rewrite (parse_printable addr) by done.
  fold (config_for args addr tcp udp).
  destruct (load_quinn_server_config w (config_for args addr tcp udp)) as [c|e|] eqn:El; [| |done].
  - destruct (w_open_socket w addr) as [[local|]|]; [|done..]. cbn. by destruct (serve _ _ _).
  - split; [done|]. by eapply load_error.
Qed.
End server_cli.

(** ** Witnesses *)

Definition sample_tcp : list TunnelConfig := sample_tunnels.
Definition sample_udp : list TunnelConfig :=
  [mkTunnelConfig ModeOut (Some (SockV6 1 5353 0 0)) (mkUpstream (Some (SockV4 (ipv4 1 1 1 1) 53)) Udp)].

Definition sample_client_args : ClientArgs :=
  client_args "example.com:3515" "secret" "OUT^127.0.0.1:8080^ANY,IN^10.0.0.255:65535^[::1]:9000" "OUT^[::1]:5353^1.1.1.1:53".

Lemma cli_client_roundtrip_witness : ∃ r,
  run_client sample_server_name 8 sample_client_args = Some (Ok r) ∧ rc_tasks r = tasks_for (sample_tcp ++ sample_udp)%list ∧
  rc_workers r = 8 ∧ rc_migrates r = false.
Proof.
  destruct (cli_client_roundtrip sample_server_name 8 sample_client_args sample_tcp sample_udp [])
    as (r & Hr & Ht & _); try (by apply (bool_decide_unpack _); vm_compute); [done..|].
  exists r. split; [done|]. split; [done|]. by vm_compute in Hr; simplify_eq.
Defined.

#[local] Existing Instance toy_pemfile.

Definition sample_server_args : ServerArgs :=
  MkServerArgs "[::]:3515" "0.0.0.0:8000" "" "secret" "cert" "key" 0 30000 30000 5000 (loglevel_value "D").

Lemma cli_server_outcome_witness :
  ∃ served s, run_server_async (toy_world [1] [1]) sample_server_args [sample_incoming 1 bad_login; sample_incoming 2 good_login]
    = Some (Ok (served, s)) ∧ served.*1 = [2] ∧
  sc_default_tcp_upstream (sr_config s) = Some (SockV4 IPV4_LOCALHOST 8000).
Proof.
  pose proof (cli_server_outcome (toy_world [1] [1]) sample_server_args (SockV6 0 3515 0 0) (Some (SockV4 0 8000)) None
    [sample_incoming 1 bad_login; sample_incoming 2 good_login]) as H.
  repeat (specialize (H ltac:(by apply (bool_decide_unpack _); vm_compute))).
  cbv zeta in H. change (load_quinn_server_config _ _) with (Loaded (toy_loaded 1)) in H. cbn [w_open_socket toy_world] in H.
  eexists _, _. split; [exact H|]. split; [by vm_compute|done].
Defined.

(** The defaults name no mapping, which the client refuses, and no upstream. *)
Example client_defaults_refused :
  run_client sample_server_name 8 (client_args "example.com" "secret" "" "") = Some (Err NoMappings).
Proof. done. Qed.

(** The same server and client, through [main]: two worker threads, and the
    client that knows the password is served. *)
Example main_serves :
  match main sample_server_name 2 (toy_world [1] [1]) (CommandServer sample_server_args) [sample_incoming 2 good_login] with
  | Some (inr (workers, Ok (served, _))) => workers = 2 ∧ served.*1 = [2]
  | _ => False
  end.
Proof. by vm_compute. Qed.
