(* ===== verification/Stats.v ===== *)
(** The numbers the program logs: [human_readable_bytes] of [src/src/lib.rs],
    [CodecStats::summary] of [src/src/codec/mod.rs] and the lines of the traffic
    reports.  Rust's [f64] is written out for the values that occur, positive
    and far from the ends of its range: a product or quotient is the nearest
    number with a 53 bit mantissa, ties to even, and [{:.1}] rounds the exact
    value, ties to even as well. *)
From S2P Require Import Prelude Io AddrText Lru StreamFlow Codec EventBus Client ClientRun.

#[local] Open Scope string_scope.
#[local] Open Scope Z_scope.

(** * Floating point *)

(** Division rounded to the nearest integer, ties to even. *)
Definition div_rne (n d : Z) : Z :=
  let q := n / d in
  let r := n mod d in
  if 2 * r <? d then q
  else if d <? 2 * r then q + 1
  else if Z.even q then q else q + 1.

Lemma div_rne_error n d : 0 < d → Z.abs (2 * (div_rne n d * d - n)) <= d.
Proof.
  intros Hd. unfold div_rne. pose proof (Z.div_mod n d ltac:(lia)) as E. pose proof (Z.mod_pos_bound n d Hd).
  destruct (Z.ltb_spec (2 * (n mod d)) d), (Z.ltb_spec d (2 * (n mod d))), (Z.even (n / d)); nia.
Qed.

Lemma div_rne_exact k d : 0 < d → div_rne (k * d) d = k.
Proof.
  intros Hd. unfold div_rne. rewrite Z.div_mul, Z.mod_mul by lia. destruct (Z.ltb_spec (2 * 0) d); lia.
Qed.

Lemma div_rne_le n d k : 0 < d → n <= k * d → div_rne n d <= k.
Proof. intros Hd Hn. pose proof (div_rne_error n d Hd). nia. Qed.

Lemma div_rne_nonneg n d : 0 < d → 0 <= n → 0 <= div_rne n d.
Proof. intros Hd Hn. pose proof (div_rne_error n d Hd). nia. Qed.

(** The number [f_mant * 2 ^ f_exp]. *)
Record f64 : Type := F64 { f_mant : Z; f_exp : Z }.

(** [2 ^ s], or 1 for a negative [s]. *)
Definition pow2 (s : Z) : Z := 2 ^ Z.max 0 s.

Lemma pow2_pos s : 0 < pow2 s.
Proof. unfold pow2. apply Z.pow_pos_nonneg; lia. Qed.

(** The [f64] nearest to [n / d]: the quotient is scaled to 53 bits. *)
Definition f64_of_ratio (n d : Z) : f64 :=
  if n =? 0 then F64 0 0
  else
    let s := 52 - (Z.log2 n - Z.log2 d) in
    let s := if n * pow2 s <? d * pow2 (- s) * 2 ^ 52 then s + 1 else s in
    F64 (div_rne (n * pow2 s) (d * pow2 (- s))) (- s).

Definition u64_as_f64 (n : Z) : f64 := f64_of_ratio n 1.
Definition f64_div (x y : f64) : f64 :=
  f64_of_ratio (f_mant x * pow2 (f_exp x - f_exp y)) (f_mant y * pow2 (f_exp y - f_exp x)).
Definition f64_mul (x y : f64) : f64 :=
  f64_of_ratio (f_mant x * f_mant y * pow2 (f_exp x + f_exp y)) (pow2 (- (f_exp x + f_exp y))).

(** [{:.1}]: the value in tenths, and its text. *)
Definition tenths (x : f64) : Z := div_rne (10 * f_mant x * pow2 (f_exp x)) (pow2 (- f_exp x)).
Definition display_tenths (t : Z) : string := display_uint (t / 10) +:+ "." +:+ display_uint (t mod 10).
Definition format_1 (x : f64) : string := display_tenths (tenths x).

(** * [human_readable_bytes] *)

Definition KB : Z := 1024.
Definition MB : Z := 1024 * 1024.
Definition GB : Z := 1024 * 1024 * 1024.

Definition human_readable_bytes (bytes : Z) : string :=
  if GB <=? bytes then format_1 (f64_div (u64_as_f64 bytes) (u64_as_f64 GB)) +:+ "GB"
  else if MB <=? bytes then format_1 (f64_div (u64_as_f64 bytes) (u64_as_f64 MB)) +:+ "MB"
  else if KB <=? bytes then format_1 (f64_div (u64_as_f64 bytes) (u64_as_f64 KB)) +:+ "KB"
  else display_uint bytes +:+ "B".

(** * [CodecStats::summary] *)

Definition F64_100 : f64 := u64_as_f64 100.

(** A ratio in percent, 0 if there is nothing to compare with. *)
Definition percent (part whole : Z) : f64 :=
  if 0 <? whole then f64_mul (f64_div (u64_as_f64 part) (u64_as_f64 whole)) F64_100 else F64 0 0.

(** The sums wrap in a release build. *)
Definition summary (cs : CodecStats) : string :=
  let up_ratio := percent (up_compressed cs) (up_raw cs) in
  let down_ratio := percent (down_compressed cs) (down_decompressed cs) in
  let saved := saturating_sub (up_raw cs) (up_compressed cs) in
  let total_in := wrapping_add 64 (up_raw cs) (down_decompressed cs) in
  let total_out := wrapping_add 64 (up_compressed cs) (down_compressed cs) in
  let overall := percent total_out total_in in
  "up_raw=" +:+ human_readable_bytes (up_raw cs) +:+ ", up_compressed=" +:+ human_readable_bytes (up_compressed cs) +:+
  ", up_ratio=" +:+ format_1 up_ratio +:+ "%, down_compressed=" +:+ human_readable_bytes (down_compressed cs) +:+
  ", down_decompressed=" +:+ human_readable_bytes (down_decompressed cs) +:+ ", down_ratio=" +:+ format_1 down_ratio +:+
  "%, saved=" +:+ human_readable_bytes saved +:+ ", overall=" +:+ format_1 overall +:+ "%".

(** * The client's report *)

Definition traffic_line (stat : TunnelStat) : string :=
  "[traffic] down=" +:+ human_readable_bytes (rx_bytes stat) +:+ ", up=" +:+ human_readable_bytes (tx_bytes stat) +:+
  ", down_dgrams=" +:+ display_uint (rx_dgrams stat) +:+ ", up_dgrams=" +:+ display_uint (tx_dgrams stat) +:+
  ", sent_packets=" +:+ display_uint (sent_packets stat) +:+ ", lost_packets=" +:+ display_uint (lost_packets stat) +:+
  ", lost=" +:+ human_readable_bytes (lost_bytes stat) +:+ ", congestion_events=" +:+ display_uint (congestion_events stat) +:+
  ", active_conns=" +:+ display_uint (active_conns stat) +:+ ", rtt_ms=" +:+ display_uint (rtt_ms stat) +:+
  ", cwnd=" +:+ human_readable_bytes (cwnd_bytes stat) +:+ ", mtu=" +:+ display_uint (current_mtu stat) +:+
  ", black_holes=" +:+ display_uint (black_holes stat).

(** One iteration of [report_traffic_data_in_background]: the lines it logs,
    the state, and whether the loop goes on.  [live] are the statistics of the
    connections in the table. *)
Definition report_tick (now : string) (info_enabled : bool) (live : list ConnStats) (cs : CodecStats) (s : State) :
  list string * State * bool :=
  let stat := traffic_report live (st_tunnel_stat s) in
  ((if info_enabled then [traffic_line stat] else []) ++
   (if info_enabled && (0 <? up_raw cs) then ["[traffic] codec total, " +:+ summary cs] else []),
   post_event (tunnel_event_new_without_tunnel (EvStat stat) now) s,
   negb (should_quit s))%list.

Example human_samples :
  human_readable_bytes <$> [0; 1023; 1024; 1280; 1049; 1048575; 1048576; 1610612736; 2 ^ 64 - 1] =
  ["0B"; "1023B"; "1.0KB"; "1.2KB"; "1.0KB"; "1024.0KB"; "1.0MB"; "1.5GB"; "17179869184.0GB"].
Proof. by vm_compute. Qed.

Example percent_samples : (format_1 ∘ uncurry percent) <$> [(1, 3); (3, 1); (5, 0); (0, 7); (1, 1); (1, 2000); (3, 2000)] =
  ["33.3"; "300.0"; "0.0"; "0.0"; "100.0"; "0.1"; "0.1"].
Proof. by vm_compute. Qed.

(** * Accuracy *)

Lemma pow2_ge s : 0 <= s → pow2 s = 2 ^ s ∧ pow2 (- s) = 1.
Proof. intros Hs. unfold pow2. by rewrite Z.max_r, Z.max_l by lia. Qed.
Lemma pow2_lt s : s < 0 → pow2 s = 1 ∧ pow2 (- s) = 2 ^ (- s).
Proof. intros Hs. unfold pow2. by rewrite Z.max_l, Z.max_r by lia. Qed.

Lemma pow2_sub a b : pow2 (a - b) * pow2 b * pow2 (- a) = pow2 (b - a) * pow2 a * pow2 (- b).
Proof. unfold pow2. rewrite <-!Z.pow_add_r by lia. f_equal. lia. Qed.

(** The scale [f64_of_ratio] chooses. *)
Definition scale (n d : Z) : Z :=
  let s := 52 - (Z.log2 n - Z.log2 d) in
  if n * pow2 s <? d * pow2 (- s) * 2 ^ 52 then s + 1 else s.

Lemma f64_of_ratio_eq n d :
  n ≠ 0 → f64_of_ratio n d = F64 (div_rne (n * pow2 (scale n d)) (d * pow2 (- scale n d))) (- scale n d).
Proof. intros Hn. unfold f64_of_ratio. by rewrite (proj2 (Z.eqb_neq n 0)) by done. Qed.

(** The scaled quotient has at least 53 bits. *)
Lemma scale_normal n d : 0 < n → 0 < d → d * pow2 (- scale n d) * 2 ^ 52 <= n * pow2 (scale n d).
Proof.
  intros Hn Hd. unfold scale. set (s := 52 - (Z.log2 n - Z.log2 d)).
  destruct (Z.ltb_spec (n * pow2 s) (d * pow2 (- s) * 2 ^ 52)) as [_|]; [|lia].
  pose proof (Z.log2_spec n Hn) as [Ha _]. pose proof (Z.log2_spec d Hd) as [_ Hb].
  pose proof (Z.log2_nonneg n). pose proof (Z.log2_nonneg d).
  destruct (Z.lt_ge_cases (s + 1) 0) as [Hs|Hs].
  - destruct (pow2_lt (s + 1) Hs) as [-> ->].
    assert (2 ^ Z.log2 n = 2 ^ Z.succ (Z.log2 d) * (2 ^ (- (s + 1)) * 2 ^ 52)) as E
      by (rewrite <-!Z.pow_add_r by lia; f_equal; lia).
    assert (0 < 2 ^ (- (s + 1)) * 2 ^ 52) by (apply Z.mul_pos_pos; apply Z.pow_pos_nonneg; lia). nia.
  - destruct (pow2_ge (s + 1) Hs) as [-> ->].
    assert (2 ^ Z.log2 n * 2 ^ (s + 1) = 2 ^ Z.succ (Z.log2 d) * 2 ^ 52) as E
      by (rewrite <-!Z.pow_add_r by lia; f_equal; lia).
    assert (0 < 2 ^ (s + 1)) by (apply Z.pow_pos_nonneg; lia). nia.
Qed.

(** [x] is exactly [n / d]. *)
Definition f64_is (x : f64) (n d : Z) : Prop := f_mant x * pow2 (f_exp x) * d = n * pow2 (- f_exp x).

(** A quotient that is a 53 bit number over a power of two is not rounded. *)
Lemma f64_of_ratio_exact n d b j :
  0 < b < 2 ^ 53 → 0 <= j → 0 < n → 0 < d → n * 2 ^ j = b * d → f64_is (f64_of_ratio n d) n d.
Proof.
  intros Hb Hj Hn Hd E. rewrite f64_of_ratio_eq by lia. pose proof (scale_normal n d Hn Hd) as Hs.
  set (s := scale n d) in *. assert (0 < 2 ^ j) by (apply Z.pow_pos_nonneg; lia).
  assert (j <= s) as Hjs.
  { apply Z.le_ngt. intros Hlt.
    assert (pow2 (- s) * 2 ^ 52 * 2 ^ j <= b * pow2 s) as Hc.
    { apply (Z.mul_le_mono_pos_l _ _ d); [done|]. apply (Z.mul_le_mono_nonneg_r _ _ (2 ^ j)) in Hs; [|lia].
      replace (d * (b * pow2 s)) with (n * pow2 s * 2 ^ j) by (transitivity (n * 2 ^ j * pow2 s); [ring|rewrite E; ring]).
      by replace (d * (pow2 (- s) * 2 ^ 52 * 2 ^ j)) with (d * pow2 (- s) * 2 ^ 52 * 2 ^ j) by ring. }
    destruct (Z.lt_ge_cases s 0) as [Hs0|Hs0].
    - destruct (pow2_lt s Hs0) as [E1 E2]. rewrite E1, E2 in Hc.
      assert (1 <= 2 ^ (- s - 1)) by (apply Z.lt_pred_le, Z.pow_pos_nonneg; lia).
      assert (2 ^ (- s) = 2 * 2 ^ (- s - 1)) by (rewrite <-Z.pow_succ_r by lia; f_equal; lia). nia.
    - destruct (pow2_ge s Hs0) as [E1 E2]. rewrite E1, E2 in Hc.
      assert (2 ^ j = 2 ^ s * (2 * 2 ^ (j - s - 1))) as Ej
        by (rewrite <-Z.pow_succ_r, <-Z.pow_add_r by lia; f_equal; lia).
      assert (1 <= 2 ^ (j - s - 1)) by (apply Z.lt_pred_le, Z.pow_pos_nonneg; lia).
      assert (0 < 2 ^ s) by (apply Z.pow_pos_nonneg; lia). nia. }
  assert (n * 2 ^ s = b * 2 ^ (s - j) * d) as En.
  { replace s with (j + (s - j)) at 1 by lia. rewrite Z.pow_add_r by lia. nia. }
  destruct (pow2_ge s ltac:(lia)) as [E1 E2]. unfold f64_is. cbn [f_mant f_exp].
  rewrite Z.opp_involutive, E1, E2, !Z.mul_1_r, En, div_rne_exact by done. lia.
Qed.

Lemma u64_as_f64_exact b : 0 < b < 2 ^ 53 → f64_is (u64_as_f64 b) b 1.
Proof. intros Hb. apply (f64_of_ratio_exact b 1 b 0); lia. Qed.

Lemma f64_is_pos x n d : 0 < n → 0 < d → f64_is x n d → 0 < f_mant x.
Proof.
  unfold f64_is. intros Hn Hd E. pose proof (pow2_pos (f_exp x)). pose proof (pow2_pos (- f_exp x)). nia.
Qed.

(** The operands of a quotient of exact numbers. *)
Lemma f64_div_operands x y b u :
  f64_is x b 1 → f64_is y u 1 →
  f_mant x * pow2 (f_exp x - f_exp y) * u = b * (f_mant y * pow2 (f_exp y - f_exp x)).
Proof.
  unfold f64_is. intros Hx Hy. pose proof (pow2_sub (f_exp x) (f_exp y)) as E.
  pose proof (pow2_pos (- f_exp x)). pose proof (pow2_pos (- f_exp y)).
  apply (Z.mul_reg_r _ _ (pow2 (- f_exp x) * pow2 (- f_exp y))); [nia|].
  transitivity (f_mant x * f_mant y * (pow2 (f_exp x - f_exp y) * pow2 (f_exp y) * pow2 (- f_exp x))).
  { transitivity (f_mant x * pow2 (f_exp x - f_exp y) * pow2 (- f_exp x) * (u * pow2 (- f_exp y))); [ring|].
    rewrite <-Hy. ring. }
  rewrite E. transitivity (f_mant x * pow2 (f_exp x) * 1 * f_mant y * pow2 (f_exp y - f_exp x) * pow2 (- f_exp y)); [ring|].
  rewrite Hx. ring.
Qed.

(** The quotient of two numbers, the divisor a power of two, is exact. *)
Lemma f64_div_exact b k :
  0 < b < 2 ^ 53 → 0 <= k < 53 → f64_is (f64_div (u64_as_f64 b) (u64_as_f64 (2 ^ k))) b (2 ^ k).
Proof.
  intros Hb Hk. assert (0 < 2 ^ k) by (apply Z.pow_pos_nonneg; lia).
  assert (2 ^ k < 2 ^ 53) by (apply Z.pow_lt_mono_r; lia).
  pose proof (u64_as_f64_exact b Hb) as Hx. pose proof (u64_as_f64_exact (2 ^ k) ltac:(lia)) as Hy.
  pose proof (f64_is_pos _ b 1 ltac:(lia) ltac:(lia) Hx) as Px.
  pose proof (f64_is_pos _ (2 ^ k) 1 ltac:(lia) ltac:(lia) Hy) as Py.
  pose proof (f64_div_operands _ _ _ _ Hx Hy) as E. unfold f64_div.
  set (x := u64_as_f64 b) in *. set (y := u64_as_f64 (2 ^ k)) in *.
  pose proof (pow2_pos (f_exp x - f_exp y)). pose proof (pow2_pos (f_exp y - f_exp x)).
  set (n := f_mant x * _) in *. set (d := f_mant y * _) in *. assert (0 < n ∧ 0 < d) as [Hn Hd] by (unfold n, d; nia).
  pose proof (f64_of_ratio_exact n d b k Hb ltac:(lia) Hn Hd E) as Hz. unfold f64_is in *.
  apply (Z.mul_reg_r _ _ d); [lia|]. set (z := f64_of_ratio n d) in *.
  transitivity (f_mant z * pow2 (f_exp z) * d * 2 ^ k); [ring|]. rewrite Hz.
  transitivity (n * 2 ^ k * pow2 (- f_exp z)); [ring|]. rewrite E. ring.
Qed.

(** Printing an exact number is off by at most half a tenth. *)
Lemma tenths_error x n d : 0 < d → f64_is x n d → Z.abs (2 * (tenths x * d - 10 * n)) <= d.
Proof.
  unfold f64_is, tenths. intros Hd E. pose proof (pow2_pos (- f_exp x)) as Hp.
  pose proof (div_rne_error (10 * f_mant x * pow2 (f_exp x)) (pow2 (- f_exp x)) Hp) as He.
  set (t := div_rne _ _) in *.
  apply (Z.mul_le_mono_pos_r _ _ (pow2 (- f_exp x))); [done|].
  apply (Z.mul_le_mono_nonneg_r _ _ d) in He; [|lia].
  rewrite <-(Z.abs_eq d) in He at 1 by lia. rewrite <-(Z.abs_eq (pow2 (- f_exp x))) at 1 by lia.
  rewrite <-Z.abs_mul in He |- *.
  replace (2 * (t * d - 10 * n) * pow2 (- f_exp x)) with
    (2 * (t * pow2 (- f_exp x) - 10 * f_mant x * pow2 (f_exp x)) * d); [lia|].
  transitivity (2 * t * d * pow2 (- f_exp x) - 20 * (f_mant x * pow2 (f_exp x) * d)); [ring|]. rewrite E. ring.
Qed.

(** A quotient of at most [k], for a small [k], stays so when rounded. *)
Lemma f64_of_ratio_le n d k :
  0 <= n → 0 < d → 0 < k < 2 ^ 50 → n <= k * d →
  let x := f64_of_ratio n d in 0 <= f_mant x ∧ f_exp x <= 0 ∧ f_mant x <= k * pow2 (- f_exp x).
Proof.
  intros Hn Hd Hk Hle. cbv zeta. destruct (Z.eq_dec n 0) as [->|Hn0].
  { change (f64_of_ratio 0 d) with (F64 0 0). cbn [f_mant f_exp]. change (pow2 (- 0)) with 1. lia. }
  rewrite f64_of_ratio_eq by done. cbn [f_mant f_exp]. rewrite Z.opp_involutive.
  assert (0 <= scale n d) as Hs.
  { assert (Z.log2 n <= Z.log2 d + 51).
    { transitivity (Z.log2 (2 ^ 50 * d)); [apply Z.log2_le_mono; nia|].
      rewrite Z.mul_comm, Z.log2_mul_pow2 by lia. lia. }
    unfold scale. case_match; lia. }
  destruct (pow2_ge _ Hs) as [-> ->]. rewrite Z.mul_1_r. split_and!; [apply div_rne_nonneg; [done|]|lia|apply div_rne_le; [done|]].
  - assert (0 < 2 ^ scale n d) by (apply Z.pow_pos_nonneg; lia). nia.
  - assert (0 < 2 ^ scale n d) by (apply Z.pow_pos_nonneg; lia). nia.
Qed.

Lemma percent_le part whole :
  0 <= part <= whole → whole < 2 ^ 53 → 0 <= tenths (percent part whole) <= 1000.
Proof.
  intros Hp Hw. unfold percent. destruct (Z.ltb_spec 0 whole) as [Hpos|]; [|by vm_compute].
  assert (let q := f64_div (u64_as_f64 part) (u64_as_f64 whole) in
          0 <= f_mant q ∧ f_exp q <= 0 ∧ f_mant q <= 1 * pow2 (- f_exp q)) as (Hq1 & Hq2 & Hq3).
  { pose proof (u64_as_f64_exact whole ltac:(lia)) as Hy.
    pose proof (f64_is_pos _ whole 1 Hpos ltac:(lia) Hy) as Py. unfold f64_div.
    apply f64_of_ratio_le; [| |lia|].
    - destruct (Z.eq_dec part 0) as [->|]; [by cbn|].
      pose proof (f64_is_pos _ part 1 ltac:(lia) ltac:(lia) (u64_as_f64_exact part ltac:(lia))).
      pose proof (pow2_pos (f_exp (u64_as_f64 part) - f_exp (u64_as_f64 whole))). nia.
    - pose proof (pow2_pos (f_exp (u64_as_f64 whole) - f_exp (u64_as_f64 part))). nia.
    - pose proof (pow2_pos (f_exp (u64_as_f64 whole) - f_exp (u64_as_f64 part))).
      destruct (Z.eq_dec part 0) as [->|]; [change (f_mant (u64_as_f64 0)) with 0; nia|].
      pose proof (f64_div_operands _ _ _ _ (u64_as_f64_exact part ltac:(lia)) Hy) as E. nia. }
  set (q := f64_div _ _) in *. change F64_100 with (F64 (100 * 2 ^ 46) (-46)). unfold f64_mul. cbn [f_mant f_exp].
  destruct (pow2_lt (f_exp q + -46) ltac:(lia)) as [-> ->].
  assert (0 < 2 ^ (- (f_exp q + -46))) by (apply Z.pow_pos_nonneg; lia).
  assert (2 ^ (- (f_exp q + -46)) = pow2 (- f_exp q) * 2 ^ 46) as E46.
  { destruct (pow2_ge (- f_exp q) ltac:(lia)) as [-> _]. rewrite <-Z.pow_add_r by lia. f_equal. lia. }
  edestruct (f64_of_ratio_le (f_mant q * (100 * 2 ^ 46) * 1) (2 ^ (- (f_exp q + -46))) 100) as (H1 & H2 & H3); [lia|done|lia|lia|].
  set (r := f64_of_ratio _ _) in *. unfold tenths. pose proof (pow2_pos (- f_exp r)).
  destruct (pow2_ge (- f_exp r) ltac:(lia)) as [_ E1]. rewrite Z.opp_involutive in E1. rewrite E1.
  split; [apply div_rne_nonneg|apply div_rne_le]; lia.
Qed.

(** The units of [human_readable_bytes]. *)
Definition units : list (Z * string) := [(KB, "KB"); (MB, "MB"); (GB, "GB")].

(** C36: The logged figures are right to their last digit.  A byte count below
    2^53 (eight petabytes; beyond, the conversion to [f64] itself rounds) is
    printed either as it is or in a unit that it reaches, and then the printed
    number of tenths differs from the true value by at most half a tenth of the
    unit; and a compression ratio is printed between 0.0% and 100.0% whenever the
    compressed side is not larger, in spite of the two roundings of the
    division and the multiplication. *)
Theorem stats_accurate :
  (∀ bytes, 0 <= bytes < 2 ^ 53 →
     (bytes < KB ∧ human_readable_bytes bytes = display_uint bytes +:+ "B") ∨
     ∃ unit name t, (unit, name) ∈ units ∧ unit <= bytes ∧
       human_readable_bytes bytes = display_tenths t +:+ name ∧ Z.abs (2 * (t * unit - 10 * bytes)) <= unit) ∧
  (∀ part whole, 0 <= part <= whole → whole < 2 ^ 53 → 0 <= tenths (percent part whole) <= 1000).
Proof.
  split; [|exact percent_le]. intros bytes Hb. unfold human_readable_bytes.
  assert (∀ k name, 0 <= k < 53 → (2 ^ k, name) ∈ units → 2 ^ k <= bytes →
    ∃ unit name' t, (unit, name') ∈ units ∧ unit <= bytes ∧
      format_1 (f64_div (u64_as_f64 bytes) (u64_as_f64 (2 ^ k))) +:+ name = display_tenths t +:+ name' ∧
      Z.abs (2 * (t * unit - 10 * bytes)) <= unit) as Hunit.
  { intros k name Hk Hin Hle. assert (0 < 2 ^ k) by (apply Z.pow_pos_nonneg; lia).
    exists (2 ^ k), name, (tenths (f64_div (u64_as_f64 bytes) (u64_as_f64 (2 ^ k)))). split; [done|]. split; [done|].
    split; [done|]. apply tenths_error; [done|]. apply f64_div_exact; lia. }
  destruct (Z.leb_spec GB bytes); [right; apply (Hunit 30); [lia|by apply (bool_decide_unpack _); vm_compute|done]|].
  destruct (Z.leb_spec MB bytes); [right; apply (Hunit 20); [lia|by apply (bool_decide_unpack _); vm_compute|done]|].
  destruct (Z.leb_spec KB bytes); [right; apply (Hunit 10); [lia|by apply (bool_decide_unpack _); vm_compute|done]|by left].
Qed.

Lemma stats_accurate_witness :
  human_readable_bytes 1280 = "1.2KB" ∧
  (∃ unit name t, (unit, name) ∈ units ∧ unit <= 1280 ∧ human_readable_bytes 1280 = display_tenths t +:+ name ∧
     Z.abs (2 * (t * unit - 10 * 1280)) <= unit) ∧
  0 <= tenths (percent 1 3) <= 1000.
Proof.
  destruct stats_accurate as [H1 H2]. split; [by vm_compute|]. split; [|apply H2; lia].
  destruct (H1 1280) as [[Hlt _]|H]; [lia|exfalso; vm_compute in Hlt; discriminate|exact H].
Defined.
