(* ===== verification/Android.v ===== *)
(** The Android bindings of [src/src/lib.rs] ([mod android]): a client handed to
    Java as a number, the address of the client on the heap.

    Addresses are typed here: a heap cell remembers what was allocated in it,
    and a function that uses an address as something else, or after it was freed,
    is undefined ([None]).  The functions of [jni] are represented by what they
    are called with. *)
From S2P Require Import Prelude Io Net AddrText HttpReader Config EventBus EventJson Lru StreamFlow Codec Client ClientRun ClientTunnel Cli.

#[local] Open Scope string_scope.
#[local] Open Scope Z_scope.

(** [convert_jstring]: [None] is Java's null. *)
Definition convert_jstring (jstr : option string) : string := default "" jstr.

(** [nativeInitLogger]: the filter it installs. *)
Definition native_init_logger (jlog_level : option string) : string :=
  log_filter (loglevel_value (convert_jstring jlog_level)).

(** What an address may hold. *)
Inductive cell : Type :=
| BoxClient (c : Client)               (** [Box<Client>] *)
| ArcMutexClient (c : Client).         (** [Arc<Mutex<Client>>] *)

(** The heap, and the clients [start_tunneling] was called on. *)
Record native : Type := Native { nt_heap : gmap Z cell; nt_running : list running_client }.

Definition native_init : native := Native ∅ [].

Record native_create_args : Type := NativeCreateArgs {
  j_server_addr : option string;
  j_tcp_mappings : option string;
  j_udp_mappings : option string;
  j_dot_server : option string;
  j_dns_server : option string;
  j_sni_names : option string;
  j_password : option string;
  j_cert_file_path : option string;
  j_workers : Z;                       (** a [jint] is 32 bits wide and signed *)
  j_wait_before_retry_ms : Z;
  j_quic_timeout_ms : Z;
  j_hop_timeout_ms : Z
}.

Section android.
Context (parse_server_name : string → option server_name) (num_cpus : Z).

(** [ClientConfig::create] takes seven arguments more than [nativeCreate]
    passes. *)
Context (zstd http : bool) (zstd_level zstd_window_log : Z) (zstd_dict : string)
  (zstd_pair_ttl_secs zstd_flush_interval_ms : Z).

(** [nativeCreate]; [ptr] is the address the allocator gives.  An [as u64] of a
    negative [jint] wraps. *)
Definition native_create (args : native_create_args) (ptr : Z) (s : native) : Z * native :=
  match create parse_server_name num_cpus
          (convert_jstring (j_server_addr args)) (convert_jstring (j_password args))
          (convert_jstring (j_cert_file_path args)) (convert_jstring (j_tcp_mappings args))
          (convert_jstring (j_udp_mappings args)) (convert_jstring (j_dot_server args))
          (convert_jstring (j_dns_server args)) (convert_jstring (j_sni_names args))
          (wrap 64 (j_workers args)) (wrap 64 (j_wait_before_retry_ms args)) (wrap 64 (j_quic_timeout_ms args))
          0 0 0 0 (wrap 64 (j_hop_timeout_ms args))
          zstd http zstd_level zstd_window_log zstd_dict zstd_pair_ttl_secs zstd_flush_interval_ms with
  | Ok config => (ptr, Native (<[ptr := BoxClient (client_new parse_server_name config)]> (nt_heap s)) (nt_running s))
  | Err _ => (0, s)
  end.

(** [nativeStop]: the box is dropped, the client is not told to stop. *)
Definition native_stop (client_ptr : Z) (s : native) : option native :=
  if decide (client_ptr = 0) then Some s
  else match nt_heap s !! client_ptr with
       | Some (BoxClient _) => Some (Native (delete client_ptr (nt_heap s)) (nt_running s))
       | _ => None
       end.

(** [&mut *(client_ptr as *mut Arc<Mutex<Client>>)], locked. *)
Definition lock_client (client_ptr : Z) (s : native) : option Client :=
  match nt_heap s !! client_ptr with Some (ArcMutexClient c) => Some c | _ => None end.

(** [nativeStartTunnelling] with the thread it spawns. *)
Definition native_start_tunnelling (client_ptr : Z) (s : native) : option native :=
  if decide (client_ptr = 0) then Some s
  else c ← lock_client client_ptr s;
       running ← start_tunneling c;
       Some (Native (nt_heap s) (running :: nt_running s)).

Definition native_get_state (client_ptr : Z) (s : native) : option string :=
  if decide (client_ptr = 0) then Some ""
  else display_client_state ∘ get_state ∘ cl_state <$> lock_client client_ptr s.

(** [nativeSetEnableOnInfoReport]: registers a listener whose thread passes the
    JSON of every event to Java's [onInfo]. *)
Definition native_set_enable_on_info_report (client_ptr : Z) (enable : bool) (s : native) : option native :=
  if decide (client_ptr = 0) then Some s
  else c ← lock_client client_ptr s;
       if enable && negb (has_event_listeners (cl_state c)) then
         let st := (register_for_events (cl_state c)).2 in
         Some (Native (<[client_ptr := ArcMutexClient (MkClient (cl_config c) st (cl_traffic_reporter_once c)
                          (cl_next_tunnel_id c) (cl_sni_rotation c) (cl_codec_stats c))]> (nt_heap s)) (nt_running s))
       else Some s.

(** The thread of the listener: what [onInfo] is called with; [new_string] makes
    a string of Java, which may fail. *)
Definition on_info `{SerdeJson} {J} (new_string : string → option J) (events : list TunnelEvent) : list J :=
  omap (λ e, match to_json e with Ok json => new_string json | Err _ => None end) events.

(** * Calls from Java *)
Inductive native_call : Type :=
| CallCreate (args : native_create_args) (ptr : Z)
| CallStop (p : Z)
| CallStart (p : Z)
| CallGetState (p : Z)
| CallSetEnable (p : Z) (enable : bool).

Definition native_exec_call (c : native_call) (s : native) : option native :=
  match c with
  | CallCreate args ptr => if decide (ptr = 0 ∨ is_Some (nt_heap s !! ptr)) then None else Some (native_create args ptr s).2
  | CallStop p => native_stop p s
  | CallStart p => native_start_tunnelling p s
  | CallGetState p => (λ _, s) <$> native_get_state p s
  | CallSetEnable p enable => native_set_enable_on_info_report p enable s
  end.

Fixpoint native_exec (cs : list native_call) (s : native) : option native :=
  match cs with
  | [] => Some s
  | c :: cs' => s ← native_exec_call c s; native_exec cs' s
  end.

(** Only [nativeCreate] allocates, and it allocates boxes. *)
Definition boxes_only (s : native) : Prop :=
  nt_running s = [] ∧ ∀ p c, nt_heap s !! p = Some c → ∃ client, c = BoxClient client.

Lemma boxes_only_lock s p : boxes_only s → lock_client p s = None.
Proof.
  intros [_ Hs]. unfold lock_client. destruct (nt_heap s !! p) as [c|] eqn:Hp; [|done].
  by destruct (Hs p c Hp) as [client ->].
Qed.

Lemma native_exec_call_boxes c s s' : boxes_only s → native_exec_call c s = Some s' → boxes_only s'.
Proof.
  intros Hs. pose proof Hs as [Hr Hb].
  destruct c as [args ptr|p|p|p|p enable]; cbn [native_exec_call].
  - case_decide; [done|]. intros [= <-]. unfold native_create. case_match; [|done]. split; [done|].
    intros q cl. cbn [snd nt_heap]. rewrite lookup_insert_Some. intros [[_ <-]|[_ Hq]]; [by eexists|by eapply Hb].
  - unfold native_stop. case_decide; [by intros [= <-]|]. repeat case_match; try done. intros [= <-].
    split; [done|]. intros q cl. cbn [nt_heap]. rewrite lookup_delete_Some. intros [_ Hq]. by eapply Hb.
  - unfold native_start_tunnelling. case_decide; [by intros [= <-]|]. by rewrite boxes_only_lock.
  - unfold native_get_state. case_decide; [by intros [= <-]|]. by rewrite boxes_only_lock.
  - unfold native_set_enable_on_info_report. case_decide; [by intros [= <-]|]. by rewrite boxes_only_lock.
Qed.

Lemma native_exec_boxes cs s s' : boxes_only s → native_exec cs s = Some s' → boxes_only s'.
Proof.
  revert s. induction cs as [|c cs IH]; intros s Hs; cbn [native_exec]; [by intros [= <-]|].
  destruct (native_exec_call c s) as [s1|] eqn:Hc; [|done]. cbn [mbind option_bind].
  apply IH. by eapply native_exec_call_boxes.
Qed.

(** The handle Java gets is not what the other functions take it for.
    [nativeCreate] hands out the address of a client; [nativeStartTunnelling],
    [nativeGetState] and [nativeSetEnableOnInfoReport] read a shared, locked
    client there.  Whatever was called before, calling any of them with a handle
    that is not null is undefined, so no tunnel is ever started; only [nativeStop]
    agrees with [nativeCreate]. *)
Theorem native_handles_confused cs s p enable :
  native_exec cs native_init = Some s → p ≠ 0 →
  native_start_tunnelling p s = None ∧ native_get_state p s = None ∧
  native_set_enable_on_info_report p enable s = None ∧ nt_running s = [] ∧
  (is_Some (nt_heap s !! p) → is_Some (native_stop p s)).
Proof.
  intros He Hp. assert (Hs : boxes_only s) by (eapply native_exec_boxes; [|done]; done).
  unfold native_start_tunnelling, native_get_state, native_set_enable_on_info_report, native_stop.
  rewrite !decide_False, !boxes_only_lock by done. split_and!; [done..|apply Hs|].
  intros [c Hc]. rewrite Hc. by destruct (proj2 Hs p c Hc) as [client ->].
Qed.
End android.

(** ** Witness *)
Definition sample_native_args : native_create_args :=
  NativeCreateArgs (Some "10.0.0.1:443") (Some "OUT^8000^ANY") None None None None (Some "secret") None 0 5000 0 (-1).
Definition sample_native : option native :=
  native_exec sample_server_name 8 false false 9 24 "" 0 0 [CallCreate sample_native_args 4096] native_init.

Lemma native_handles_confused_witness :
  ∃ s, sample_native = Some s ∧ native_start_tunnelling 4096 s = None ∧ is_Some (native_stop 4096 s).
Proof.
  destruct sample_native as [s|] eqn:E; [|by vm_compute in E]. exists s. split; [done|].
  destruct (native_handles_confused sample_server_name 8 false false 9 24 "" 0 0
    [CallCreate sample_native_args 4096] s 4096 true E) as (Hstart & _ & _ & _ & Hstop); [done|].
  split; [exact Hstart|]. apply Hstop. vm_compute in E. injection E as <-. eexists. reflexivity.
Defined.
